(* ===== verification/_CoqProject ===== *)
-Q . S2P
Prelude.v
GoState.v
Programs.v
GoErr.v
Api.v
GoStr.v
Utf8.v
Engine.v
HARole.v
Replication.v
HAStatus.v
RollingUpdate.v
BackupTarget.v
OpStore.v
StoreRecords.v
ManifestURI.v
Paths.v
Manifest.v
ImClient.v
BackupController.v
BackupSafety.v
BackupWaits.v
HABootstrap.v
Requests.v
Recovery.v
RequestSafety.v
DatabasesTxt.v
Artifact.v
ArtifactSafety.v
BootstrapSafety.v
BootstrapRuns.v
RecoverySafety.v
RecoveryRuns.v
BootstrapExamples.v
Lifecycle.v
LifecycleSafety.v
Watchdog.v
ManagerOps.v
Ownership.v
OwnershipLogic.v
OwnershipSafety.v
OwnershipExamples.v
Staging.v
StagingLogic.v
StagingActions.v
StagingSafety.v
BackupRun.v
BackupExamples.v
Tokens.v
TokenSafety.v
Transitions.v
Placement.v
Broker.v
ClusterReconcile.v
ClusterSteps.v
ClusterSafety.v
