(* ===== verification/Prelude.v ===== *)
(** * A verification of the CUBRID Kubernetes operator

    The operator (src/internal/controller) runs CUBRID clusters on Kubernetes.
    A process in every database Pod, the Instance Manager
    (src/internal/instancemanager), runs CUBRID's programs and keeps a durable
    record of every operation.  The operator probes the Instance Managers of a
    cluster, judges their answers, writes what it may conclude to the status
    of the CubridCluster, and starts and polls operations on the members:
    backups, restores and the creation of a database.  Both sides are built
    so that no failure, restart, stale read or lost write makes the operator
    act on a role it did not observe, run an operation twice or lose data.

    ** Shared files

    - Prelude.v: the notations of Go's comparisons in [go_scope], tactics
      ([bool_simpl]) and lemmas that every file shares.  GoState.v: the state
      monad of the reconcile handlers and [keeps], the relation between the
      states before and after a handler, with its automation.  GoErr.v: the
      monad of a function that returns an error.  Programs.v: programs of
      atomic actions that run beside each other or are cut off.
    - Api.v: the types of src/api/v1alpha1 and the condition helpers of
      apimachinery, which are the class [ConditionOps] with their documented
      behaviour in [ConditionLaws] and an instance, [SliceConditions].
    - GoStr.v, Utf8.v, Paths.v: the parts of the packages strings, utf8, path
      and filepath that the source uses.

    ** The operator

    - Engine.v: engine versions and their series (cli.go, update.go,
      restore.go, bootstrap.go).
    - HARole.v: the answer of an Instance Manager, its judgement
      (roleprober.go) and the resolution of the primary (haresolve.go).
      Replication.v: stalls, the store of applier positions and the condition
      ReplicationHealthy (replication.go, applierpositions.go).  HAStatus.v:
      the pass of haresolve.go that writes roles and conditions to the status,
      and when a status is written.
    - RollingUpdate.v: the planner, the engine guard and the step that deletes
      a Pod (rollingplan.go, update.go).
    - Tokens.v: the token Secret of a cluster and its rotation
      (cubridcluster_controller.go, childownership.go), with the manager's
      authentication (server.go).  TokenSafety.v holds its theorem.
    - Transitions.v, Placement.v, Broker.v: what is reported of a change of
      the status (transitions.go), of where the members run (placement.go) and
      of the Brokers (broker.go).
    - ClusterReconcile.v: the reconcile of a CubridCluster, which composes the
      parts above (cubridcluster_controller.go).  ClusterSteps.v: what its
      steps leave of the object and say in its conditions.  ClusterSafety.v
      holds its theorems.
    - ImClient.v: the client of the Instance Manager (imclient.go): tokens,
      retries, the classification of answers, lookups by idempotency key.
    - BackupTarget.v: the member a backup is taken on (backuptarget.go).
      BackupController.v: the reconcile of a CubridBackup
      (cubridbackup_controller.go), over an API server whose reads can be
      stale and whose writes can conflict, fail or be lost.  BackupSafety.v
      and BackupWaits.v hold its theorems.
    - HABootstrap.v: the creation of an HA cluster's first database and its
      copy to the other members (habootstrap.go).  Recovery.v: the recovery of
      a cluster from a backup (bootstrap.go).  BootstrapSafety.v and
      RecoverySafety.v hold what one reconcile of them does, BootstrapRuns.v
      and RecoveryRuns.v what holds over every sequence of reconciles, and
      BootstrapExamples.v runs of both.

    ** The Instance Manager

    - OpStore.v: the operation store (opstore.go, operation.go) over a file
      system whose writes can fail and whose records can be unreadable, with
      restarts.  StoreRecords.v: what its calls leave of a record.
    - Requests.v: the checks of a request (server.go, restore.go, upload.go).
      RequestSafety.v: what they accept, and that they accept what the
      operator sends.
    - ManifestURI.v, Manifest.v, Artifact.v: the keys and manifest of a backup
      artifact, its upload, verification and staging over an object store
      (upload.go, manifest.go, verify.go, objectstore.go, restore.go).
      ArtifactSafety.v holds their theorems.
    - Lifecycle.v: which operations are admitted, and the orderly stop
      (operations.go, the command of main.go).  LifecycleSafety.v holds its
      theorems.  Watchdog.v: the watch over CUBRID's processes (watchdog.go).
    - ManagerOps.v, DatabasesTxt.v, Ownership.v: what a restore and an HA
      bootstrap do to the directory of a database, its ownership marker and
      databases.txt (ownership.go, durable.go, restore.go, server.go,
      habootstrap.go).  OwnershipLogic.v, OwnershipSafety.v and
      OwnershipExamples.v hold their logic, theorem and runs.
    - Staging.v: backups on a member and their staging directories
      (staging.go, stagingwriter.go, server.go).  StagingLogic.v,
      StagingActions.v, StagingSafety.v, BackupRun.v and BackupExamples.v hold
      their logic, theorems and runs.

    Names are those of the source; a field is prefixed with a short form of
    its struct ([bs_Phase] is [BootstrapStatus.Phase]).  A handler that changes
    the object it is given is a function in the state monad, or a function
    that returns the changed object; an error is a value of a sum type, with
    the causes [errors.Is] finds.  What runs beside other threads or can be cut
    off by a crash is a program of atomic actions.  Where the source loops, the
    function is structurally recursive on what it loops over.  Fuel is used
    twice: [TrimSpace] has the length of the string, which is enough because
    every step removes a byte, and the two waits of a backup have the number of
    rounds that their bound allows, which [backup_waits_bounded] proves to be
    enough.  Integers are in [Z]; the counters of the status that can be
    incremented are wrapped at 32 bits ([wrap32]), times are nanoseconds and
    durations saturate as [Sub] does.

    ** What the theorems show

    - Roles: a primary is resolved exactly on authoritative evidence of every
      member with one master, and the loop that does it agrees with a
      declarative definition; lost evidence is reported in the same pass.
    - The cluster: Ready is True only when the name, the child objects, the
      members, the recovery and the masters observed in that pass allow it;
      routing is newly claimed only for a primary that was observed in that
      pass, and stays as it was while a conflict of the Brokers is young or
      their namespace is being deleted; the Events of the changes of the
      status are those of the statuses that were stored, each once and in
      order; a transition is silent exactly when nothing that is reported
      changed.
    - Tokens: in every interleaving of reconciles and restarts of members, the
      operator holds a token that each running member accepts.
    - Updates: a step deletes at most one Pod, never the primary's, and only
      when every gate holds.
    - Backups: over every sequence of reconciles a backup is started on one
      eligible member with one key, its stored statuses refine a lifecycle
      that only goes forward, and each of its waits is bounded.
    - Bootstrap and recovery: a member is restored only from the master it is
      recorded to be copied from, counts as seeded only after its restore
      completed, and the record stays sound over every sequence of reconciles;
      a recovery restores the object its URI names and is complete only
      after its own restore was read as completed and every other member was
      restored by a copy.
    - Operations: keys are unique and a database has at most one running
      operation over every sequence of store operations, restarts included; a
      repeated start answers the operation it started; no end is answered
      before it is on record.
    - The client: a request is carried out at most once, and each answer is
      classified by what it shows.  The requests of the operator pass the
      checks of the manager, which keep every path below its own directories.
    - The manager's lifecycle: a stop comes after every start of CUBRID, a
      recorded stop that nobody heard is honoured by the next manager, and no
      interleaving of the threads deadlocks.
    - Data: over every sequence of restores, bootstraps, crashes and power
      losses the manager never removes a directory that was there before it or
      that CUBRID was started on, as long as no sync of a directory fails.
      Two runs in OwnershipExamples.v show a failed sync and a killed undo,
      and what they leave.
    - Backups on a member: the directory of a backupdb that did not succeed is
      removed only after a look found no process that holds a file in it, what
      is uploaded is what the operation's own backupdb wrote, and the manifest
      states the role and the engine that were read.
    - Artifacts: the manifest is published last and only what it lists is
      staged, what was uploaded is staged byte for byte, and verification
      accepts what a restore stages.

    ** Parameters and assumptions

    Code outside the repository is an argument of the definitions that use it:
    the condition helpers, DeepEqual, the stored form of a time or a status
    ([asStored]; it keeps the statuses of the conditions, the phase of a
    recovery and the primary), the file system's outcomes, fresh identifiers,
    the HTTP transport, JSON (a manifest that was written is read back), the
    object store (the laws of a bucket: a Put that succeeds may still have kept
    less than was announced, which a Stat then shows), the quoting of strings, the format of
    times, the check of a DNS label, SHA-256 (two texts with one digest are the
    same where a theorem says so) and what the members, the API server and the
    processes of a node answer.  The theorems that assume something of them
    are applied to concrete functions.

    On the volume: a directory whose changes were not synced comes back from a
    power loss as it was at some moment since its last sync.  The theorem on
    data assumes that no sync of a directory fails, and that requests run one
    after another; in the code the next operation on a database can be
    admitted while a restore that is recorded as completed still clears its
    marker.  The records of operations are on the volume once they are written:
    a power loss takes none of them back, and a record that was removed before
    a sync failed does not come back.  When the end of an operation cannot be
    written, [Get] answers that without the cause it wraps.

    In the staging directories, a process that a backupdb left behind when it
    failed or was cut off may open a file at any time, also after a look for
    such processes; a backupdb that succeeded leaves none behind.  The staging
    directory of a restore is a map from the keys of a manifest to files, and
    the disk decides for each whether it is taken: a key that lies below
    another listed one is a file the disk does not take.  [readManifest] is
    the beginning that VerifyArtifact and stageArtifact share; the source
    writes it out in both.

    New operation IDs and tokens are unused.  A node does not read a version of
    a Secret that is older than the one it read before.

    ** Not modelled

    Log lines and metrics; the construction of Kubernetes objects (Pods,
    Services, policies, budgets, the Brokers' objects and configuration), whose
    writes are answers of the surroundings of a reconcile; watches and wiring
    of the two processes; in the Instance Manager the routing of requests and
    the decoding of their bodies, the S3 client, readiness, the lock of the
    volume, the running of CUBRID's programs and the regular expressions that
    read their output, and the synchronous backup of a manager without an
    operation store. *)
From stdpp Require Import prelude gmap strings pretty list.
From Stdlib Require Import Lia ZArith.

(** ** Notations

    Go's comparison operators on comparable types, as boolean tests.  They
    live in a scope of their own. *)
Declare Scope go_scope.
Delimit Scope go_scope with go.
Notation "x == y" := (bool_decide (x = y)) (at level 70, no associativity) : go_scope.
Notation "x != y" := (negb (bool_decide (x = y))) (at level 70, no associativity) : go_scope.
#[global] Open Scope go_scope.
#[global] Open Scope Z_scope.

(** [is_nil] and [non_nil] are the tests [p == nil] and [p != nil] of a Go
    pointer. *)
Definition is_nil {A} (p : option A) : bool := match p with None => true | Some _ => false end.
Definition non_nil {A} (p : option A) : bool := negb (is_nil p).

(** ** Tactics *)

(** Breaks boolean connectives and decided propositions in the hypotheses. *)
Ltac bool_simpl :=
  repeat match goal with
  | H : _ && _ = true |- _ => apply andb_true_iff in H; destruct H
  | H : _ || _ = false |- _ => apply orb_false_iff in H; destruct H
  | H : negb _ = true |- _ => apply negb_true_iff in H
  | H : negb _ = false |- _ => apply negb_false_iff in H
  | H : bool_decide _ = true |- _ => apply bool_decide_eq_true in H
  | H : bool_decide _ = false |- _ => apply bool_decide_eq_false in H
  | H : (_ <=? _) = true |- _ => apply Z.leb_le in H
  | H : (_ <=? _) = false |- _ => apply Z.leb_gt in H
  | H : (_ <? _) = true |- _ => apply Z.ltb_lt in H
  | H : (_ <? _) = false |- _ => apply Z.ltb_ge in H
  | H : (_ >? _) = true |- _ => rewrite Z.gtb_ltb in H
  | H : (_ >? _) = false |- _ => rewrite Z.gtb_ltb in H
  | H : (_ >=? _) = true |- _ => rewrite Z.geb_leb in H
  | H : (_ >=? _) = false |- _ => rewrite Z.geb_leb in H
  | H : is_true _ |- _ => unfold is_true in H
  end.

(** Case analysis on a boolean test or match of the goal or a hypothesis,
    tests of the form [if] first. *)
Ltac case_test :=
  match goal with
  | |- context [if ?b then _ else _] => destruct b eqn:?
  | |- context [match ?x with _ => _ end] => destruct x eqn:?
  end.

Ltac case_test_in H :=
  match type of H with
  | context [if ?b then _ else _] => destruct b eqn:?
  | context [match ?x with _ => _ end] => destruct x eqn:?
  end.

(** Decides a boolean test of the goal from an arithmetic or propositional
    fact: leaves the fact as the goal. *)
Ltac btrue :=
  match goal with
  | |- bool_decide _ = true => apply bool_decide_eq_true
  | |- bool_decide _ = false => apply bool_decide_eq_false
  | |- negb _ = true => apply negb_true_iff
  | |- negb _ = false => apply negb_false_iff
  | |- (_ <=? _) = true => apply Z.leb_le
  | |- (_ <=? _) = false => apply Z.leb_gt
  | |- (_ <? _) = true => apply Z.ltb_lt
  | |- (_ <? _) = false => apply Z.ltb_ge
  end.

(** ** Machine integers

    [wrap64] is the value of an int64 after an operation on the integers. *)
Definition wrap64 (x : Z) : Z := (x + 2 ^ 63) mod 2 ^ 64 - 2 ^ 63.
Definition int64_range (x : Z) : Prop := - 2 ^ 63 <= x < 2 ^ 63.

Lemma wrap64_id x : int64_range x -> wrap64 x = x.
Proof. intros H. unfold wrap64, int64_range in *. rewrite Z.mod_small; lia. Qed.

Lemma wrap64_range x : int64_range (wrap64 x).
Proof.
  unfold wrap64, int64_range.
  pose proof (Z.mod_pos_bound (x + 2 ^ 63) (2 ^ 64) ltac:(lia)). lia.
Qed.

(** ** Time

    A [time.Time] is the number of nanoseconds since Go's zero time, so that
    [IsZero] is the test for 0; a [time.Duration] is a number of nanoseconds.
    [Time.Sub] saturates at the ends of the int64 range. *)
Notation Time := Z (only parsing).
Notation Duration := Z (only parsing).

Definition Second : Duration := 1000000000.
Definition Minute : Duration := 60 * Second.
Definition minDuration : Duration := - 2 ^ 63.
Definition maxDuration : Duration := 2 ^ 63 - 1.

Definition IsZero (t : Time) : bool := t == 0.
Definition Sub (t u : Time) : Duration := Z.max minDuration (Z.min maxDuration (t - u)).

(** A duration strictly inside the int64 range: every bound the code compares
    an age with. *)
Definition in_duration (d : Duration) : Prop := minDuration < d < maxDuration.

Lemma Sub_lt t u d : in_duration d -> Sub t u < d <-> t - u < d.
Proof. unfold in_duration, Sub, minDuration, maxDuration. lia. Qed.

Lemma Sub_le t u d : in_duration d -> Sub t u <= d <-> t - u <= d.
Proof. unfold in_duration, Sub, minDuration, maxDuration. lia. Qed.

Lemma Sub_ge t u d : in_duration d -> d <= Sub t u <-> d <= t - u.
Proof. unfold in_duration, Sub, minDuration, maxDuration. lia. Qed.

Lemma Sub_exact t u : in_duration (t - u) -> Sub t u = t - u.
Proof. unfold in_duration, Sub, minDuration, maxDuration. lia. Qed.

(** Linear arithmetic on times, with the saturation of [Sub] and the unit
    constants unfolded. *)
Ltac time_lia :=
  unfold Sub, minDuration, maxDuration, Minute, Second in *; lia.

(** ** Lists, options, strings *)

Definition strJoin (sep : string) (l : list string) : string := String.concat sep l.

(** [indexed] numbers the elements of a slice, as [for i, x := range] does. *)
Definition indexed {A} (l : list A) : list (nat * A) := imap (fun i x => (i, x)) l.

Lemma indexed_lookup {A} (l : list A) i : indexed l !! i = (fun x => (i, x)) <$> l !! i.
Proof. unfold indexed. by rewrite list_lookup_imap. Qed.

(** Folding a right-biased scan over a list: [last_that p l] is the last
    element of [l] with [p], as a loop that overwrites a variable leaves it. *)
Definition last_that {A} (p : A -> bool) (l : list A) : option A :=
  fold_left (fun acc x => if p x then Some x else acc) l None.

Lemma last_that_snoc {A} (p : A -> bool) (l : list A) x :
  last_that p (l ++ [x]) = if p x then Some x else last_that p l.
Proof. unfold last_that. by rewrite fold_left_app. Qed.

(** With distinct keys, the last element with a key is the one that has it. *)
Lemma last_that_key {A} (f : A -> string) (l : list A) x :
  NoDup (f <$> l) -> x ∈ l -> last_that (fun y => bool_decide (f y = f x)) l = Some x.
Proof.
  induction l as [|y l IH] using rev_ind; [set_solver|].
  rewrite fmap_app, NoDup_app. intros (Hnd & Hne & _) Hx. rewrite last_that_snoc.
  case_bool_decide as E.
  - apply elem_of_app in Hx as [Hx|Hx]; [|set_solver].
    exfalso. apply (Hne (f x)); [|set_solver]. apply list_elem_of_fmap. eauto.
  - apply IH; [done|]. set_solver.
Qed.

(** [lookupd m k d] is a Go map read [m[k]]: the value type's zero value [d]
    when [k] is absent. *)
Definition lookupd {A} (d : A) (m : gmap string A) (k : string) : A := default d (m !! k).

Lemma lookupd_Some {A} (d : A) m k x : m !! k = Some x -> lookupd d m k = x.
Proof. unfold lookupd. by intros ->. Qed.

Lemma lookupd_None {A} (d : A) m k : m !! k = None -> lookupd d m k = d.
Proof. unfold lookupd. by intros ->. Qed.

Lemma filter_nil_iff {A} (P : A -> Prop) `{!forall x, Decision (P x)} (l : list A) :
  filter P l = [] <-> Forall (fun x => ~ P x) l.
Proof.
  induction l as [|x l IH]; [done|]. rewrite filter_cons, Forall_cons.
  destruct (decide (P x)); split; try naive_solver.
Qed.

Lemma length_snoc {A} (l : list A) x : length (l ++ [x]) = S (length l).
Proof. rewrite length_app. simpl. lia. Qed.

Lemma filter_snoc {A} (P : A -> Prop) `{!forall x, Decision (P x)} (l : list A) x :
  filter P (l ++ [x]) = filter P l ++ if decide (P x) then [x] else [].
Proof. by rewrite filter_app, filter_cons, filter_nil. Qed.

Lemma filter_not_nil {A} (P : A -> Prop) `{!forall x, Decision (P x)} (l : list A) :
  filter P l <> [] <-> exists x, x ∈ l /\ P x.
Proof.
  split.
  - destruct (filter P l) as [|x l'] eqn:E; [done|]. intros _. exists x.
    enough (x ∈ filter P l) as ?%list_elem_of_filter by tauto. rewrite E. set_solver.
  - intros (x & Hx & HP) E. assert (x ∈ filter P l) as Hin by by apply list_elem_of_filter.
    rewrite E in Hin. set_solver.
Qed.

Lemma length_pos_bool {A} (l : list A) : (0 <? length l)%nat = bool_decide (l <> []).
Proof. by destruct l. Qed.

Lemma forallb_Forall_iff {A} (f : A -> bool) (l : list A) :
  forallb f l = true <-> Forall (fun x => f x = true) l.
Proof.
  induction l as [|x l IH]; simpl; [done|]. by rewrite andb_true_iff, Forall_cons, IH.
Qed.

Lemma filter_ext_elem {A} (P Q : A -> Prop) `{!forall x, Decision (P x), !forall x, Decision (Q x)} (l : list A) :
  (forall x, x ∈ l -> P x <-> Q x) -> filter P l = filter Q l.
Proof.
  induction l as [|x l IH]; intros Hiff; [done|]. rewrite !filter_cons.
  rewrite IH by (intros; apply Hiff; set_solver). pose proof (Hiff x ltac:(set_solver)).
  destruct (decide (P x)), (decide (Q x)); naive_solver.
Qed.

(** ** Hints

    [go] collects the facts that close the common side conditions. *)
Create HintDb go.
#[export] Hint Resolve wrap64_range : go.
