(* ===== verification/GoState.v ===== *)
(** * Handlers with state

    A reconcile handler reads and changes state that outlives its calls: the
    object it works on, the calls it sends, the Events it records.  It is a
    function in the state monad below.  [keeps R m] says that the handler [m]
    relates every state it starts in to the state it ends in by [R]; a
    relation that is a preorder is kept by a composition when it is kept by
    its parts, and [keeps_solve] carries that argument out. *)
From stdpp Require Import prelude.

Definition St (S A : Type) : Type := S -> A * S.
#[global] Instance St_ret S : MRet (St S) := fun A x w => (x, w).
#[global] Instance St_bind S : MBind (St S) := fun A B k m w => let '(x, w') := m w in k x w'.

Lemma run_bind {S A B} (m : St S A) (k : A -> St S B) w : (m ≫= k) w = k (m w).1 (m w).2.
Proof. unfold mbind, St_bind. by destruct (m w). Qed.

(** A handler keeps a relation between the states before and after it. *)
Definition keeps {S} (R : S -> S -> Prop) {A} (m : St S A) : Prop := forall w, R w (m w).2.

Section keeps_rules.
Context {S : Type} (R : S -> S -> Prop) `{!PreOrder R}.

Lemma keeps_ret {A} (x : A) : keeps R (mret x).
Proof. intros w. reflexivity. Qed.

Lemma keeps_bind {A B} (m : St S A) (k : A -> St S B) : keeps R m -> (forall x, keeps R (k x)) -> keeps R (m ≫= k).
Proof. intros Hm Hk w. rewrite run_bind. transitivity (m w).2; [apply Hm|apply Hk]. Qed.

(** A handler that only reads. *)
Lemma keeps_read {A} (f : S -> A) : keeps R (fun w => (f w, w)).
Proof. intros w. reflexivity. Qed.
End keeps_rules.

Create HintDb keeps.
#[export] Hint Resolve keeps_ret keeps_read : keeps.

(** Decomposes a handler down to the calls the hints know. *)
Ltac keeps_solve :=
  repeat match goal with
  | |- keeps _ (mbind _ _) => apply (keeps_bind _); [|intros ?]
  | |- keeps _ (if ?b then _ else _) => destruct b
  | |- keeps _ (match ?x with _ => _ end) => destruct x
  | |- keeps _ (let '_ := ?x in _) => destruct x
  | |- keeps _ _ => solve [eauto with keeps typeclass_instances]
  end.
