(* ===== verification/Programs.v ===== *)
(** * Programs that run concurrently

    What runs beside other threads, or can be cut off by a crash, is a program:
    a tree of atomic actions, each with the answers it can get.  The actions
    are those of the component.  A program is checked against a table of
    phases: which action may be done in which phase, with which answer, and
    the phase that follows.  The invariants of the components relate the
    phases of all threads to what they share. *)
From stdpp Require Import prelude.

Section programs.
Context {Atom : Type} {answer : Atom -> Type}.

Inductive prog (A : Type) : Type :=
| Ret (a : A)
| Vis (e : Atom) (k : answer e -> prog A).
Arguments Ret {A} a.
Arguments Vis {A} e k.

Fixpoint prog_bind {A B} (k : A -> prog B) (m : prog A) : prog B :=
  match m with
  | Ret a => k a
  | Vis e f => Vis e (fun x => prog_bind k (f x))
  end.

Definition act (e : Atom) : prog (answer e) := Vis e Ret.

Context {Phase : Type} (next : Phase -> forall e : Atom, answer e -> option Phase).

(** A program that keeps to the table from [g] on, and ends with [Q]. *)
Fixpoint typed {A} (g : Phase) (p : prog A) (Q : A -> Phase -> Prop) : Prop :=
  match p with
  | Ret a => Q a g
  | Vis e k => forall x, match next g e x with Some g' => typed g' (k x) Q | None => False end
  end.

Lemma typed_weaken {A} g (p : prog A) (Q Q' : A -> Phase -> Prop) :
  (forall a g, Q a g -> Q' a g) -> typed g p Q -> typed g p Q'.
Proof.
  intros HQ. revert g. induction p as [a|e k IH]; intros g; cbn; [apply HQ|].
  intros H x. specialize (H x). destruct (next g e x); [by apply IH|done].
Qed.

Lemma typed_bind_prog {A B} g (m : prog A) (k : A -> prog B) Q :
  typed g m (fun a g' => typed g' (k a) Q) -> typed g (prog_bind k m) Q.
Proof.
  revert g. induction m as [a|e f IH]; intros g; cbn; [done|].
  intros H x. specialize (H x). destruct (next g e x); [by apply IH|done].
Qed.

Lemma typed_act e g Q : (forall x, exists g', next g e x = Some g' /\ Q x g') -> typed g (act e) Q.
Proof. intros H x. by destruct (H x) as (g' & -> & HQ). Qed.
End programs.

Arguments prog {Atom} answer A.
Arguments Ret {Atom answer A} a.
Arguments Vis {Atom answer A} e k.
#[global] Instance prog_ret {Atom} (answer : Atom -> Type) : MRet (prog answer) := fun A => Ret.
#[global] Instance prog_mbind {Atom} (answer : Atom -> Type) : MBind (prog answer) := fun A B k m => prog_bind k m.

Lemma typed_bind {Atom} {answer : Atom -> Type} {Phase} (next : Phase -> forall e, answer e -> option Phase)
  {A B} g (m : prog answer A) (k : A -> prog answer B) Q :
  typed next g m (fun a g' => typed next g' (k a) Q) -> typed next g (m ≫= k) Q.
Proof. apply typed_bind_prog. Qed.

Lemma typed_ret {Atom} {answer : Atom -> Type} {Phase} (next : Phase -> forall e, answer e -> option Phase)
  {A} g (a : A) Q : Q a g -> typed (answer := answer) next g (mret a) Q.
Proof. done. Qed.

(** Takes a program apart, one action after the other: [typed_does] for the
    next action, [typed_step] when every answer leads to the same phase. *)
Ltac typed_last := match goal with |- typed ?n ?g (@act ?A ?a ?e) ?Q => refine (@typed_act A a _ n e g Q _) end.
Ltac typed_does := apply typed_bind; typed_last.
Ltac typed_step := typed_does; intros ?; eexists; split; [reflexivity|]; cbn beta.

(** ** Programs on a state

    [exec] does an action on a state, as a choice of the surroundings says.  A
    program is [safely] run when an invariant holds at every moment of it, so
    also where it is cut off, and a postcondition when it ends. *)
Section safely.
Context {Atom : Type} {answer : Atom -> Type} {State Choice : Type}.
Context (exec : forall e : Atom, Choice -> State -> option (answer e * State)) (Inv : State -> Prop).

Fixpoint safely {A} (p : prog answer A) (Q : A -> State -> Prop) (w : State) : Prop :=
  Inv w /\
  match p with
  | Ret a => Q a w
  | Vis e k => forall c x w', exec e c w = Some (x, w') -> safely (k x) Q w'
  end.

Lemma safely_inv {A} (p : prog answer A) Q w : safely p Q w -> Inv w.
Proof. by destruct p as [a|e k]; intros [? _]. Qed.

Lemma safely_weaken {A} (p : prog answer A) (Q Q' : A -> State -> Prop) w :
  (forall a w, Inv w -> Q a w -> Q' a w) -> safely p Q w -> safely p Q' w.
Proof.
  intros HQ. revert w. induction p as [a|e k IH]; intros w [Hi H]; (split; [done|]); [by apply HQ|].
  intros c x w' E. by apply IH, (H c).
Qed.

Lemma safely_bind {A B} (m : prog answer A) (k : A -> prog answer B) Q w :
  safely m (fun a w' => safely (k a) Q w') w -> safely (m ≫= k) Q w.
Proof.
  revert w. induction m as [a|e f IH]; intros w [Hi H]; [done|]. split; [done|]. intros c x w' E. apply IH, (H c x w' E).
Qed.

Lemma safely_ret {A} (a : A) Q w : Inv w -> Q a w -> safely (mret a) Q w.
Proof. done. Qed.

Lemma safely_act e Q w : Inv w -> (forall c x w', exec e c w = Some (x, w') -> Inv w' /\ Q x w') -> safely (act e) Q w.
Proof. intros Hi H. split; [done|]. intros c x w' E. by apply (H c). Qed.
End safely.

(** ** Programs amid others

    Between any two actions of a program the others of its pool change the
    state as [rely] allows, and each of its own actions is one that [guar]
    allows.  A program that runs [amid] the others so keeps the invariant, and
    its postcondition holds whatever they do after it ended. *)
Section amid.
Context {Atom : Type} {answer : Atom -> Type} {State Choice : Type}.
Context (exec : forall e : Atom, Choice -> State -> option (answer e * State)) (Inv : State -> Prop).
Context (rely guar : State -> State -> Prop).

Fixpoint amid {A} (p : prog answer A) (Q : A -> State -> Prop) (w : State) : Prop :=
  forall w1, Inv w1 -> rely w w1 ->
  match p with
  | Ret a => Q a w1
  | Vis e k => forall c x w2, exec e c w1 = Some (x, w2) -> Inv w2 /\ guar w1 w2 /\ amid (k x) Q w2
  end.

Lemma amid_stable {A} (p : prog answer A) Q w w' : Transitive rely -> rely w w' -> amid p Q w -> amid p Q w'.
Proof. intros Ht Hr. destruct p; intros H w1 Hi H1; apply H; auto; by transitivity w'. Qed.

Lemma amid_weaken {A} (p : prog answer A) (Q Q' : A -> State -> Prop) w :
  (forall a w, Inv w -> Q a w -> Q' a w) -> amid p Q w -> amid p Q' w.
Proof.
  intros HQ. revert w. induction p as [a|e k IH]; intros w H w1 Hi H1; [by apply HQ, H|].
  intros c x w2 E. destruct (H w1 Hi H1 c x w2 E) as (? & ? & ?). split_and!; [done..|]. by apply IH.
Qed.

Lemma amid_ret {A} (a : A) Q w : (forall w1, Inv w1 -> rely w w1 -> Q a w1) -> amid (mret a) Q w.
Proof. done. Qed.

Lemma amid_act e Q w : Transitive rely ->
  (forall w1 c x w2, Inv w1 -> rely w w1 -> exec e c w1 = Some (x, w2) ->
    Inv w2 /\ guar w1 w2 /\ forall w3, Inv w3 -> rely w2 w3 -> Q x w3) -> amid (act e) Q w.
Proof. intros Ht H w1 Hi H1 c x w2 E. by apply (H w1 c x w2). Qed.

Lemma amid_bind {A B} (m : prog answer A) (k : A -> prog answer B) Q w : Transitive rely -> Reflexive rely -> Inv w ->
  amid m (fun a w' => amid (k a) Q w') w -> amid (m ≫= k) Q w.
Proof.
  intros Ht Hrefl Hi0. revert w Hi0. induction m as [a|e f IH]; intros w Hi0 H.
  - by apply (H w).
  - intros w1 Hi H1 c x w2 E. destruct (H w1 Hi H1 c x w2 E) as (? & ? & ?). split_and!; [done..|]. by apply IH.
Qed.
End amid.
