(* ===== verification/GoErr.v ===== *)
(** * Functions that return an error

    A function that changes a state and may end early with an error, as a
    monad: [fails] is a return with an error, [run] a call whose effect is
    given. *)
From stdpp Require Import prelude.

Definition EM (S E A : Type) : Type := S -> (E + A) * S.
#[global] Instance EM_ret S E : MRet (EM S E) := fun A x w => (inr x, w).
#[global] Instance EM_bind S E : MBind (EM S E) := fun A B k m w =>
  match m w with (inl e, w') => (inl e, w') | (inr x, w') => k x w' end.

Definition fails {S E A} (e : E) : EM S E A := fun w => (inl e, w).
Definition run {S E A} (f : S -> A * S) : EM S E A := fun w => let '(x, w') := f w in (inr x, w').

(** A [for] loop that returns at the first error. *)
Fixpoint forEach {S E A B} (f : A -> EM S E B) (l : list A) : EM S E (list B) :=
  match l with
  | [] => mret []
  | x :: rest => y ← f x; ys ← forEach f rest; mret (y :: ys)
  end.

Lemma EM_bind_ok {S E A B} (m : EM S E A) (k : A -> EM S E B) w y w2 :
  (m ≫= k) w = (inr y, w2) <-> exists x w1, m w = (inr x, w1) /\ k x w1 = (inr y, w2).
Proof.
  unfold mbind, EM_bind. destruct (m w) as [[e|x] w1]; split; try naive_solver.
Qed.

Lemma EM_bind_run {S E A B} (m : EM S E A) (k : A -> EM S E B) w :
  (m ≫= k) w = match m w with (inl e, w1) => (inl e, w1) | (inr x, w1) => k x w1 end.
Proof. done. Qed.

(** A relation that every call keeps. *)
Definition EMkeeps {S E A} (R : S -> S -> Prop) (m : EM S E A) : Prop := forall w, R w (m w).2.

Section keeps_rules.
Context {S E : Type} (R : S -> S -> Prop) `{!PreOrder R}.

Lemma EMkeeps_ret {A} (x : A) : EMkeeps (E := E) R (mret x).
Proof. intros w. reflexivity. Qed.

Lemma EMkeeps_fails {A} (e : E) : EMkeeps (A := A) R (fails e).
Proof. intros w. reflexivity. Qed.

Lemma EMkeeps_bind {A B} (m : EM S E A) (k : A -> EM S E B) : EMkeeps R m -> (forall x, EMkeeps R (k x)) -> EMkeeps R (m ≫= k).
Proof.
  intros Hm Hk w. rewrite EM_bind_run. pose proof (Hm w) as H. destruct (m w) as [[e|x] w1]; [done|].
  transitivity w1; [done|apply Hk].
Qed.

Lemma EMkeeps_forEach {A B} (f : A -> EM S E B) l : (forall x, x ∈ l -> EMkeeps R (f x)) -> EMkeeps R (forEach f l).
Proof.
  induction l as [|x l IH]; intros Hf; [apply EMkeeps_ret|]. cbn [forEach]. apply EMkeeps_bind; [apply Hf; set_solver|]. intros y.
  apply EMkeeps_bind; [apply IH; set_solver|]. intros ys. apply EMkeeps_ret.
Qed.
End keeps_rules.
