(* ===== verification/Api.v ===== *)
(** * The API types (api/v1alpha1)

    The status of a CubridCluster and the parts of its spec that the
    controllers read, with the Kubernetes condition helpers as an interface:
    [k8s.io/apimachinery/pkg/api/meta] is not part of the repository, so
    [ConditionOps] takes its functions as parameters and [ConditionLaws] states
    what its documentation promises. *)
From stdpp Require Import prelude gmap strings pretty list.
From S2P Require Import Prelude.

(** ** Roles *)

(** CubridRole is an open string type in Go: a decoded answer may hold any
    text, the zero value included. *)
Notation CubridRole := string (only parsing).
Definition RoleMaster : CubridRole := "master".
Definition RoleSlave : CubridRole := "slave".
Definition RoleReplica : CubridRole := "replica".
Definition RoleUnknown : CubridRole := "unknown".

(** ** Conditions *)

Inductive ConditionStatus := ConditionTrue | ConditionFalse | ConditionUnknown.
#[global] Instance ConditionStatus_eq_dec : EqDecision ConditionStatus.
Proof. solve_decision. Defined.

(** metav1.Condition *)
Record Condition := mkCondition {
  c_Type : string;
  c_Status : ConditionStatus;
  c_ObservedGeneration : Z;
  c_LastTransitionTime : Time;
  c_Reason : string;
  c_Message : string }.
#[global] Instance Condition_eq_dec : EqDecision Condition.
Proof. solve_decision. Defined.

Definition with_message (f : string -> string) (c : Condition) : Condition :=
  mkCondition (c_Type c) (c_Status c) (c_ObservedGeneration c) (c_LastTransitionTime c)
    (c_Reason c) (f (c_Message c)).

(** The condition helpers.  [FindStatusCondition] answers a pointer into the
    slice: the position of the condition, through which the code may write. *)
Class ConditionOps := {
  SetStatusCondition : list Condition -> Condition -> list Condition;
  FindStatusCondition : list Condition -> string -> option nat;
  RemoveStatusCondition : list Condition -> string -> list Condition;
  IsStatusConditionTrue : list Condition -> string -> bool }.

Section conditions.
Context `{O : ConditionOps}.

(** The condition a found pointer points to. *)
Definition findCondition (cs : list Condition) (t : string) : option Condition :=
  FindStatusCondition cs t ≫= fun i => cs !! i.

(** What a client sees of the condition [t]: status, reason, message and
    generation, without the transition time. *)
Definition conditionView (cs : list Condition) (t : string)
  : option (ConditionStatus * string * string * Z) :=
  (fun c => (c_Status c, c_Reason c, c_Message c, c_ObservedGeneration c)) <$> findCondition cs t.

Definition conditionStatus (cs : list Condition) (t : string) : option ConditionStatus :=
  c_Status <$> findCondition cs t.
End conditions.

(** The documented behaviour of the helpers. *)
Class ConditionLaws (O : ConditionOps) : Prop := {
  find_set_same cs c :
    conditionView (SetStatusCondition cs c) (c_Type c) =
    Some (c_Status c, c_Reason c, c_Message c, c_ObservedGeneration c);
  find_set_other cs c t :
    t <> c_Type c -> findCondition (SetStatusCondition cs c) t = findCondition cs t;
  find_remove_same cs t : findCondition (RemoveStatusCondition cs t) t = None;
  find_remove_other cs t t' :
    t <> t' -> findCondition (RemoveStatusCondition cs t') t = findCondition cs t;
  find_type cs t c : findCondition cs t = Some c -> c_Type c = t;
  find_by_types cs cs' t :
    c_Type <$> cs = c_Type <$> cs' -> FindStatusCondition cs t = FindStatusCondition cs' t;
  find_in cs c : NoDup (c_Type <$> cs) -> c ∈ cs -> findCondition cs (c_Type c) = Some c;
  is_true_find cs t :
    IsStatusConditionTrue cs t = true <-> conditionStatus cs t = Some ConditionTrue }.

(** ** Instance status *)

Record LogAddress := mkLogAddress { la_Page : Z; la_Offset : Z }.
#[global] Instance LogAddress_eq_dec : EqDecision LogAddress.
Proof. solve_decision. Defined.

Record InstanceReplication := mkInstanceReplication {
  ir_Source : string;
  ir_AppliedChanges : Z;
  ir_FailCount : Z;
  ir_DelayedPages : Z;
  ir_Applier : string;
  ir_StalledSince : option Time;
  ir_CopyDelayedPages : Z;
  ir_CopiedEOF : option LogAddress;
  ir_NotReceivingSince : option Time;
  ir_ObservedAt : option Time }.
#[global] Instance InstanceReplication_eq_dec : EqDecision InstanceReplication.
Proof. solve_decision. Defined.

Definition set_ir_StalledSince (v : option Time) (r : InstanceReplication) :=
  mkInstanceReplication (ir_Source r) (ir_AppliedChanges r) (ir_FailCount r) (ir_DelayedPages r)
    (ir_Applier r) v (ir_CopyDelayedPages r) (ir_CopiedEOF r) (ir_NotReceivingSince r) (ir_ObservedAt r).
Definition set_ir_copy (eof : option LogAddress) (pages : Z) (since : option Time) (r : InstanceReplication) :=
  mkInstanceReplication (ir_Source r) (ir_AppliedChanges r) (ir_FailCount r) (ir_DelayedPages r)
    (ir_Applier r) (ir_StalledSince r) pages eof since (ir_ObservedAt r).
Definition set_ir_ObservedAt (v : option Time) (r : InstanceReplication) :=
  mkInstanceReplication (ir_Source r) (ir_AppliedChanges r) (ir_FailCount r) (ir_DelayedPages r)
    (ir_Applier r) (ir_StalledSince r) (ir_CopyDelayedPages r) (ir_CopiedEOF r) (ir_NotReceivingSince r) v.

Definition UnfinishedWaitingForOperation : string := "WaitingForOperation".
Definition UnfinishedRefused : string := "Refused".

Record InstanceUnfinishedDatabase := mkInstanceUnfinishedDatabase {
  iu_Database : string;
  iu_Operation : string;
  iu_State : string;
  iu_Message : string }.
#[global] Instance InstanceUnfinishedDatabase_eq_dec : EqDecision InstanceUnfinishedDatabase.
Proof. solve_decision. Defined.

Record InstanceStatus := mkInstanceStatus {
  is_Name : string;
  is_Ordinal : Z;
  is_Role : CubridRole;
  is_Ready : bool;
  is_ObservedEngineVersion : string;
  is_ImageID : string;
  is_Replication : option InstanceReplication;
  is_LastObservedTime : option Time;
  is_UnfinishedDatabase : option InstanceUnfinishedDatabase }.
#[global] Instance InstanceStatus_eq_dec : EqDecision InstanceStatus.
Proof. solve_decision. Defined.

(** The zero value of the struct. *)
Definition zeroInstanceStatus : InstanceStatus :=
  mkInstanceStatus "" 0 "" false "" "" None None None.

Definition set_is_Role (v : CubridRole) (i : InstanceStatus) :=
  mkInstanceStatus (is_Name i) (is_Ordinal i) v (is_Ready i) (is_ObservedEngineVersion i)
    (is_ImageID i) (is_Replication i) (is_LastObservedTime i) (is_UnfinishedDatabase i).
Definition set_is_Ready (v : bool) (i : InstanceStatus) :=
  mkInstanceStatus (is_Name i) (is_Ordinal i) (is_Role i) v (is_ObservedEngineVersion i)
    (is_ImageID i) (is_Replication i) (is_LastObservedTime i) (is_UnfinishedDatabase i).
Definition set_is_Replication (v : option InstanceReplication) (i : InstanceStatus) :=
  mkInstanceStatus (is_Name i) (is_Ordinal i) (is_Role i) (is_Ready i) (is_ObservedEngineVersion i)
    (is_ImageID i) v (is_LastObservedTime i) (is_UnfinishedDatabase i).
Definition set_is_LastObservedTime (v : option Time) (i : InstanceStatus) :=
  mkInstanceStatus (is_Name i) (is_Ordinal i) (is_Role i) (is_Ready i) (is_ObservedEngineVersion i)
    (is_ImageID i) (is_Replication i) v (is_UnfinishedDatabase i).

(** ** Database status *)

Record DatabaseSeeding := mkDatabaseSeeding {
  sd_Member : string;
  sd_Source : string;
  sd_Round : Z;
  sd_RestoreOperationID : string;
  sd_BackupOperationID : string;
  sd_OperationMissingSince : option Time }.
#[global] Instance DatabaseSeeding_eq_dec : EqDecision DatabaseSeeding.
Proof. solve_decision. Defined.

Record DatabaseStatus := mkDatabaseStatus {
  ds_Name : string;
  ds_Phase : string;
  ds_PrimaryCreated : bool;
  ds_HAConfigured : bool;
  ds_SeededMembers : list string;
  ds_Seeding : option DatabaseSeeding;
  ds_BootstrapAttempts : Z;
  ds_BootstrapOperationID : string;
  ds_BootstrapOperationMissingSince : option Time }.
#[global] Instance DatabaseStatus_eq_dec : EqDecision DatabaseStatus.
Proof. solve_decision. Defined.

(** ** Update and bootstrap status *)

Record UpdateStatus := mkUpdateStatus {
  us_DesiredRevision : string;
  us_CurrentRevision : string;
  us_EngineVersion : string }.
#[global] Instance UpdateStatus_eq_dec : EqDecision UpdateStatus.
Proof. solve_decision. Defined.

(** BootstrapPhase, an open string type. *)
Definition BootstrapPreparing : string := "Preparing".
Definition BootstrapRestoring : string := "Restoring".
Definition BootstrapValidating : string := "Validating".
Definition BootstrapSeedingReplicas : string := "SeedingReplicas".
Definition BootstrapComplete : string := "Complete".
Definition BootstrapFailed : string := "Failed".

Record BootstrapStatus := mkBootstrapStatus {
  bs_Mode : string;
  bs_Phase : string;
  bs_ManifestURI : string;
  bs_OperationID : string;
  bs_TargetMember : string;
  bs_Attempts : Z;
  bs_OperationMissingSince : option Time }.
#[global] Instance BootstrapStatus_eq_dec : EqDecision BootstrapStatus.
Proof. solve_decision. Defined.

(** ** The cluster *)

Record CubridClusterStatus := mkStatus {
  st_ObservedGeneration : Z;
  st_CurrentPrimary : string;
  st_Instances : list InstanceStatus;
  st_Databases : list DatabaseStatus;
  st_Conditions : list Condition;
  st_Bootstrap : option BootstrapStatus;
  st_ObservedEngineVersion : string;
  st_Update : option UpdateStatus;
  st_LastObservedTime : option Time }.
#[global] Instance CubridClusterStatus_eq_dec : EqDecision CubridClusterStatus.
Proof. solve_decision. Defined.

Definition set_st_CurrentPrimary v s := mkStatus (st_ObservedGeneration s) v (st_Instances s)
  (st_Databases s) (st_Conditions s) (st_Bootstrap s) (st_ObservedEngineVersion s) (st_Update s) (st_LastObservedTime s).
Definition set_st_Instances v s := mkStatus (st_ObservedGeneration s) (st_CurrentPrimary s) v
  (st_Databases s) (st_Conditions s) (st_Bootstrap s) (st_ObservedEngineVersion s) (st_Update s) (st_LastObservedTime s).
Definition set_st_Databases v s := mkStatus (st_ObservedGeneration s) (st_CurrentPrimary s) (st_Instances s)
  v (st_Conditions s) (st_Bootstrap s) (st_ObservedEngineVersion s) (st_Update s) (st_LastObservedTime s).
Definition set_st_Conditions v s := mkStatus (st_ObservedGeneration s) (st_CurrentPrimary s) (st_Instances s)
  (st_Databases s) v (st_Bootstrap s) (st_ObservedEngineVersion s) (st_Update s) (st_LastObservedTime s).
Definition set_st_Bootstrap v s := mkStatus (st_ObservedGeneration s) (st_CurrentPrimary s) (st_Instances s)
  (st_Databases s) (st_Conditions s) v (st_ObservedEngineVersion s) (st_Update s) (st_LastObservedTime s).
Definition set_st_ObservedEngineVersion v s := mkStatus (st_ObservedGeneration s) (st_CurrentPrimary s) (st_Instances s)
  (st_Databases s) (st_Conditions s) (st_Bootstrap s) v (st_Update s) (st_LastObservedTime s).
Definition set_st_Update v s := mkStatus (st_ObservedGeneration s) (st_CurrentPrimary s) (st_Instances s)
  (st_Databases s) (st_Conditions s) (st_Bootstrap s) (st_ObservedEngineVersion s) v (st_LastObservedTime s).
Definition set_st_LastObservedTime v s := mkStatus (st_ObservedGeneration s) (st_CurrentPrimary s) (st_Instances s)
  (st_Databases s) (st_Conditions s) (st_Bootstrap s) (st_ObservedEngineVersion s) (st_Update s) v.

(** The object storage of the spec.  [os_CredentialsSecretRef] is the name of
    the referenced Secret. *)
Record CubridObjectStorage := mkObjectStorage {
  os_Endpoint : string;
  os_Region : string;
  os_Insecure : bool;
  os_Bucket : string;
  os_Prefix : string;
  os_CredentialsSecretRef : string }.

(** The fields of CubridClusterSpec the modelled operations read.
    [sp_Recovery] is [spec.bootstrap.recovery.manifestUri], absent when either
    pointer on the way is nil. *)
Record CubridClusterSpec := mkSpec {
  sp_Version : string;
  sp_Databases : list string;
  sp_PromotableMembers : Z;
  sp_HAEnabled : bool;
  sp_Recovery : option string;
  sp_ObjectStorage : option CubridObjectStorage }.

Record CubridCluster := mkCluster {
  cl_Name : string;
  cl_Namespace : string;
  cl_UID : string;
  cl_Generation : Z;
  cl_Spec : CubridClusterSpec;
  cl_Status : CubridClusterStatus }.

Definition map_status (f : CubridClusterStatus -> CubridClusterStatus) (c : CubridCluster) : CubridCluster :=
  mkCluster (cl_Name c) (cl_Namespace c) (cl_UID c) (cl_Generation c) (cl_Spec c) (f (cl_Status c)).

(** [fmt.Sprintf("%s-%d", name, i)] *)
Definition memberName (name : string) (i : N) : string := name +:+ "-" +:+ pretty i.

(** memberNames: the StatefulSet Pod names, by ordinal; none for a count that
    is not positive. *)
Definition memberNames (cluster : CubridCluster) (count : Z) : list string :=
  memberName (cl_Name cluster) <$> (N.of_nat <$> seq 0 (Z.to_nat count)).

Lemma memberName_inj name i j : memberName name i = memberName name j -> i = j.
Proof.
  unfold memberName. intros H.
  apply (inj (String.app name)) in H. apply (inj (String.app "-")) in H.
  by apply (inj pretty) in H.
Qed.

Lemma memberNames_NoDup cluster count : NoDup (memberNames cluster count).
Proof.
  unfold memberNames. apply (NoDup_fmap_2_strong (memberName _)).
  - intros ?? _ _. apply memberName_inj.
  - apply (NoDup_fmap_2 _), NoDup_seq.
Qed.

Lemma memberNames_length cluster count : length (memberNames cluster count) = Z.to_nat count.
Proof. unfold memberNames. by rewrite !length_fmap, length_seq. Qed.

Section set_condition.
Context `{O : ConditionOps}.

(** setCondition, on the cluster's status. *)
Definition setCondition (cluster : CubridCluster) (condType : string) (status : ConditionStatus)
  (reason msg : string) : CubridCluster :=
  map_status (fun s => set_st_Conditions
    (SetStatusCondition (st_Conditions s)
       (mkCondition condType status (cl_Generation cluster) 0 reason msg)) s) cluster.

(** What the cluster's conditions say of [t]. *)
Definition clusterCondition (cluster : CubridCluster) (t : string) :=
  conditionView (st_Conditions (cl_Status cluster)) t.

Context `{!ConditionLaws O}.

Lemma setCondition_same cluster t s r m :
  clusterCondition (setCondition cluster t s r m) t = Some (s, r, m, cl_Generation cluster).
Proof. unfold clusterCondition; simpl. by rewrite (find_set_same _ (mkCondition t s _ _ r m)). Qed.

Lemma setCondition_other cluster t t' s r m :
  t <> t' ->
  findCondition (st_Conditions (cl_Status (setCondition cluster t' s r m))) t =
  findCondition (st_Conditions (cl_Status cluster)) t.
Proof. intros H. simpl. by apply find_set_other. Qed.

Lemma setCondition_view_other cluster t t' s r m :
  t <> t' -> clusterCondition (setCondition cluster t' s r m) t = clusterCondition cluster t.
Proof. intros H. unfold clusterCondition, conditionView. by rewrite setCondition_other. Qed.
End set_condition.

(** ** A concrete implementation of the condition helpers

    The first condition of a type counts; a set of a known type replaces it in
    place, of a new one appends it. *)
Module SliceConditions.
Fixpoint find_pos (cs : list Condition) (t : string) : option nat :=
  match cs with
  | [] => None
  | c :: cs => if c_Type c == t then Some O else S <$> find_pos cs t
  end.

Fixpoint set_cond (cs : list Condition) (c : Condition) : list Condition :=
  match cs with
  | [] => [c]
  | c' :: cs => if c_Type c' == c_Type c then c :: cs else c' :: set_cond cs c
  end.

Definition remove_cond (cs : list Condition) (t : string) : list Condition :=
  filter (fun c => c_Type c <> t) cs.

Definition get (cs : list Condition) (t : string) : option Condition :=
  find_pos cs t ≫= fun i => cs !! i.

#[export] Instance slice_ops : ConditionOps := {|
  SetStatusCondition := set_cond;
  FindStatusCondition := find_pos;
  RemoveStatusCondition := remove_cond;
  IsStatusConditionTrue cs t :=
    match get cs t with Some c => c_Status c == ConditionTrue | None => false end |}.

Lemma get_cons c cs t : get (c :: cs) t = if c_Type c == t then Some c else get cs t.
Proof.
  unfold get. simpl. case_bool_decide; [done|]. by destruct (find_pos cs t).
Qed.

Lemma get_set cs c t : get (set_cond cs c) t = if c_Type c == t then Some c else get cs t.
Proof.
  induction cs as [|c' cs IH]; cbn [set_cond].
  - by rewrite get_cons.
  - destruct (decide (c_Type c' = c_Type c)) as [E|E].
    + rewrite (bool_decide_eq_true_2 _ E), !get_cons, E. by case_bool_decide.
    + rewrite (bool_decide_eq_false_2 _ E), !get_cons, IH.
      repeat case_bool_decide; congruence.
Qed.

Lemma get_remove cs t t' : get (remove_cond cs t') t = if t == t' then None else get cs t.
Proof.
  unfold remove_cond. induction cs as [|c cs IH]; [by case_bool_decide|].
  rewrite filter_cons. destruct (decide (c_Type c <> t')) as [E|E%dec_stable];
    rewrite !get_cons, ?IH; repeat case_bool_decide; congruence.
Qed.

Lemma get_type cs t c : get cs t = Some c -> c_Type c = t.
Proof.
  induction cs as [|c' cs IH]; [done|]. rewrite get_cons. case_bool_decide; naive_solver.
Qed.

Lemma find_pos_types cs cs' t : c_Type <$> cs = c_Type <$> cs' -> find_pos cs t = find_pos cs' t.
Proof.
  revert cs'. induction cs as [|c cs IH]; intros [|c' cs'] H; simplify_eq/=; [done|].
  rewrite H. case_bool_decide; [done|]. by rewrite (IH cs').
Qed.

Lemma get_in cs c : NoDup (c_Type <$> cs) -> c ∈ cs -> get cs (c_Type c) = Some c.
Proof.
  induction cs as [|c' cs IH]; cbn [fmap list_fmap]; [by intros _ ?%elem_of_nil|]. rewrite NoDup_cons, elem_of_cons, get_cons.
  intros [Hn Hd] [->|Hc]; [by rewrite bool_decide_eq_true_2|]. rewrite bool_decide_eq_false_2; [by apply IH|].
  intros E. apply Hn. rewrite E. by apply list_elem_of_fmap_2.
Qed.

#[export] Instance slice_laws : ConditionLaws slice_ops.
Proof.
  split; intros *.
  - unfold conditionView, findCondition; simpl. fold (get (set_cond cs c) (c_Type c)).
    rewrite get_set. by rewrite bool_decide_eq_true_2.
  - intros H. unfold findCondition; simpl. fold (get (set_cond cs c) t) (get cs t).
    rewrite get_set. by rewrite bool_decide_eq_false_2.
  - unfold findCondition; simpl. fold (get (remove_cond cs t) t).
    rewrite get_remove. by rewrite bool_decide_eq_true_2.
  - intros H. unfold findCondition; simpl. fold (get (remove_cond cs t') t) (get cs t).
    rewrite get_remove. by rewrite bool_decide_eq_false_2.
  - apply get_type.
  - apply find_pos_types.
  - apply get_in.
  - unfold conditionStatus, findCondition; simpl. fold (get cs t).
    destruct (get cs t) as [c|]; simpl; [|done].
    rewrite bool_decide_eq_true. split; [by intros ->|by intros [= ->]].
Qed.
End SliceConditions.

(** recoveryActive (internal/controller/bootstrap.go): a recovery that has not
    reached Complete. *)
Definition recoveryActive (cluster : CubridCluster) : bool :=
  match sp_Recovery (cl_Spec cluster) with
  | None => false
  | Some _ =>
      match st_Bootstrap (cl_Status cluster) with
      | None => true
      | Some b => bs_Phase b != BootstrapComplete
      end
  end.

(** ** Backups (api/v1alpha1/cubridbackup_types.go) *)

Definition DestinationObjectStorage : string := "ObjectStorage".
Definition DestinationPVC : string := "PVC".
Definition CubridBackupFull : string := "Full".

(** CubridBackupPhase, an open string type; the zero value is a backup no
    reconcile has written yet. *)
Definition BackupPhasePending : string := "Pending".
Definition BackupPhaseRunning : string := "Running".
Definition BackupPhaseUploading : string := "Uploading".
Definition BackupPhaseCompleted : string := "Completed".
Definition BackupPhaseFailed : string := "Failed".

Record ObjectStorageDestination := mkDestinationStore { od_Bucket : string; od_Prefix : string }.

(** [bp_Preference] is [spec.target.preference], [bp_ClusterRef] the name in
    [spec.clusterRef]. *)
Record CubridBackupSpec := mkBackupSpec {
  bp_ClusterRef : string;
  bp_Database : string;
  bp_Preference : string;
  bp_DestinationType : string;
  bp_ObjectStorage : option ObjectStorageDestination }.

Record CubridBackupArtifact := mkBackupArtifact {
  ba_URI : string;
  ba_ManifestDigest : string;
  ba_SizeBytes : Z;
  ba_CubridVersion : string;
  ba_Database : string;
  ba_Level : string }.

Record CubridBackupStatus := mkBackupStatus {
  bt_ObservedGeneration : Z;
  bt_Phase : string;
  bt_OperationRef : string;
  bt_TargetInstance : string;
  bt_TargetRole : string;
  bt_FallbackUsed : bool;
  bt_ClusterUID : string;
  bt_TargetRecordedAt : option Time;
  bt_ObjectStorageNotAppliedSince : option Time;
  bt_PrimaryLogEndNotReadSince : option Time;
  bt_OperationMissingSince : option Time;
  bt_StartedAt : option Time;
  bt_CompletedAt : option Time;
  bt_Artifact : option CubridBackupArtifact;
  bt_Conditions : list Condition }.

Definition zeroBackupStatus : CubridBackupStatus :=
  mkBackupStatus 0 "" "" "" "" false "" None None None None None None None [].

Record CubridBackup := mkBackup {
  bk_Namespace : string;
  bk_Name : string;
  bk_UID : string;
  bk_Generation : Z;
  bk_CreationTimestamp : Time;
  bk_Spec : CubridBackupSpec;
  bk_Status : CubridBackupStatus }.

Definition set_bt_ObservedGeneration v (s : CubridBackupStatus) : CubridBackupStatus :=
  mkBackupStatus v (bt_Phase s) (bt_OperationRef s) (bt_TargetInstance s) (bt_TargetRole s) (bt_FallbackUsed s)
    (bt_ClusterUID s) (bt_TargetRecordedAt s) (bt_ObjectStorageNotAppliedSince s)
    (bt_PrimaryLogEndNotReadSince s) (bt_OperationMissingSince s) (bt_StartedAt s)
    (bt_CompletedAt s) (bt_Artifact s) (bt_Conditions s).
Definition set_bt_Phase v (s : CubridBackupStatus) : CubridBackupStatus :=
  mkBackupStatus (bt_ObservedGeneration s) v (bt_OperationRef s) (bt_TargetInstance s) (bt_TargetRole s)
    (bt_FallbackUsed s) (bt_ClusterUID s) (bt_TargetRecordedAt s)
    (bt_ObjectStorageNotAppliedSince s) (bt_PrimaryLogEndNotReadSince s)
    (bt_OperationMissingSince s) (bt_StartedAt s) (bt_CompletedAt s) (bt_Artifact s)
    (bt_Conditions s).
Definition set_bt_OperationRef v (s : CubridBackupStatus) : CubridBackupStatus :=
  mkBackupStatus (bt_ObservedGeneration s) (bt_Phase s) v (bt_TargetInstance s) (bt_TargetRole s)
    (bt_FallbackUsed s) (bt_ClusterUID s) (bt_TargetRecordedAt s)
    (bt_ObjectStorageNotAppliedSince s) (bt_PrimaryLogEndNotReadSince s)
    (bt_OperationMissingSince s) (bt_StartedAt s) (bt_CompletedAt s) (bt_Artifact s)
    (bt_Conditions s).
Definition set_bt_TargetRecordedAt v (s : CubridBackupStatus) : CubridBackupStatus :=
  mkBackupStatus (bt_ObservedGeneration s) (bt_Phase s) (bt_OperationRef s) (bt_TargetInstance s)
    (bt_TargetRole s) (bt_FallbackUsed s) (bt_ClusterUID s) v
    (bt_ObjectStorageNotAppliedSince s) (bt_PrimaryLogEndNotReadSince s)
    (bt_OperationMissingSince s) (bt_StartedAt s) (bt_CompletedAt s) (bt_Artifact s)
    (bt_Conditions s).
Definition set_bt_ObjectStorageNotAppliedSince v (s : CubridBackupStatus) : CubridBackupStatus :=
  mkBackupStatus (bt_ObservedGeneration s) (bt_Phase s) (bt_OperationRef s) (bt_TargetInstance s)
    (bt_TargetRole s) (bt_FallbackUsed s) (bt_ClusterUID s) (bt_TargetRecordedAt s) v
    (bt_PrimaryLogEndNotReadSince s) (bt_OperationMissingSince s) (bt_StartedAt s)
    (bt_CompletedAt s) (bt_Artifact s) (bt_Conditions s).
Definition set_bt_PrimaryLogEndNotReadSince v (s : CubridBackupStatus) : CubridBackupStatus :=
  mkBackupStatus (bt_ObservedGeneration s) (bt_Phase s) (bt_OperationRef s) (bt_TargetInstance s)
    (bt_TargetRole s) (bt_FallbackUsed s) (bt_ClusterUID s) (bt_TargetRecordedAt s)
    (bt_ObjectStorageNotAppliedSince s) v (bt_OperationMissingSince s) (bt_StartedAt s)
    (bt_CompletedAt s) (bt_Artifact s) (bt_Conditions s).
Definition set_bt_OperationMissingSince v (s : CubridBackupStatus) : CubridBackupStatus :=
  mkBackupStatus (bt_ObservedGeneration s) (bt_Phase s) (bt_OperationRef s) (bt_TargetInstance s)
    (bt_TargetRole s) (bt_FallbackUsed s) (bt_ClusterUID s) (bt_TargetRecordedAt s)
    (bt_ObjectStorageNotAppliedSince s) (bt_PrimaryLogEndNotReadSince s) v (bt_StartedAt s)
    (bt_CompletedAt s) (bt_Artifact s) (bt_Conditions s).
Definition set_bt_StartedAt v (s : CubridBackupStatus) : CubridBackupStatus :=
  mkBackupStatus (bt_ObservedGeneration s) (bt_Phase s) (bt_OperationRef s) (bt_TargetInstance s)
    (bt_TargetRole s) (bt_FallbackUsed s) (bt_ClusterUID s) (bt_TargetRecordedAt s)
    (bt_ObjectStorageNotAppliedSince s) (bt_PrimaryLogEndNotReadSince s)
    (bt_OperationMissingSince s) v (bt_CompletedAt s) (bt_Artifact s) (bt_Conditions s).
Definition set_bt_CompletedAt v (s : CubridBackupStatus) : CubridBackupStatus :=
  mkBackupStatus (bt_ObservedGeneration s) (bt_Phase s) (bt_OperationRef s) (bt_TargetInstance s)
    (bt_TargetRole s) (bt_FallbackUsed s) (bt_ClusterUID s) (bt_TargetRecordedAt s)
    (bt_ObjectStorageNotAppliedSince s) (bt_PrimaryLogEndNotReadSince s)
    (bt_OperationMissingSince s) (bt_StartedAt s) v (bt_Artifact s) (bt_Conditions s).
Definition set_bt_Artifact v (s : CubridBackupStatus) : CubridBackupStatus :=
  mkBackupStatus (bt_ObservedGeneration s) (bt_Phase s) (bt_OperationRef s) (bt_TargetInstance s)
    (bt_TargetRole s) (bt_FallbackUsed s) (bt_ClusterUID s) (bt_TargetRecordedAt s)
    (bt_ObjectStorageNotAppliedSince s) (bt_PrimaryLogEndNotReadSince s)
    (bt_OperationMissingSince s) (bt_StartedAt s) (bt_CompletedAt s) v (bt_Conditions s).
Definition set_bt_Conditions v (s : CubridBackupStatus) : CubridBackupStatus :=
  mkBackupStatus (bt_ObservedGeneration s) (bt_Phase s) (bt_OperationRef s) (bt_TargetInstance s)
    (bt_TargetRole s) (bt_FallbackUsed s) (bt_ClusterUID s) (bt_TargetRecordedAt s)
    (bt_ObjectStorageNotAppliedSince s) (bt_PrimaryLogEndNotReadSince s)
    (bt_OperationMissingSince s) (bt_StartedAt s) (bt_CompletedAt s) (bt_Artifact s) v.
Definition set_bt_Target (instance role : string) (fallback : bool) (uid : string) (s : CubridBackupStatus) : CubridBackupStatus :=
  mkBackupStatus (bt_ObservedGeneration s) (bt_Phase s) (bt_OperationRef s) instance role fallback uid
    (bt_TargetRecordedAt s) (bt_ObjectStorageNotAppliedSince s) (bt_PrimaryLogEndNotReadSince s)
    (bt_OperationMissingSince s) (bt_StartedAt s) (bt_CompletedAt s) (bt_Artifact s)
    (bt_Conditions s).

Definition map_backup_status (f : CubridBackupStatus -> CubridBackupStatus) (b : CubridBackup) : CubridBackup :=
  mkBackup (bk_Namespace b) (bk_Name b) (bk_UID b) (bk_Generation b) (bk_CreationTimestamp b) (bk_Spec b)
    (f (bk_Status b)).
