(* ===== verification/GoStr.v ===== *)
(** * Go's strings package, as the program uses it

    A Go string is a sequence of bytes.  [TrimSpace] is written out on the
    UTF-8 encodings of the code points of [unicode.IsSpace]; [Cut] and [SplitN]
    take a separator of one ASCII character. *)
From stdpp Require Import prelude strings list.
From Stdlib Require Import Ascii String.
From S2P Require Import Prelude.

(** ** TrimSpace *)

Definition bytes (l : list N) : list ascii := ascii_of_N <$> l.

(** The encodings of the white space code points. *)
Definition spaceRunes : list (list ascii) :=
  bytes <$> (([[9]; [10]; [11]; [12]; [13]; [32]; [194; 133]; [194; 160]; [225; 154; 128]] ++
    ((fun i => [226; 128; 128 + N.of_nat i]) <$> seq 0 11) ++
    [[226; 128; 168]; [226; 128; 169]; [226; 128; 175]; [226; 129; 159]; [227; 128; 128]])%N).

Fixpoint stripPrefix (p s : list ascii) : option (list ascii) :=
  match p, s with
  | [], s => Some s
  | a :: p, b :: s => if a == b then stripPrefix p s else None
  | _ :: _, [] => None
  end.

(** One white space rune taken off the front, by the given encodings. *)
Fixpoint stripOne (runes : list (list ascii)) (s : list ascii) : option (list ascii) :=
  match runes with
  | [] => None
  | r :: runes => match stripPrefix r s with Some s' => Some s' | None => stripOne runes s end
  end.

(** Every rune is at least one byte long, so the length of [s] bounds the
    number of passes. *)
Fixpoint trimFront (fuel : nat) (runes : list (list ascii)) (s : list ascii) : list ascii :=
  match fuel with
  | O => s
  | S fuel => match stripOne runes s with Some s' => trimFront fuel runes s' | None => s end
  end.

Definition TrimSpace (s : string) : string :=
  let l := list_ascii_of_string s in
  let l := trimFront (List.length l) spaceRunes l in
  let l := rev (trimFront (List.length l) (@rev ascii <$> spaceRunes) (rev l)) in
  string_of_list_ascii l.

(** ** Cut and SplitN *)

Fixpoint Cut (sep : ascii) (s : string) : option (string * string) :=
  match s with
  | EmptyString => None
  | String c s' =>
      if c == sep then Some ("", s')
      else match Cut sep s' with Some (a, b) => Some (String c a, b) | None => None end
  end.

Fixpoint SplitN (sep : ascii) (n : nat) (s : string) : list string :=
  match n with
  | O => []
  | S O => [s]
  | S n => match Cut sep s with Some (a, b) => a :: SplitN sep n b | None => [s] end
  end.

Fixpoint str_forall (p : ascii -> bool) (s : string) : bool :=
  match s with EmptyString => true | String c s => p c && str_forall p s end.

Lemma str_forall_app p s t : str_forall p (s +:+ t) = str_forall p s && str_forall p t.
Proof. induction s as [|c s IH]; simpl; [done|]. by rewrite IH, andb_assoc. Qed.

Lemma str_app_assoc (s t u : string) : (s +:+ t) +:+ u = s +:+ t +:+ u.
Proof. induction s as [|c s IH]; [done|]. exact (f_equal (String c) IH). Qed.

Lemma str_app_nil_r s : s +:+ "" = s.
Proof. induction s as [|c s IH]; [done|]. exact (f_equal (String c) IH). Qed.

Lemma Cut_app sep a b :
  str_forall (fun c => c != sep) a = true -> Cut sep (a +:+ String sep EmptyString +:+ b) = Some (a, b).
Proof.
  induction a as [|c a IH]; simpl; intros H.
  - by rewrite bool_decide_eq_true_2.
  - bool_simpl. rewrite bool_decide_eq_false_2 by done. by rewrite IH.
Qed.

Lemma Cut_None sep a : str_forall (fun c => c != sep) a = true -> Cut sep a = None.
Proof.
  induction a as [|c a IH]; simpl; intros H; [done|].
  bool_simpl. rewrite bool_decide_eq_false_2 by done. by rewrite IH.
Qed.

(** ** Trimming what has nothing to trim *)

Lemma trimFront_id fuel runes s : stripOne runes s = None -> trimFront fuel runes s = s.
Proof. intros H. destruct fuel; simpl; by rewrite ?H. Qed.

Lemma stripOne_head runes c s :
  Forall (fun r => match r with [] => False | a :: _ => a <> c end) runes -> stripOne runes (c :: s) = None.
Proof.
  induction 1 as [|r runes Hr _ IH]; [done|]. simpl. destruct r as [|a r]; [done|].
  simpl. by rewrite bool_decide_eq_false_2.
Qed.

Lemma list_ascii_app s t :
  list_ascii_of_string (s +:+ t) = (list_ascii_of_string s ++ list_ascii_of_string t)%list.
Proof. induction s as [|c s IH]; simpl; [done|]. by rewrite IH. Qed.

(** The last character of a string. *)
Definition lastChar (s : string) : option ascii := last (list_ascii_of_string s).

Lemma lastChar_app s t d : lastChar t = Some d -> lastChar (s +:+ t) = Some d.
Proof. unfold lastChar. rewrite list_ascii_app, last_app. by intros ->. Qed.

Lemma str_forall_last p s d : str_forall p s = true -> lastChar s = Some d -> p d = true.
Proof.
  unfold lastChar. revert d. induction s as [|c s IH]; intros d; [done|]. cbn [str_forall list_ascii_of_string].
  intros [Hc Hs]%andb_true_iff. rewrite last_cons.
  destruct (last (list_ascii_of_string s)) eqn:E; naive_solver.
Qed.

Lemma lastChar_nonempty s : s <> "" -> exists d, lastChar s = Some d.
Proof.
  intros Hs. unfold lastChar. destruct (last (list_ascii_of_string s)) eqn:E; [eauto|].
  apply last_None in E. by destruct s.
Qed.

(** Text between double quotes. *)
Definition dquote : string := String (ascii_of_nat 34) "".
Definition quoted (s : string) : string := dquote +:+ s +:+ dquote.
