(* ===== verification/Utf8.v ===== *)
(** * UTF-8

    Go strings are bytes; the program looks at them as code points where it
    counts characters, matches a pattern or cleans a message.  Decoding and
    encoding of [unicode/utf8], with the round trip between them. *)
From stdpp Require Import prelude strings list.
From Stdlib Require Import Ascii String Lia.
From S2P Require Import Prelude GoStr.

(** ** Decoding

    [runes] decodes a Go string the way [range], [utf8.RuneCountInString] and
    the [regexp] package do: a byte that starts no valid encoding is one
    U+FFFD. *)
Definition RuneError : N := 65533.
Definition in_range (lo b hi : N) : bool := N.leb lo b && N.leb b hi.
Definition cont (b : N) : bool := in_range 128 b 191.

(** The second bytes allowed after a first byte of two, three and four. *)
Definition second2 (b0 b1 : N) : bool := in_range 194 b0 223 && cont b1.
Definition second3 (b0 b1 : N) : bool :=
  (bool_decide (b0 = 224%N) && in_range 160 b1 191) ||
  (bool_decide (b0 = 237%N) && in_range 128 b1 159) ||
  ((in_range 225 b0 236 || in_range 238 b0 239) && cont b1).
Definition second4 (b0 b1 : N) : bool :=
  (bool_decide (b0 = 240%N) && in_range 144 b1 191) ||
  (bool_decide (b0 = 244%N) && in_range 128 b1 143) ||
  (in_range 241 b0 243 && cont b1).

Definition rune2 (b0 b1 : N) : N := ((b0 - 192) * 64 + (b1 - 128))%N.
Definition rune3 (b0 b1 b2 : N) : N := (((b0 - 224) * 64 + (b1 - 128)) * 64 + (b2 - 128))%N.
Definition rune4 (b0 b1 b2 b3 : N) : N :=
  ((((b0 - 240) * 64 + (b1 - 128)) * 64 + (b2 - 128)) * 64 + (b3 - 128))%N.

Fixpoint runesOf (s : list N) : list N :=
  match s with
  | [] => []
  | b0 :: s1 =>
      if N.ltb b0 128 then b0 :: runesOf s1
      else match s1 with
      | [] => [RuneError]
      | b1 :: s2 =>
          if second2 b0 b1 then rune2 b0 b1 :: runesOf s2
          else match s2 with
          | [] => RuneError :: runesOf s1
          | b2 :: s3 =>
              if second3 b0 b1 && cont b2 then rune3 b0 b1 b2 :: runesOf s3
              else match s3 with
              | [] => RuneError :: runesOf s1
              | b3 :: s4 =>
                  if second4 b0 b1 && cont b2 && cont b3 then rune4 b0 b1 b2 b3 :: runesOf s4
                  else RuneError :: runesOf s1
              end
          end
      end
  end.

Definition bytesOf (s : string) : list N := N_of_ascii <$> list_ascii_of_string s.
Definition runes (s : string) : list N := runesOf (bytesOf s).
Definition RuneCountInString (s : string) : nat := List.length (runes s).

(** ** Encoding

    [string(r)] of a rune: a value that is no Unicode scalar value is written
    as U+FFFD. *)
Definition isScalar (r : N) : bool := N.leb r 1114111 && negb (in_range 55296 r 57343).
Definition encodeScalar (r : N) : list N :=
  (if N.ltb r 128 then [r]
   else if N.ltb r 2048 then [192 + r / 64; 128 + r mod 64]
   else if N.ltb r 65536 then [224 + r / 4096; 128 + r / 64 mod 64; 128 + r mod 64]
   else [240 + r / 262144; 128 + r / 4096 mod 64; 128 + r / 64 mod 64; 128 + r mod 64])%N.
Definition encodeRune (r : N) : list N := encodeScalar (if isScalar r then r else RuneError).
Definition encodeRunes (l : list N) : list N := l ≫= encodeRune.
Definition stringOfBytes (l : list N) : string := string_of_list_ascii (ascii_of_N <$> l).
Definition stringOfRunes (l : list N) : string := stringOfBytes (encodeRunes l).

(** ** The round trip *)

#[local] Ltac Zify.zify_post_hook ::= Z.to_euclidean_division_equations.

(** Decides the byte tests of the goal by arithmetic. *)
#[local] Ltac byte_tests :=
  unfold isScalar, second2, second3, second4, cont, in_range;
  repeat (match goal with
  | |- context [N.leb ?a ?b] => destruct (N.leb_spec a b)
  | |- context [N.ltb ?a ?b] => destruct (N.ltb_spec a b)
  | |- context [bool_decide (?a = ?b :> N)] => destruct (bool_decide_reflect (a = b))
  end; try lia; cbn [andb orb negb]).

Lemma decode_ascii r rest : (r < 128)%N -> runesOf (r :: rest) = r :: runesOf rest.
Proof. intros H. cbn [runesOf]. by rewrite (proj2 (N.ltb_lt _ _) H). Qed.

Lemma runes_two b0 b1 rest : (128 <= b0)%N -> second2 b0 b1 = true ->
  runesOf (b0 :: b1 :: rest) = rune2 b0 b1 :: runesOf rest.
Proof. intros H H2. cbn [runesOf]. by rewrite (proj2 (N.ltb_ge _ _) H), H2. Qed.

Lemma runes_three b0 b1 b2 rest : (128 <= b0)%N -> second2 b0 b1 = false ->
  second3 b0 b1 = true -> cont b2 = true ->
  runesOf (b0 :: b1 :: b2 :: rest) = rune3 b0 b1 b2 :: runesOf rest.
Proof. intros H H2 H3 Hc. cbn [runesOf]. by rewrite (proj2 (N.ltb_ge _ _) H), H2, H3, Hc. Qed.

Lemma runes_four b0 b1 b2 b3 rest : (128 <= b0)%N -> second2 b0 b1 = false -> second3 b0 b1 = false ->
  second4 b0 b1 = true -> cont b2 = true -> cont b3 = true ->
  runesOf (b0 :: b1 :: b2 :: b3 :: rest) = rune4 b0 b1 b2 b3 :: runesOf rest.
Proof. intros H H2 H3 H4 Hc Hd. cbn [runesOf]. by rewrite (proj2 (N.ltb_ge _ _) H), H2, H3, H4, Hc, Hd. Qed.

Lemma decode_encode r rest : isScalar r = true -> runesOf (encodeScalar r ++ rest) = r :: runesOf rest.
Proof.
  unfold isScalar, in_range. intros [Hmax%N.leb_le Hs%negb_true_iff]%andb_true_iff.
  assert (r < 55296 \/ 57343 < r)%N as Hsur.
  { apply andb_false_iff in Hs as [Hs%N.leb_gt|Hs%N.leb_gt]; lia. }
  unfold encodeScalar. destruct (N.ltb_spec r 128); [by apply decode_ascii|].
  destruct (N.ltb_spec r 2048).
  { rewrite <- app_comm_cons, <- app_comm_cons, runes_two by (byte_tests; done || lia). simpl. f_equal. unfold rune2. lia. }
  destruct (N.ltb_spec r 65536).
  { rewrite <- !app_comm_cons, runes_three by (byte_tests; done || lia). simpl. f_equal. unfold rune3. lia. }
  rewrite <- !app_comm_cons, runes_four by (byte_tests; done || lia). simpl. f_equal. unfold rune4. lia.
Qed.

Lemma decode_encodeRunes l : Forall (fun r => isScalar r = true) l -> runesOf (encodeRunes l) = l.
Proof.
  induction 1 as [|r l Hr _ IH]; [done|]. unfold encodeRunes. cbn [mbind list_bind].
  unfold encodeRune at 1. rewrite Hr, decode_encode by done. f_equal. exact IH.
Qed.

(** ** One rune at a time *)

Definition decodeRune (b0 : N) (s1 : list N) : N * list N :=
  if N.ltb b0 128 then (b0, s1)
  else match s1 with
  | [] => (RuneError, s1)
  | b1 :: s2 =>
      if second2 b0 b1 then (rune2 b0 b1, s2)
      else match s2 with
      | [] => (RuneError, s1)
      | b2 :: s3 =>
          if second3 b0 b1 && cont b2 then (rune3 b0 b1 b2, s3)
          else match s3 with
          | [] => (RuneError, s1)
          | b3 :: s4 => if second4 b0 b1 && cont b2 && cont b3 then (rune4 b0 b1 b2 b3, s4) else (RuneError, s1)
          end
      end
  end.

Lemma runesOf_cons b0 s1 : runesOf (b0 :: s1) = (decodeRune b0 s1).1 :: runesOf (decodeRune b0 s1).2.
Proof.
  unfold decodeRune. destruct (N.ltb b0 128) eqn:E; [cbn [runesOf]; by rewrite E|].
  destruct s1 as [|b1 s2]; [cbn [runesOf]; by rewrite E|].
  destruct (second2 b0 b1) eqn:E2; [cbn [runesOf]; by rewrite E, E2|].
  destruct s2 as [|b2 s3]; [cbn [runesOf]; by rewrite E, E2|].
  destruct (second3 b0 b1 && cont b2) eqn:E3; [cbn [runesOf]; by rewrite E, E2, E3|].
  destruct s3 as [|b3 s4]; [cbn [runesOf]; by rewrite E, E2, E3|].
  destruct (second4 b0 b1 && cont b2 && cont b3) eqn:E4; cbn [runesOf]; by rewrite E, E2, E3, E4.
Qed.

Lemma decodeRune_shorter b0 s1 : (List.length (decodeRune b0 s1).2 <= List.length s1)%nat.
Proof. unfold decodeRune. repeat case_test; cbn [snd List.length]; lia. Qed.

Lemma ascii_not_cont c b : (c < 128)%N ->
  cont c = false /\ second2 b c = false /\ second3 b c = false /\ second4 b c = false.
Proof. intros H. split_and!; byte_tests; done. Qed.

Lemma decodeRune_app b0 s1 c t : (c < 128)%N ->
  decodeRune b0 (s1 ++ c :: t) = ((decodeRune b0 s1).1, (decodeRune b0 s1).2 ++ c :: t).
Proof.
  intros Hc. unfold decodeRune. destruct (N.ltb b0 128); [done|].
  destruct (ascii_not_cont c b0 Hc) as (Hn & H2 & H3 & H4).
  destruct s1 as [|b1 s2]; cbn [app].
  { rewrite H2, H3, H4. cbn [andb]. by repeat case_test. }
  destruct (second2 b0 b1); [done|]. destruct s2 as [|b2 s3]; cbn [app].
  { rewrite Hn, !andb_false_r. cbn [andb]. by repeat case_test. }
  destruct (second3 b0 b1 && cont b2); [done|]. destruct s3 as [|b3 s4]; cbn [app].
  { by rewrite Hn, andb_false_r. }
  by destruct (second4 b0 b1 && cont b2 && cont b3).
Qed.

(** Decoding takes up again at every ASCII byte. *)
Lemma runesOf_ascii a c t : (c < 128)%N -> runesOf (a ++ c :: t) = runesOf a ++ c :: runesOf t.
Proof.
  intros Hc. induction a as [[|b0 s1] IH] using (induction_ltof1 _ (@List.length N)).
  { by apply decode_ascii. }
  change ((b0 :: s1) ++ c :: t) with (b0 :: (s1 ++ c :: t)). rewrite !runesOf_cons, decodeRune_app by done.
  cbn [fst snd app]. f_equal. apply IH. unfold ltof. pose proof (decodeRune_shorter b0 s1). simpl. lia.
Qed.

Lemma runesOf_all_ascii l : Forall (fun c => (c < 128)%N) l -> runesOf l = l.
Proof.
  induction 1 as [|c l Hc _ IH]; [done|]. rewrite (decode_ascii c) by done. by rewrite IH.
Qed.

Lemma runesOf_app_ascii a l : Forall (fun c => (c < 128)%N) l -> runesOf (a ++ l) = runesOf a ++ l.
Proof.
  destruct 1 as [|c l Hc Hl]; [by rewrite !app_nil_r|].
  by rewrite runesOf_ascii, (runesOf_all_ascii l) by done.
Qed.

(** Every decoded value is a Unicode scalar value. *)
Lemma decodeRune_scalar b0 s1 : isScalar (decodeRune b0 s1).1 = true.
Proof.
  unfold decodeRune. destruct (N.ltb_spec b0 128).
  { cbn [fst]. byte_tests; done || lia. }
  destruct s1 as [|b1 s2]; [done|]. destruct (second2 b0 b1) eqn:E2.
  { cbn [fst]. unfold second2, cont, in_range, rune2 in *. bool_simpl.
    rewrite ?N.leb_le in *. byte_tests; done || lia. }
  destruct s2 as [|b2 s3]; [done|]. destruct (second3 b0 b1 && cont b2) eqn:E3.
  { cbn [fst]. unfold second3, cont, in_range, rune3 in *.
    revert E3. byte_tests; intros; try discriminate; done || lia. }
  destruct s3 as [|b3 s4]; [done|]. destruct (second4 b0 b1 && cont b2 && cont b3) eqn:E4; [|done].
  cbn [fst]. unfold second4, cont, in_range, rune4 in *.
  revert E4. byte_tests; intros; try discriminate; done || lia.
Qed.

Lemma runesOf_scalar s : Forall (fun r => isScalar r = true) (runesOf s).
Proof.
  induction s as [[|b0 s1] IH] using (induction_ltof1 _ (@List.length N)); [constructor|].
  rewrite runesOf_cons. constructor; [apply decodeRune_scalar|]. apply IH.
  unfold ltof. pose proof (decodeRune_shorter b0 s1). simpl. lia.
Qed.

(** ** Strings *)

Lemma bytesOf_app s t : bytesOf (s +:+ t) = bytesOf s ++ bytesOf t.
Proof. unfold bytesOf. by rewrite list_ascii_app, fmap_app. Qed.

Lemma bytesOf_string l : Forall (fun b => (b < 256)%N) l -> bytesOf (stringOfBytes l) = l.
Proof.
  unfold bytesOf, stringOfBytes. rewrite list_ascii_of_string_of_list_ascii.
  induction 1 as [|b l Hb _ IH]; [done|]. cbn. by rewrite N_ascii_embedding, IH.
Qed.

Lemma stringOfBytes_bytesOf s : stringOfBytes (bytesOf s) = s.
Proof.
  unfold bytesOf, stringOfBytes. rewrite <- list_fmap_compose.
  rewrite (list_fmap_ext _ id), list_fmap_id; [apply string_of_list_ascii_of_string|].
  intros i c _. apply ascii_N_embedding.
Qed.

Lemma encodeScalar_bytes r : isScalar r = true -> Forall (fun b => (b < 256)%N) (encodeScalar r).
Proof.
  unfold isScalar. intros [Hmax%N.leb_le _]%andb_true_iff. unfold encodeScalar.
  repeat case_test; rewrite ?N.ltb_lt, ?N.ltb_ge in *; repeat constructor; lia.
Qed.

Lemma encodeRunes_bytes l : Forall (fun r => isScalar r = true) l -> Forall (fun b => (b < 256)%N) (encodeRunes l).
Proof.
  induction 1 as [|r l Hr _ IH]; [constructor|]. unfold encodeRunes. cbn [mbind list_bind].
  apply Forall_app. split; [|exact IH]. unfold encodeRune. rewrite Hr. by apply encodeScalar_bytes.
Qed.

(** What was encoded from scalar values is decoded to them. *)
Lemma runes_stringOfRunes l : Forall (fun r => isScalar r = true) l -> runes (stringOfRunes l) = l.
Proof.
  intros Hl. unfold runes, stringOfRunes. rewrite bytesOf_string by by apply encodeRunes_bytes.
  by apply decode_encodeRunes.
Qed.

Definition asciiOnly (s : string) : Prop := Forall (fun b => (b < 128)%N) (bytesOf s).
#[global] Instance asciiOnly_dec s : Decision (asciiOnly s).
Proof. unfold asciiOnly. apply _. Defined.

Lemma runes_ascii s : asciiOnly s -> runes s = bytesOf s.
Proof. apply runesOf_all_ascii. Qed.

Lemma runes_app_ascii_l s t : asciiOnly s -> runes (s +:+ t) = bytesOf s ++ runes t.
Proof.
  unfold runes, asciiOnly. rewrite bytesOf_app. generalize (bytesOf t). intros l.
  induction 1 as [|c s' Hc _ IH]; [done|]. cbn [app]. by rewrite decode_ascii, IH.
Qed.

Lemma runes_app_ascii_mid s c t : (N_of_ascii c < 128)%N ->
  runes (s +:+ String c t) = runes s ++ N_of_ascii c :: runes t.
Proof. intros Hc. unfold runes. rewrite bytesOf_app. by apply runesOf_ascii. Qed.

Lemma encode_ascii l : Forall (fun r => (r < 128)%N) l -> encodeRunes l = l.
Proof.
  induction 1 as [|r l Hr _ IH]; [done|]. unfold encodeRunes. cbn [mbind list_bind].
  unfold encodeRune at 1. replace (isScalar r) with true by (symmetry; byte_tests; done || lia).
  unfold encodeScalar. rewrite (proj2 (N.ltb_lt _ _) Hr). cbn [app]. f_equal. exact IH.
Qed.

(** ** Taking a text apart at an ASCII character *)

Lemma decodeRune_low b0 s1 : ((decodeRune b0 s1).1 < 128)%N -> decodeRune b0 s1 = (b0, s1) /\ (b0 < 128)%N.
Proof.
  unfold decodeRune. destruct (N.ltb_spec b0 128); [done|].
  destruct s1 as [|b1 s2]; [done|]. destruct (second2 b0 b1) eqn:E2.
  { cbn [fst]. revert E2. unfold second2, cont, in_range, rune2. byte_tests; intros; try discriminate; lia. }
  destruct s2 as [|b2 s3]; [done|]. destruct (second3 b0 b1 && cont b2) eqn:E3.
  { cbn [fst]. revert E3. unfold second3, cont, in_range, rune3. byte_tests; intros; try discriminate; lia. }
  destruct s3 as [|b3 s4]; [done|]. destruct (second4 b0 b1 && cont b2 && cont b3) eqn:E4; [|done].
  cbn [fst]. revert E4. unfold second4, cont, in_range, rune4. byte_tests; intros; try discriminate; lia.
Qed.

Lemma decodeRune_suffix b0 s1 : exists used, s1 = used ++ (decodeRune b0 s1).2.
Proof.
  unfold decodeRune. repeat case_test; cbn [snd];
    first [by exists [] | by eexists [_] | by eexists [_; _] | by eexists [_; _; _]].
Qed.

Lemma runesOf_split l A c T : (c < 128)%N -> runesOf l = A ++ c :: T ->
  exists l1 l2, l = l1 ++ c :: l2 /\ runesOf l1 = A /\ runesOf l2 = T.
Proof.
  intros Hc. revert l. induction A as [|x A IH]; intros [|b0 s1]; try done; rewrite runesOf_cons; intros [= Hr Ht].
  - destruct (decodeRune_low b0 s1) as [Hd _]; [by rewrite Hr|]. rewrite Hd in *. cbn in *. subst. by exists [], s1.
  - destruct (IH _ Ht) as (l1 & l2 & Hs & H1 & H2). destruct (decodeRune_suffix b0 s1) as [used Hu].
    exists (b0 :: used ++ l1), l2. split_and!; [rewrite Hu, Hs; cbn; by rewrite app_assoc| |done].
    assert (decodeRune b0 s1 = decodeRune b0 ((used ++ l1) ++ c :: l2)) as Hd by (rewrite <- app_assoc, <- Hs, <- Hu; done).
    rewrite decodeRune_app in Hd by done. rewrite Hd in Hs, Hr. cbn [fst snd] in *.
    apply app_inv_tail in Hs. by rewrite runesOf_cons, Hs, Hr, H1.
Qed.

(** A text whose runes are all ASCII is them. *)
Lemma runesOf_ascii_inv l : Forall (fun c => (c < 128)%N) (runesOf l) -> l = runesOf l.
Proof.
  induction l as [|b0 s1 IH]; [done|]. rewrite runesOf_cons. intros [Hc Hs]%Forall_cons.
  destruct (decodeRune_low b0 s1 Hc) as [Hd _]. rewrite Hd in *. cbn in *. f_equal. by apply IH.
Qed.

Lemma stringOfBytes_app a b : stringOfBytes (a ++ b) = stringOfBytes a +:+ stringOfBytes b.
Proof.
  unfold stringOfBytes. rewrite fmap_app. induction (ascii_of_N <$> a) as [|c l IH]; [done|].
  exact (f_equal (String c) IH).
Qed.

Lemma bytesOf_bound s : Forall (fun b => (b < 256)%N) (bytesOf s).
Proof.
  unfold bytesOf. induction (list_ascii_of_string s); cbn; constructor; [apply N_ascii_bounded|done].
Qed.
