(* ===== verification/Engine.v ===== *)
(** * Engine versions

    [EngineSeries] and [isDecimal] of [internal/instancemanager/cli.go], the
    restore guard of [restore.go], the update guard's classification of
    [internal/controller/update.go] and the hold of [bootstrap.go]: versions
    are compared by series, major and minor. *)
From stdpp Require Import prelude strings list.
From Stdlib Require Import Ascii String.
From S2P Require Import Prelude Api GoStr.

Definition isDigit (c : ascii) : bool := (N.leb 48 (N_of_ascii c)) && (N.leb (N_of_ascii c) 57).

(** A rune outside ASCII is not a digit in any of its bytes. *)
Definition isDecimal (s : string) : bool := if s == "" then false else str_forall isDigit s.

Definition EngineSeries (v : string) : string :=
  match SplitN "." 3 (TrimSpace v) with
  | major :: minor :: _ =>
      if negb (isDecimal major) || negb (isDecimal minor) then "" else major +:+ "." +:+ minor
  | _ => ""
  end.

Inductive UpdateClass := UpdateNone | UpdateEngineUpgradeBlocked | UpdateUnverifiable.

Definition classifyEngineChange (desired observed : string) : UpdateClass :=
  let want := EngineSeries desired in
  if want == "" then UpdateUnverifiable
  else if observed == "" then UpdateNone
  else
    let got := EngineSeries observed in
    if got == "" then UpdateUnverifiable
    else if want != got then UpdateEngineUpgradeBlocked
    else UpdateNone.

(** The refusals of checkRestoreEngine. *)
Inductive RestoreEngineError := EngineNotKnown (engine : string) | EngineNotDeclared (engine declared : string).

Definition checkRestoreEngine (engine declared : string) : option RestoreEngineError :=
  let series := EngineSeries engine in
  if series == "" then Some (EngineNotKnown engine)
  else if (declared != "") && (EngineSeries declared != series) then Some (EngineNotDeclared engine declared)
  else None.

(** engineSeriesHold: the loop over the instances, with its early returns. *)
Fixpoint engineSeriesHoldIn (instances : list InstanceStatus) (version member : string) : string * bool :=
  match instances with
  | [] => ("", false)
  | i :: rest =>
      if (is_Name i != member) || (is_ObservedEngineVersion i == "") then engineSeriesHoldIn rest version member
      else
        let series := EngineSeries (is_ObservedEngineVersion i) in
        if (series != "") && (series == EngineSeries version) then ("", false)
        else (member +:+ " runs engine " +:+ is_ObservedEngineVersion i +:+ ", which is not of spec.version " +:+
              version +:+ "; the step waits and uses up no attempt (ADR-0011)", true)
  end.

Definition engineSeriesHold (cluster : CubridCluster) (member : string) : string * bool :=
  engineSeriesHoldIn (st_Instances (cl_Status cluster)) (sp_Version (cl_Spec cluster)) member.

(** ** Series *)

Lemma isDecimal_iff s : isDecimal s = true <-> s <> "" /\ str_forall isDigit s = true.
Proof. unfold isDecimal. case_bool_decide; naive_solver. Qed.

Lemma digits_no_dot s : str_forall isDigit s = true -> str_forall (fun c => c != "."%char) s = true.
Proof.
  induction s as [|c s IH]; simpl; [done|]. intros [Hc Hs]%andb_true_iff. rewrite IH by done.
  rewrite andb_true_r. btrue. btrue. intros ->. vm_compute in Hc. done.
Qed.

Definition noDigitHead (r : list ascii) : bool :=
  match r with [] => false | a :: _ => negb (isDigit a) end.

Lemma noDigitHead_spec c runes :
  isDigit c = true -> forallb noDigitHead runes = true ->
  Forall (fun r => match r with [] => False | a :: _ => a <> c end) runes.
Proof.
  intros Hc Hr. eapply Forall_impl; [by apply forallb_Forall_iff|].
  intros [|a r]; simpl; [done|]. intros Ha ->. by rewrite Hc in Ha.
Qed.

Lemma spaces_no_digit :
  forallb noDigitHead spaceRunes = true /\ forallb noDigitHead (@rev ascii <$> spaceRunes) = true.
Proof. split; vm_compute; reflexivity. Qed.

(** A text that begins and ends with a digit has nothing to trim. *)
Lemma TrimSpace_digits s c t d :
  list_ascii_of_string s = c :: t -> last (c :: t) = Some d ->
  isDigit c = true -> isDigit d = true -> TrimSpace s = s.
Proof.
  intros Hl Hlast Hc Hd. unfold TrimSpace. rewrite Hl.
  rewrite (trimFront_id _ spaceRunes) by (apply stripOne_head, noDigitHead_spec, spaces_no_digit; exact Hc).
  assert (exists u, rev (c :: t) = d :: u) as [u Hu].
  { apply last_Some in Hlast as [u ->]. exists (rev u). by rewrite rev_app_distr. }
  rewrite Hu, trimFront_id by (apply stripOne_head, noDigitHead_spec, spaces_no_digit; exact Hd).
  rewrite <- Hu, rev_involutive, <- Hl. apply string_of_list_ascii_of_string.
Qed.

Lemma TrimSpace_decimal a b : isDecimal a = true -> (exists d, lastChar b = Some d /\ isDigit d = true) ->
  TrimSpace (a +:+ b) = a +:+ b.
Proof.
  intros [Hne Ha]%isDecimal_iff (d & Hb & Hd). destruct a as [|c a]; [done|]. simpl in Ha.
  apply andb_true_iff in Ha as [Hc _].
  apply (TrimSpace_digits _ c (list_ascii_of_string (a +:+ b)) d); [done| |done|done].
  by apply (lastChar_app (String c a)) in Hb.
Qed.

(** [a.b], and [a.b.rest] for a rest that ends with a digit. *)
Lemma EngineSeries_short a b :
  isDecimal a = true -> isDecimal b = true -> EngineSeries (a +:+ "." +:+ b) = a +:+ "." +:+ b.
Proof.
  intros Ha Hb. pose proof (proj1 (isDecimal_iff _) Ha) as [_ Ha']. pose proof (proj1 (isDecimal_iff _) Hb) as [Hbn Hb'].
  destruct (lastChar_nonempty b Hbn) as [d Hd].
  unfold EngineSeries. rewrite TrimSpace_decimal; [|done|].
  - cbn [SplitN String.append]. rewrite Cut_app by by apply digits_no_dot. rewrite Cut_None by by apply digits_no_dot.
    by rewrite Ha, Hb.
  - exists d. split; [by apply (lastChar_app ".")|by eapply str_forall_last].
Qed.

Lemma EngineSeries_long a b rest d :
  isDecimal a = true -> isDecimal b = true -> lastChar rest = Some d -> isDigit d = true ->
  EngineSeries (a +:+ "." +:+ b +:+ "." +:+ rest) = a +:+ "." +:+ b.
Proof.
  intros Ha Hb Hr Hd. pose proof (proj1 (isDecimal_iff _) Ha) as [_ Ha']. pose proof (proj1 (isDecimal_iff _) Hb) as [_ Hb'].
  unfold EngineSeries. rewrite TrimSpace_decimal; [|done|].
  - cbn [SplitN String.append]. rewrite Cut_app by by apply digits_no_dot. rewrite Cut_app by by apply digits_no_dot.
    by rewrite Ha, Hb.
  - exists d. split; [|done]. by apply (lastChar_app "."), lastChar_app, (lastChar_app ".").
Qed.

Lemma EngineSeries_shape v :
  EngineSeries v = "" \/
  exists a b, isDecimal a = true /\ isDecimal b = true /\ EngineSeries v = a +:+ "." +:+ b.
Proof.
  unfold EngineSeries. destruct (SplitN _ _ _) as [|a [|b l]]; try (by left).
  destruct (isDecimal a) eqn:Ha, (isDecimal b) eqn:Hb; simpl; eauto 10.
Qed.

(** The series is canonical: it is empty or a decimal major and minor
    joined by a dot, taking the series of a series changes nothing, and every
    version of that series with anything after the minor (ending in a digit)
    has it as its series. *)
Theorem EngineSeries_canonical v :
  EngineSeries (EngineSeries v) = EngineSeries v /\
  (EngineSeries v <> "" -> forall rest d, lastChar rest = Some d -> isDigit d = true ->
     EngineSeries (EngineSeries v +:+ "." +:+ rest) = EngineSeries v).
Proof.
  destruct (EngineSeries_shape v) as [->|(a & b & Ha & Hb & ->)]; split; try done.
  - by apply EngineSeries_short.
  - intros _ rest d Hr Hd. transitivity (EngineSeries (a +:+ "." +:+ b +:+ "." +:+ rest)).
    + f_equal. by rewrite !str_app_assoc.
    + by apply EngineSeries_long with d.
Qed.

(** An engine change is let through exactly when the desired version has
    a series and the baseline is not recorded yet or is of that series; it is
    an upgrade exactly when both have a series and they differ. *)
Theorem classifyEngineChange_iff desired observed :
  (classifyEngineChange desired observed = UpdateNone <->
   EngineSeries desired <> "" /\ (observed = "" \/ EngineSeries observed = EngineSeries desired)) /\
  (classifyEngineChange desired observed = UpdateEngineUpgradeBlocked <->
   EngineSeries desired <> "" /\ EngineSeries observed <> "" /\ EngineSeries observed <> EngineSeries desired).
Proof.
  assert (EngineSeries "" = "") as He by reflexivity.
  unfold classifyEngineChange. split; repeat case_bool_decide; simpl; subst; intuition congruence.
Qed.
