(* ===== verification/HARole.v ===== *)
(** * Role observations and the primary resolution

    [internal/instancemanager/role.go] (the answer of a member's Instance
    Manager and its node-list check), [internal/controller/roleprober.go] (how
    an answer becomes an observation) and the resolution part of
    [internal/controller/haresolve.go]. *)
From stdpp Require Import prelude gmap strings pretty list.
From S2P Require Import Prelude Api.

(** ** What an Instance Manager answers *)

Record LSA := mkLSA { lsa_Page : Z; lsa_Offset : Z }.

Record NodeState := mkNodeState { ns_Name : string; ns_Priority : Z; ns_State : string }.

Record ApplyConvergence := mkApplyConvergence {
  ac_Available : bool;
  ac_InsertCount : Z;
  ac_CommitCount : Z;
  ac_FailCount : Z;
  ac_AppliedChanges : Z;
  ac_DelayedPageCount : Z;
  ac_Source : string;
  ac_Applier : string;
  ac_FinalLSA : option LSA;
  ac_CopiedEOF : option LSA;
  ac_Reason : string }.

(** [LSA.Before] and [ApplyConvergence.Converged] of convergence.go. *)
Definition LSA_Before (a b : LSA) : bool :=
  (lsa_Page a <? lsa_Page b) || ((lsa_Page a == lsa_Page b) && (lsa_Offset a <? lsa_Offset b)).
Definition Converged (c : ApplyConvergence) : bool :=
  ac_Available c && (ac_FailCount c == 0) && (ac_DelayedPageCount c == 0).

Record UnfinishedDatabase := mkUnfinishedDatabase {
  ud_Database : string; ud_Operation : string; ud_State : string; ud_Reason : string }.
Definition UnfinishedWaiting : string := "WaitingForOperation".

Record ApplierProcess := mkApplierProcess { ap_LogPath : string; ap_PID : Z }.

Record HAStatus := mkHAStatus {
  ha_Current : string;
  ha_Role : string;
  ha_ServerActive : bool;
  ha_Nodes : list NodeState;
  ha_Source : string;
  ha_Reason : string;
  ha_EngineVersion : string;
  ha_Replication : option ApplyConvergence;
  ha_LogEnd : option LSA;
  ha_Appliers : list ApplierProcess;
  ha_Unfinished : option UnfinishedDatabase }.

(** localNodeMismatch: why the node list does not confirm the header's state
    of the local node; "" when it does. *)
Definition localNodeMismatch (current state : string) (nodes : list NodeState) : string :=
  let '(count, listed) :=
    fold_left (fun '(count, listed) n =>
      if ns_Name n == current then (S count, ns_State n) else (count, listed)) nodes (O, "") in
  if count == 0%nat then "the node list does not contain the current node '" +:+ current +:+ "'"
  else if (1 <? count)%nat then
    "the node list contains the current node '" +:+ current +:+ "' more than once"
  else if listed != state then
    "the node list gives the current node '" +:+ current +:+ "' state '" +:+ listed +:+
    "', the header '" +:+ state +:+ "'"
  else "".

(** ** Observations *)

Record ReplicationObservation := mkReplicationObservation {
  ro_Source : string;
  ro_AppliedChanges : Z;
  ro_FailCount : Z;
  ro_DelayedPages : Z;
  ro_Applier : string;
  ro_FinalLSA : option LogAddress;
  ro_CopiedEOF : option LogAddress;
  ro_SourceLogEnd : option LogAddress }.

Record RoleObservation := mkRoleObservation {
  o_Reachable : bool;
  o_TokenRefused : bool;
  o_Role : CubridRole;
  o_ObservedAt : Time;
  o_Conflicting : bool;
  o_ActiveMasterClaim : bool;
  o_MasterNotYetActive : bool;
  o_EngineVersion : string;
  o_Replication : option ReplicationObservation;
  o_LogEnd : option LogAddress;
  o_Reason : string;
  o_RequestID : string;
  o_Unfinished : option InstanceUnfinishedDatabase }.

(** The zero value, which a Go map read of an absent member gives. *)
Definition zeroObservation : RoleObservation :=
  mkRoleObservation false false "" 0 false false false "" None None "" "" None.

(** The observation of a member that gave no answer: [Reachable: false]. *)
Definition noAnswer (refused : bool) (at_ : Time) (reason id : string) : RoleObservation :=
  mkRoleObservation false refused "" at_ false false false "" None None reason id None.

Definition logAddress (a : option LSA) : option LogAddress :=
  (fun a => mkLogAddress (lsa_Page a) (lsa_Offset a)) <$> a.

Definition tokenRefused (status : Z) : bool := (status == 401) || (status == 403).

Section prober.
(** [cleanMessage] makes a member's text one printable line; nothing below
    depends on how. *)
Variable cleanMessage : string -> string.

Definition unfinishedFromStatus (u : option UnfinishedDatabase) : option InstanceUnfinishedDatabase :=
  (fun u =>
    let state := if ud_State u == UnfinishedWaiting then UnfinishedWaitingForOperation
                 else UnfinishedRefused in
    mkInstanceUnfinishedDatabase (cleanMessage (ud_Database u)) (cleanMessage (ud_Operation u))
      state (cleanMessage (ud_Reason u))) <$> u.

(** The loop of observationFromStatus over the node list, and one pass of it:
    (contradictsNodeList, localEntries, localMaster). *)
Definition nodeListStep (st : HAStatus) (acc : bool * nat * bool) (n : NodeState) : bool * nat * bool :=
  let '(contradicts, entries, master) := acc in
  let '(contradicts, entries, master) :=
    if ns_Name n == ha_Current st then
      (if ns_State n != ha_Role st then true else contradicts,
       S entries, master && (ns_State n == RoleMaster))
    else (contradicts, entries, master) in
  (if (ns_Name n != ha_Current st) && (ha_Role st == RoleMaster) && (ns_State n == RoleMaster)
   then true else contradicts, entries, master).

Definition nodeListScan (st : HAStatus) : bool * nat * bool :=
  fold_left (nodeListStep st) (ha_Nodes st) (false, O, true).

Definition observationFromStatus (st : HAStatus) (at_ : Time) : RoleObservation :=
  let unfinished := unfinishedFromStatus (ha_Unfinished st) in
  if (ha_Role st != RoleMaster) && (ha_Role st != RoleSlave) then
    let reason :=
      if (ha_Role st == RoleUnknown) || (ha_Role st == "") then
        let why := cleanMessage (ha_Reason st) in
        "the Instance Manager reported no role" +:+ (if why != "" then ": " +:+ why else "")
      else "" in
    mkRoleObservation true false (ha_Role st) at_ false false false (ha_EngineVersion st)
      None None reason "" unfinished
  else
    let replication :=
      match ha_Replication st with
      | Some r =>
          if (ha_Role st == RoleSlave) && ac_Available r then
            Some (mkReplicationObservation (ac_Source r) (ac_AppliedChanges r) (ac_FailCount r)
                    (ac_DelayedPageCount r) (ac_Applier r) (logAddress (ac_FinalLSA r))
                    (logAddress (ac_CopiedEOF r)) None)
          else None
      | None => None
      end in
    let logEnd := if ha_Role st == RoleMaster then logAddress (ha_LogEnd st) else None in
    let notYetActive := (ha_Role st == RoleMaster) && negb (ha_ServerActive st) in
    let '(contradictsNodeList, localEntries, localMaster) := nodeListScan st in
    let claim := (ha_Role st == RoleMaster) && ha_ServerActive st && (ha_Current st != "") &&
                 (localEntries == 1%nat) && localMaster in
    let reason :=
      if contradictsNodeList then "the role " +:+ ha_Role st +:+ " contradicts the HA node list"
      else if notYetActive then "a master whose server is not registered_and_active"
      else "" in
    mkRoleObservation true false (ha_Role st) at_ (notYetActive || contradictsNodeList) claim
      (notYetActive && negb contradictsNodeList) (ha_EngineVersion st) replication logEnd
      reason "" unfinished.

(** What the role query of one member ends with, before it is judged: the
    request could not be made (no URL, no token), it failed on the way, or a
    status came back, with the decoded body when it could be decoded. *)
Inductive RoleAnswer :=
  | NotSent (err : string)
  | SendFailed (err id : string)
  | Answered (status : Z) (body : option HAStatus) (id : string).

(** HTTPRoleProber.ProbeRole, from the answer to the query and the time it is
    stamped with. *)
Definition ProbeRole (podName : string) (answer : RoleAnswer) (now : Time) : RoleObservation :=
  match answer with
  | NotSent err => noAnswer false now (cleanMessage err) ""
  | SendFailed err id => noAnswer false now (cleanMessage err) id
  | Answered status body id =>
      if status != 200 then noAnswer (tokenRefused status) now ("status " +:+ pretty status) id
      else match body with
      | None => mkRoleObservation true false RoleUnknown now false false false "" None None
                  "unreadable answer" id None
      | Some st =>
          let o := observationFromStatus st now in
          let claim := if ha_Current st != podName then false else o_ActiveMasterClaim o in
          let other := (ha_Current st != "") && (ha_Current st != podName) in
          mkRoleObservation (o_Reachable o) (o_TokenRefused o) (o_Role o) (o_ObservedAt o)
            (if other then true else o_Conflicting o) claim
            (if other then false else o_MasterNotYetActive o)
            (o_EngineVersion o) (o_Replication o) (o_LogEnd o)
            (if other then "the answer names the member " +:+ cleanMessage (ha_Current st) else o_Reason o)
            id (o_Unfinished o)
      end
  end.
End prober.

(** ** The resolution *)

Definition roleObservationTTL : Duration := 15 * Second.
Definition haResyncInterval : Duration := 10 * Second.

Definition fresh (o : RoleObservation) (now : Time) : bool :=
  if negb (o_Reachable o) || IsZero (o_ObservedAt o) then false
  else let age := Sub now (o_ObservedAt o) in
       (age <=? roleObservationTTL) && (- roleObservationTTL <=? age).

Definition authoritative (o : RoleObservation) (now : Time) : bool :=
  if (o_Role o == RoleUnknown) || (o_Role o == "") || o_Conflicting o then false
  else fresh o now.

Definition reasonMultiplePrimaries : string := "MultiplePrimariesObserved".
Definition reasonTokenRefused : string := "InstanceManagerTokenRefused".

Record PrimaryResolution := mkResolution {
  res_CurrentPrimary : string;
  res_Status : ConditionStatus;
  res_Reason : string;
  res_MultipleMasters : bool;
  res_TokenRefused : list string }.

(** The variables of the loop of resolvePrimary. *)
Record resolveScan := mkScan {
  rs_masters : nat;
  rs_masterClaims : nat;
  rs_primary : string;
  rs_incomplete : bool;
  rs_ambiguous : bool;
  rs_refused : list string }.

(** One pass of that loop, for the member [m]. *)
Definition resolveMember (obs : gmap string RoleObservation) (now : Time)
  (s : resolveScan) (m : string) : resolveScan :=
  let found := obs !! m in
  let ok := non_nil found in
  let o := default zeroObservation found in
  let claims :=
    if fresh o now && (o_Role o == RoleMaster) && o_ActiveMasterClaim o
    then S (rs_masterClaims s) else rs_masterClaims s in
  if ok && o_Reachable o && o_Conflicting o then
    mkScan (rs_masters s) claims (rs_primary s) (rs_incomplete s) true (rs_refused s)
  else if negb ok || negb (authoritative o now) then
    mkScan (rs_masters s) claims (rs_primary s) true (rs_ambiguous s)
      (if ok && o_TokenRefused o then rs_refused s ++ [m] else rs_refused s)
  else if o_Role o == RoleMaster then
    mkScan (S (rs_masters s)) claims m (rs_incomplete s) (rs_ambiguous s) (rs_refused s)
  else mkScan (rs_masters s) claims (rs_primary s) (rs_incomplete s) (rs_ambiguous s) (rs_refused s).

Definition resolvePrimary (members : list string) (obs : gmap string RoleObservation) (now : Time)
  : PrimaryResolution :=
  let s := fold_left (resolveMember obs now) members (mkScan 0 0 "" false false []) in
  let multiple := ((1 <? rs_masters s) || (1 <? rs_masterClaims s))%nat in
  if (1 <? rs_masters s)%nat then mkResolution "" ConditionFalse reasonMultiplePrimaries multiple []
  else if rs_ambiguous s then
    mkResolution "" ConditionFalse "AmbiguousPrimaryObservation" multiple []
  else if (0 <? length (rs_refused s))%nat then
    mkResolution "" ConditionFalse reasonTokenRefused multiple (rs_refused s)
  else if rs_incomplete s then
    mkResolution "" ConditionFalse "PrimaryObservationIncomplete" multiple []
  else if rs_masters s == 0%nat then
    mkResolution "" ConditionFalse "NoPrimaryObserved" multiple []
  else mkResolution (rs_primary s) ConditionTrue "SinglePrimaryObserved" multiple [].

Definition primaryResolvedMessage (res : PrimaryResolution) : string :=
  if res_CurrentPrimary res != "" then "current primary: " +:+ res_CurrentPrimary res
  else if res_Reason res == reasonTokenRefused then
    let managers := if (1 <? length (res_TokenRefused res))%nat
                    then "the Instance Managers of " else "the Instance Manager of " in
    "no single authoritative primary observed: " +:+ managers +:+
    strJoin ", " (res_TokenRefused res) +:+ " refused the cluster's token"
  else "no single authoritative primary observed".

(** unobservedReason: why an observation that is not authoritative does not
    count.  [quote] is [strconv.Quote]. *)
Definition unobservedReason (quote : string -> string) (o : RoleObservation) (now : Time) : string :=
  if IsZero (o_ObservedAt o) then "the member was not asked"
  else if o_Reason o != "" then o_Reason o
  else if negb (o_Reachable o) then "no answer"
  else if negb (fresh o now) then "the answer is older than 15s"
  else "the answer reports the role " +:+ quote (o_Role o).

(** ** What the resolution means

    The evidence one member contributes: an answer that contradicts itself,
    none that counts (with a refused token or without), or a role. *)
Inductive Evidence := EvConflict | EvMissing (refused : bool) | EvRole (role : CubridRole).
#[global] Instance Evidence_eq_dec : EqDecision Evidence.
Proof. solve_decision. Defined.

Definition evidenceOf (obs : gmap string RoleObservation) (now : Time) (m : string) : Evidence :=
  match obs !! m with
  | None => EvMissing false
  | Some o =>
      if o_Reachable o && o_Conflicting o then EvConflict
      else if authoritative o now then EvRole (o_Role o) else EvMissing (o_TokenRefused o)
  end.

(** A member's fresh claim to be an active master, trusted or not. *)
Definition claimsMaster (obs : gmap string RoleObservation) (now : Time) (m : string) : bool :=
  let o := lookupd zeroObservation obs m in
  fresh o now && (o_Role o == RoleMaster) && o_ActiveMasterClaim o.

Definition mastersOf obs now (members : list string) : list string :=
  filter (fun m => evidenceOf obs now m = EvRole RoleMaster) members.
Definition conflictsOf obs now (members : list string) : list string :=
  filter (fun m => evidenceOf obs now m = EvConflict) members.
Definition refusedOf obs now (members : list string) : list string :=
  filter (fun m => evidenceOf obs now m = EvMissing true) members.
Definition missingOf obs now (members : list string) : list string :=
  filter (fun m => evidenceOf obs now m = EvMissing true \/ evidenceOf obs now m = EvMissing false) members.
Definition claimsOf obs now (members : list string) : list string :=
  filter (fun m => claimsMaster obs now m = true) members.

(** The verdict read off the classified members, most severe first. *)
Definition resolutionOf obs now (members : list string) : PrimaryResolution :=
  let multiple := bool_decide (1 < length (mastersOf obs now members) \/
                               1 < length (claimsOf obs now members))%nat in
  match mastersOf obs now members, conflictsOf obs now members,
        refusedOf obs now members, missingOf obs now members with
  | _ :: _ :: _, _, _, _ => mkResolution "" ConditionFalse reasonMultiplePrimaries multiple []
  | _, _ :: _, _, _ => mkResolution "" ConditionFalse "AmbiguousPrimaryObservation" multiple []
  | _, [], (_ :: _) as refused, _ => mkResolution "" ConditionFalse reasonTokenRefused multiple refused
  | _, [], [], _ :: _ => mkResolution "" ConditionFalse "PrimaryObservationIncomplete" multiple []
  | [], [], [], [] => mkResolution "" ConditionFalse "NoPrimaryObserved" multiple []
  | [p], [], [], [] => mkResolution p ConditionTrue "SinglePrimaryObserved" multiple []
  end.

Definition scanOf obs now (members : list string) : resolveScan :=
  mkScan (length (mastersOf obs now members)) (length (claimsOf obs now members))
    (default "" (last (mastersOf obs now members)))
    (bool_decide (missingOf obs now members <> [])) (bool_decide (conflictsOf obs now members <> []))
    (refusedOf obs now members).

Lemma fresh_zero now : fresh zeroObservation now = false.
Proof. done. Qed.

Lemma fresh_iff o now :
  fresh o now = true <->
  o_Reachable o = true /\ o_ObservedAt o <> 0 /\ Z.abs (now - o_ObservedAt o) <= roleObservationTTL.
Proof.
  unfold fresh, IsZero. destruct (o_Reachable o); simpl; [|naive_solver].
  case_bool_decide; simpl; [naive_solver|].
  rewrite andb_true_iff, !Z.leb_le. unfold roleObservationTTL. split.
  - intros ?. split_and!; [done..|]. time_lia.
  - intros (_ & _ & ?). time_lia.
Qed.

Lemma authoritative_iff o now :
  authoritative o now = true <->
  o_Role o <> RoleUnknown /\ o_Role o <> "" /\ o_Conflicting o = false /\ fresh o now = true.
Proof.
  unfold authoritative. repeat case_bool_decide; simpl; try naive_solver.
  destruct (o_Conflicting o); naive_solver.
Qed.

Lemma evidenceOf_role obs now m role :
  evidenceOf obs now m = EvRole role <->
  exists o, obs !! m = Some o /\ authoritative o now = true /\ o_Role o = role.
Proof.
  unfold evidenceOf. destruct (obs !! m) as [o|]; [|naive_solver].
  destruct (authoritative o now) eqn:E.
  - pose proof (proj1 (authoritative_iff _ _) E) as (_ & _ & -> & _). rewrite andb_false_r.
    split; [intros [= <-]; eauto|]. by intros (? & [= <-] & _ & <-).
  - split; [by case_match|]. intros (? & [= <-] & ? & _). congruence.
Qed.

(** One pass of the loop, by the member's evidence. *)
Lemma resolveMember_evidence obs now s m :
  resolveMember obs now s m =
  let claims := if claimsMaster obs now m then S (rs_masterClaims s) else rs_masterClaims s in
  match evidenceOf obs now m with
  | EvConflict => mkScan (rs_masters s) claims (rs_primary s) (rs_incomplete s) true (rs_refused s)
  | EvMissing r => mkScan (rs_masters s) claims (rs_primary s) true (rs_ambiguous s)
                     (if r then rs_refused s ++ [m] else rs_refused s)
  | EvRole role =>
      if role == RoleMaster
      then mkScan (S (rs_masters s)) claims m (rs_incomplete s) (rs_ambiguous s) (rs_refused s)
      else mkScan (rs_masters s) claims (rs_primary s) (rs_incomplete s) (rs_ambiguous s) (rs_refused s)
  end.
Proof.
  unfold resolveMember, evidenceOf, claimsMaster, lookupd.
  destruct (obs !! m) as [o|]; [|done]. simpl.
  destruct (o_Reachable o && o_Conflicting o); [done|].
  by destruct (authoritative o now).
Qed.

Lemma app_single_not_nil {A} (l : list A) x : bool_decide (l ++ [x] <> []) = true.
Proof. apply bool_decide_eq_true. by destruct l. Qed.

(** The scan of one more member is the classification of that member. *)
Lemma resolveMember_scanOf obs now l m :
  resolveMember obs now (scanOf obs now l) m = scanOf obs now (l ++ [m]).
Proof.
  rewrite resolveMember_evidence.
  unfold scanOf, mastersOf, claimsOf, missingOf, conflictsOf, refusedOf.
  rewrite !filter_app, !filter_cons, !filter_nil.
  assert (forall l0, length (l0 ++ (if decide (claimsMaster obs now m = true) then [m] else [])) =
            if claimsMaster obs now m then S (length l0) else length l0) as ->.
  { intros l0. destruct (claimsMaster obs now m); case_decide; try done;
      [by rewrite length_snoc|by rewrite app_nil_r]. }
  destruct (evidenceOf obs now m) as [|[]|role]; cbn -[filter];
    try (destruct (decide (role = RoleMaster)) as [->|];
         [rewrite bool_decide_eq_true_2 by done|rewrite bool_decide_eq_false_2 by done]);
    repeat (match goal with |- context [decide ?P] => destruct (decide P) end; try (exfalso; intuition congruence));
    by rewrite ?app_nil_r, ?app_single_not_nil, ?length_snoc, ?last_snoc.
Qed.

Lemma resolve_scan obs now members :
  fold_left (resolveMember obs now) members (mkScan 0 0 "" false false []) = scanOf obs now members.
Proof.
  induction members as [|m l IH] using rev_ind; [done|].
  by rewrite fold_left_app, IH; cbn [fold_left]; rewrite resolveMember_scanOf.
Qed.

Lemma resolvePrimary_resolutionOf members obs now :
  resolvePrimary members obs now = resolutionOf obs now members.
Proof.
  unfold resolvePrimary, resolutionOf. rewrite resolve_scan. unfold scanOf. simpl.
  set (multiple := bool_decide (_ \/ _)).
  replace (_ || _) with multiple; last first.
  { unfold multiple. rewrite bool_decide_or.
    f_equal; match goal with |- context [(1 <? ?n)%nat] => destruct (Nat.ltb_spec 1 n) end;
      case_bool_decide; done || lia. }
  generalize multiple. intros mult.
  destruct (mastersOf obs now members) as [|p [|p' ms]]; simpl; try done;
  destruct (conflictsOf obs now members); simpl; try done;
  destruct (refusedOf obs now members); simpl; try done;
  by destruct (missingOf obs now members).
Qed.

(** Every member's observation counts. *)
Definition allObserved (obs : gmap string RoleObservation) (now : Time) (members : list string) : Prop :=
  Forall (fun m => exists o, obs !! m = Some o /\ authoritative o now = true) members.

Lemma allObserved_iff obs now members :
  allObserved obs now members <-> conflictsOf obs now members = [] /\ missingOf obs now members = [].
Proof.
  unfold allObserved, conflictsOf, missingOf. rewrite !filter_nil_iff, <- Forall_and.
  apply Forall_proper; [|done]. intros m. split.
  - intros (o & Ho & Ha).
    pose proof (proj2 (evidenceOf_role obs now m (o_Role o)) (ex_intro _ o (conj Ho (conj Ha eq_refl)))) as ->.
    split; [done|]. by intros [?|?].
  - intros [Hc Hm]. destruct (evidenceOf obs now m) as [|[]|role] eqn:E; try naive_solver.
    apply evidenceOf_role in E as (o & ? & ? & _). eauto.
Qed.

Lemma refused_missing obs now members :
  missingOf obs now members = [] -> refusedOf obs now members = [].
Proof.
  unfold missingOf, refusedOf. rewrite !filter_nil_iff. intros H.
  eapply Forall_impl; [exact H|]. naive_solver.
Qed.

(** The verdict is True exactly on full evidence of a single master. *)
Lemma resolutionOf_true obs now members p :
  res_Status (resolutionOf obs now members) = ConditionTrue /\
  res_CurrentPrimary (resolutionOf obs now members) = p <->
  allObserved obs now members /\ mastersOf obs now members = [p].
Proof.
  rewrite allObserved_iff. unfold resolutionOf. split.
  - destruct (mastersOf obs now members) as [|q [|q' ms]], (conflictsOf obs now members),
      (refusedOf obs now members), (missingOf obs now members); simpl; naive_solver.
  - intros [[-> Hm] ->]. by rewrite (refused_missing _ _ _ Hm), Hm.
Qed.

Lemma resolutionOf_not_true obs now members :
  res_Status (resolutionOf obs now members) <> ConditionTrue ->
  res_Status (resolutionOf obs now members) = ConditionFalse /\
  res_CurrentPrimary (resolutionOf obs now members) = "".
Proof.
  unfold resolutionOf.
  destruct (mastersOf obs now members) as [|q [|q' ms]], (conflictsOf obs now members),
    (refusedOf obs now members), (missingOf obs now members); simpl; naive_solver.
Qed.

(** The loop of resolvePrimary computes the verdict read off the members
    classified by their evidence, most severe first: more than one master,
    then an answer that contradicts itself, then a refused token (naming
    exactly the members that refused, in order), then a member that gave no
    answer that counts, then no master; otherwise the single master. *)
Theorem resolvePrimary_reference members obs now :
  resolvePrimary members obs now = resolutionOf obs now members.
Proof. apply resolvePrimary_resolutionOf. Qed.

(** C1: A primary is resolved exactly when every expected member has an
    authoritative observation and exactly one of them is a master; it is then
    that member, and in every other case the status is False and names no
    primary. *)
Theorem resolvePrimary_safe members obs now p :
  let res := resolvePrimary members obs now in
  (res_Status res = ConditionTrue /\ res_CurrentPrimary res = p <->
   allObserved obs now members /\ mastersOf obs now members = [p]) /\
  (res_Status res = ConditionTrue \/ (res_Status res = ConditionFalse /\ res_CurrentPrimary res = "")).
Proof.
  simpl. rewrite resolvePrimary_resolutionOf. split; [apply resolutionOf_true|].
  destruct (decide (res_Status (resolutionOf obs now members) = ConditionTrue)); [by left|].
  right. by apply resolutionOf_not_true.
Qed.

(** ** From an answer to an authoritative observation *)

(** What the node list has to show for a role to be trusted: every entry of
    the member itself is in that role, and a master sees no other master. *)
Definition nodeListConfirms (st : HAStatus) : Prop :=
  Forall (fun n =>
    (ns_Name n = ha_Current st -> ns_State n = ha_Role st) /\
    (ns_Name n <> ha_Current st -> ha_Role st = RoleMaster -> ns_State n <> RoleMaster)) (ha_Nodes st).

Lemma nodeListScan_contradicts st :
  (nodeListScan st).1.1 = false <-> nodeListConfirms st.
Proof.
  unfold nodeListScan, nodeListConfirms.
  assert (forall l acc, (fold_left (nodeListStep st) l acc).1.1 = false <-> acc.1.1 = false /\
    Forall (fun n => (ns_Name n = ha_Current st -> ns_State n = ha_Role st) /\
      (ns_Name n <> ha_Current st -> ha_Role st = RoleMaster -> ns_State n <> RoleMaster)) l) as H.
  { induction l as [|n l IH]; intros [[c e] ma]; cbn [fold_left].
    - rewrite Forall_nil. naive_solver.
    - rewrite IH, Forall_cons, (assoc and). apply and_iff_compat_r.
      unfold nodeListStep; repeat case_bool_decide; simpl; naive_solver. }
  rewrite H. simpl. naive_solver.
Qed.

Lemma authoritative_status clean st at_ now :
  authoritative (observationFromStatus clean st at_) now = true ->
  ha_Role st = RoleMaster -> ha_ServerActive st = true /\ nodeListConfirms st.
Proof.
  rewrite authoritative_iff. intros (_ & _ & Hc & _) Hr.
  unfold observationFromStatus in Hc. rewrite Hr in Hc.
  rewrite <- nodeListScan_contradicts.
  destruct (nodeListScan st) as [[c e] ma]. simpl in Hc |- *.
  apply orb_false_iff in Hc as [Hc ->].
  by destruct (ha_ServerActive st).
Qed.

Lemma observationFromStatus_Role clean st at_ :
  o_Role (observationFromStatus clean st at_) = ha_Role st.
Proof.
  unfold observationFromStatus. destruct (_ && _); [done|].
  by destruct (nodeListScan st) as [[??]?].
Qed.

(** An authoritative observation of a member comes from an answer, with status
    200, that does not name another member. *)
Lemma ProbeRole_authoritative clean pod a at_ now :
  let o := ProbeRole clean pod a at_ in
  authoritative o now = true ->
  exists st id, a = Answered 200 (Some st) id /\ o_Role o = ha_Role st /\
    (ha_Current st = "" \/ ha_Current st = pod) /\
    authoritative (observationFromStatus clean st at_) now = true.
Proof.
  intros o. rewrite authoritative_iff. subst o. destruct a as [?|? ?|status body id]; simpl; try naive_solver.
  case_bool_decide; simpl; [subst|naive_solver].
  destruct body as [st|]; simpl; [|naive_solver].
  intros (Hu & He & Hc & Hf). exists st, id.
  rewrite observationFromStatus_Role in *.
  split_and!; [done|done| |].
  - repeat case_bool_decide; simpl in *; naive_solver.
  - apply authoritative_iff. rewrite observationFromStatus_Role.
    split_and!; [done..| |by apply fresh_iff; apply fresh_iff in Hf].
    by repeat case_bool_decide; simpl in *.
Qed.

(** End to end: with every observation taken by the prober, a resolved
    primary is a member whose own Instance Manager answered, without naming
    another member, as a master whose server is active and whose node list
    shows it in no other state and no other node as master; and no other
    expected member's answer was taken as that of a master. *)
Theorem resolved_primary_evidence clean members answers at_ now p :
  let obs := map_imap (fun pod a => Some (ProbeRole clean pod a at_)) answers in
  let res := resolvePrimary members obs now in
  res_Status res = ConditionTrue -> res_CurrentPrimary res = p ->
  (exists st id, answers !! p = Some (Answered 200 (Some st) id) /\
     (ha_Current st = "" \/ ha_Current st = p) /\ ha_Role st = RoleMaster /\
     ha_ServerActive st = true /\ nodeListConfirms st) /\
  Forall (fun m => m <> p -> exists st id, answers !! m = Some (Answered 200 (Some st) id) /\
     (ha_Current st = "" \/ ha_Current st = m) /\ ha_Role st <> RoleMaster) members.
Proof.
  intros obs res. subst res. rewrite resolvePrimary_resolutionOf. intros Hs Hp.
  apply (conj Hs) in Hp as [Hall Hms]%resolutionOf_true. clear Hs.
  assert (Hget : forall m o, obs !! m = Some o -> exists a, answers !! m = Some a /\ o = ProbeRole clean m a at_).
  { intros m o. unfold obs. rewrite map_lookup_imap. destruct (answers !! m); naive_solver. }
  assert (Hin : p ∈ mastersOf obs now members) by (rewrite Hms; set_solver).
  split.
  - apply list_elem_of_filter in Hin as [(o & Ho & Ha & Hr)%evidenceOf_role _].
    destruct (Hget _ _ Ho) as (a & Hans & ->).
    destruct (ProbeRole_authoritative _ _ _ _ _ Ha) as (st & id & -> & Hrole & Hcur & Hau).
    rewrite Hrole in Hr. destruct (authoritative_status _ _ _ _ Hau Hr). eauto 10.
  - apply Forall_forall. intros m Hm Hne.
    apply (proj1 (Forall_forall _ _) Hall) in Hm as Ho. destruct Ho as (o & Ho & Ha).
    destruct (Hget _ _ Ho) as (a & Hans & ->).
    destruct (ProbeRole_authoritative _ _ _ _ _ Ha) as (st & id & -> & Hrole & Hcur & _).
    exists st, id. split_and!; [done..|]. intros Hr. apply Hne.
    assert (m ∈ mastersOf obs now members) as Hmm; [|rewrite Hms in Hmm; set_solver].
    apply list_elem_of_filter. split; [|done]. apply evidenceOf_role. eauto with congruence.
Qed.

(** A three-member cluster whose first member is the master. *)
Module RoleExample.
Definition nodes : list NodeState :=
  [mkNodeState "c-0" 1 "master"; mkNodeState "c-1" 2 "slave"; mkNodeState "c-2" 3 "slave"].
Definition answer (name role : string) : RoleAnswer :=
  Answered 200 (Some (mkHAStatus name role true nodes "heartbeat" "" "11.4.6.1963" None None [] None)) "id".
Definition answers : gmap string RoleAnswer :=
  {["c-0" := answer "c-0" "master"; "c-1" := answer "c-1" "slave"; "c-2" := answer "c-2" "slave"]}.
Definition at_ : Time := 1000 * Second.
End RoleExample.

Lemma resolved_primary_evidence_witness :
  exists st id, RoleExample.answers !! "c-0" = Some (Answered 200 (Some st) id) /\ ha_ServerActive st = true.
Proof.
  destruct (resolved_primary_evidence (fun s => s) ["c-0"; "c-1"; "c-2"] RoleExample.answers
              RoleExample.at_ (RoleExample.at_ + 5 * Second) "c-0") as [(st & id & ? & ? & ? & ? & ?) _].
  - vm_compute. reflexivity.
  - vm_compute. reflexivity.
  - exists st, id. split; assumption.
Defined.

(** ** The node list of the local node *)

Lemma localNodeMismatch_scan current nodes acc :
  fold_left (fun '(count, listed) n =>
      if ns_Name n == current then (S count, ns_State n) else (count, listed)) nodes acc =
  let own := filter (fun n => ns_Name n = current) nodes in
  ((acc.1 + length own)%nat, default acc.2 (ns_State <$> last own)).
Proof.
  revert acc. induction nodes as [|n l IH]; intros [c s]; cbn [fold_left].
  - by rewrite filter_nil, Nat.add_0_r.
  - rewrite IH, filter_cons. destruct (decide (ns_Name n = current)) as [E|E].
    + rewrite bool_decide_eq_true_2 by done. simpl. f_equal; [lia|].
      rewrite last_cons. by destruct (last (filter _ l)).
    + by rewrite bool_decide_eq_false_2.
Qed.

(** localNodeMismatch answers "" exactly when the node list holds the
    local node once, in the state the header gives: a list without the node,
    with two entries for it or with another state is always refused. *)
Theorem localNodeMismatch_ok current state nodes :
  localNodeMismatch current state nodes = "" <->
  exists n, filter (fun n => ns_Name n = current) nodes = [n] /\ ns_State n = state.
Proof.
  unfold localNodeMismatch. rewrite localNodeMismatch_scan. simpl.
  destruct (filter _ nodes) as [|n [|n' l]]; simpl.
  - naive_solver.
  - case_bool_decide; simpl; naive_solver.
  - naive_solver.
Qed.
