(* ===== verification/Replication.v ===== *)
(** * The replication of a slave

    [internal/controller/replication.go] (the stall rules and the
    ReplicationHealthy condition) and [internal/controller/applierpositions.go]
    (the readings the controller keeps in memory between two passes). *)
From stdpp Require Import prelude gmap strings pretty list.
From S2P Require Import Prelude Api HARole.

Definition replicationStallWindow : Duration := 60 * Second.
Definition replicationHistoryTTL : Duration := 2 * replicationStallWindow.
Definition observationWriteInterval : Duration := 30 * Second.
Definition positionCompareInterval : Duration := haResyncInterval / 2.

Definition reasonAppliersProgressing : string := "AppliersProgressing".
Definition reasonReplicationStalled : string := "ReplicationStalled".
Definition reasonApplyFailures : string := "ApplyFailures".
Definition reasonLogCopyStalled : string := "LogCopyStalled".
Definition reasonReplicationNotObserved : string := "ReplicationNotObserved".

(** ** The readings kept *)

Record applierReading := mkReading {
  ar_Source : string;
  ar_Applier : string;
  ar_FinalLSA : option LogAddress;
  ar_CopiedEOF : option LogAddress;
  ar_DelayedPages : Z;
  ar_ReadAt : Time }.

Definition NamespacedName : Type := string * string.

Record clusterPositions := mkClusterPositions {
  cp_name : NamespacedName;
  cp_members : gmap string applierReading }.

(** The store, by cluster UID; the pointer to it may be nil. *)
Notation ApplierPositions := (gmap string clusterPositions) (only parsing).

Definition keepReading (now : Time) (r : applierReading) : bool :=
  let age := Sub now (ar_ReadAt r) in
  (age <=? replicationHistoryTTL) && (- roleObservationTTL <=? age).

Definition readings (p : option ApplierPositions) (uid : string) (now : Time) : gmap string applierReading :=
  match p with
  | None => ∅
  | Some p =>
      filter (fun '(_, r) => keepReading now r = true)
        (default ∅ (cp_members <$> p !! uid))
  end.

Definition commit (p : option ApplierPositions) (uid : string) (name : NamespacedName)
  (rs : gmap string applierReading) : option ApplierPositions :=
  (fun p =>
    let p := filter (fun '(other, c) => ~ (other <> uid /\ cp_name c = name)) p in
    if size rs == 0%nat then delete uid p
    else <[uid := mkClusterPositions name rs]> p) <$> p.

Definition forget (p : option ApplierPositions) (name : NamespacedName) : option ApplierPositions :=
  filter (fun '(_, c) => cp_name c <> name) <$> p.

Definition tooClose (before now : Time) : bool :=
  let age := Sub now before in (0 <=? age) && (age <? positionCompareInterval).

(** The reading of one member that is kept for the next observation. *)
Definition readingPosition (obs : gmap string RoleObservation) (before : gmap string applierReading)
  (now : Time) (m : string) : option applierReading :=
  let o := lookupd zeroObservation obs m in
  let observed := non_nil (obs !! m) in
  let kept := before !! m in
  if observed && authoritative o now && (o_Role o != RoleSlave) then None
  else match o_Replication o with
  | Some r =>
      if observed && authoritative o now &&
         match kept with None => true | Some k => negb (tooClose (ar_ReadAt k) now) end
      then Some (mkReading (ro_Source r) (ro_Applier r) (ro_FinalLSA r) (ro_CopiedEOF r)
                   (ro_DelayedPages r) now)
      else kept
  | None => kept
  end.

(** readingPositions: the loop that fills the map. *)
Definition readingPositions (members : list string) (obs : gmap string RoleObservation)
  (before : gmap string applierReading) (now : Time) : gmap string applierReading :=
  fold_left (fun out m =>
    match readingPosition obs before now m with Some r => <[m := r]> out | None => out end)
    members ∅.

Definition positionOf (positions : gmap string applierReading) (member : string) : option applierReading :=
  positions !! member.

(** ** The stall rules *)

Definition sameApplier (a b : string) : bool := (a == "") || (b == "") || (a == b).

Definition continued (reported : option Time) (same : bool) (now : Time) : option Time :=
  match reported with
  | None => None
  | Some t => if same then Some t else Some now
  end.

Definition logBefore (a b : LogAddress) : bool :=
  (la_Page a <? la_Page b) || ((la_Page a == la_Page b) && (la_Offset a <? la_Offset b)).

(** positionStall.  [posLSA], [posEOF], [obsLSA], [obsEOF] are the addresses
    the caller has found not nil in [pos] and [obs]. *)
Definition positionStall (reported : option Time) (pos : applierReading) (posLSA posEOF : LogAddress)
  (obs : ReplicationObservation) (obsLSA obsEOF : LogAddress) (now : Time) : option Time :=
  if tooClose (ar_ReadAt pos) now then reported
  else if (ar_Source pos != ro_Source obs) || (posLSA != obsLSA) || (ro_DelayedPages obs == 0) then None
  else if negb (sameApplier (ar_Applier pos) (ro_Applier obs)) then continued reported false now
  else if is_nil reported && (0 <? ar_DelayedPages pos) && logBefore posEOF obsEOF then Some now
  else reported.

(** nextLogCopy: the fields of [next] about the copy of the master's log. *)
Definition nextLogCopy (prev : option InstanceReplication) (obs : ReplicationObservation)
  (next : InstanceReplication) (now : Time) : InstanceReplication :=
  match ro_CopiedEOF obs with
  | None => next
  | Some eof =>
      (* the previous reading, when the copy did not grow since *)
      let ungrown :=
        match prev with
        | Some p => if (ir_Source p == ro_Source obs) && (ir_CopiedEOF p == Some eof) then Some p else None
        | None => None
        end in
      match ro_SourceLogEnd obs with
      | None =>
          match ungrown with
          | Some p => set_ir_copy (ir_CopiedEOF p) (ir_CopyDelayedPages p) (ir_NotReceivingSince p) next
          | None => next
          end
      | Some logEnd =>
          let delayed := wrap64 (la_Page logEnd - la_Page eof) in
          if delayed <=? 0 then next
          else set_ir_copy (Some eof) delayed
                 (match ungrown with
                  | None => ir_NotReceivingSince next
                  | Some p => match ir_NotReceivingSince p with
                              | Some t => Some t
                              | None => Some now
                              end
                  end) next
      end
  end.

(** The status before, when it is recent enough to be history. *)
Definition history (prev : option InstanceReplication) (now : Time) : option InstanceReplication :=
  match prev with
  | None => None
  | Some p =>
      match ir_ObservedAt p with
      | None => None
      | Some t =>
          let age := Sub now t in
          if (replicationHistoryTTL + observationWriteInterval <? age) || (age <? - roleObservationTTL)
          then None else Some p
      end
  end.

Definition nextReplication (prev : option InstanceReplication) (obs : option ReplicationObservation)
  (pos : option applierReading) (now : Time) : option InstanceReplication :=
  let prev := history prev now in
  match obs with
  | None => prev
  | Some obs =>
      let next := mkInstanceReplication (ro_Source obs) (ro_AppliedChanges obs) (ro_FailCount obs)
                    (ro_DelayedPages obs) (ro_Applier obs) None 0 None None (Some now) in
      let next := nextLogCopy prev obs next now in
      let reported :=
        match prev with
        | Some p => if ir_Source p == ro_Source obs then ir_StalledSince p else None
        | None => None
        end in
      (* the counters: pages wait and nothing was applied since *)
      let counters :=
        match prev with
        | Some p =>
            if (ir_Source p == ro_Source obs) && (0 <? ir_DelayedPages p) && (0 <? ro_DelayedPages obs) &&
               (ir_AppliedChanges p == ro_AppliedChanges obs)
            then let same := sameApplier (ir_Applier p) (ro_Applier obs) in
                 if is_nil reported && same then Some now else continued reported same now
            else None
        | None => None
        end in
      let since :=
        match ro_FinalLSA obs, ro_CopiedEOF obs with
        | Some obsLSA, Some obsEOF =>
            match pos with
            | None =>
                if 0 <? ro_DelayedPages obs
                then continued reported
                       (match prev with Some p => sameApplier (ir_Applier p) (ro_Applier obs) | None => false end) now
                else None
            | Some pos =>
                match ar_FinalLSA pos, ar_CopiedEOF pos with
                | Some posLSA, Some posEOF => positionStall reported pos posLSA posEOF obs obsLSA obsEOF now
                | _, _ => counters
                end
            end
        | _, _ => counters
        end in
      Some (set_ir_StalledSince since next)
  end.

(** ** The ReplicationHealthy condition *)

(** What replicationCondition makes of one slave. *)
Inductive SlaveState := SlaveUnread | SlaveFailing | SlaveStalled | SlaveNotReceiving | SlaveFine.
#[global] Instance SlaveState_eq_dec : EqDecision SlaveState.
Proof. solve_decision. Defined.

Definition slaveState (obs : gmap string RoleObservation) (now : Time) (in_ : InstanceStatus) : SlaveState :=
  match is_Replication in_, o_Replication (lookupd zeroObservation obs (is_Name in_)) with
  | None, _ | _, None => SlaveUnread
  | Some r, Some _ =>
      if 0 <? ir_FailCount r then SlaveFailing
      else if match ir_StalledSince r with Some t => replicationStallWindow <=? Sub now t | None => false end
      then SlaveStalled
      else if match ir_NotReceivingSince r with Some t => replicationStallWindow <=? Sub now t | None => false end
      then SlaveNotReceiving
      else SlaveFine
  end.

(** The variables of its loop. *)
Record slaveScan := mkSlaveScan {
  ss_failing : list string; ss_stalled : list string;
  ss_notReceiving : list string; ss_unread : list string; ss_slaves : nat }.

Definition scanSlave (obs : gmap string RoleObservation) (now : Time) (s : slaveScan) (in_ : InstanceStatus) : slaveScan :=
  if is_Role in_ != RoleSlave then s
  else
    let n := is_Name in_ in
    match slaveState obs now in_ with
    | SlaveUnread => mkSlaveScan (ss_failing s) (ss_stalled s) (ss_notReceiving s) (ss_unread s ++ [n]) (S (ss_slaves s))
    | SlaveFailing => mkSlaveScan (ss_failing s ++ [n]) (ss_stalled s) (ss_notReceiving s) (ss_unread s) (S (ss_slaves s))
    | SlaveStalled => mkSlaveScan (ss_failing s) (ss_stalled s ++ [n]) (ss_notReceiving s) (ss_unread s) (S (ss_slaves s))
    | SlaveNotReceiving => mkSlaveScan (ss_failing s) (ss_stalled s) (ss_notReceiving s ++ [n]) (ss_unread s) (S (ss_slaves s))
    | SlaveFine => mkSlaveScan (ss_failing s) (ss_stalled s) (ss_notReceiving s) (ss_unread s) (S (ss_slaves s))
    end.

Definition replicationCondition (instances : list InstanceStatus) (obs : gmap string RoleObservation)
  (now : Time) : ConditionStatus * string * string :=
  let s := fold_left (scanSlave obs now) instances (mkSlaveScan [] [] [] [] 0) in
  if (0 <? length (ss_failing s))%nat then
    (ConditionFalse, reasonApplyFailures,
     "the log applier could not apply every change on: " +:+ strJoin ", " (ss_failing s))
  else if (0 <? length (ss_stalled s))%nat then
    (ConditionFalse, reasonReplicationStalled,
     "log pages have waited for 1m0s or longer with nothing applied on: " +:+ strJoin ", " (ss_stalled s))
  else if (0 <? length (ss_notReceiving s))%nat then
    (ConditionFalse, reasonLogCopyStalled,
     "the copy of the master's log has not grown for 1m0s or longer while pages of it waited to be copied, on: "
       +:+ strJoin ", " (ss_notReceiving s))
  else if ss_slaves s == 0%nat then
    (ConditionUnknown, reasonReplicationNotObserved, "no slave was observed")
  else if (0 <? length (ss_unread s))%nat then
    (ConditionUnknown, reasonReplicationNotObserved,
     "the log applier could not be read on: " +:+ strJoin ", " (ss_unread s))
  else (ConditionTrue, reasonAppliersProgressing, "every observed slave applies the master's log").

(** ** The readings kept *)

Lemma readingPositions_fold obs before now members (out : gmap string applierReading) m :
  fold_left (fun out m =>
    match readingPosition obs before now m with Some r => <[m := r]> out | None => out end) members out !! m =
  if bool_decide (m ∈ members)
  then match readingPosition obs before now m with Some r => Some r | None => out !! m end
  else out !! m.
Proof.
  revert out. induction members as [|x l IH]; intros out; [done|]. cbn [fold_left].
  rewrite IH. destruct (decide (x = m)) as [->|Hx].
  - rewrite (bool_decide_eq_true_2 (m ∈ m :: l)) by set_solver.
    destruct (readingPosition obs before now m); [rewrite lookup_insert_eq|]; by case_bool_decide.
  - rewrite (bool_decide_ext (m ∈ x :: l) (m ∈ l)) by set_solver.
    destruct (readingPosition obs before now x); [|done]. by rewrite lookup_insert_ne.
Qed.

Lemma readingPositions_lookup obs before now members m :
  readingPositions members obs before now !! m =
  if bool_decide (m ∈ members) then readingPosition obs before now m else None.
Proof.
  unfold readingPositions. rewrite readingPositions_fold, lookup_empty.
  case_bool_decide; [|done]. by case_match.
Qed.

(** The reading kept after one of an authoritative slave. *)
Definition keptReading (kept : option applierReading) (r : ReplicationObservation) (now : Time) : option applierReading :=
  if match kept with None => false | Some k => tooClose (ar_ReadAt k) now end then kept
  else Some (mkReading (ro_Source r) (ro_Applier r) (ro_FinalLSA r) (ro_CopiedEOF r) (ro_DelayedPages r) now).

Lemma readingPosition_slave obs before now m o r :
  obs !! m = Some o -> authoritative o now = true -> o_Role o = RoleSlave -> o_Replication o = Some r ->
  readingPosition obs before now m = keptReading (before !! m) r now.
Proof.
  intros Ho Ha Hr Hrep. unfold readingPosition, keptReading.
  rewrite (lookupd_Some _ _ _ _ Ho), Ho, Ha, Hr, Hrep. simpl.
  destruct (before !! m) as [k|]; [|done]. by destruct (tooClose (ar_ReadAt k) now).
Qed.

Lemma readings_lookup p uid now m r :
  readings (Some p) uid now !! m = Some r <->
  (exists c, p !! uid = Some c /\ cp_members c !! m = Some r) /\ keepReading now r = true.
Proof.
  simpl. rewrite map_lookup_filter_Some. apply and_iff_compat_r.
  destruct (p !! uid) as [c|]; simpl; [naive_solver|]. rewrite lookup_empty. naive_solver.
Qed.

Lemma keepReading_iff now r :
  keepReading now r = true <->
  - roleObservationTTL <= now - ar_ReadAt r <= replicationHistoryTTL.
Proof.
  unfold keepReading, roleObservationTTL, replicationHistoryTTL, replicationStallWindow.
  rewrite andb_true_iff, !Z.leb_le. time_lia.
Qed.

Lemma tooClose_iff before now :
  tooClose before now = true <-> 0 <= now - before < positionCompareInterval.
Proof.
  unfold tooClose, positionCompareInterval, haResyncInterval.
  rewrite andb_true_iff, Z.leb_le, Z.ltb_lt.
  change (10 * Second / 2) with (5 * Second). time_lia.
Qed.

Lemma tooClose_false before now :
  tooClose before now = false <-> now - before < 0 \/ positionCompareInterval <= now - before.
Proof.
  rewrite <- not_true_iff_false, tooClose_iff. lia.
Qed.

(** The store of applier readings: a commit for a cluster is read back,
    for that cluster, as exactly the committed readings that are not older
    than two minutes nor stamped more than fifteen seconds ahead; an earlier
    cluster of the same name reads empty, and every other cluster reads what
    it read before. *)
Theorem positions_commit_readings p uid name rs uid' now :
  readings (commit (Some p) uid name rs) uid' now =
  if uid' == uid then filter (fun '(_, r) => keepReading now r = true) rs
  else if (cp_name <$> p !! uid') == Some name then ∅
  else readings (Some p) uid' now.
Proof.
  unfold commit. cbn [fmap option_fmap option_map readings].
  destruct (decide (uid' = uid)) as [->|Hne].
  - rewrite (bool_decide_eq_true_2 (uid = uid)) by done. case_bool_decide as Hs.
    + apply map_size_empty_inv in Hs as ->. by rewrite lookup_delete_eq.
    + by rewrite lookup_insert_eq.
  - rewrite (bool_decide_eq_false_2 (uid' = uid)) by done.
    assert (forall q : ApplierPositions, (if size rs == 0%nat then delete uid q
      else <[uid:=mkClusterPositions name rs]> q) !! uid' = q !! uid') as ->.
    { intros q. case_bool_decide; [by rewrite lookup_delete_ne|by rewrite lookup_insert_ne]. }
    rewrite map_lookup_filter. destruct (p !! uid') as [c|]; simpl; [|done].
    case_guard as G; simpl.
    + rewrite bool_decide_eq_false_2; [done|]. naive_solver.
    + rewrite bool_decide_eq_true_2; [done|]. f_equal. apply dec_stable. naive_solver.
Qed.

(** ** One reading *)

Lemma history_Some prev now p :
  history prev now = Some p <->
  prev = Some p /\ exists t, ir_ObservedAt p = Some t /\
    - roleObservationTTL <= now - t <= replicationHistoryTTL + observationWriteInterval.
Proof.
  unfold history. destruct prev as [q|]; [|naive_solver].
  destruct (ir_ObservedAt q) as [t|] eqn:Et.
  - unfold roleObservationTTL, replicationHistoryTTL, replicationStallWindow, observationWriteInterval.
    split.
    + intros H. case_test_in H; [done|]. bool_simpl. simplify_eq. split; [done|].
      exists t. split; [done|]. time_lia.
    + intros [[= ->] (t' & Ht' & ?)]. rewrite Et in Ht'. simplify_eq.
      rewrite (proj2 (orb_false_iff _ _)); [done|]. rewrite !Z.ltb_ge. time_lia.
  - naive_solver.
Qed.

Lemma nextLogCopy_fields prev obs next now :
  let r := nextLogCopy prev obs next now in
  ir_Source r = ir_Source next /\ ir_AppliedChanges r = ir_AppliedChanges next /\
  ir_FailCount r = ir_FailCount next /\ ir_DelayedPages r = ir_DelayedPages next /\
  ir_Applier r = ir_Applier next /\ ir_StalledSince r = ir_StalledSince next /\
  ir_ObservedAt r = ir_ObservedAt next.
Proof. simpl. unfold nextLogCopy. repeat case_match; done. Qed.

(** The stall reported before, for the same source. *)
Definition reportedStall (prev : option InstanceReplication) (obs : ReplicationObservation) (now : Time) : option Time :=
  match history prev now with
  | Some p => if ir_Source p == ro_Source obs then ir_StalledSince p else None
  | None => None
  end.

(** A reading is recorded as it was reported, at the time of the pass. *)
Lemma nextReplication_reading prev obs pos now next :
  nextReplication prev (Some obs) pos now = Some next ->
  ir_Source next = ro_Source obs /\ ir_AppliedChanges next = ro_AppliedChanges obs /\
  ir_FailCount next = ro_FailCount obs /\ ir_DelayedPages next = ro_DelayedPages obs /\
  ir_Applier next = ro_Applier obs /\ ir_ObservedAt next = Some now.
Proof.
  unfold nextReplication. intros [= <-]. cbn [set_ir_StalledSince ir_Source ir_AppliedChanges
    ir_FailCount ir_DelayedPages ir_Applier ir_ObservedAt].
  match goal with |- context [nextLogCopy ?a ?b ?c ?d] =>
    destruct (nextLogCopy_fields a b c d) as (?&?&?&?&?&?&?) end. done.
Qed.

(** The stall of a reading whose positions, and those of the reading kept,
    are known. *)
Lemma nextReplication_positioned prev obs pos now posLSA posEOF obsLSA obsEOF :
  ro_FinalLSA obs = Some obsLSA -> ro_CopiedEOF obs = Some obsEOF ->
  ar_FinalLSA pos = Some posLSA -> ar_CopiedEOF pos = Some posEOF ->
  ir_StalledSince <$> nextReplication prev (Some obs) (Some pos) now =
  Some (positionStall (reportedStall prev obs now) pos posLSA posEOF obs obsLSA obsEOF now).
Proof.
  intros H1 H2 H3 H4. unfold nextReplication. cbn [fmap option_fmap option_map].
  by rewrite H1, H2, H3, H4.
Qed.

Lemma nextReplication_unkept prev obs now obsLSA obsEOF :
  ro_FinalLSA obs = Some obsLSA -> ro_CopiedEOF obs = Some obsEOF ->
  ir_StalledSince <$> nextReplication prev (Some obs) None now =
  Some (if 0 <? ro_DelayedPages obs
        then continued (reportedStall prev obs now)
               (match history prev now with Some p => sameApplier (ir_Applier p) (ro_Applier obs) | None => false end) now
        else None).
Proof.
  intros H1 H2. unfold nextReplication. cbn [fmap option_fmap option_map]. by rewrite H1, H2.
Qed.

Lemma positionStall_origin reported pos posLSA posEOF obs obsLSA obsEOF now t :
  positionStall reported pos posLSA posEOF obs obsLSA obsEOF now = Some t ->
  t = now \/ reported = Some t.
Proof. unfold positionStall, continued. repeat case_match; naive_solver. Qed.

Lemma continued_origin reported same now t :
  continued reported same now = Some t -> t = now \/ reported = Some t.
Proof. unfold continued. repeat case_match; naive_solver. Qed.

#[export] Hint Resolve positionStall_origin continued_origin : go.

(** No stall is invented or back-dated: a stall reported after a reading
    starts at this reading or is the one stored before, for the same source,
    in a status no older than the history bound (150 seconds). *)
Theorem stall_origin prev obs pos now next t :
  nextReplication prev (Some obs) pos now = Some next -> ir_StalledSince next = Some t ->
  t = now \/
  exists p, prev = Some p /\ ir_StalledSince p = Some t /\ ir_Source p = ro_Source obs /\
    exists at_, ir_ObservedAt p = Some at_ /\
      now - at_ <= replicationHistoryTTL + observationWriteInterval.
Proof.
  intros Hn Ht.
  assert (t = now \/ reportedStall prev obs now = Some t) as [->|Hr]; [|by left|right].
  { unfold nextReplication in Hn. simplify_eq. simpl in Ht. fold (reportedStall prev obs now) in Ht.
    repeat case_match; simplify_eq; eauto with go. }
  unfold reportedStall in Hr. destruct (history prev now) as [p|] eqn:Hh; [|done].
  case_bool_decide; [|done]. apply history_Some in Hh as [-> (at_ & ? & ?)].
  exists p. split_and!; [done..|]. exists at_. split; [done|lia].
Qed.

(** Without a reading the status before is kept unchanged, and only while
    its stored time is at most 150 seconds old and at most 15 seconds ahead;
    otherwise the member has no replication status. *)
Theorem unread_keeps_history prev pos now p :
  nextReplication prev None pos now = Some p <->
  prev = Some p /\ exists t, ir_ObservedAt p = Some t /\
    - roleObservationTTL <= now - t <= replicationHistoryTTL + observationWriteInterval.
Proof. apply history_Some. Qed.

(** ** Sequences of readings

    What the controller holds of one slave between two passes: the stored
    replication status and the reading kept in memory. *)
Definition slaveMemory : Type := option InstanceReplication * option applierReading.

(** One reading of the slave: the reading, how far the stored time of the
    status lags it when the pass's status is written (holdObservationTimes),
    and the time of the pass. *)
Record slaveReading := mkSlaveReading { sr_obs : ReplicationObservation; sr_lag : Duration; sr_now : Time }.

Definition lagged (lag : Duration) (p : InstanceReplication) : InstanceReplication :=
  set_ir_ObservedAt ((fun t => t - lag) <$> ir_ObservedAt p) p.

Definition slavePass (s : slaveMemory) (r : slaveReading) : slaveMemory :=
  let kept := match s.2 with
              | Some k => if keepReading (sr_now r) k then Some k else None
              | None => None
              end in
  (lagged (sr_lag r) <$> nextReplication s.1 (Some (sr_obs r)) kept (sr_now r),
   keptReading kept (sr_obs r) (sr_now r)).

Definition slavePasses (s : slaveMemory) (rs : list slaveReading) : slaveMemory := fold_left slavePass rs s.

(** A reading of an applier that stands at [lsa] while pages wait. *)
Definition stuckAt (src app : string) (lsa : LogAddress) (r : slaveReading) : Prop :=
  ro_Source (sr_obs r) = src /\ ro_Applier (sr_obs r) = app /\ ro_FinalLSA (sr_obs r) = Some lsa /\
  (exists eof, ro_CopiedEOF (sr_obs r) = Some eof) /\ 0 < ro_DelayedPages (sr_obs r) /\
  0 <= sr_lag r <= observationWriteInterval.

(** The readings follow one another at least five seconds and at most two
    minutes apart. *)
Fixpoint paced (last : Time) (rs : list slaveReading) : Prop :=
  match rs with
  | [] => True
  | r :: rs => positionCompareInterval <= sr_now r - last <= replicationHistoryTTL /\ paced (sr_now r) rs
  end.

(** The memory of a slave whose stall is reported since [since], last read at
    [last]. *)
Definition stalledMemory (src app : string) (lsa : LogAddress) (since last : Time) (s : slaveMemory) : Prop :=
  exists p k eof, s = (Some p, Some k) /\ ir_Source p = src /\ ir_StalledSince p = Some since /\
    (exists at_, ir_ObservedAt p = Some at_ /\ last - observationWriteInterval <= at_ <= last) /\
    ar_Source k = src /\ ar_Applier k = app /\ ar_FinalLSA k = Some lsa /\ ar_CopiedEOF k = Some eof /\
    0 < ar_DelayedPages k /\ ar_ReadAt k = last.

Lemma paced_kept last now k :
  positionCompareInterval <= now - last <= replicationHistoryTTL -> ar_ReadAt k = last ->
  keepReading now k = true /\ tooClose (ar_ReadAt k) now = false.
Proof.
  intros H <-. rewrite keepReading_iff, tooClose_false.
  unfold positionCompareInterval, haResyncInterval, roleObservationTTL in *.
  change (10 * Second / 2) with (5 * Second) in *. time_lia.
Qed.

Lemma sameApplier_refl a : sameApplier a a = true.
Proof. unfold sameApplier. rewrite (bool_decide_eq_true_2 (a = a)) by done. by rewrite orb_true_r. Qed.

(** A stuck reading compared with a stuck reading kept keeps the stall
    reported, or starts one when the copy grew. *)
Lemma positionStall_stuck reported k r lsa posEOF obsEOF now :
  tooClose (ar_ReadAt k) now = false -> ar_Source k = ro_Source r -> ar_Applier k = ro_Applier r ->
  0 < ro_DelayedPages r -> 0 < ar_DelayedPages k ->
  positionStall reported k lsa posEOF r lsa obsEOF now =
  match reported with
  | Some t => Some t
  | None => if logBefore posEOF obsEOF then Some now else None
  end.
Proof.
  intros Hc Hs Ha Hd Hk. unfold positionStall. rewrite Hc, Hs, Ha, sameApplier_refl.
  rewrite !bool_decide_eq_true_2 by done. rewrite (bool_decide_eq_false_2 (_ = 0)) by lia. simpl.
  rewrite (proj2 (Z.ltb_lt 0 _)) by done. by destruct reported; simpl.
Qed.

(** The memory after a stuck reading that follows a stuck reading kept at
    [last]. *)
Lemma stuck_pass src app lsa since last reported p k eof r :
  stuckAt src app lsa r ->
  positionCompareInterval <= sr_now r - last <= replicationHistoryTTL ->
  ar_Source k = src -> ar_Applier k = app -> ar_FinalLSA k = Some lsa -> ar_CopiedEOF k = Some eof ->
  0 < ar_DelayedPages k -> ar_ReadAt k = last ->
  reportedStall p (sr_obs r) (sr_now r) = reported ->
  match reported with
  | Some t => since = t
  | None => since = sr_now r /\
      (forall eof', ro_CopiedEOF (sr_obs r) = Some eof' -> logBefore eof eof' = true)
  end ->
  stalledMemory src app lsa since (sr_now r) (slavePass (p, Some k) r).
Proof.
  intros (Hs & Ha & Hl & (eof' & He) & Hd & Hlag) Hp Hks Hka Hkl Hke Hkd Hkr Hrep Hsince.
  destruct (paced_kept _ _ _ Hp Hkr) as [Hkeep Hclose].
  unfold slavePass, keptReading. cbn [fst snd]. rewrite Hkeep, Hclose.
  destruct (nextReplication p (Some (sr_obs r)) (Some k) (sr_now r)) as [n|] eqn:En;
    [|by unfold nextReplication in En].
  pose proof (nextReplication_positioned p (sr_obs r) k (sr_now r) lsa eof lsa eof' Hl He Hkl Hke) as Hst.
  rewrite En, Hrep, positionStall_stuck in Hst by congruence. injection Hst as Hst.
  destruct (nextReplication_reading _ _ _ _ _ En) as (Hns & _ & _ & _ & _ & Hno).
  exists (lagged (sr_lag r) n). eexists _, eof'. split_and!; try reflexivity; try done.
  - simpl. congruence.
  - simpl. rewrite Hst. destruct reported as [t|]; [by rewrite Hsince|].
    destruct Hsince as [-> Hg]. by rewrite (Hg _ He).
  - exists (sr_now r - sr_lag r). simpl. rewrite Hno. split; [done|lia].
Qed.

Lemma stalledMemory_reported src app lsa since last s r p k :
  stalledMemory src app lsa since last s -> s = (p, k) -> ro_Source (sr_obs r) = src ->
  positionCompareInterval <= sr_now r - last <= replicationHistoryTTL ->
  reportedStall p (sr_obs r) (sr_now r) = Some since.
Proof.
  intros (q & ? & ? & -> & Hq & Hst & (at_ & Hat & Hle) & _) [= <- _] Hs Hp.
  unfold reportedStall. rewrite (proj2 (history_Some (Some q) (sr_now r) q)).
  - by rewrite bool_decide_eq_true_2 by congruence.
  - split; [done|]. exists at_. split; [done|].
    unfold roleObservationTTL, positionCompareInterval, haResyncInterval, observationWriteInterval in *.
    change (10 * Second / 2) with (5 * Second) in *. time_lia.
Qed.

Lemma stalled_passes src app lsa since rs : forall last s,
  stalledMemory src app lsa since last s -> Forall (stuckAt src app lsa) rs -> paced last rs ->
  stalledMemory src app lsa since (fold_left (fun _ r => sr_now r) rs last) (slavePasses s rs).
Proof.
  induction rs as [|r rs IH]; intros last s Hm Hf Hp; [done|].
  inversion_clear Hf as [|?? Hr Hrs]. destruct Hp as [Hp Hps]. cbn [slavePasses fold_left].
  apply IH; [|done..]. pose proof Hm as (q & k & eof & -> & Hq & Hst & (at_ & Hat & Hle) & Hks & Hka & Hkl & Hke & Hkd & Hkr).
  eapply (stuck_pass _ _ _ _ last (Some since)); try done.
  eapply stalledMemory_reported; try done. by destruct Hr.
Qed.

(** A stuck applier is detected.  From any status that reports no stall
    and a stuck reading kept, readings that follow at least five seconds and
    at most two minutes apart, all of the same source and applier standing at
    the same position while pages wait, the copy having grown at the first of
    them, keep reporting the stall since that first reading, whatever lag (up
    to thirty seconds) the stored observation times have. *)
Theorem stuck_applier_detected src app lsa p k eof r rs :
  ir_StalledSince p = None ->
  ar_Source k = src -> ar_Applier k = app -> ar_FinalLSA k = Some lsa -> ar_CopiedEOF k = Some eof ->
  0 < ar_DelayedPages k ->
  Forall (stuckAt src app lsa) (r :: rs) -> paced (ar_ReadAt k) (r :: rs) ->
  (forall eof', ro_CopiedEOF (sr_obs r) = Some eof' -> logBefore eof eof' = true) ->
  exists q, (slavePasses (Some p, Some k) (r :: rs)).1 = Some q /\ ir_StalledSince q = Some (sr_now r).
Proof.
  intros Hst Hks Hka Hkl Hke Hkd Hf [Hp Hps] Hg. inversion_clear Hf as [|?? Hr Hrs].
  assert (stalledMemory src app lsa (sr_now r) (sr_now r) (slavePass (Some p, Some k) r)) as Hm.
  { eapply (stuck_pass _ _ _ _ (ar_ReadAt k) None); try done.
    unfold reportedStall. destruct (history (Some p) (sr_now r)) as [q|] eqn:E; [|done].
    apply history_Some in E as [[= <-] _]. by case_bool_decide. }
  destruct (stalled_passes _ _ _ _ _ _ _ Hm Hrs Hps) as (q & ? & ? & Heq & _ & Hq & _).
  exists q. cbn [slavePasses fold_left]. unfold slavePasses in Heq. by rewrite Heq.
Qed.

(** No stall is reported in this memory, and the position it keeps is none of
    [lsas]. *)
Definition movingMemory (lsas : list LogAddress) (s : slaveMemory) : Prop :=
  (forall p, s.1 = Some p -> ir_StalledSince p = None) /\
  (forall k, s.2 = Some k -> exists l e, ar_FinalLSA k = Some l /\ ar_CopiedEOF k = Some e /\ l ∉ lsas).

Definition positionedAt (r : slaveReading) (l : LogAddress) : Prop :=
  ro_FinalLSA (sr_obs r) = Some l /\ exists e, ro_CopiedEOF (sr_obs r) = Some e.

Lemma no_reported_stall p obs now :
  (forall q, p = Some q -> ir_StalledSince q = None) -> reportedStall p obs now = None.
Proof.
  intros H. unfold reportedStall. destruct (history p now) as [q|] eqn:E; [|done].
  apply history_Some in E as [-> _]. case_bool_decide; [|done]. by apply H.
Qed.

Lemma positionStall_moved k l e obs l' e' now :
  l <> l' -> positionStall None k l e obs l' e' now = None.
Proof.
  intros H. unfold positionStall. rewrite (bool_decide_eq_false_2 (l = l')) by done.
  destruct (tooClose _ _); [done|]. by rewrite orb_true_r.
Qed.

Lemma moving_pass l lsas s r :
  movingMemory (l :: lsas) s -> positionedAt r l -> l ∉ lsas -> movingMemory lsas (slavePass s r).
Proof.
  intros [Hst Hk] [Hl [e He]] Hnl. destruct s as [p k]. simpl in *.
  pose proof (no_reported_stall p (sr_obs r) (sr_now r) Hst) as Hrep.
  unfold slavePass. cbn [fst snd].
  set (kept := match k with Some _ => _ | None => _ end).
  assert (forall k', kept = Some k' -> k = Some k') as Hkept.
  { intros k'. unfold kept. destruct k as [k0|]; [|done]. by destruct (keepReading _ k0). }
  split.
  - intros q Hq. cbn [fst] in Hq. apply fmap_Some in Hq as (n & Hn & ->). cbn [lagged set_ir_ObservedAt ir_StalledSince].
    enough (ir_StalledSince <$> nextReplication p (Some (sr_obs r)) kept (sr_now r) = Some None) as H.
    { rewrite Hn in H. by injection H. }
    destruct kept as [k'|].
    + destruct (Hk k' (Hkept _ eq_refl)) as (l0 & e0 & Hl0 & He0 & Hni).
      rewrite (nextReplication_positioned _ _ _ _ l0 e0 l e Hl He Hl0 He0), Hrep.
      by rewrite positionStall_moved by set_solver.
    + rewrite (nextReplication_unkept _ _ _ l e Hl He), Hrep. by case_test.
  - intros k'. cbn [snd]. unfold keptReading.
    destruct kept as [k0|]; [destruct (tooClose (ar_ReadAt k0) _)|]; intros [= <-].
    + destruct (Hk k0 (Hkept _ eq_refl)) as (l0 & e0 & ? & ? & ?). exists l0, e0. set_solver.
    + by exists l, e.
    + by exists l, e.
Qed.

(** An applier whose position moves is never reported stalled: from a
    memory without a stall, whatever the counters, waiting pages, times and
    applier identities of the readings are, readings whose positions differ
    pairwise (and from the one kept) never report a stall. *)
Theorem moving_applier_never_stalled lsas s rs :
  movingMemory lsas s -> Forall2 positionedAt rs lsas -> NoDup lsas ->
  forall q, (slavePasses s rs).1 = Some q -> ir_StalledSince q = None.
Proof.
  intros Hm Hf. revert s Hm. induction Hf as [|r l rs lsas Hr _ IH]; intros s Hm Hnd q; cbn [slavePasses fold_left].
  - apply Hm.
  - apply NoDup_cons in Hnd as [Hni Hnd]. apply IH; [|done]. by eapply moving_pass.
Qed.

(** ** Concrete series *)
Module SlaveExample.
Definition lsa : LogAddress := mkLogAddress 10 100.
Definition reading (l : LogAddress) (eofPage pages : Z) : ReplicationObservation :=
  mkReplicationObservation "c-0" 5 0 pages "pid 7" (Some l) (Some (mkLogAddress eofPage 0)) None.
Definition at_ (s : Z) (l : LogAddress) (eofPage : Z) : slaveReading :=
  mkSlaveReading (reading l eofPage 3) 0 ((1000 + s) * Second).
Definition kept : applierReading :=
  mkReading "c-0" "pid 7" (Some lsa) (Some (mkLogAddress 12 0)) 3 (1000 * Second).
Definition before : InstanceReplication :=
  mkInstanceReplication "c-0" 5 0 3 "pid 7" None 0 None None (Some (1000 * Second)).
Lemma stuck s e : stuckAt "c-0" "pid 7" lsa (at_ s lsa e).
Proof. unfold stuckAt. split_and!; simpl; try done. by eexists. Qed.
End SlaveExample.

Lemma stuck_applier_detected_witness :
  exists q, (slavePasses (Some SlaveExample.before, Some SlaveExample.kept)
    [SlaveExample.at_ 10 SlaveExample.lsa 13; SlaveExample.at_ 40 SlaveExample.lsa 14;
     SlaveExample.at_ 75 SlaveExample.lsa 14]).1 = Some q /\ ir_StalledSince q = Some (1010 * Second).
Proof.
  apply (stuck_applier_detected "c-0" "pid 7" SlaveExample.lsa SlaveExample.before SlaveExample.kept
           (mkLogAddress 12 0)); try reflexivity.
  - repeat (apply List.Forall_cons; [apply SlaveExample.stuck|]). apply List.Forall_nil.
  - repeat split; vm_compute; intros H; discriminate H.
  - intros eof' [= <-]. reflexivity.
Defined.

Lemma moving_applier_never_stalled_witness :
  exists q, (slavePasses (Some SlaveExample.before, Some SlaveExample.kept)
    [SlaveExample.at_ 10 (mkLogAddress 10 200) 13; SlaveExample.at_ 80 (mkLogAddress 11 0) 14]).1 = Some q /\
  ir_StalledSince q = None.
Proof.
  eexists. split; [vm_compute; reflexivity|].
  apply (moving_applier_never_stalled [mkLogAddress 10 200; mkLogAddress 11 0]
    (Some SlaveExample.before, Some SlaveExample.kept)
    [SlaveExample.at_ 10 (mkLogAddress 10 200) 13; SlaveExample.at_ 80 (mkLogAddress 11 0) 14]).
  - split; [intros p [= <-]; reflexivity|].
    intros k [= <-]. exists SlaveExample.lsa, (mkLogAddress 12 0). repeat split.
    intros H. vm_compute in H. set_solver.
  - repeat constructor; eexists; reflexivity.
  - apply (bool_decide_unpack _). vm_compute. exact I.
  - vm_compute. reflexivity.
Defined.

Lemma stall_origin_witness :
  (1010 * Second) = (1010 * Second) \/
  exists p, Some SlaveExample.before = Some p /\ ir_StalledSince p = Some (1010 * Second) /\
    ir_Source p = "c-0" /\ exists at_, ir_ObservedAt p = Some at_ /\
      1010 * Second - at_ <= replicationHistoryTTL + observationWriteInterval.
Proof.
  eapply (stall_origin (Some SlaveExample.before) (SlaveExample.reading SlaveExample.lsa 13 3)
            (Some SlaveExample.kept) (1010 * Second)); vm_compute; reflexivity.
Defined.

(** ** The condition *)

Definition slavesIn (obs : gmap string RoleObservation) (now : Time) (instances : list InstanceStatus)
  (state : SlaveState) : list InstanceStatus :=
  filter (fun i => is_Role i = RoleSlave /\ slaveState obs now i = state) instances.

Lemma scanSlaves obs now instances :
  fold_left (scanSlave obs now) instances (mkSlaveScan [] [] [] [] 0) =
  mkSlaveScan (is_Name <$> slavesIn obs now instances SlaveFailing)
    (is_Name <$> slavesIn obs now instances SlaveStalled)
    (is_Name <$> slavesIn obs now instances SlaveNotReceiving)
    (is_Name <$> slavesIn obs now instances SlaveUnread)
    (length (filter (fun i => is_Role i = RoleSlave) instances)).
Proof.
  induction instances as [|i l IH] using rev_ind; [done|].
  rewrite fold_left_app, IH. cbn [fold_left]. unfold scanSlave, slavesIn. rewrite !filter_snoc.
  destruct (decide (is_Role i = RoleSlave)) as [E|E].
  - rewrite (bool_decide_eq_true_2 _ E). cbn [negb].
    destruct (slaveState obs now i) eqn:Es;
      repeat (match goal with |- context [decide ?P] => destruct (decide P) end; try (exfalso; intuition congruence));
      by rewrite ?app_nil_r, ?length_snoc, ?fmap_app.
  - rewrite (bool_decide_eq_false_2 _ E). cbn [negb].
    repeat (match goal with |- context [decide ?P] => destruct (decide P) end; try (exfalso; intuition congruence)).
    by rewrite !app_nil_r.
Qed.

(** Some slave among the instances is in this state. *)
Definition someSlave obs now (instances : list InstanceStatus) state : Prop :=
  exists i, i ∈ instances /\ is_Role i = RoleSlave /\ slaveState obs now i = state.
#[global] Instance someSlave_dec obs now instances state : Decision (someSlave obs now instances state).
Proof.
  refine (cast_if (decide (slavesIn obs now instances state <> []))); unfold someSlave, slavesIn in *;
    rewrite <- (filter_not_nil (fun i => is_Role i = RoleSlave /\ slaveState obs now i = state)); assumption.
Defined.

Lemma names_not_nil obs now instances state :
  (0 <? length (is_Name <$> slavesIn obs now instances state))%nat =
  bool_decide (someSlave obs now instances state).
Proof.
  rewrite length_pos_bool. apply bool_decide_ext. unfold someSlave.
  rewrite <- (filter_not_nil (fun i => is_Role i = RoleSlave /\ slaveState obs now i = state)).
  fold (slavesIn obs now instances state). by destruct (slavesIn obs now instances state).
Qed.

Lemma replicationCondition_cases instances obs now :
  (replicationCondition instances obs now).1 =
  if bool_decide (someSlave obs now instances SlaveFailing) then (ConditionFalse, reasonApplyFailures)
  else if bool_decide (someSlave obs now instances SlaveStalled) then (ConditionFalse, reasonReplicationStalled)
  else if bool_decide (someSlave obs now instances SlaveNotReceiving) then (ConditionFalse, reasonLogCopyStalled)
  else if bool_decide (someSlave obs now instances SlaveFine) &&
          negb (bool_decide (someSlave obs now instances SlaveUnread))
  then (ConditionTrue, reasonAppliersProgressing)
  else (ConditionUnknown, reasonReplicationNotObserved).
Proof.
  unfold replicationCondition. rewrite scanSlaves. cbn [ss_failing ss_stalled ss_notReceiving ss_unread ss_slaves].
  rewrite !names_not_nil.
  case_bool_decide as Hf; [done|]. case_bool_decide as Hs; [done|]. case_bool_decide as Hn; [done|].
  assert (length (filter (fun i => is_Role i = RoleSlave) instances) = O <->
          ~ someSlave obs now instances SlaveFine /\ ~ someSlave obs now instances SlaveUnread) as Hz.
  { rewrite length_zero_iff_nil, filter_nil_iff, Forall_forall. unfold someSlave in *. split; [naive_solver|].
    intros [Ha Hb] i Hi Hr. destruct (slaveState obs now i) eqn:E; naive_solver. }
  destruct (decide (length (filter (fun i => is_Role i = RoleSlave) instances) = O)) as [E|E].
  - rewrite (bool_decide_eq_true_2 _ E). apply Hz in E as [Ha Hb].
    by rewrite (bool_decide_eq_false_2 _ Ha).
  - rewrite (bool_decide_eq_false_2 _ E). case_bool_decide; [by rewrite andb_false_r|].
    rewrite bool_decide_eq_true_2; [done|]. apply dec_stable. tauto.
Qed.

Lemma replication_not_false instances obs now i :
  (replicationCondition instances obs now).1.1 <> ConditionFalse -> i ∈ instances -> is_Role i = RoleSlave ->
  slaveState obs now i = SlaveFine \/ slaveState obs now i = SlaveUnread.
Proof.
  rewrite replicationCondition_cases. intros Hv Hi Hs.
  destruct (slaveState obs now i) eqn:Es; try tauto; exfalso;
    (assert (someSlave obs now instances _) by (exists i; split_and!; [exact Hi|exact Hs|exact Es]));
    repeat case_bool_decide; done.
Qed.

Lemma replication_true instances obs now i :
  (replicationCondition instances obs now).1.1 = ConditionTrue -> i ∈ instances -> is_Role i = RoleSlave ->
  slaveState obs now i <> SlaveUnread.
Proof.
  rewrite replicationCondition_cases. intros Hv Hi Hs Hun.
  assert (someSlave obs now instances SlaveUnread) as Hsome by (exists i; split_and!; [exact Hi|exact Hs|exact Hun]).
  rewrite (bool_decide_eq_true_2 _ Hsome), andb_false_r in Hv. repeat case_bool_decide; done.
Qed.

(** ReplicationHealthy is False exactly when a slave read in this pass
    fails to apply changes, has been stalled for the window or has a copy of
    the log that has not grown for it (the reason is the first of the three
    that some slave shows); it is True exactly when there is a slave and every
    slave was read and shows none of them; otherwise it is Unknown. *)
Theorem replicationCondition_verdict instances obs now :
  (replicationCondition instances obs now).1 =
  if bool_decide (someSlave obs now instances SlaveFailing) then (ConditionFalse, reasonApplyFailures)
  else if bool_decide (someSlave obs now instances SlaveStalled) then (ConditionFalse, reasonReplicationStalled)
  else if bool_decide (someSlave obs now instances SlaveNotReceiving) then (ConditionFalse, reasonLogCopyStalled)
  else if bool_decide (someSlave obs now instances SlaveFine) &&
          negb (bool_decide (someSlave obs now instances SlaveUnread))
  then (ConditionTrue, reasonAppliersProgressing)
  else (ConditionUnknown, reasonReplicationNotObserved).
Proof. apply replicationCondition_cases. Qed.
