(* ===== verification/HAStatus.v ===== *)
(** * The HA status of a cluster

    The rest of [internal/controller/haresolve.go]: the per-instance status,
    the HAReady condition with its bounded hold of missing evidence, the
    reconcile step that writes them, the one for a reconcile that ends before
    the roles are observed, and the throttle of observation times. *)
From stdpp Require Import prelude gmap strings pretty list.
From S2P Require Import Prelude Api HARole Replication.

Definition conditionPrimaryResolved : string := "PrimaryResolved".
Definition conditionHAReady : string := "HAReady".
Definition conditionRoutingReady : string := "RoutingReady".
Definition conditionReplicationHealthy : string := "ReplicationHealthy".
Definition reasonReplicasNotObserved : string := "ReplicasNotObserved".
Definition reasonHealthyReplication : string := "HealthyReplication".
Definition reasonRolesNotObserved : string := "RolesNotObserved".

(** ** instanceStatuses *)

(** withSourceLogEnd: a copy of the reading with the log end of its source. *)
Definition withSourceLogEnd (r : option ReplicationObservation) (obs : gmap string RoleObservation)
  (now : Time) : option ReplicationObservation :=
  match r with
  | None => None
  | Some r =>
      match obs !! ro_Source r with
      | Some src =>
          if (o_Role src != RoleMaster) || negb (authoritative src now) || is_nil (o_LogEnd src) then Some r
          else Some (mkReplicationObservation (ro_Source r) (ro_AppliedChanges r) (ro_FailCount r)
                       (ro_DelayedPages r) (ro_Applier r) (ro_FinalLSA r) (ro_CopiedEOF r) (o_LogEnd src))
      | None => Some r
      end
  end.

(** The instance of the reconcile before with this name: the maps that
    instanceStatuses fills hold the last one. *)
Definition previousInstance (previous : list InstanceStatus) (m : string) : option InstanceStatus :=
  last_that (fun i => is_Name i == m) previous.

(** The status of one member. *)
Definition instanceStatus (obs : gmap string RoleObservation) (now : Time) (previous : list InstanceStatus)
  (positions : gmap string applierReading) (i : nat) (m : string) : InstanceStatus :=
  let before := previousInstance previous m in
  let o := lookupd zeroObservation obs m in
  let ok := non_nil (obs !! m) in
  let role := if ok && authoritative o now then o_Role o else RoleUnknown in
  let ready := ok && authoritative o now &&
    ((role == RoleMaster) || (role == RoleSlave) || (role == RoleReplica)) in
  let version := if ok && fresh o now then o_EngineVersion o else "" in
  let counts := ok && fresh o now && negb (o_Conflicting o) in
  let lastObserved := if counts then Some now else before ≫= is_LastObservedTime in
  let unfinished := if counts then o_Unfinished o else before ≫= is_UnfinishedDatabase in
  let replication :=
    if role == RoleSlave
    then nextReplication (before ≫= is_Replication) (withSourceLogEnd (o_Replication o) obs now)
           (positionOf positions m) now
    else None in
  mkInstanceStatus m (Z.of_nat i) role ready version "" replication lastObserved unfinished.

Definition instanceStatuses (members : list string) (obs : gmap string RoleObservation) (now : Time)
  (previous : list InstanceStatus) (positions : gmap string applierReading) : list InstanceStatus :=
  imap (instanceStatus obs now previous positions) members.

(** ** HAReady *)

Definition replicationDecided (c : option Condition) : bool :=
  match c with
  | None => false
  | Some c =>
      if c_Reason c == reasonHealthyReplication then c_Status c == ConditionTrue
      else if (c_Reason c == reasonReplicationStalled) || (c_Reason c == reasonApplyFailures) ||
              (c_Reason c == reasonLogCopyStalled)
      then c_Status c == ConditionFalse
      else false
  end.

Definition youngerThan (window : Duration) (now : Time) (t : option Time) : bool :=
  match t with None => false | Some t => Sub now t <? window end.

(** unreadRecently, as the loop with its early return: the first slave not
    read whose last reading is missing or too old decides. *)
Definition unreadRecently (instances : list InstanceStatus) (obs : gmap string RoleObservation) (now : Time) : bool :=
  forallb (fun i =>
    if (is_Role i != RoleSlave) || non_nil (o_Replication (lookupd zeroObservation obs (is_Name i))) then true
    else match is_Replication i with
         | None => false
         | Some r => youngerThan replicationStallWindow now (ir_ObservedAt r)
         end) instances.

(** The loop of haReadyCondition: the members not observed as a slave, and
    whether each of them answered within the window. *)
Definition notSlave (res : PrimaryResolution) (i : InstanceStatus) : bool :=
  negb ((is_Name i == res_CurrentPrimary res) || (is_Role i == RoleSlave)).

Definition scanUnobserved (res : PrimaryResolution) (now : Time) (acc : list string * bool) (i : InstanceStatus)
  : list string * bool :=
  let '(unobserved, recent) := acc in
  if notSlave res i then
    (unobserved ++ [is_Name i],
     if negb (youngerThan replicationStallWindow now (is_LastObservedTime i)) then false else recent)
  else (unobserved, recent).

Definition haReadyCondition (res : PrimaryResolution) (instances : list InstanceStatus)
  (obs : gmap string RoleObservation) (previous : option Condition)
  (replStatus : ConditionStatus) (replReason replMessage : string) (now : Time)
  : ConditionStatus * string * string :=
  if res_Status res != ConditionTrue then (ConditionFalse, res_Reason res, primaryResolvedMessage res)
  else
    let resolved := "single primary resolved: " +:+ res_CurrentPrimary res in
    let '(unobserved, recent) := fold_left (scanUnobserved res now) instances ([], true) in
    let hold := if replicationDecided previous && recent && unreadRecently instances obs now
                then previous else None in
    let judged := (replStatus, replReason, resolved +:+ "; replication: " +:+ replMessage) in
    if replStatus == ConditionFalse then judged
    else if (0 <? length unobserved)%nat then
      match hold with
      | Some p => (c_Status p, c_Reason p, c_Message p)
      | None => (ConditionUnknown, reasonReplicasNotObserved,
                 resolved +:+ "; not observed as a slave: " +:+ strJoin ", " unobserved)
      end
    else if (length instances <=? 1)%nat || (replStatus == ConditionTrue) then
      (ConditionTrue, reasonHealthyReplication, resolved)
    else match hold with
      | Some p => (c_Status p, c_Reason p, c_Message p)
      | None => judged
      end.

(** ** The reconcile steps *)

Section reconcile.
Context `{O : ConditionOps}.

(** reconcileHAStatus, after the members were polled: [probe] gives the
    observation of each.  It returns the cluster, the resolution and the
    readings to keep once the status is written. *)
Definition reconcileHAStatus (cluster : CubridCluster) (count : Z) (probe : string -> RoleObservation)
  (store : option ApplierPositions) (now : Time)
  : CubridCluster * PrimaryResolution * gmap string applierReading :=
  let members := memberNames cluster count in
  let obs := list_to_map ((fun m => (m, probe m)) <$> members) in
  let res := resolvePrimary members obs now in
  let previous := st_Instances (cl_Status cluster) in
  let positions := readings store (cl_UID cluster) now in
  let instances := instanceStatuses members obs now previous positions in
  let cluster := map_status (fun s => set_st_LastObservedTime (Some now)
    (set_st_Instances instances (set_st_CurrentPrimary (res_CurrentPrimary res) s))) cluster in
  let cluster := setCondition cluster conditionPrimaryResolved (res_Status res) (res_Reason res)
                   (primaryResolvedMessage res) in
  let '(replStatus, replReason, replMessage) := replicationCondition instances obs now in
  let cluster := setCondition cluster conditionReplicationHealthy replStatus replReason replMessage in
  let '(haStatus, haReason, haMessage) :=
    haReadyCondition res instances obs
      (findCondition (st_Conditions (cl_Status cluster)) conditionHAReady)
      replStatus replReason replMessage now in
  let cluster := setCondition cluster conditionHAReady haStatus haReason haMessage in
  (cluster, res, readingPositions members obs positions now).

(** markRolesNotObserved; [hasProber] is [r.Prober != nil]. *)
Definition markRolesNotObserved (cluster : CubridCluster) (hasProber : bool) (why : string) : CubridCluster :=
  if negb (sp_HAEnabled (cl_Spec cluster)) || negb hasProber then cluster
  else
    let cluster := map_status (fun s =>
      set_st_Instances (set_is_Role RoleUnknown <$> st_Instances s) (set_st_CurrentPrimary "" s)) cluster in
    let msg := "roles were not observed in this reconcile: " +:+ why in
    fold_left (fun cluster condition => setCondition cluster condition ConditionUnknown reasonRolesNotObserved msg)
      [conditionPrimaryResolved; conditionHAReady; conditionRoutingReady; conditionReplicationHealthy] cluster.
End reconcile.

(** ** The throttle of observation times *)

Definition heldTime (stored current : option Time) (now : Time) : option Time :=
  match stored, current with
  | Some s, Some c =>
      if c <? s then Some c
      else let age := Sub now s in
           if (age <? 0) || (observationWriteInterval <=? age) then Some c else Some s
  | _, c => c
  end.

(** The times of one instance, held back to those of the stored instance. *)
Definition holdInstance (stored : list InstanceStatus) (now : Time) (i : InstanceStatus) : InstanceStatus :=
  match previousInstance stored (is_Name i) with
  | None => i
  | Some prev =>
      let i := set_is_LastObservedTime (heldTime (is_LastObservedTime prev) (is_LastObservedTime i) now) i in
      match is_Replication i, is_Replication prev with
      | Some r, Some p =>
          set_is_Replication (Some (set_ir_ObservedAt (heldTime (ir_ObservedAt p) (ir_ObservedAt r) now) r)) i
      | _, _ => i
      end
  end.

(** The copy of [status] with every time held back. *)
Definition holdTimes (stored status : CubridClusterStatus) (now : Time) : CubridClusterStatus :=
  set_st_Instances (holdInstance (st_Instances stored) now <$> st_Instances status)
    (set_st_LastObservedTime (heldTime (st_LastObservedTime stored) (st_LastObservedTime status) now) status).

Section hold.
(** [equality.Semantic.DeepEqual] *)
Variable DeepEqual : CubridClusterStatus -> CubridClusterStatus -> bool.

Definition holdObservationTimes (stored : option CubridClusterStatus) (status : CubridClusterStatus)
  (now : Time) : CubridClusterStatus :=
  match stored with
  | None => status
  | Some stored =>
      let held := holdTimes stored status now in
      if DeepEqual held stored then held else status
  end.
End hold.

(** ** HAReady and its evidence *)

Definition unobservedRecent (res : PrimaryResolution) (now : Time) (i : InstanceStatus) : bool :=
  negb (notSlave res i) || youngerThan replicationStallWindow now (is_LastObservedTime i).

Lemma scanUnobserved_fold res now instances :
  fold_left (scanUnobserved res now) instances ([], true) =
  (is_Name <$> filter (fun i => notSlave res i = true) instances,
   forallb (unobservedRecent res now) instances).
Proof.
  induction instances as [|i l IH] using rev_ind; [done|].
  rewrite fold_left_app, IH, filter_snoc, forallb_app. cbn [fold_left forallb].
  unfold scanUnobserved, unobservedRecent. rewrite andb_true_r.
  destruct (notSlave res i); destruct (decide _); try congruence; cbn [negb orb].
  - rewrite fmap_app. f_equal. destruct (youngerThan _ _ _); simpl; by rewrite ?andb_true_r, ?andb_false_r.
  - by rewrite app_nil_r, andb_true_r.
Qed.

Lemma youngerThan_iff window now t :
  in_duration window -> youngerThan window now t = true <-> exists u, t = Some u /\ now - u < window.
Proof.
  intros H. unfold youngerThan. destruct t as [u|]; [|naive_solver].
  rewrite Z.ltb_lt, Sub_lt by done. naive_solver.
Qed.

Lemma stallWindow_in : in_duration replicationStallWindow.
Proof. unfold in_duration, replicationStallWindow. time_lia. Qed.
#[export] Hint Resolve stallWindow_in : go.

(** A slave without a reading of this pass has one younger than the window. *)
Definition unreadRecent (obs : gmap string RoleObservation) (now : Time) (i : InstanceStatus) : Prop :=
  is_Role i = RoleSlave -> o_Replication (lookupd zeroObservation obs (is_Name i)) = None ->
  exists r t, is_Replication i = Some r /\ ir_ObservedAt r = Some t /\ now - t < replicationStallWindow.

Lemma unreadRecently_iff instances obs now :
  unreadRecently instances obs now = true <-> Forall (unreadRecent obs now) instances.
Proof.
  unfold unreadRecently. rewrite forallb_Forall_iff. apply Forall_proper; [|done].
  intros i. unfold unreadRecent. case_bool_decide as Hr; cbn [negb orb].
  - destruct (o_Replication _) as [x|]; cbn [non_nil is_nil negb]; [naive_solver|].
    destruct (is_Replication i) as [r|]; [|naive_solver].
    rewrite youngerThan_iff by auto with go. naive_solver.
  - naive_solver.
Qed.

(** How HAReady can be True: nothing missing and the replication judged
    healthy (or a single member), or a True decided before by the replication
    and held while what is missing is younger than the window. *)
Lemma haReady_true res instances obs previous replStatus replReason replMessage now reason msg :
  haReadyCondition res instances obs previous replStatus replReason replMessage now = (ConditionTrue, reason, msg) ->
  res_Status res = ConditionTrue /\ replStatus <> ConditionFalse /\
  (Forall (fun i => notSlave res i = false) instances /\
     ((length instances <= 1)%nat \/ replStatus = ConditionTrue) \/
   Forall (fun i => unobservedRecent res now i = true) instances /\
     Forall (unreadRecent obs now) instances /\
     exists p, previous = Some p /\ replicationDecided previous = true /\ c_Status p = ConditionTrue).
Proof.
  unfold haReadyCondition. rewrite scanUnobserved_fold, length_pos_bool.
  case_bool_decide as Hres; [|done]. cbn [negb].
  case_bool_decide as Hrepl; [by rewrite Hrepl|].
  match goal with |- context [if ?b then previous else None] => set (hold := if b then previous else None) end.
  assert (forall p, hold = Some p -> Forall (fun i => unobservedRecent res now i = true) instances /\
    Forall (unreadRecent obs now) instances /\ previous = Some p /\ replicationDecided previous = true) as Hhold.
  { intros p. unfold hold. case_test; [|done]. bool_simpl. intros ->.
    split_and!; [by apply forallb_Forall_iff|by apply unreadRecently_iff|done|done]. }
  case_bool_decide as Hun.
  - destruct hold as [p|]; [|done]. intros [= Hp _ _]. destruct (Hhold p eq_refl) as (?&?&->&?).
    split_and!; [done..|]. right. eauto 10.
  - assert (Forall (fun i => notSlave res i = false) instances) as Hall.
    { apply fmap_nil_inv, filter_nil_iff in Hun.
      eapply Forall_impl; [exact Hun|]. intros i. apply not_true_is_false. }
    destruct (Nat.leb_spec (length instances) 1); cbn [orb]; [naive_solver|].
    case_bool_decide; [naive_solver|].
    destruct hold as [p|]; [|intros [= ->]; done]. intros [= Hp _ _].
    destruct (Hhold p eq_refl) as (?&?&->&?). split_and!; [done..|]. right. eauto 10.
Qed.

Lemma haReady_unresolved res instances obs previous rs rr rm now :
  res_Status res <> ConditionTrue ->
  haReadyCondition res instances obs previous rs rr rm now =
  (ConditionFalse, res_Reason res, primaryResolvedMessage res).
Proof. intros H. unfold haReadyCondition. by rewrite bool_decide_eq_false_2. Qed.

Section reconcile_facts.
Context `{O : ConditionOps} `{!ConditionLaws O}.
Context (cluster : CubridCluster) (count : Z) (probe : string -> RoleObservation).
Context (store : option ApplierPositions) (now : Time).

Let members := memberNames cluster count.

(** The observations of the pass. *)
Definition passObs : gmap string RoleObservation := list_to_map ((fun m => (m, probe m)) <$> members).
Let result := reconcileHAStatus cluster count probe store now.
Let after := result.1.1.
Let res := resolvePrimary members passObs now.

Lemma passObs_lookup m : m ∈ members -> passObs !! m = Some (probe m).
Proof.
  intros Hm. unfold passObs. apply elem_of_list_to_map.
  - rewrite <- list_fmap_compose. unfold compose; simpl. rewrite list_fmap_id. apply memberNames_NoDup.
  - apply list_elem_of_fmap. eauto.
Qed.

Lemma passObs_lookupd m : m ∈ members -> lookupd zeroObservation passObs m = probe m.
Proof. intros Hm. apply lookupd_Some. by apply passObs_lookup. Qed.

Definition passInstances : list InstanceStatus :=
  instanceStatuses members passObs now (st_Instances (cl_Status cluster)) (readings store (cl_UID cluster) now).

Lemma after_instances : st_Instances (cl_Status after) = passInstances.
Proof.
  unfold after, result, reconcileHAStatus. fold members. fold passObs. fold passInstances.
  destruct (replicationCondition _ _ _) as [[??]?]. by destruct (haReadyCondition _ _ _ _ _ _ _ _) as [[??]?].
Qed.

Lemma after_primary : st_CurrentPrimary (cl_Status after) = res_CurrentPrimary res.
Proof.
  unfold after, result, reconcileHAStatus. fold members. fold passObs. fold passInstances.
  destruct (replicationCondition _ _ _) as [[??]?]. by destruct (haReadyCondition _ _ _ _ _ _ _ _) as [[??]?].
Qed.

Lemma after_time : st_LastObservedTime (cl_Status after) = Some now.
Proof.
  unfold after, result, reconcileHAStatus. fold members. fold passObs. fold passInstances.
  destruct (replicationCondition _ _ _) as [[??]?]. by destruct (haReadyCondition _ _ _ _ _ _ _ _) as [[??]?].
Qed.

Lemma after_resolution : result.1.2 = res.
Proof.
  unfold after, result, reconcileHAStatus. fold members. fold passObs. fold passInstances.
  destruct (replicationCondition _ _ _) as [[??]?]. by destruct (haReadyCondition _ _ _ _ _ _ _ _) as [[??]?].
Qed.

Lemma after_meta : cl_Name after = cl_Name cluster /\ cl_Spec after = cl_Spec cluster.
Proof.
  unfold after, result, reconcileHAStatus. fold members. fold passObs. fold passInstances.
  destruct (replicationCondition _ _ _) as [[??]?]. by destruct (haReadyCondition _ _ _ _ _ _ _ _) as [[??]?].
Qed.

(** HAReady after the pass is haReadyCondition's verdict; its status before
    is the one the cluster had. *)
Lemma after_haReady :
  clusterCondition after conditionHAReady =
  let '(rs, rr, rm) := replicationCondition passInstances passObs now in
  let '(s, r, m) := haReadyCondition res passInstances passObs
    (findCondition (st_Conditions (cl_Status cluster)) conditionHAReady) rs rr rm now in
  Some (s, r, m, cl_Generation cluster).
Proof.
  unfold after, result, reconcileHAStatus. fold members. fold passObs. fold passInstances. fold res.
  destruct (replicationCondition _ _ _) as [[rs rr] rm].
  rewrite setCondition_other by done. rewrite setCondition_other by done.
  cbn [map_status cl_Status set_st_LastObservedTime set_st_Instances set_st_CurrentPrimary st_Conditions].
  destruct (haReadyCondition _ _ _ _ _ _ _ _) as [[s r] m]. cbn [fst].
  by rewrite setCondition_same.
Qed.

Lemma after_primaryResolved :
  clusterCondition after conditionPrimaryResolved =
  Some (res_Status res, res_Reason res, primaryResolvedMessage res, cl_Generation cluster).
Proof.
  unfold after, result, reconcileHAStatus. fold members. fold passObs. fold passInstances. fold res.
  destruct (replicationCondition _ _ _) as [[rs rr] rm].
  destruct (haReadyCondition _ _ _ _ _ _ _ _) as [[s r] m]. cbn [fst].
  do 2 rewrite setCondition_view_other by done. by rewrite setCondition_same.
Qed.

Lemma passInstances_lookup i x :
  passInstances !! i = Some x <->
  exists m, members !! i = Some m /\
    x = instanceStatus passObs now (st_Instances (cl_Status cluster)) (readings store (cl_UID cluster) now) i m.
Proof.
  unfold passInstances, instanceStatuses. rewrite list_lookup_imap. destruct (members !! i); naive_solver.
Qed.

Lemma passInstances_elem x :
  x ∈ passInstances -> is_Name x ∈ members /\
  is_Role x = (if authoritative (probe (is_Name x)) now then o_Role (probe (is_Name x)) else RoleUnknown) /\
  (o_Replication (probe (is_Name x)) <> None -> is_Role x = RoleSlave -> is_Replication x <> None).
Proof.
  intros [i Hi]%list_elem_of_lookup. apply passInstances_lookup in Hi as (m & Hm & ->).
  apply list_elem_of_lookup_2 in Hm. unfold instanceStatus. rewrite passObs_lookupd, passObs_lookup by done. simpl.
  split_and!; [done..|]. intros Hr Hs. rewrite Hs. rewrite bool_decide_eq_true_2 by done.
  destruct (o_Replication (probe m)) as [r|]; [|done]. unfold withSourceLogEnd.
  by repeat case_match.
Qed.

Lemma passObs_all : allObserved passObs now members <-> Forall (fun m => authoritative (probe m) now = true) members.
Proof.
  unfold allObserved. rewrite !Forall_forall. split; intros H m Hm.
  - destruct (H m Hm) as (o & Ho & ?). rewrite passObs_lookup in Ho by done. naive_solver.
  - exists (probe m). split; [by apply passObs_lookup|auto].
Qed.

Lemma passObs_masters :
  mastersOf passObs now members =
  filter (fun m => authoritative (probe m) now = true /\ o_Role (probe m) = RoleMaster) members.
Proof.
  apply filter_ext_elem. intros m Hm. rewrite evidenceOf_role, (passObs_lookup m Hm). naive_solver.
Qed.
End reconcile_facts.

(** The one member of a single-member cluster with a master is the master. *)
Lemma single_member_master members (probe : string -> RoleObservation) now p m :
  filter (fun m => authoritative (probe m) now = true /\ o_Role (probe m) = RoleMaster) members = [p] ->
  (length members <= 1)%nat -> m ∈ members ->
  (if authoritative (probe m) now then o_Role (probe m) else RoleUnknown) = RoleMaster.
Proof.
  intros Hms Hlen Hin.
  assert (p ∈ filter (fun m => authoritative (probe m) now = true /\ o_Role (probe m) = RoleMaster) members)
    as [[Ha Hm] Hp]%list_elem_of_filter by (rewrite Hms; set_solver).
  assert (m = p) as ->; [|by rewrite Ha].
  destruct members as [|x [|y l]]; simpl in *; [set_solver|set_solver|lia].
Qed.

Section reconcile_claims.
Context `{O : ConditionOps} `{!ConditionLaws O}.

(** HAReady is never True on missing role evidence: when a pass leaves
    HAReady True, every member was authoritatively observed in that pass,
    exactly one of them as master, and it is status.currentPrimary; and every
    slave was either read in that pass and is neither failing, stalled nor
    cut off, or its last reading is younger than the stall window. *)
Theorem haReady_true_observed cluster count probe store now :
  let after := (reconcileHAStatus cluster count probe store now).1.1 in
  let members := memberNames cluster count in
  conditionStatus (st_Conditions (cl_Status after)) conditionHAReady = Some ConditionTrue ->
  Forall (fun m => authoritative (probe m) now = true) members /\
  filter (fun m => authoritative (probe m) now = true /\ o_Role (probe m) = RoleMaster) members =
    [st_CurrentPrimary (cl_Status after)] /\
  Forall (fun i => is_Role i = RoleSlave ->
    slaveState (passObs cluster count probe) now i = SlaveFine \/
    o_Replication (probe (is_Name i)) = None /\
    exists r t, is_Replication i = Some r /\ ir_ObservedAt r = Some t /\ now - t < replicationStallWindow)
    (st_Instances (cl_Status after)).
Proof.
  intros after members Hha. subst after members.
  pose proof (after_haReady cluster count probe store now) as Hview.
  destruct (replicationCondition (passInstances cluster count probe store now) (passObs cluster count probe) now)
    as [[rs rr] rm] eqn:Erepl.
  destruct (haReadyCondition _ _ _ _ _ _ _ _) as [[s r] m] eqn:Eha.
  assert (s = ConditionTrue) as ->.
  { unfold clusterCondition, conditionView in Hview. unfold conditionStatus in Hha.
    destruct (findCondition _ conditionHAReady); simpl in *; congruence. }
  apply haReady_true in Eha as (Hres & Hrepl & Hcase).
  rewrite (after_primary cluster count probe store now), (after_instances cluster count probe store now).
  rewrite resolvePrimary_resolutionOf in *.
  destruct (proj1 (resolutionOf_true _ _ _ _) (conj Hres eq_refl)) as [Hall Hms].
  split_and!; [by apply passObs_all|by rewrite <- passObs_masters|].
  assert (rs = (replicationCondition (passInstances cluster count probe store now) (passObs cluster count probe) now).1.1)
    as Hrs by (by rewrite Erepl).
  apply Forall_forall. intros i Hi Hs.
  destruct (passInstances_elem cluster count probe store now i Hi) as (Hin & Hrole & Hread).
  destruct (replication_not_false (passInstances cluster count probe store now) (passObs cluster count probe) now i)
    as [|Hun]; [congruence|done|done|by left|].
  right. assert (o_Replication (probe (is_Name i)) = None) as Hnone.
  { unfold slaveState in Hun. rewrite passObs_lookupd in Hun by done.
    destruct (o_Replication (probe (is_Name i))); [|done].
    destruct (is_Replication i); [repeat case_match; done|]. by destruct Hread. }
  split; [done|].
  destruct Hcase as [[Hns [Hlen|Htrue]]|(_ & Hrec & _)].
  - exfalso. unfold passInstances, instanceStatuses in Hlen. rewrite length_imap in Hlen.
    rewrite passObs_masters in Hms.
    rewrite (single_member_master _ _ _ _ _ Hms Hlen Hin) in Hrole. rewrite Hs in Hrole. discriminate Hrole.
  - exfalso. eapply replication_true; [by rewrite <- Hrs, Htrue|done..].
  - apply (proj1 (Forall_forall _ _) Hrec i Hi); [done|]. by rewrite passObs_lookupd.
Qed.

(** C38: Lost role evidence is reported in the same pass: when some member's
    observation is not authoritative, the pass leaves no current primary, and
    PrimaryResolved and HAReady both False with the resolution's reason,
    whatever HAReady was before. *)
Theorem lost_evidence_reported cluster count probe store now m :
  m ∈ memberNames cluster count -> authoritative (probe m) now = false ->
  let after := (reconcileHAStatus cluster count probe store now).1.1 in
  st_CurrentPrimary (cl_Status after) = "" /\
  exists reason msg,
    clusterCondition after conditionPrimaryResolved = Some (ConditionFalse, reason, msg, cl_Generation cluster) /\
    clusterCondition after conditionHAReady = Some (ConditionFalse, reason, msg, cl_Generation cluster).
Proof.
  intros Hm Ha after. subst after.
  assert (res_Status (resolvePrimary (memberNames cluster count) (passObs cluster count probe) now) <> ConditionTrue) as Hres.
  { rewrite resolvePrimary_resolutionOf. intros H.
    destruct (proj1 (resolutionOf_true _ _ _ _) (conj H eq_refl)) as [Hall%passObs_all _].
    apply (proj1 (Forall_forall _ _) Hall) in Hm. congruence. }
  pose proof Hres as Hf. rewrite resolvePrimary_resolutionOf in Hf.
  apply resolutionOf_not_true in Hf as [Hf Hp]. rewrite <- resolvePrimary_resolutionOf in Hf, Hp.
  rewrite (after_primary cluster count probe store now). split; [done|].
  eexists _, _. rewrite after_primaryResolved, after_haReady, Hf. split; [done|].
  destruct (replicationCondition _ _ _) as [[rs rr] rm]. by rewrite haReady_unresolved.
Qed.

(** What a pass leaves in the status. *)
Record StatusWellFormed (members : list string) (now : Time) (s : CubridClusterStatus) : Prop := {
  swf_names : is_Name <$> st_Instances s = members;
  swf_ordinals : forall i x, st_Instances s !! i = Some x -> is_Ordinal x = Z.of_nat i;
  swf_primary : st_CurrentPrimary s <> "" ->
    filter (fun i => is_Role i = RoleMaster) (st_Instances s) =
    filter (fun i => is_Name i = st_CurrentPrimary s) (st_Instances s);
  swf_ready : Forall (fun i => is_Ready i = true ->
    is_Role i = RoleMaster \/ is_Role i = RoleSlave \/ is_Role i = RoleReplica) (st_Instances s);
  swf_replication : Forall (fun i => is_Replication i <> None -> is_Role i = RoleSlave) (st_Instances s);
  swf_time : st_LastObservedTime s = Some now }.

Lemma passInstances_names cluster count probe store now :
  is_Name <$> passInstances cluster count probe store now = memberNames cluster count.
Proof.
  unfold passInstances, instanceStatuses. rewrite fmap_imap.
  apply list_eq. intros i. rewrite list_lookup_imap. by destruct (_ !! i).
Qed.

Lemma passInstances_named cluster count probe store now t :
  t ∈ memberNames cluster count ->
  exists x, previousInstance (passInstances cluster count probe store now) t = Some x /\
    x ∈ passInstances cluster count probe store now /\ is_Name x = t.
Proof.
  rewrite <- (passInstances_names cluster count probe store now) at 1.
  intros (x & -> & Hx)%list_elem_of_fmap. exists x. split_and!; [|done..].
  apply (last_that_key is_Name); [|done]. rewrite passInstances_names. apply memberNames_NoDup.
Qed.

(** C39: The status a pass leaves is well formed: one instance per expected
    member, in ordinal order; the members observed as master are exactly the
    current primary when one is named; an instance is ready only in an HA role
    and carries replication only as a slave; and the pass is its observation
    time. *)
Theorem reconcileHAStatus_wf cluster count probe store now :
  StatusWellFormed (memberNames cluster count) now
    (cl_Status (reconcileHAStatus cluster count probe store now).1.1).
Proof.
  split.
  - rewrite after_instances. apply passInstances_names.
  - intros i x. rewrite after_instances. intros (m & _ & ->)%passInstances_lookup. done.
  - rewrite after_instances, after_primary, resolvePrimary_resolutionOf. intros Hp.
    assert (res_Status (resolutionOf (passObs cluster count probe) now (memberNames cluster count)) = ConditionTrue) as Hres.
    { apply dec_stable. intros [_ ?]%resolutionOf_not_true. done. }
    destruct (proj1 (resolutionOf_true _ _ _ _) (conj Hres eq_refl)) as [_ Hms].
    set (p := res_CurrentPrimary _) in *. rewrite passObs_masters in Hms.
    apply filter_ext_elem. intros x Hx.
    destruct (passInstances_elem _ _ _ _ _ x Hx) as (Hin & Hrole & _). rewrite Hrole.
    assert (is_Name x = p <-> authoritative (probe (is_Name x)) now = true /\ o_Role (probe (is_Name x)) = RoleMaster) as ->.
    { transitivity (is_Name x ∈ [p]); [set_solver|]. rewrite <- Hms, list_elem_of_filter. tauto. }
    destruct (authoritative _ _); [tauto|]. split; [|naive_solver]. intros E. discriminate E.
  - rewrite after_instances. apply Forall_forall. intros x [i Hi]%list_elem_of_lookup.
    apply passInstances_lookup in Hi as (m & Hm & ->). simpl. intros [_ Hr]%andb_true_iff.
    rewrite !orb_true_iff, !bool_decide_eq_true in Hr. tauto.
  - rewrite after_instances. apply Forall_forall. intros x [i Hi]%list_elem_of_lookup.
    apply passInstances_lookup in Hi as (m & Hm & ->). simpl. intros Hr. by destruct (bool_decide _) eqn:E in Hr; [apply bool_decide_eq_true in E|].
  - apply after_time.
Qed.

(** A reconcile of an HA cluster that ends before the roles are observed
    leaves no primary and every role unknown, and makes PrimaryResolved,
    HAReady, RoutingReady and ReplicationHealthy Unknown; it keeps every other
    condition and the time of the last observation. *)
Theorem markRolesNotObserved_unknown cluster why :
  sp_HAEnabled (cl_Spec cluster) = true ->
  let after := markRolesNotObserved cluster true why in
  st_CurrentPrimary (cl_Status after) = "" /\
  Forall (fun i => is_Role i = RoleUnknown) (st_Instances (cl_Status after)) /\
  st_LastObservedTime (cl_Status after) = st_LastObservedTime (cl_Status cluster) /\
  forall t, clusterCondition after t =
    if bool_decide (t ∈ [conditionPrimaryResolved; conditionHAReady; conditionRoutingReady; conditionReplicationHealthy])
    then Some (ConditionUnknown, reasonRolesNotObserved,
               "roles were not observed in this reconcile: " +:+ why, cl_Generation cluster)
    else clusterCondition cluster t.
Proof.
  intros Hha after. unfold after, markRolesNotObserved. rewrite Hha. cbn [negb orb fold_left].
  split_and!; try done.
  { simpl. apply Forall_fmap, Forall_true. done. }
  intros t. case_bool_decide as Ht.
  - repeat (apply elem_of_cons in Ht as [->|Ht]); [| | | |by apply elem_of_nil in Ht];
      repeat (rewrite setCondition_view_other by done); by rewrite setCondition_same.
  - rewrite !not_elem_of_cons in Ht. destruct Ht as (?&?&?&?&_).
    by rewrite !setCondition_view_other.
Qed.
End reconcile_claims.

(** ** The throttle *)

(** The status without its observation times. *)
Definition stripInstance (i : InstanceStatus) : InstanceStatus :=
  set_is_LastObservedTime None (set_is_Replication (set_ir_ObservedAt None <$> is_Replication i) i).
Definition stripTimes (s : CubridClusterStatus) : CubridClusterStatus :=
  set_st_LastObservedTime None (set_st_Instances (stripInstance <$> st_Instances s) s).

(** A time put back is one younger than the write interval, not after the
    current one. *)
Definition heldBack (now : Time) (current held : option Time) : Prop :=
  held = current \/
  exists s c, held = Some s /\ current = Some c /\ s <= c /\ 0 <= now - s < observationWriteInterval.

Lemma heldTime_heldBack stored current now : heldBack now current (heldTime stored current now).
Proof.
  unfold heldTime, heldBack. destruct stored as [s|], current as [c|]; try (by left).
  destruct (c <? s) eqn:E; [by left|]. destruct (_ || _) eqn:E'; [by left|]. right.
  exists s, c. bool_simpl. split_and!; try done; unfold observationWriteInterval in *; time_lia.
Qed.

Lemma stripInstance_hold stored now i : stripInstance (holdInstance stored now i) = stripInstance i.
Proof.
  unfold holdInstance. destruct (previousInstance stored (is_Name i)) as [p|]; [|done].
  simpl. destruct (is_Replication i) as [r|] eqn:E, (is_Replication p) as [q|];
    unfold stripInstance; simpl; by rewrite E.
Qed.

Lemma stripTimes_hold stored status now : stripTimes (holdTimes stored status now) = stripTimes status.
Proof.
  unfold stripTimes, holdTimes. simpl. rewrite <- list_fmap_compose.
  unfold set_st_LastObservedTime, set_st_Instances; simpl. f_equal.
  apply list_fmap_ext. intros ? i _. apply stripInstance_hold.
Qed.

Lemma holdInstance_stored stored now x y :
  NoDup (is_Name <$> stored) -> y ∈ stored -> stripInstance x = stripInstance y ->
  heldTime (is_LastObservedTime y) (is_LastObservedTime x) now = is_LastObservedTime y ->
  (forall r p, is_Replication x = Some r -> is_Replication y = Some p ->
     heldTime (ir_ObservedAt p) (ir_ObservedAt r) now = ir_ObservedAt p) ->
  holdInstance stored now x = y.
Proof.
  intros Hnd Hy Hs Ht Hr. unfold holdInstance, previousInstance.
  replace (is_Name x) with (is_Name y) by (symmetry; exact (f_equal is_Name Hs)).
  rewrite (last_that_key is_Name) by done. rewrite Ht.
  destruct x as [n o ro rd v im rep lt un], y as [n' o' ro' rd' v' im' rep' lt' un'].
  unfold stripInstance in Hs. simpl in *. simplify_eq.
  destruct rep as [r|], rep' as [p|]; simpl in *; simplify_eq; [|done].
  rewrite (Hr r p) by done. destruct r, p; unfold set_ir_ObservedAt in *; simpl in *. by simplify_eq.
Qed.

Lemma hold_instances stored status now :
  NoDup (is_Name <$> stored) -> stripInstance <$> status = stripInstance <$> stored ->
  (forall i x y, status !! i = Some x -> stored !! i = Some y ->
     heldTime (is_LastObservedTime y) (is_LastObservedTime x) now = is_LastObservedTime y /\
     forall r p, is_Replication x = Some r -> is_Replication y = Some p ->
       heldTime (ir_ObservedAt p) (ir_ObservedAt r) now = ir_ObservedAt p) ->
  holdInstance stored now <$> status = stored.
Proof.
  intros Hnd Hi Hin. apply list_eq. intros i. rewrite list_lookup_fmap.
  apply (f_equal (lookup i)) in Hi. rewrite !list_lookup_fmap in Hi.
  destruct (status !! i) as [x|] eqn:Ex, (stored !! i) as [y|] eqn:Ey; simpl in *; try done.
  apply (inj Some) in Hi. f_equal. destruct (Hin i x y Ex Ey). apply holdInstance_stored; auto. by eapply list_elem_of_lookup_2.
Qed.

Section hold_claims.
Variable DeepEqual : CubridClusterStatus -> CubridClusterStatus -> bool.
Hypothesis DeepEqual_spec : forall a b, DeepEqual a b = true <-> a = b.

(** Holding back observation times changes nothing else and is bounded:
    the status that results is either the one computed, or exactly the one
    stored (so nothing has to be written); it equals the computed one apart
    from observation times; and the cluster's observation time it carries is
    the computed one or one younger than thirty seconds. *)
Theorem holdObservationTimes_bounded stored status now :
  let held := holdObservationTimes DeepEqual stored status now in
  (held = status \/ stored = Some held) /\ stripTimes held = stripTimes status /\
  heldBack now (st_LastObservedTime status) (st_LastObservedTime held).
Proof.
  unfold holdObservationTimes. destruct stored as [stored|]; simpl; [|split_and!; [by left|done|by left]].
  destruct (DeepEqual _ stored) eqn:E.
  - apply DeepEqual_spec in E. split_and!.
    + right. by f_equal.
    + apply stripTimes_hold.
    + apply heldTime_heldBack.
  - split_and!; try done; by left.
Qed.

(** When a pass at [now] observed only what is stored (the same status
    apart from observation times, none of which went back), and the stored
    times are all younger than thirty seconds, nothing is written. *)
Theorem unchanged_status_not_written stored status now :
  NoDup (is_Name <$> st_Instances stored) ->
  stripTimes status = stripTimes stored ->
  heldTime (st_LastObservedTime stored) (st_LastObservedTime status) now = st_LastObservedTime stored ->
  (forall i x y, st_Instances status !! i = Some x -> st_Instances stored !! i = Some y ->
     heldTime (is_LastObservedTime y) (is_LastObservedTime x) now = is_LastObservedTime y /\
     forall r p, is_Replication x = Some r -> is_Replication y = Some p ->
       heldTime (ir_ObservedAt p) (ir_ObservedAt r) now = ir_ObservedAt p) ->
  holdObservationTimes DeepEqual (Some stored) status now = stored.
Proof.
  intros Hnd Hstrip Ht Hin. unfold holdObservationTimes.
  assert (holdTimes stored status now = stored) as Heq.
  { pose proof (f_equal st_Instances Hstrip) as Hi. unfold holdTimes. rewrite Ht.
    rewrite (hold_instances _ _ _ Hnd Hi Hin).
    by destruct stored, status; unfold stripTimes in Hstrip; simpl in *; simplify_eq. }
  by rewrite Heq, (proj2 (DeepEqual_spec _ _) eq_refl).
Qed.
End hold_claims.

(** A three-member cluster, its first member the master and the others caught
    up. *)
Module HAExample.
Import SliceConditions.
Definition status : CubridClusterStatus := mkStatus 0 "" [] [] [] None "" None None.
Definition cluster : CubridCluster :=
  mkCluster "c" "ns" "uid" 1 (mkSpec "11.4" ["appdb"] 3 true None None) status.
Definition now : Time := 5000 * Second.
Definition observed (role : CubridRole) (repl : option ReplicationObservation) : RoleObservation :=
  mkRoleObservation true false role now false false false "11.4.6.1963" repl None "" "" None.
Definition caughtUp : ReplicationObservation :=
  mkReplicationObservation "c-0" 9 0 0 "pid 7" None None None.
Definition probe (m : string) : RoleObservation :=
  if m == "c-0" then observed RoleMaster None else observed RoleSlave (Some caughtUp).
Definition silent (m : string) : RoleObservation :=
  if m == "c-1" then noAnswer false now "timeout" "" else probe m.
Definition after : CubridCluster := (reconcileHAStatus cluster 3 probe (Some ∅) now).1.1.
(** The same observation ten seconds later. *)
Definition probe2 (m : string) : RoleObservation :=
  let o := probe m in
  mkRoleObservation (o_Reachable o) (o_TokenRefused o) (o_Role o) (now + 10 * Second) (o_Conflicting o)
    (o_ActiveMasterClaim o) (o_MasterNotYetActive o) (o_EngineVersion o) (o_Replication o) (o_LogEnd o)
    (o_Reason o) (o_RequestID o) (o_Unfinished o).
Definition later : CubridCluster := (reconcileHAStatus after 3 probe2 (Some ∅) (now + 10 * Second)).1.1.
Definition DeepEqual (a b : CubridClusterStatus) : bool := a == b.
Lemma DeepEqual_spec a b : DeepEqual a b = true <-> a = b.
Proof. apply bool_decide_eq_true. Qed.
End HAExample.

Import SliceConditions.

Lemma haReady_true_observed_witness :
  Forall (fun m => authoritative (HAExample.probe m) HAExample.now = true) (memberNames HAExample.cluster 3).
Proof.
  apply (haReady_true_observed HAExample.cluster 3 HAExample.probe (Some ∅) HAExample.now).
  vm_compute. reflexivity.
Defined.

Lemma lost_evidence_reported_witness :
  st_CurrentPrimary (cl_Status (reconcileHAStatus HAExample.after 3 HAExample.silent (Some ∅) HAExample.now).1.1) = "".
Proof.
  apply (lost_evidence_reported HAExample.after 3 HAExample.silent (Some ∅) HAExample.now "c-1").
  - apply (bool_decide_unpack _). vm_compute. exact I.
  - vm_compute. reflexivity.
Defined.

Lemma markRolesNotObserved_unknown_witness :
  st_CurrentPrimary (cl_Status (markRolesNotObserved HAExample.after true "the StatefulSet is not ready")) = "".
Proof. apply (markRolesNotObserved_unknown HAExample.after). vm_compute. reflexivity. Defined.

Lemma holdObservationTimes_bounded_witness :
  stripTimes (holdObservationTimes HAExample.DeepEqual (Some (cl_Status HAExample.after))
                (cl_Status HAExample.later) (HAExample.now + 10 * Second)) =
  stripTimes (cl_Status HAExample.later).
Proof.
  apply (holdObservationTimes_bounded HAExample.DeepEqual HAExample.DeepEqual_spec
           (Some (cl_Status HAExample.after))).
Defined.

Lemma unchanged_status_not_written_witness :
  holdObservationTimes HAExample.DeepEqual (Some (cl_Status HAExample.after))
    (cl_Status HAExample.later) (HAExample.now + 10 * Second) = cl_Status HAExample.after.
Proof.
  apply (unchanged_status_not_written HAExample.DeepEqual HAExample.DeepEqual_spec).
  - apply (bool_decide_unpack _). vm_compute. exact I.
  - vm_compute. reflexivity.
  - vm_compute. reflexivity.
  - intros [|[|[|i]]] x y Hx Hy; vm_compute in Hx, Hy; try discriminate Hx;
      injection Hx as <-; injection Hy as <-; (split; [vm_compute; reflexivity|]);
      intros r p Hr Hp; try discriminate Hr;
      injection Hr as <-; injection Hp as <-; vm_compute; reflexivity.
Defined.

Lemma reconcileHAStatus_wf_witness :
  StatusWellFormed ["c-0"; "c-1"; "c-2"] HAExample.now (cl_Status HAExample.after).
Proof. exact (reconcileHAStatus_wf HAExample.cluster 3 HAExample.probe (Some ∅) HAExample.now). Defined.
