(* ===== verification/RollingUpdate.v ===== *)
(** * Updates

    [internal/controller/rollingplan.go] (the planner of the slaves-first
    rolling update) and [internal/controller/update.go] (the engine guard, the
    step that carries a plan out, and the standalone cluster's revision). *)
From stdpp Require Import prelude gmap strings pretty list.
From S2P Require Import Prelude Api Engine HARole Replication HAStatus.

(** ** The planner *)

Record updateMember := mkUpdateMember {
  um_Name : string; um_Role : CubridRole; um_Ready : bool; um_Outdated : bool; um_Converged : bool }.

Inductive RollingAction := RollNone | RollDeletePod | RollWait | RollMasterUpdatePending.
#[global] Instance RollingAction_eq_dec : EqDecision RollingAction.
Proof. solve_decision. Defined.

Record RollingPlan := mkPlan { rp_Action : RollingAction; rp_Target : string; rp_Reason : string }.

(** The variables of the loop of planRollingUpdate. *)
Record planScan := mkPlanScan {
  ps_outdated : nat; ps_outdatedSlaves : list updateMember; ps_outdatedMaster : bool;
  ps_healthy : Z; ps_anyNotReady : bool }.

Definition planMember (s : planScan) (m : updateMember) : planScan :=
  let healthy := if um_Ready m then ps_healthy s + 1 else ps_healthy s in
  let anyNotReady := if um_Ready m then ps_anyNotReady s else true in
  if negb (um_Outdated m) then
    mkPlanScan (ps_outdated s) (ps_outdatedSlaves s) (ps_outdatedMaster s) healthy anyNotReady
  else if um_Role m == RoleMaster then
    mkPlanScan (S (ps_outdated s)) (ps_outdatedSlaves s) true healthy anyNotReady
  else if um_Role m == RoleSlave then
    mkPlanScan (S (ps_outdated s)) (ps_outdatedSlaves s ++ [m]) (ps_outdatedMaster s) healthy anyNotReady
  else mkPlanScan (S (ps_outdated s)) (ps_outdatedSlaves s) (ps_outdatedMaster s) healthy anyNotReady.

Definition planRollingUpdate (members : list updateMember)
  (primaryResolved fencingRequired pdbAllowsDisruption : bool) (minHealthy : Z) : RollingPlan :=
  let s := fold_left planMember members (mkPlanScan 0 [] false 0 false) in
  if ps_outdated s == 0%nat then mkPlan RollNone "" "UpdateCompleted"
  else if negb primaryResolved then mkPlan RollWait "" "WaitingForPrimaryResolved"
  else if fencingRequired then mkPlan RollWait "" "UpdatePausedFencingRequired"
  else if ps_anyNotReady s then mkPlan RollWait "" "WaitingForHealthyCluster"
  else if negb pdbAllowsDisruption then mkPlan RollWait "" "WaitingForPDB"
  else match ps_outdatedSlaves s with
  | m :: _ =>
      if negb (um_Converged m) then mkPlan RollWait "" "WaitingForCatchUp"
      else if ps_healthy s - 1 <? minHealthy then mkPlan RollWait "" "WaitingForHealthyCluster"
      else mkPlan RollDeletePod (um_Name m) "RollingUpdateInProgress"
  | [] =>
      if ps_outdatedMaster s then mkPlan RollMasterUpdatePending "" "MasterUpdatePending"
      else mkPlan RollWait "" "WaitingForPrimaryResolved"
  end.

(** ** The engine guard *)

Definition conditionUpdating : string := "Updating".
Definition reasonImageChangeNotAccepted : string := "ImageChangeNotAccepted".
Definition revisionHashLabel : string := "controller-revision-hash".
Definition minHealthyHA : Z := 2.

(** agreedEngineVersion: the loop carries the version seen so far. *)
Fixpoint agreedFrom (version : string) (instances : list InstanceStatus) : option string :=
  match instances with
  | [] => Some version
  | i :: rest =>
      if is_ObservedEngineVersion i == "" then None
      else if version == "" then agreedFrom (is_ObservedEngineVersion i) rest
      else if version != is_ObservedEngineVersion i then None
      else agreedFrom version rest
  end.

Definition agreedEngineVersion (instances : list InstanceStatus) (expected : Z) : option string :=
  if (expected <=? 0) || (Z.of_nat (length instances) <? expected) then None else agreedFrom "" instances.

(** membersMatchBaseline: a reason and message when some member does not
    match. *)
Fixpoint membersMatchFrom (series baseline : string) (expected reported : Z) (instances : list InstanceStatus)
  : option (string * string) :=
  match instances with
  | [] =>
      if reported <? expected then
        Some ("UpdateBlockedEngineVersionUnknown",
              pretty reported +:+ " of " +:+ pretty expected +:+ " members have reported an engine version")
      else None
  | i :: rest =>
      if is_ObservedEngineVersion i == "" then
        Some ("UpdateBlockedEngineVersionUnknown",
              "member " +:+ is_Name i +:+ " has not reported its engine version in a fresh observation")
      else if EngineSeries (is_ObservedEngineVersion i) != series then
        Some ("UpdateBlockedMixedEngineVersions",
              "member " +:+ is_Name i +:+ " runs engine " +:+ is_ObservedEngineVersion i +:+
              ", the cluster's baseline is " +:+ baseline)
      else membersMatchFrom series baseline expected (reported + 1) rest
  end.

Definition membersMatchBaseline (instances : list InstanceStatus) (expected : Z) (baseline : string)
  : option (string * string) :=
  membersMatchFrom (EngineSeries baseline) baseline expected 0 instances.

Section guard.
Context `{O : ConditionOps}.

(** reconcileUpdateGuard, after the baseline is known. *)
Definition guardBaseline (cluster : CubridCluster) (observed : string) : CubridCluster * bool :=
  let expected := sp_PromotableMembers (cl_Spec cluster) in
  let version := sp_Version (cl_Spec cluster) in
  match membersMatchBaseline (st_Instances (cl_Status cluster)) expected observed with
  | Some (reason, msg) =>
      (setCondition cluster conditionUpdating ConditionFalse reason (msg +:+ " (no pod deletion)"), false)
  | None =>
      match classifyEngineChange version observed with
      | UpdateEngineUpgradeBlocked =>
          (setCondition cluster conditionUpdating ConditionFalse "UpdateBlockedEngineUpgrade"
             ("desired engine version " +:+ version +:+ " differs from observed " +:+ observed +:+
              "; engine upgrades are out of MVP scope (no pod deletion)"), false)
      | UpdateUnverifiable =>
          (setCondition cluster conditionUpdating ConditionFalse "UpdateBlockedUnverifiableEngineVersion"
             "desired engine version is missing or unverifiable (no pod deletion)", false)
      | UpdateNone => (cluster, true)
      end
  end.

Definition reconcileUpdateGuard (cluster : CubridCluster) : CubridCluster * bool :=
  let expected := sp_PromotableMembers (cl_Spec cluster) in
  let observed := st_ObservedEngineVersion (cl_Status cluster) in
  if observed == "" then
    match agreedEngineVersion (st_Instances (cl_Status cluster)) expected with
    | None =>
        (setCondition cluster conditionUpdating ConditionFalse "UpdateBlockedEngineVersionNotObserved"
           "not every member has reported the same engine version yet; no update is carried out", false)
    | Some v => guardBaseline (map_status (set_st_ObservedEngineVersion v) cluster) v
    end
  else guardBaseline cluster observed.

(** ** Carrying a plan out *)

(** A Pod as the controller reads it, and what reading one can end with. *)
Record Pod := mkPod { pod_Labels : gmap string string; pod_Conditions : list (string * string) }.
Inductive PodRead := PodFound (p : Pod) | PodNotFound | PodUnread (err : string).

(** What deleting a Pod can end with. *)
Inductive DeleteResult := Deleted | DeleteNotFound | DeleteFailed (err : string).

(** The calls to the API server and the Events a step makes, in order. *)
Inductive Call := CallDelete (pod : string) | CallEvent (reason msg : string).

(** The revisions of a StatefulSet's status. *)
Record StatefulSetStatus := mkStsStatus { sts_UpdateRevision : string; sts_CurrentRevision : string }.

Definition instanceNamed (instances : list InstanceStatus) (name : string) : InstanceStatus :=
  default zeroInstanceStatus (previousInstance instances name).

(** buildUpdateMembers: the loop stops at the first Pod that cannot be read. *)
Fixpoint buildMembers (getPod : string -> PodRead) (instances : list InstanceStatus) (desiredRev : string)
  (names : list string) : string + list updateMember :=
  match names with
  | [] => inr []
  | name :: rest =>
      let here :=
        match getPod name with
        | PodNotFound => inr (mkUpdateMember name "" false false false)
        | PodUnread err => inl err
        | PodFound pod =>
            let in_ := instanceNamed instances name in
            inr (mkUpdateMember name (is_Role in_) (is_Ready in_)
                   (lookupd "" (pod_Labels pod) revisionHashLabel != desiredRev) (is_Ready in_))
        end in
      match here with
      | inl err => inl err
      | inr m =>
          match buildMembers getPod instances desiredRev rest with
          | inl err => inl err
          | inr ms => inr (m :: ms)
          end
      end
  end.

Definition buildUpdateMembers (getPod : string -> PodRead) (cluster : CubridCluster) (desiredRev : string)
  : string + list updateMember :=
  buildMembers getPod (st_Instances (cl_Status cluster)) desiredRev
    (memberNames cluster (sp_PromotableMembers (cl_Spec cluster))).

(** status.update as both kinds of cluster record it. *)
Definition recordUpdate (sts : StatefulSetStatus) (cluster : CubridCluster) : CubridCluster :=
  map_status (fun s => set_st_Update (Some (mkUpdateStatus (sts_UpdateRevision sts) (sts_CurrentRevision sts)
    (st_ObservedEngineVersion s))) s) cluster.

Definition reconcileRollingUpdate (automaticReplacement : bool) (getPod : string -> PodRead)
  (deletePod : string -> DeleteResult) (cluster : CubridCluster) (sts : StatefulSetStatus)
  (res : PrimaryResolution) : CubridCluster * list Call :=
  let desiredRev := sts_UpdateRevision sts in
  if desiredRev == "" then (cluster, [])
  else
    let cluster := recordUpdate sts cluster in
    match buildUpdateMembers getPod cluster desiredRev with
    | inl err => (setCondition cluster conditionUpdating ConditionUnknown "UpdateStateUnavailable" err, [])
    | inr members =>
        let fencing := IsStatusConditionTrue (st_Conditions (cl_Status cluster)) "FencingRequired" in
        let plan := planRollingUpdate members (res_Status res == ConditionTrue) fencing true minHealthyHA in
        let target := rp_Target plan in
        match rp_Action plan with
        | RollDeletePod =>
            if negb automaticReplacement then
              (setCondition cluster conditionUpdating ConditionFalse "AutomaticReplacementDisabled"
                 ("member " +:+ target +:+ " runs an outdated revision; the operator does not replace Pods by itself yet (#96), so the change takes effect when a Pod is replaced by hand"), [])
            else match deletePod target with
            | DeleteFailed err =>
                (setCondition cluster conditionUpdating ConditionTrue "MemberUpdateInProgress"
                   ("failed to delete " +:+ target +:+ ": " +:+ err), [CallDelete target])
            | _ =>
                (setCondition cluster conditionUpdating ConditionTrue (rp_Reason plan)
                   ("replacing outdated slave " +:+ target),
                 [CallDelete target; CallEvent "RollingUpdate" ("deleted outdated slave " +:+ target)])
            end
        | RollMasterUpdatePending =>
            (setCondition cluster conditionUpdating ConditionFalse "MasterUpdatePending"
               "only the master is outdated; a master update requires explicit planned-failover intent (ADR-0009)", [])
        | RollWait =>
            (setCondition cluster conditionUpdating ConditionTrue (rp_Reason plan)
               ("rolling update waiting: " +:+ rp_Reason plan), [])
        | RollNone =>
            (setCondition cluster conditionUpdating ConditionFalse "UpToDate" "all members run the desired revision", [])
        end
    end.

(** ** The standalone cluster *)

Definition podReady (pod : Pod) : bool :=
  match list_find (fun c => c.1 = "Ready") (pod_Conditions pod) with
  | Some (_, c) => c.2 == "True"
  | None => false
  end.

Definition reconcileStandaloneStatus (getPod : string -> PodRead) (cluster : CubridCluster) (count : Z)
  (probe : string -> RoleObservation) (now : Time) : CubridCluster * list string :=
  let members := memberNames cluster count in
  let obs := list_to_map ((fun m => (m, probe m)) <$> members) in
  let refused := filter (fun m => o_TokenRefused (probe m) = true) members in
  let instances := instanceStatuses members obs now (st_Instances (cl_Status cluster)) ∅ in
  let instances := (fun i =>
    let i := set_is_Replication None (set_is_Ready false (set_is_Role RoleUnknown i)) in
    match getPod (is_Name i) with PodFound pod => set_is_Ready (podReady pod) i | _ => i end) <$> instances in
  (map_status (set_st_Instances instances) cluster, refused).

Definition reportStandaloneRevision (getPod : string -> PodRead) (cluster : CubridCluster)
  (sts : StatefulSetStatus) : CubridCluster :=
  let desiredRev := sts_UpdateRevision sts in
  let cluster := if desiredRev != "" then recordUpdate sts cluster else cluster in
  let name := memberName (cl_Name cluster) 0 in
  match (if desiredRev == "" then None else match getPod name with PodFound p => Some p | _ => None end) with
  | None =>
      setCondition cluster conditionUpdating ConditionUnknown "UpdateStateUnavailable"
        ("the revision that member " +:+ name +:+ " runs is not known")
  | Some pod =>
      if lookupd "" (pod_Labels pod) revisionHashLabel != desiredRev then
        setCondition cluster conditionUpdating ConditionFalse "AutomaticReplacementDisabled"
          ("member " +:+ name +:+ " runs an outdated revision; the operator does not replace the Pod of a standalone cluster, so the change takes effect when the Pod is replaced by hand")
      else
        setCondition cluster conditionUpdating ConditionFalse "UpToDate" "all members run the desired revision"
  end.

Definition reconcileStandaloneUpdate (getPod : string -> PodRead) (cluster : CubridCluster)
  (sts : StatefulSetStatus) (count : Z) (probe : string -> RoleObservation) (now : Time) : CubridCluster :=
  let '(cluster, refused) := reconcileStandaloneStatus getPod cluster count probe now in
  let '(cluster, ok) := reconcileUpdateGuard cluster in
  if ok then
    if negb (recoveryActive cluster) then reportStandaloneRevision getPod cluster sts else cluster
  else
    match FindStatusCondition (st_Conditions (cl_Status cluster)) conditionUpdating with
    | Some i =>
        if (0 <? length refused)%nat then
          (* the message is changed in place, through the pointer found *)
          map_status (fun s => set_st_Conditions
            (alter (with_message (fun msg => msg +:+ "; the Instance Manager of " +:+ strJoin ", " refused +:+
                                   " refused the cluster's token")) i (st_Conditions s)) s) cluster
        else cluster
    | None => cluster
    end.

Definition standaloneVersionPending (cluster : CubridCluster) (hasProber : bool) : bool :=
  if sp_HAEnabled (cl_Spec cluster) || negb hasProber || recoveryActive cluster then false
  else existsb (fun i => is_ObservedEngineVersion i == "") (st_Instances (cl_Status cluster)) ||
       (length (st_Instances (cl_Status cluster)) == 0%nat).
End guard.

(** ** What the planner decides *)

Definition outdatedOf (members : list updateMember) : list updateMember :=
  filter (fun m => um_Outdated m = true) members.
Definition outdatedSlavesOf (members : list updateMember) : list updateMember :=
  filter (fun m => um_Outdated m = true /\ um_Role m = RoleSlave) members.
Definition readyOf (members : list updateMember) : list updateMember :=
  filter (fun m => um_Ready m = true) members.

Lemma planScan_of members :
  fold_left planMember members (mkPlanScan 0 [] false 0 false) =
  mkPlanScan (length (outdatedOf members)) (outdatedSlavesOf members)
    (existsb (fun m => um_Outdated m && (um_Role m == RoleMaster)) members)
    (Z.of_nat (length (readyOf members))) (existsb (fun m => negb (um_Ready m)) members).
Proof.
  unfold outdatedOf, outdatedSlavesOf, readyOf.
  induction members as [|m l IH] using rev_ind; [done|].
  rewrite fold_left_app, IH, !filter_snoc, !existsb_app. cbn [fold_left existsb].
  unfold planMember. cbn [ps_outdated ps_outdatedSlaves ps_outdatedMaster ps_healthy ps_anyNotReady].
  rewrite !orb_false_r, !length_app.
  destruct (um_Ready m), (um_Outdated m); repeat case_bool_decide;
    repeat (match goal with |- context [decide ?P] => destruct (decide P) end; try (exfalso; intuition congruence));
    cbn [negb andb length]; rewrite ?app_nil_r, ?orb_true_r, ?orb_false_r, ?Nat.add_0_r; f_equal; try lia.
  all: match goal with H : um_Role ?x = RoleMaster, H' : _ /\ um_Role ?x = RoleSlave |- _ =>
         destruct H' as [_ H']; rewrite H in H'; discriminate H' end.
Qed.

Lemma all_ready members :
  existsb (fun m => negb (um_Ready m)) members = false <-> Forall (fun m => um_Ready m = true) members.
Proof.
  induction members as [|m l IH]; simpl; [done|]. rewrite orb_false_iff, negb_false_iff, IH, Forall_cons. done.
Qed.

Lemma readyOf_all members : Forall (fun m => um_Ready m = true) members -> readyOf members = members.
Proof.
  intros H. unfold readyOf. induction H as [|x l Hx _ IH]; [done|].
  rewrite filter_cons, IH. by destruct (decide _).
Qed.

(** The gates of ADR-0009 for deleting the Pod [target]. *)
Record DeleteAllowed (members : list updateMember) (resolved fencing pdb : bool) (minHealthy : Z)
  (target : string) : Prop := {
  da_resolved : resolved = true;
  da_fencing : fencing = false;
  da_pdb : pdb = true;
  da_ready : Forall (fun m => um_Ready m = true) members;
  da_healthy : minHealthy <= Z.of_nat (length members) - 1;
  da_target : exists m rest, outdatedSlavesOf members = m :: rest /\ um_Name m = target /\ um_Converged m = true }.

Lemma planRollingUpdate_delete members resolved fencing pdb minHealthy target :
  (rp_Action (planRollingUpdate members resolved fencing pdb minHealthy) = RollDeletePod /\
   rp_Target (planRollingUpdate members resolved fencing pdb minHealthy) = target) <->
  DeleteAllowed members resolved fencing pdb minHealthy target.
Proof.
  unfold planRollingUpdate. rewrite planScan_of.
  cbn [ps_outdated ps_outdatedSlaves ps_outdatedMaster ps_healthy ps_anyNotReady]. split.
  - intros [Ha Ht]. case_bool_decide; [done|]. destruct resolved; [|done]. destruct fencing; [done|].
    destruct (existsb _ members) eqn:Er; [done|]. apply all_ready in Er. destruct pdb; [|done]. cbn [negb] in *.
    rewrite (readyOf_all _ Er) in *.
    destruct (outdatedSlavesOf members) as [|m rest] eqn:Es; [by destruct (existsb _ members)|].
    destruct (um_Converged m) eqn:Ec; [|done]. cbn [negb] in *. destruct (_ <? _) eqn:El; [done|]. bool_simpl.
    split; try done. exists m, rest. naive_solver.
  - intros [-> -> -> Hr Hh (m & rest & Hm & <- & Hc)].
    rewrite bool_decide_eq_false_2; last first.
    { intros H%length_zero_iff_nil. assert (m ∈ outdatedSlavesOf members) as Hin by (rewrite Hm; set_solver).
      apply list_elem_of_filter in Hin as [[Ho _] Hin].
      assert (m ∈ outdatedOf members) as Hin' by by apply list_elem_of_filter. rewrite H in Hin'. set_solver. }
    rewrite (proj2 (all_ready _) Hr), (readyOf_all _ Hr), Hm, Hc. cbn [negb].
    by rewrite (proj2 (Z.ltb_ge _ _)).
Qed.

(** C37: The planner deletes a Pod exactly when every gate of ADR-0009 holds:
    the primary is resolved, no fencing is required, the budget allows it,
    every member is ready, at least the minimum stays healthy without it, and
    the first outdated observed slave has caught up; the Pod is that slave's. *)
Theorem planRollingUpdate_gates members resolved fencing pdb minHealthy target :
  (rp_Action (planRollingUpdate members resolved fencing pdb minHealthy) = RollDeletePod /\
   rp_Target (planRollingUpdate members resolved fencing pdb minHealthy) = target) <->
  DeleteAllowed members resolved fencing pdb minHealthy target.
Proof. apply planRollingUpdate_delete. Qed.

(** ** Carrying it out *)

(** What one planner input says of the member it is built from. *)
Definition builtFrom (getPod : string -> PodRead) (instances : list InstanceStatus) (desiredRev : string)
  (name : string) (m : updateMember) : Prop :=
  um_Name m = name /\
  match getPod name with
  | PodFound pod =>
      um_Role m = is_Role (instanceNamed instances name) /\ um_Ready m = is_Ready (instanceNamed instances name) /\
      um_Outdated m = (lookupd "" (pod_Labels pod) revisionHashLabel != desiredRev)
  | PodNotFound => um_Ready m = false /\ um_Outdated m = false
  | PodUnread _ => False
  end.

Lemma buildMembers_spec getPod instances desiredRev names ms :
  buildMembers getPod instances desiredRev names = inr ms ->
  Forall2 (builtFrom getPod instances desiredRev) names ms.
Proof.
  revert ms. induction names as [|n names IH]; intros ms; cbn [buildMembers].
  - intros [= <-]. constructor.
  - unfold builtFrom at 1. destruct (getPod n) eqn:Ep; intros H; try discriminate H;
      destruct (buildMembers _ _ _ names) eqn:Eb; simplify_eq;
      constructor; auto; unfold builtFrom; rewrite Ep; done.
Qed.

Definition deletes (calls : list Call) : list string :=
  omap (fun c => match c with CallDelete p => Some p | _ => None end) calls.

Section rolling_claims.
Context `{O : ConditionOps}.

(** The deletes of one step, from the plan. *)
Lemma rolling_deletes auto getPod del cluster sts res t :
  t ∈ deletes (reconcileRollingUpdate auto getPod del cluster sts res).2 ->
  deletes (reconcileRollingUpdate auto getPod del cluster sts res).2 = [t] /\ auto = true /\
  exists ms, buildUpdateMembers getPod cluster (sts_UpdateRevision sts) = inr ms /\
    DeleteAllowed ms (res_Status res == ConditionTrue)
      (IsStatusConditionTrue (st_Conditions (cl_Status cluster)) "FencingRequired") true minHealthyHA t.
Proof.
  unfold reconcileRollingUpdate. case_bool_decide; [set_solver|].
  change (buildUpdateMembers getPod (recordUpdate sts cluster) (sts_UpdateRevision sts))
    with (buildUpdateMembers getPod cluster (sts_UpdateRevision sts)).
  change (st_Conditions (cl_Status (recordUpdate sts cluster))) with (st_Conditions (cl_Status cluster)).
  destruct (buildUpdateMembers _ _ _) as [err|ms]; [set_solver|].
  match goal with |- context [planRollingUpdate ?a ?b ?c ?d ?e] =>
    pose proof (planRollingUpdate_delete a b c d e) as Hplan; destruct (planRollingUpdate a b c d e) as [act tgt reason] end.
  cbn [rp_Action rp_Target rp_Reason] in *.
  destruct act; try set_solver. destruct auto; [|set_solver]. cbn [negb].
  intros Ht. assert (t = tgt) as -> by (destruct (del tgt); set_solver).
  split; [by destruct (del tgt)|]. split; [done|]. exists ms. split; [done|]. by apply Hplan.
Qed.

(** One rolling-update step deletes at most one Pod, and only with
    automatic replacement on, the primary resolved and no fencing required;
    the Pod is of a member whose observed role is slave, every member's Pod
    exists, every member is ready, and the cluster has at least three. *)
Theorem rolling_step_safe auto getPod del cluster sts res t :
  let members := memberNames cluster (sp_PromotableMembers (cl_Spec cluster)) in
  let instance := instanceNamed (st_Instances (cl_Status cluster)) in
  t ∈ deletes (reconcileRollingUpdate auto getPod del cluster sts res).2 ->
  deletes (reconcileRollingUpdate auto getPod del cluster sts res).2 = [t] /\
  auto = true /\ res_Status res = ConditionTrue /\
  IsStatusConditionTrue (st_Conditions (cl_Status cluster)) "FencingRequired" = false /\
  t ∈ members /\ is_Role (instance t) = RoleSlave /\
  Forall (fun m => (exists pod, getPod m = PodFound pod) /\ is_Ready (instance m) = true) members /\
  (3 <= length members)%nat.
Proof.
  intros members instance Ht.
  destruct (rolling_deletes _ _ _ _ _ _ _ Ht) as (Hd & Ha & ms & Hb & [Hr Hf _ Hall Hh (m & rest & Hm & Hn & _)]).
  apply bool_decide_eq_true in Hr. apply buildMembers_spec in Hb. fold members in Hb.
  assert (m ∈ outdatedSlavesOf ms) as [[Ho Hs] Hin]%list_elem_of_filter by (rewrite Hm; set_solver).
  apply list_elem_of_lookup in Hin as [i Hi].
  destruct (Forall2_lookup_r _ _ _ _ _ Hb Hi) as (n & Hni & Hbm & Hpod). rewrite Hn in Hbm. subst n.
  split_and!; try done.
  - by eapply list_elem_of_lookup_2.
  - destruct (getPod t); [|destruct Hpod; congruence|done]. destruct Hpod as (Hrole & _). unfold instance. by rewrite <- Hrole.
  - apply Forall_lookup. intros j n Hj.
    destruct (Forall2_lookup_l _ _ _ _ _ Hb Hj) as (m' & Hm' & _ & Hp).
    pose proof (Forall_lookup_1 _ _ _ _ Hall Hm') as Hready. simpl in Hready.
    destruct (getPod n) as [pod| |]; [|destruct Hp; congruence|done]. destruct Hp as (_ & Hp & _).
    split; [by eexists|]. unfold instance. congruence.
  - rewrite (Forall2_length _ _ _ Hb). unfold minHealthyHA in Hh. lia.
Qed.

(** C7: A rolling-update step that follows a pass over the members' roles
    never deletes the primary: its target was, in that pass, authoritatively
    observed as a slave, and is not status.currentPrimary; every member was
    authoritatively observed. *)
Theorem rolling_step_never_primary `{!ConditionLaws O} auto getPod del cluster probe store now sts t :
  let count := sp_PromotableMembers (cl_Spec cluster) in
  let pass := reconcileHAStatus cluster count probe store now in
  t ∈ deletes (reconcileRollingUpdate auto getPod del pass.1.1 sts pass.1.2).2 ->
  authoritative (probe t) now = true /\ o_Role (probe t) = RoleSlave /\
  t <> st_CurrentPrimary (cl_Status pass.1.1) /\
  Forall (fun m => authoritative (probe m) now = true) (memberNames cluster count).
Proof.
  intros count pass Ht.
  destruct (rolling_deletes _ _ _ _ _ _ _ Ht) as (_ & _ & ms & Hb & [Hr _ _ _ _ (m & rest & Hm & Hn & _)]).
  apply bool_decide_eq_true in Hr. unfold pass in Hr.
  rewrite after_resolution, resolvePrimary_resolutionOf in Hr.
  destruct (proj1 (resolutionOf_true _ _ _ _) (conj Hr eq_refl)) as [Hall%passObs_all Hms].
  apply buildMembers_spec in Hb. unfold pass in Hb. rewrite after_instances in Hb.
  destruct (after_meta cluster count probe store now) as [Hname Hspec].
  unfold memberNames in Hb. rewrite Hname, Hspec in Hb. fold (memberNames cluster count) in Hb.
  assert (m ∈ outdatedSlavesOf ms) as [[Ho Hs] Hin]%list_elem_of_filter by (rewrite Hm; set_solver).
  apply list_elem_of_lookup in Hin as [i Hi].
  destruct (Forall2_lookup_r _ _ _ _ _ Hb Hi) as (n & Hni & Hbm & Hpod). rewrite Hn in Hbm. subst n.
  destruct (getPod t); [|destruct Hpod; congruence|done]. destruct Hpod as (Hrole & _).
  destruct (passInstances_named cluster count probe store now t) as (x & Hx & Hxin & Hxn);
    [by eapply list_elem_of_lookup_2|].
  unfold instanceNamed in Hrole. rewrite Hs, Hx in Hrole. simpl in Hrole.
  destruct (passInstances_elem _ _ _ _ _ x Hxin) as (Htin & Hxr & _). rewrite Hxn in *.
  pose proof (proj1 (Forall_forall _ _) Hall t Htin) as Hat. simpl in Hat. rewrite Hat, <- Hrole in Hxr.
  split_and!; try done. unfold pass. rewrite after_primary. intros Hp.
  rewrite resolvePrimary_resolutionOf in Hp. rewrite <- Hp, passObs_masters in Hms.
  assert (t ∈ [t]) as Hmt by set_solver. rewrite <- Hms in Hmt.
  apply list_elem_of_filter in Hmt as [[_ Hmt] _]. rewrite <- Hxr in Hmt. discriminate Hmt.
Qed.
End rolling_claims.

(** ** The guard *)

Lemma agreedFrom_spec version instances v :
  agreedFrom version instances = Some v ->
  (version = "" -> instances = [] -> v = "") /\ (version <> "" -> v = version) /\
  Forall (fun i => is_ObservedEngineVersion i = v /\ v <> "") instances.
Proof.
  revert version. induction instances as [|i l IH]; intros version; cbn [agreedFrom].
  - intros [= <-]. by split_and!.
  - case_bool_decide as Hi; [done|]. case_bool_decide as Hv.
    + intros H. apply IH in H as (_ & Hn & Hf). rewrite (Hn Hi) in *. split_and!; try done. by constructor.
    + case_bool_decide as He; cbn [negb]; [|done]. intros H. apply IH in H as (_ & Hn & Hf).
      rewrite (Hn Hv) in *. split_and!; try done. constructor; [by split|done].
Qed.

Lemma membersMatchFrom_None series baseline expected reported instances :
  membersMatchFrom series baseline expected reported instances = None <->
  Forall (fun i => is_ObservedEngineVersion i <> "" /\ EngineSeries (is_ObservedEngineVersion i) = series) instances /\
  expected <= reported + Z.of_nat (length instances).
Proof.
  revert reported. induction instances as [|i l IH]; intros reported; cbn [membersMatchFrom length].
  - rewrite Forall_nil. destruct (Z.ltb_spec reported expected); split; try done; try lia.
  - rewrite Forall_cons. case_bool_decide; [split; [done|naive_solver]|].
    case_bool_decide; cbn [negb]; [|split; [done|naive_solver]]. rewrite IH.
    split; intros [Hl Hc]; (split; [tauto|lia]).
Qed.

Section guard_claims.
Context `{O : ConditionOps}.

Lemma guardBaseline_spec cluster observed :
  st_ObservedEngineVersion (cl_Status (guardBaseline cluster observed).1) = st_ObservedEngineVersion (cl_Status cluster) /\
  ((guardBaseline cluster observed).2 = true <->
   membersMatchBaseline (st_Instances (cl_Status cluster)) (sp_PromotableMembers (cl_Spec cluster)) observed = None /\
   classifyEngineChange (sp_Version (cl_Spec cluster)) observed = UpdateNone).
Proof.
  unfold guardBaseline. destruct (membersMatchBaseline _ _ _) as [[reason msg]|]; [simpl; naive_solver|].
  destruct (classifyEngineChange _ _); simpl; (split; [done|]); split; try done; by intros [_ ?].
Qed.

Lemma classify_none_series desired observed :
  classifyEngineChange desired observed = UpdateNone -> observed <> "" ->
  EngineSeries desired <> "" /\ EngineSeries observed = EngineSeries desired.
Proof. unfold classifyEngineChange. by repeat case_bool_decide. Qed.

(** The engine guard records the baseline once and for all, from a
    version that every expected member reports; and it lets an update proceed
    only when at least the expected members report a version, each of the
    series of spec.version, which is also the baseline's. *)
Theorem update_guard_baseline cluster :
  let old := st_ObservedEngineVersion (cl_Status cluster) in
  let new := st_ObservedEngineVersion (cl_Status (reconcileUpdateGuard cluster).1) in
  let instances := st_Instances (cl_Status cluster) in
  let expected := sp_PromotableMembers (cl_Spec cluster) in
  let series := EngineSeries (sp_Version (cl_Spec cluster)) in
  (old <> "" -> new = old) /\
  (old = "" -> new <> "" -> 0 < expected <= Z.of_nat (length instances) /\
     Forall (fun i => is_ObservedEngineVersion i = new) instances) /\
  ((reconcileUpdateGuard cluster).2 = true ->
     series <> "" /\ EngineSeries new = series /\ expected <= Z.of_nat (length instances) /\
     Forall (fun i => is_ObservedEngineVersion i <> "" /\ EngineSeries (is_ObservedEngineVersion i) = series) instances).
Proof.
  intros old new instances expected series. subst new. unfold reconcileUpdateGuard. fold old instances expected.
  assert (Hok : forall c v, v <> "" -> st_Instances (cl_Status c) = instances -> cl_Spec c = cl_Spec cluster ->
    (guardBaseline c v).2 = true -> series <> "" /\ EngineSeries v = series /\ expected <= Z.of_nat (length instances) /\
     Forall (fun i => is_ObservedEngineVersion i <> "" /\ EngineSeries (is_ObservedEngineVersion i) = series) instances).
  { intros c v Hv Hi Hs Hg. apply (proj2 (guardBaseline_spec c v)) in Hg as [Hm Hc]. rewrite Hi, Hs in *.
    destruct (classify_none_series _ _ Hc Hv) as [Hne Heq].
    apply membersMatchFrom_None in Hm as [Hf Hl]. rewrite Heq in Hf. split_and!; try done; lia. }
  case_bool_decide as Hold.
  - unfold agreedEngineVersion.
    destruct (_ || _) eqn:Hexp; [simpl; split_and!; [done|intros _ []; exact Hold|done]|]. bool_simpl.
    destruct (agreedFrom "" instances) as [v|] eqn:Ev; [|simpl; split_and!; [done|intros _ []; exact Hold|done]].
    apply agreedFrom_spec in Ev as (Hnil & _ & Hf).
    rewrite (proj1 (guardBaseline_spec _ v)). cbn [map_status cl_Status set_st_ObservedEngineVersion st_ObservedEngineVersion].
    assert (v <> "") as Hv.
    { destruct instances as [|i l]; [simpl in *; lia|]. by inversion_clear Hf as [|?? [_ ?]]. }
    split_and!; [congruence| |by apply Hok].
    intros _ _. split; [lia|]. eapply Forall_impl; [exact Hf|]. by intros ? [? _].
  - rewrite (proj1 (guardBaseline_spec _ old)). split_and!; [done|congruence|by apply Hok].
Qed.

(** C40: A Pod that does not exist is not waited for when every Pod that
    exists runs the desired revision: the step reports all members up to
    date. *)
Theorem missing_pod_up_to_date `{!ConditionLaws O} auto getPod del cluster sts res :
  sts_UpdateRevision sts <> "" ->
  Forall (fun m => getPod m = PodNotFound \/
    exists pod, getPod m = PodFound pod /\ pod_Labels pod !! revisionHashLabel = Some (sts_UpdateRevision sts))
    (memberNames cluster (sp_PromotableMembers (cl_Spec cluster))) ->
  clusterCondition (reconcileRollingUpdate auto getPod del cluster sts res).1 conditionUpdating =
  Some (ConditionFalse, "UpToDate", "all members run the desired revision", cl_Generation cluster).
Proof.
  intros Hrev Hpods. unfold reconcileRollingUpdate. rewrite bool_decide_eq_false_2 by done.
  destruct (buildUpdateMembers _ _ _) as [err|ms] eqn:Hb.
  - exfalso. unfold buildUpdateMembers in Hb.
    change (memberNames (recordUpdate sts cluster) _) with (memberNames cluster (sp_PromotableMembers (cl_Spec cluster))) in Hb.
    revert Hb. generalize (st_Instances (cl_Status (recordUpdate sts cluster))). intros is_. revert err.
    induction Hpods as [|n l Hn _ IH]; intros err; cbn [buildMembers]; [done|].
    destruct Hn as [->|(pod & -> & _)]; destruct (buildMembers _ _ _ l) eqn:E; try done; by destruct (IH s).
  - apply buildMembers_spec in Hb.
    assert (outdatedOf ms = []) as Hnone.
    { apply filter_nil_iff, Forall_lookup. intros i m Hi Ho.
      destruct (Forall2_lookup_r _ _ _ _ _ Hb Hi) as (n & Hn & _ & Hp).
      pose proof (Forall_lookup_1 _ _ _ _ Hpods Hn) as Hc. simpl in Hc.
      destruct Hc as [E|(pod & E & Hl)]; rewrite E in Hp; [destruct Hp; congruence|].
      destruct Hp as (_ & _ & Hp). rewrite Ho in Hp. unfold lookupd in Hp. rewrite Hl in Hp.
      simpl in Hp. by rewrite bool_decide_eq_true_2 in Hp. }
    unfold planRollingUpdate. rewrite planScan_of, Hnone.
    apply (setCondition_same (recordUpdate sts cluster)).
Qed.
End guard_claims.

(** ** A cluster whose slave [c-2] runs an old revision *)
Module RollingExample.
Import SliceConditions.
Definition pod (rev : string) : PodRead :=
  PodFound (mkPod {["controller-revision-hash" := rev]} [("Ready", "True")]).
Definition getPod (name : string) : PodRead := if name == "c-2" then pod "old" else pod "new".
Definition getPodGone (name : string) : PodRead := if name == "c-1" then PodNotFound else pod "new".
Definition sts : StatefulSetStatus := mkStsStatus "new" "old".
Definition pass := reconcileHAStatus HAExample.cluster 3 HAExample.probe (Some ∅) HAExample.now.
End RollingExample.

Import SliceConditions.

Lemma rolling_step_safe_witness :
  is_Role (instanceNamed (st_Instances (cl_Status RollingExample.pass.1.1)) "c-2") = RoleSlave.
Proof.
  apply (rolling_step_safe true RollingExample.getPod (fun _ => Deleted) RollingExample.pass.1.1
           RollingExample.sts RollingExample.pass.1.2 "c-2").
  vm_compute. constructor.
Defined.

Lemma rolling_step_never_primary_witness :
  "c-2" <> st_CurrentPrimary (cl_Status RollingExample.pass.1.1).
Proof.
  apply (rolling_step_never_primary true RollingExample.getPod (fun _ => Deleted) HAExample.cluster
           HAExample.probe (Some ∅) HAExample.now RollingExample.sts "c-2").
  vm_compute. constructor.
Defined.

Lemma missing_pod_up_to_date_witness :
  clusterCondition (reconcileRollingUpdate true RollingExample.getPodGone (fun _ => Deleted)
    RollingExample.pass.1.1 RollingExample.sts RollingExample.pass.1.2).1 conditionUpdating =
  Some (ConditionFalse, "UpToDate", "all members run the desired revision", 1).
Proof.
  apply (missing_pod_up_to_date true RollingExample.getPodGone (fun _ => Deleted)).
  - vm_compute. discriminate.
  - apply List.Forall_cons; [right; eexists; split; vm_compute; reflexivity|].
    apply List.Forall_cons; [left; vm_compute; reflexivity|].
    apply List.Forall_cons; [right; eexists; split; vm_compute; reflexivity|]. apply List.Forall_nil.
Defined.
