(* ===== verification/BackupTarget.v ===== *)
(** * The target of a backup

    [internal/controller/backuptarget.go]: which member runs a backup, from
    the observations of one reconcile, the replication the cluster's status
    records and the readings kept in memory. *)
From stdpp Require Import prelude gmap strings pretty list sorting.
From S2P Require Import Prelude Api HARole Replication HAStatus.

(** TargetPreference is an open string type; anything else than these two is
    treated as PreferStandby. *)
Definition StandbyOnly : string := "StandbyOnly".
Definition PrimaryOnly : string := "PrimaryOnly".
Definition PreferStandby : string := "PreferStandby".

Definition reasonNoHealthyStandby : string := "NoHealthyStandby".
Definition reasonStandbySelected : string := "StandbySelected".
Definition reasonMasterFallbackSelected : string := "MasterFallbackSelected".
Definition reasonPrimaryLogEndNotRead : string := "PrimaryLogEndNotRead".
Definition reasonMasterFallbackPrimaryLogEndNotRead : string := "MasterFallbackPrimaryLogEndNotRead".
Definition primaryLogEndWait : Duration := 30 * Second.

Record TargetSelection := mkSelection {
  ts_Instance : string; ts_Role : CubridRole; ts_FallbackUsed : bool; ts_Selected : bool; ts_Reason : string }.

Definition notSelected (reason : string) : TargetSelection := mkSelection "" "" false false reason.
Definition selected (instance role : string) (fallback : bool) (reason : string) : TargetSelection :=
  mkSelection instance role fallback true reason.

Definition onlyMember (members : list string) : option string :=
  match members with [m] => Some m | _ => None end.

Definition isAuthoritativeSlave (obs : gmap string RoleObservation) (now : Time) (m : string) : bool :=
  match obs !! m with
  | Some o => (o_Role o == RoleSlave) && authoritative o now
  | None => false
  end.

Definition authoritativeSlaves (members : list string) (obs : gmap string RoleObservation) (now : Time) : list string :=
  filter (fun m => isAuthoritativeSlave obs now m = true) members.

Definition copyGrewSinceRecentReading (prev : option InstanceReplication) (r : ReplicationObservation) (now : Time) : bool :=
  match prev with
  | None => false
  | Some p =>
      if ir_Source p != ro_Source r then false
      else match ir_CopiedEOF p, ir_ObservedAt p, ro_CopiedEOF r with
      | Some before, Some at_, Some eof =>
          let age := Sub now at_ in
          if (age <? 0) || (replicationStallWindow <? age) then false
          else LSA_Before (mkLSA (la_Page before) (la_Offset before)) (mkLSA (la_Page eof) (la_Offset eof))
      | _, _, _ => false
      end
  end.

Definition reachedWindow (now : Time) (since : option Time) : bool :=
  match since with Some t => replicationStallWindow <=? Sub now t | None => false end.

(** What the loop of eligibleStandbys makes of one authoritative slave. *)
Inductive StandbyVerdict := StandbyOut | StandbyLogEndUnread | StandbyIn (delayed : Z).
#[global] Instance StandbyVerdict_eq_dec : EqDecision StandbyVerdict.
Proof. solve_decision. Defined.

Section selection.
Context (members : list string) (obs : gmap string RoleObservation).
Context (history : gmap string InstanceReplication) (positions : gmap string applierReading).
Context (res : PrimaryResolution) (now : Time).

Definition standbyVerdict (m : string) : StandbyVerdict :=
  match o_Replication (lookupd zeroObservation obs m) with
  | None => StandbyOut
  | Some r =>
      if (0 <? ro_FailCount r) || (ro_Source r != res_CurrentPrimary res) || is_nil (ro_CopiedEOF r) then StandbyOut
      else
        let withEnd := withSourceLogEnd (Some r) obs now in
        match nextReplication (history !! m) withEnd (positionOf positions m) now with
        | None => StandbyOut (* a reading always gives a status *)
        | Some next =>
            if reachedWindow now (ir_StalledSince next) then StandbyOut
            else if reachedWindow now (ir_NotReceivingSince next) then StandbyOut
            else if is_nil (withEnd ≫= ro_SourceLogEnd) && negb (copyGrewSinceRecentReading (history !! m) r now)
            then StandbyLogEndUnread
            else StandbyIn (ro_DelayedPages r)
        end
  end.

(** The candidates in ordinal order, with their waiting pages, and whether one
    was left out for want of the master's log end alone. *)
Definition standbyStep (acc : list (string * Z) * bool) (m : string) : list (string * Z) * bool :=
  match standbyVerdict m with
  | StandbyOut => acc
  | StandbyLogEndUnread => (acc.1, true)
  | StandbyIn delayed => (acc.1 ++ [(m, delayed)], acc.2)
  end.

(** [slices.SortStableFunc] by the waiting pages: an insertion that never
    moves an element past an equal one. *)
Fixpoint insertStable (c : string * Z) (l : list (string * Z)) : list (string * Z) :=
  match l with
  | [] => [c]
  | d :: l => if c.2 <=? d.2 then c :: d :: l else d :: insertStable c l
  end.
Definition sortStable (l : list (string * Z)) : list (string * Z) := foldr insertStable [] l.

Definition primaryResolved : bool := (res_Status res == ConditionTrue) && (res_CurrentPrimary res != "").

Definition eligibleStandbys : list string * bool :=
  if negb primaryResolved then ([], false)
  else
    let '(candidates, unread) := fold_left standbyStep (authoritativeSlaves members obs now) ([], false) in
    ((sortStable candidates).*1, unread).

Definition selectBackupTarget (pref : string) (single primaryLogEndWaitOver : bool) : TargetSelection :=
  let '(standbys, logEndUnread) := eligibleStandbys in
  let primary := res_CurrentPrimary res in
  let standby := match standbys with
                 | s :: _ => Some (selected s RoleSlave false reasonStandbySelected)
                 | [] => None
                 end in
  if pref == StandbyOnly then default (notSelected reasonNoHealthyStandby) standby
  else if pref == PrimaryOnly then
    if negb primaryResolved then notSelected "PrimaryNotResolved"
    else selected primary RoleMaster false "PrimarySelected"
  else match standby with
  | Some s => s
  | None =>
      match (if single && negb primaryResolved then onlyMember members else None) with
      | Some only => selected only RoleUnknown false "RoleUnknownSingleInstanceFallback"
      | None =>
          if primaryResolved && logEndUnread && negb primaryLogEndWaitOver then notSelected reasonPrimaryLogEndNotRead
          else if primaryResolved && logEndUnread then
            selected primary RoleMaster true reasonMasterFallbackPrimaryLogEndNotRead
          else if primaryResolved then selected primary RoleMaster true reasonMasterFallbackSelected
          else notSelected "NoSafeTarget"
      end
  end.

Definition recordedTargetEligible (sel : TargetSelection) (single : bool) : bool :=
  if ts_Role sel == RoleSlave then bool_decide (ts_Instance sel ∈ authoritativeSlaves members obs now)
  else if ts_Role sel == RoleMaster then
    (res_Status res == ConditionTrue) && (res_CurrentPrimary res == ts_Instance sel)
  else if ts_Role sel == RoleUnknown then single && (onlyMember members == Some (ts_Instance sel))
  else false.
End selection.

(** ** Eligible standbys *)

Lemma insertStable_perm c l : insertStable c l ≡ₚ c :: l.
Proof.
  induction l as [|d l IH]; simpl; [done|]. destruct (_ <=? _); [done|]. rewrite IH. apply Permutation_swap.
Qed.

Lemma sortStable_perm l : sortStable l ≡ₚ l.
Proof. induction l as [|c l IH]; simpl; [done|]. by rewrite insertStable_perm, IH. Qed.

Definition byDelayed (c d : string * Z) : Prop := c.2 <= d.2.

Lemma insertStable_sorted c l : StronglySorted byDelayed l -> StronglySorted byDelayed (insertStable c l).
Proof.
  induction 1 as [|d l Hs IH Hf]; simpl; [repeat constructor|].
  destruct (Z.leb_spec c.2 d.2).
  - constructor; [by constructor|]. constructor; [done|].
    eapply Forall_impl; [exact Hf|]. intros e. unfold byDelayed. lia.
  - constructor; [done|]. rewrite insertStable_perm. constructor; [unfold byDelayed; lia|done].
Qed.

Lemma sortStable_sorted l : StronglySorted byDelayed (sortStable l).
Proof. induction l as [|c l IH]; simpl; [constructor|]. by apply insertStable_sorted. Qed.

Section eligible.
Context (members : list string) (obs : gmap string RoleObservation).
Context (history : gmap string InstanceReplication) (positions : gmap string applierReading).
Context (res : PrimaryResolution) (now : Time).

Notation verdict := (standbyVerdict obs history positions res now).

Lemma standbySteps l :
  fold_left (standbyStep obs history positions res now) l ([], false) =
  (omap (fun m => match verdict m with StandbyIn d => Some (m, d) | _ => None end) l,
   existsb (fun m => verdict m == StandbyLogEndUnread) l).
Proof.
  induction l as [|m l IH] using rev_ind; [done|].
  rewrite fold_left_app, IH, omap_app, existsb_app. cbn [fold_left omap list_omap existsb].
  unfold standbyStep. destruct (verdict m); cbn [fst snd]; by rewrite ?app_nil_r, ?orb_false_r, ?orb_true_r.
Qed.

(** A standby on the list, with its waiting pages. *)
Lemma eligible_elem m :
  m ∈ (eligibleStandbys members obs history positions res now).1 <->
  primaryResolved res = true /\ m ∈ authoritativeSlaves members obs now /\ exists d, verdict m = StandbyIn d.
Proof.
  unfold eligibleStandbys. destruct (primaryResolved res); simpl; [|set_solver].
  rewrite standbySteps. simpl. rewrite list_elem_of_fmap. setoid_rewrite sortStable_perm.
  setoid_rewrite list_elem_of_omap. split.
  - intros ([x d] & -> & y & Hy & Hv). simpl. destruct (verdict y) eqn:E; simplify_eq. eauto.
  - intros (_ & Hm & d & Hv). exists (m, d). split; [done|]. exists m. by rewrite Hv.
Qed.

(** The first one has the fewest waiting pages. *)
Lemma eligible_first s rest m d ds :
  (eligibleStandbys members obs history positions res now).1 = s :: rest ->
  verdict s = StandbyIn ds -> verdict m = StandbyIn d -> m ∈ authoritativeSlaves members obs now -> ds <= d.
Proof.
  unfold eligibleStandbys. destruct (primaryResolved res); simpl; [|done]. rewrite standbySteps. simpl.
  set (cands := omap _ _). intros Hs Hvs Hvm Hm.
  assert (forall x e, (x, e) ∈ cands <-> x ∈ authoritativeSlaves members obs now /\ verdict x = StandbyIn e) as Hc.
  { intros x e. unfold cands. rewrite list_elem_of_omap. split.
    - intros (y & Hy & Hv). destruct (verdict y) eqn:E; simplify_eq. done.
    - intros [Hx Hv]. exists x. by rewrite Hv. }
  pose proof (sortStable_sorted cands) as Hsort. pose proof (sortStable_perm cands) as Hperm.
  destruct (sortStable cands) as [|[s' e] l]; [done|]. simpl in Hs. simplify_eq.
  assert ((s, e) ∈ cands) as [_ He]%Hc by (rewrite <- Hperm; set_solver).
  assert ((m, d) ∈ (s, e) :: l) as Hmd by (rewrite Hperm; by apply Hc).
  apply StronglySorted_inv in Hsort as [_ Hf]. rewrite Hvs in He. simplify_eq.
  apply elem_of_cons in Hmd as [|Hmd]; [simplify_eq; lia|].
  by apply (proj1 (Forall_forall _ _) Hf) in Hmd.
Qed.
End eligible.

(** What an eligible standby has shown in this reconcile. *)
Record StandbyEvidence (obs : gmap string RoleObservation) (history : gmap string InstanceReplication)
  (positions : gmap string applierReading) (primary : string) (now : Time) (m : string) : Prop := {
  se_slave : exists o, obs !! m = Some o /\ o_Role o = RoleSlave /\ authoritative o now = true;
  se_reading : exists r eof, o_Replication (lookupd zeroObservation obs m) = Some r /\
    ro_FailCount r <= 0 /\ ro_Source r = primary /\ ro_CopiedEOF r = Some eof;
  se_not_stalled : forall next,
    nextReplication (history !! m) (withSourceLogEnd (o_Replication (lookupd zeroObservation obs m)) obs now)
      (positionOf positions m) now = Some next ->
    (forall t, ir_StalledSince next = Some t -> now - t < replicationStallWindow) /\
    (forall t, ir_NotReceivingSince next = Some t -> now - t < replicationStallWindow);
  se_receives :
    (exists src, obs !! primary = Some src /\ o_Role src = RoleMaster /\ authoritative src now = true /\
       o_LogEnd src <> None) \/
    exists r, o_Replication (lookupd zeroObservation obs m) = Some r /\
      copyGrewSinceRecentReading (history !! m) r now = true }.

Lemma reachedWindow_false now since :
  reachedWindow now since = false -> forall t, since = Some t -> now - t < replicationStallWindow.
Proof.
  unfold reachedWindow. intros H t ->. bool_simpl. unfold replicationStallWindow in *. time_lia.
Qed.

Lemma withSourceLogEnd_known r obs now :
  (withSourceLogEnd (Some r) obs now ≫= ro_SourceLogEnd) <> None -> ro_SourceLogEnd r = None ->
  exists src, obs !! ro_Source r = Some src /\ o_Role src = RoleMaster /\ authoritative src now = true /\
    o_LogEnd src <> None.
Proof.
  unfold withSourceLogEnd. destruct (obs !! ro_Source r) as [src|] eqn:E; simpl; [|congruence].
  destruct (_ || _) eqn:Hc; simpl; [congruence|]. intros Hn _. bool_simpl. exists src. by split_and!.
Qed.

(** The readings of a probe carry no source log end (observationFromStatus);
    it is only added by withSourceLogEnd. *)
Definition probedReadings (obs : gmap string RoleObservation) : Prop :=
  forall m o r, obs !! m = Some o -> o_Replication o = Some r -> ro_SourceLogEnd r = None.

Lemma standby_evidence obs history positions res now m d :
  probedReadings obs -> isAuthoritativeSlave obs now m = true ->
  standbyVerdict obs history positions res now m = StandbyIn d ->
  StandbyEvidence obs history positions (res_CurrentPrimary res) now m /\
  exists r, o_Replication (lookupd zeroObservation obs m) = Some r /\ ro_DelayedPages r = d.
Proof.
  intros Hprobe Hs Hv. unfold isAuthoritativeSlave in Hs. destruct (obs !! m) as [o|] eqn:Eo; [|done].
  unfold standbyVerdict in Hv. destruct (o_Replication (lookupd _ obs m)) as [r|] eqn:Er; [|done].
  destruct (_ || _ || _) eqn:Hc; [done|]. bool_simpl.
  destruct (nextReplication _ _ _ _) as [next|] eqn:En; [|done].
  destruct (reachedWindow now (ir_StalledSince next)) eqn:Hst; [done|].
  destruct (reachedWindow now (ir_NotReceivingSince next)) eqn:Hnr; [done|].
  destruct (is_nil _ && _) eqn:Hend; [done|]. injection Hv as <-.
  split; [|eauto]. destruct (ro_CopiedEOF r) as [eof|] eqn:Eeof; [|done].
  assert (ro_SourceLogEnd r = None) as Hne.
  { apply (Hprobe m o); [done|]. by rewrite (lookupd_Some _ _ _ _ Eo) in Er. }
  split.
  - exists o. by split_and!.
  - exists r, eof. by split_and!.
  - rewrite Er. intros next' Hn'. rewrite En in Hn'. injection Hn' as <-.
    split; by apply reachedWindow_false.
  - destruct (withSourceLogEnd (Some r) obs now ≫= ro_SourceLogEnd) as [e|] eqn:Ee.
    + left. destruct (withSourceLogEnd_known r obs now) as (src & Hsrc & ?); [by rewrite Ee|done|].
      exists src. split; [congruence|done].
    + right. exists r. split; [done|]. simpl in Hend. by apply negb_false_iff in Hend.
Qed.

(** What a selection for [pref] may be. *)
Inductive SafeSelection (members : list string) (obs : gmap string RoleObservation)
  (history : gmap string InstanceReplication) (positions : gmap string applierReading)
  (res : PrimaryResolution) (now : Time) (pref : string) (single : bool) (sel : TargetSelection) : Prop :=
  | SafeStandby r :
      pref <> PrimaryOnly -> ts_Role sel = RoleSlave -> ts_FallbackUsed sel = false -> ts_Instance sel ∈ members ->
      StandbyEvidence obs history positions (res_CurrentPrimary res) now (ts_Instance sel) ->
      o_Replication (lookupd zeroObservation obs (ts_Instance sel)) = Some r ->
      (forall m d, m ∈ authoritativeSlaves members obs now ->
         standbyVerdict obs history positions res now m = StandbyIn d -> ro_DelayedPages r <= d) ->
      SafeSelection members obs history positions res now pref single sel
  | SafeMaster :
      pref <> StandbyOnly -> ts_Role sel = RoleMaster -> res_Status res = ConditionTrue ->
      ts_Instance sel = res_CurrentPrimary res -> ts_Instance sel <> "" ->
      (pref <> PrimaryOnly -> ts_FallbackUsed sel = true /\
         forall m d, m ∈ authoritativeSlaves members obs now ->
           standbyVerdict obs history positions res now m <> StandbyIn d) ->
      SafeSelection members obs history positions res now pref single sel
  | SafeOnlyMember :
      pref <> StandbyOnly -> pref <> PrimaryOnly -> ts_Role sel = RoleUnknown -> single = true ->
      members = [ts_Instance sel] -> primaryResolved res = false ->
      SafeSelection members obs history positions res now pref single sel.

Lemma primaryResolved_iff res :
  primaryResolved res = true <-> res_Status res = ConditionTrue /\ res_CurrentPrimary res <> "".
Proof. unfold primaryResolved. rewrite andb_true_iff, negb_true_iff, bool_decide_eq_true, bool_decide_eq_false. done. Qed.

(** What is selected is eligible, and names a member or the primary. *)
Lemma select_eligible members obs history positions res now pref single over :
  let sel := selectBackupTarget members obs history positions res now pref single over in
  ts_Selected sel = true ->
  recordedTargetEligible members obs res now sel single = true /\
  (ts_Instance sel ∈ members \/ ts_Instance sel <> "").
Proof.
  unfold selectBackupTarget. pose proof (eligible_elem members obs history positions res now) as Hel.
  destruct (eligibleStandbys _ _ _ _ _ _) as [standbys unread]. cbn [fst] in *.
  assert (forall s rest, standbys = s :: rest ->
    recordedTargetEligible members obs res now (selected s RoleSlave false reasonStandbySelected) single = true /\
    (s ∈ members \/ s <> "")) as Hst.
  { intros s rest ->. destruct (proj1 (Hel s)) as (_ & Hm & _); [set_solver|].
    split; [by apply bool_decide_eq_true_2|]. left. by apply list_elem_of_filter in Hm as [_ ?]. }
  assert (forall f re, primaryResolved res = true ->
    recordedTargetEligible members obs res now (selected (res_CurrentPrimary res) RoleMaster f re) single = true /\
    (res_CurrentPrimary res ∈ members \/ res_CurrentPrimary res <> "")) as Hma.
  { intros f re [Hs Hp]%primaryResolved_iff. unfold recordedTargetEligible. simpl.
    rewrite Hs, !bool_decide_eq_true_2 by done. by split; [|right]. }
  assert (forall only re, single = true -> onlyMember members = Some only ->
    recordedTargetEligible members obs res now (selected only RoleUnknown false re) single = true /\
    (only ∈ members \/ only <> "")) as Hon.
  { intros only re -> Ho. unfold recordedTargetEligible. simpl. rewrite Ho, bool_decide_eq_true_2 by done.
    split; [done|]. left. unfold onlyMember in Ho. repeat case_test_in Ho; simplify_eq. set_solver. }
  destruct standbys as [|s rest]; [|pose proof (Hst s rest eq_refl)];
    repeat case_test; simpl; try done; intros _; bool_simpl; eauto.
Qed.

(** A selection can be dispatched at once: the target just selected is
    eligible as a recorded target on the same observations. *)
Theorem selected_target_eligible members obs history positions res now pref single over :
  let sel := selectBackupTarget members obs history positions res now pref single over in
  ts_Selected sel = true -> recordedTargetEligible members obs res now sel single = true.
Proof. intros sel Hsel. by apply select_eligible. Qed.

Section claims.
Context (members : list string) (obs : gmap string RoleObservation).
Context (history : gmap string InstanceReplication) (positions : gmap string applierReading).
Context (res : PrimaryResolution) (now : Time).
Hypothesis Hprobe : probedReadings obs.

Lemma safe_standby s rest pref single :
  (eligibleStandbys members obs history positions res now).1 = s :: rest -> pref <> PrimaryOnly ->
  SafeSelection members obs history positions res now pref single (selected s RoleSlave false reasonStandbySelected).
Proof.
  intros He Hp.
  assert (s ∈ (eligibleStandbys members obs history positions res now).1) as Hs by (rewrite He; set_solver).
  apply eligible_elem in Hs as (_ & Hm & d & Hv).
  pose proof Hm as [Hslave Hin]%list_elem_of_filter.
  destruct (standby_evidence _ _ _ _ _ _ _ Hprobe Hslave Hv) as [Hev (r & Hr & Hd)].
  eapply SafeStandby; try done. intros m d' Hm' Hv'. rewrite Hd. eapply eligible_first; eauto.
Qed.

Lemma safe_master pref single fallback reason :
  primaryResolved res = true -> pref <> StandbyOnly ->
  (pref <> PrimaryOnly -> fallback = true /\ (eligibleStandbys members obs history positions res now).1 = []) ->
  SafeSelection members obs history positions res now pref single
    (selected (res_CurrentPrimary res) RoleMaster fallback reason).
Proof.
  intros Hpr Hs Hf. pose proof Hpr as [Hst Hne]%primaryResolved_iff. apply SafeMaster; try done.
  intros Hp. destruct (Hf Hp) as [-> Hnil]. split; [done|]. intros m d Hm Hv.
  assert (m ∈ (eligibleStandbys members obs history positions res now).1) as Hin by (apply eligible_elem; eauto).
  rewrite Hnil in Hin. set_solver.
Qed.

Lemma select_safe pref single over :
  let sel := selectBackupTarget members obs history positions res now pref single over in
  ts_Selected sel = true -> SafeSelection members obs history positions res now pref single sel.
Proof.
  unfold selectBackupTarget. pose proof (fun s rest => safe_standby s rest pref single) as Hst.
  pose proof (fun f re => safe_master pref single f re) as Hma.
  destruct (eligibleStandbys _ _ _ _ _ _) as [standbys unread]. cbn [fst] in *.
  case_bool_decide as H1.
  { destruct standbys as [|s rest]; simpl; [done|]. intros _. apply (Hst s rest); [done|]. by rewrite H1. }
  case_bool_decide as H2.
  { destruct (primaryResolved res) eqn:Hp; simpl; [|done]. intros _. apply Hma; [done|done|]. by intros []. }
  destruct standbys as [|s rest]; [|intros _; by apply (Hst s rest)].
  destruct (primaryResolved res) eqn:Hp; cbn [negb andb].
  - rewrite andb_false_r. cbn [andb]. destruct unread, over; cbn [negb andb]; try done; intros _; by apply Hma.
  - rewrite andb_true_r. destruct single; [|done]. destruct (onlyMember members) as [only|] eqn:Eo; [|done].
    intros _. apply SafeOnlyMember; try done. simpl. unfold onlyMember in Eo. by repeat case_match; simplify_eq.
Qed.

(** C34: Backup target safety.  A member selected as standby is an
    authoritative slave that applies the resolved primary's log without
    failures, is not stalled or cut off for the window, with evidence that it
    receives the log, and no other such standby has fewer pages waiting; a
    member selected as master is the resolved primary, for PreferStandby only
    as a marked fallback without any eligible standby; an unknown role is
    selected only for the single member of a standalone cluster.  StandbyOnly
    never selects the master and PrimaryOnly never a standby. *)
Theorem selectBackupTarget_safe pref single over :
  let sel := selectBackupTarget members obs history positions res now pref single over in
  ts_Selected sel = true -> SafeSelection members obs history positions res now pref single sel.
Proof. apply select_safe. Qed.

End claims.

(** The three-member cluster with positioned slaves, [c-1] the less delayed. *)
Module TargetExample.
Definition now : Time := 5000 * Second.
Definition master : RoleObservation :=
  mkRoleObservation true false RoleMaster now false true false "11.4.6.1963" None
    (Some (mkLogAddress 20 0)) "" "" None.
Definition slave (pages : Z) : RoleObservation :=
  mkRoleObservation true false RoleSlave now false false false "11.4.6.1963"
    (Some (mkReplicationObservation "c-0" 9 0 pages "pid 7" (Some (mkLogAddress 10 0))
             (Some (mkLogAddress 20 0)) None)) None "" "" None.
Definition obs : gmap string RoleObservation :=
  {["c-0" := master; "c-1" := slave 1; "c-2" := slave 4]}.
Definition members : list string := ["c-0"; "c-1"; "c-2"].
Definition res : PrimaryResolution := resolvePrimary members obs now.
Lemma probed : probedReadings obs.
Proof.
  intros m o r Ho. unfold obs in Ho.
  repeat (apply lookup_insert_Some in Ho as [[_ <-]|[_ Ho]]; [by intros [= <-]|]).
  by apply lookup_singleton_Some in Ho as [_ <-]; intros [= <-].
Qed.
End TargetExample.

Lemma selectBackupTarget_safe_witness :
  let sel := selectBackupTarget TargetExample.members TargetExample.obs ∅ ∅ TargetExample.res TargetExample.now
               PreferStandby false false in
  sel = selected "c-1" RoleSlave false reasonStandbySelected /\
  SafeSelection TargetExample.members TargetExample.obs ∅ ∅ TargetExample.res TargetExample.now PreferStandby false sel.
Proof.
  split; [vm_compute; reflexivity|].
  apply (selectBackupTarget_safe TargetExample.members TargetExample.obs ∅ ∅ TargetExample.res TargetExample.now
           TargetExample.probed PreferStandby false false).
  vm_compute. reflexivity.
Defined.

Lemma selected_target_eligible_witness :
  recordedTargetEligible TargetExample.members TargetExample.obs TargetExample.res TargetExample.now
    (selectBackupTarget TargetExample.members TargetExample.obs ∅ ∅ TargetExample.res TargetExample.now
       PrimaryOnly false false) false = true.
Proof.
  apply (selected_target_eligible TargetExample.members TargetExample.obs ∅ ∅ TargetExample.res TargetExample.now
           PrimaryOnly false false).
  vm_compute. reflexivity.
Defined.
