(* ===== verification/OpStore.v ===== *)
(** * The operation store of the Instance Manager

    [internal/instancemanager/operation.go] and [opstore.go]: the durable,
    idempotent records of mutating operations.  The directory is a map from
    operation ID to the record its file holds.  What the file system does is
    explicit: a directory or a record may be unreadable during a call
    ([Env]), and every write ends as the next entry of a list says: written,
    failed before the rename, or failed after it, with the record in place
    but its directory not synced.  Log lines are left out; times are taken
    from the call's clock. *)
From stdpp Require Import prelude gmap strings list sorting fin_sets.
From Stdlib Require Import Ascii String.
From S2P Require Import Prelude GoStr.

(** ** Operations *)

Definition OpBackup : string := "backup".
Definition OpRestore : string := "restore".
Definition OpHABootstrap : string := "ha-bootstrap".

Definition OpPending : string := "Pending".
Definition OpRunningBackup : string := "RunningBackup".
Definition OpUploading : string := "Uploading".
Definition OpDownloading : string := "Downloading".
Definition OpRestoring : string := "Restoring".
Definition OpCreating : string := "Creating".
Definition OpStarting : string := "Starting".
Definition OpCompleted : string := "Completed".
Definition OpFailed : string := "Failed".
Definition OpCleaningUp : string := "CleaningUp".

Definition IsTerminal (s : string) : bool := (s == OpCompleted) || (s == OpFailed).

Record OperationArtifact := mkArtifact {
  oa_ManifestURI : string; oa_ManifestDigest : string; oa_SizeBytes : Z;
  oa_Database : string; oa_CubridVersion : string; oa_Level : Z }.

Record Operation := mkOperation {
  op_ID : string;
  op_Kind : string;
  op_IdempotencyKey : string;
  op_RequestHash : string;
  op_Database : string;
  op_State : string;
  op_FailureReason : string;
  op_Artifact : option OperationArtifact;
  op_Restored : option OperationArtifact;
  op_StagingDir : string;
  op_CreatedAt : Time;
  op_UpdatedAt : Time }.

Definition set_op_UpdatedAt (t : Time) (o : Operation) : Operation :=
  mkOperation (op_ID o) (op_Kind o) (op_IdempotencyKey o) (op_RequestHash o) (op_Database o) (op_State o)
    (op_FailureReason o) (op_Artifact o) (op_Restored o) (op_StagingDir o) (op_CreatedAt o) t.
Definition set_op_failed (reason : string) (o : Operation) : Operation :=
  mkOperation (op_ID o) (op_Kind o) (op_IdempotencyKey o) (op_RequestHash o) (op_Database o) OpFailed
    reason (op_Artifact o) (op_Restored o) (op_StagingDir o) (op_CreatedAt o) (op_UpdatedAt o).

Definition reasonRestarted : string := "manager restarted while operation was in progress".

(** ** The store *)

Inductive WriteOutcome := WOk | WFailBefore | WFailAfter.

Record Store := mkStore {
  s_disk : gmap string Operation;
  s_unsettled : gmap string (Operation -> Operation);
  s_unreadable : gset string;
  s_interrupted : gset string;
  s_writes : list WriteOutcome }.

Definition set_disk d s := mkStore d (s_unsettled s) (s_unreadable s) (s_interrupted s) (s_writes s).
Definition set_unsettled u s := mkStore (s_disk s) u (s_unreadable s) (s_interrupted s) (s_writes s).
Definition set_unreadable u s := mkStore (s_disk s) (s_unsettled s) u (s_interrupted s) (s_writes s).
Definition set_interrupted i s := mkStore (s_disk s) (s_unsettled s) (s_unreadable s) i (s_writes s).
Definition set_writes w s := mkStore (s_disk s) (s_unsettled s) (s_unreadable s) (s_interrupted s) w.

(** One call's surroundings: its time, whether the directory can be listed,
    which records can be read and decoded, the next random ID, and whether a
    file can be removed. *)
Record Env := mkEnv {
  env_now : Time;
  env_dirReadable : bool;
  env_readable : string -> bool;
  env_newID : option string;
  env_removable : bool }.

Inductive StoreErr :=
  | ErrIdempotencyConflict
  | ErrOperationInProgress
  | ErrOperationNotFound
  | ErrOperationRecordUnreadable
  | ErrUnwrittenEnd (id : string)
  | ErrReadStore
  | ErrReadRecord (id : string)
  | ErrDecodeRecord (id : string)
  | ErrWriteRecord (id : string)
  | ErrInterruptedWrite (id : string)
  | ErrNewID.
#[global] Instance StoreErr_eq_dec : EqDecision StoreErr.
Proof. solve_decision. Defined.

(** The error and state monad of the store. *)
Definition M (A : Type) : Type := Store -> (StoreErr + A) * Store.
#[global] Instance M_ret : MRet M := fun A x s => (inr x, s).
#[global] Instance M_bind : MBind M := fun A B k m s =>
  match m s with (inl e, s') => (inl e, s') | (inr x, s') => k x s' end.
Definition throw {A} (e : StoreErr) : M A := fun s => (inl e, s).
Definition get : M Store := fun s => (inr s, s).
Definition modify (f : Store -> Store) : M unit := fun s => (inr tt, f s).
(** Runs [m] and hands its outcome, error included, to the rest. *)
Definition attempt {A} (m : M A) : M (StoreErr + A) := fun s => let '(r, s') := m s in (inr r, s').

(** isValidOperationID: "op-" and 32 lower-case hexadecimal digits. *)
Definition isHexDigit (c : ascii) : bool :=
  let n := N_of_ascii c in (N.leb 48 n && N.leb n 57) || (N.leb 97 n && N.leb n 102).
Definition isValidOperationID (id : string) : bool :=
  match id with
  | String "o" (String "p" (String "-" rest)) => (String.length rest == 32%nat) && str_forall isHexDigit rest
  | _ => false
  end.

Definition writeLocked (op : Operation) : M unit := fun s =>
  let '(w, rest) := match s_writes s with [] => (WOk, []) | w :: rest => (w, rest) end in
  let placed := set_writes rest (set_disk (<[op_ID op := op]> (s_disk s)) s) in
  match w with
  | WOk => (inr tt, placed)
  | WFailBefore => (inl (ErrWriteRecord (op_ID op)), set_writes rest s)
  | WFailAfter => (inl (ErrWriteRecord (op_ID op)), placed)
  end.

Section store.
Context (env : Env).

Definition decodeLocked (id : string) : M Operation := fun s =>
  if negb (isValidOperationID id) then (inl ErrOperationNotFound, s)
  else match s_disk s !! id with
  | None => (inl ErrOperationNotFound, s)
  | Some op =>
      if negb (env_readable env id) then (inl (ErrReadRecord id), s)
      else if (op_ID op != id) || (op_Kind op == "") || (op_IdempotencyKey op == "") then (inl (ErrDecodeRecord id), s)
      else (inr op, s)
  end.

Definition failInterruptedLocked (op : Operation) : M Operation :=
  op' ← (if negb (IsTerminal (op_State op)) then
           let op := set_op_UpdatedAt (env_now env) (set_op_failed reasonRestarted op) in
           r ← attempt (writeLocked op);
           match r with
           | inl _ => throw (ErrInterruptedWrite (op_ID op))
           | inr _ => mret op
           end
         else mret op);
  _ ← modify (fun s => set_interrupted (s_interrupted s ∖ {[op_ID op]}) s);
  mret op'.

Definition readLocked (id : string) : M Operation :=
  op ← decodeLocked id;
  s ← get;
  if bool_decide (id ∈ s_interrupted s) then failInterruptedLocked op else mret op.

Definition updateLocked (id : string) (mutate : Operation -> Operation) : M Operation :=
  op ← readLocked id;
  let op := set_op_UpdatedAt (env_now env) (mutate op) in
  _ ← writeLocked op;
  mret op.

Definition settleLocked (id : string) : M unit :=
  s ← get;
  match s_unsettled s !! id with
  | None => mret tt
  | Some mutate =>
      r ← attempt (updateLocked id mutate);
      match r with
      | inr _ => modify (fun s => set_unsettled (delete id (s_unsettled s)) s)
      | inl e =>
          _ ← (if e == ErrOperationNotFound then modify (fun s => set_unsettled (delete id (s_unsettled s)) s) else mret tt);
          throw e
      end
  end.

(** The loop [for id := range s.unsettled { _ = s.settleLocked(id, true) }].
    Each pass touches the record and the kept end of its own ID only. *)
Fixpoint settleEach (ids : list string) : M unit :=
  match ids with
  | [] => mret tt
  | id :: ids => _ ← attempt (settleLocked id); settleEach ids
  end.
Definition settleAll : M unit := s ← get; settleEach (map_to_list (s_unsettled s)).*1.

(** The entries of the directory, by name. *)
Definition entries (s : Store) : list string := merge_sort String.le (elements (dom (s_disk s))).

(** The loop of listLocked: the records read, and the IDs of those that could
    not be. *)
Fixpoint listEach (ids : list string) : M (list Operation * list string) :=
  match ids with
  | [] => mret ([], [])
  | id :: ids =>
      r ← attempt (readLocked id);
      rest ← listEach ids;
      let '(ops, bad) := rest in
      match r with
      | inr op => mret (op :: ops, bad)
      | inl e => if e == ErrOperationNotFound then mret (ops, bad) else mret (ops, id :: bad)
      end
  end.

Definition listLocked : M (list Operation) :=
  if negb (env_dirReadable env) then throw ErrReadStore
  else
    s ← get;
    r ← listEach (entries s);
    _ ← modify (set_unreadable (list_to_set r.2));
    mret r.1.

Definition unreadableErrLocked : M unit :=
  s ← get; if bool_decide (s_unreadable s = ∅) then mret tt else throw ErrOperationRecordUnreadable.

(** ** The operations of the store *)

Definition newOperation (id kind idempotencyKey requestHash database : string) : Operation :=
  mkOperation id kind idempotencyKey requestHash database OpPending "" None None "" (env_now env) (env_now env).

Definition FindOrCreate (kind idempotencyKey requestHash database : string) : M (Operation * bool) :=
  _ ← settleAll;
  ops ← listLocked;
  match list_find (fun op => op_IdempotencyKey op = idempotencyKey /\ op_Kind op = kind) ops with
  | Some (_, op) =>
      if op_RequestHash op != requestHash then throw ErrIdempotencyConflict
      else
        s ← get;
        if bool_decide (is_Some (s_unsettled s !! op_ID op)) then throw (ErrUnwrittenEnd (op_ID op))
        else mret (op, true)
  | None =>
      _ ← unreadableErrLocked;
      if existsb (fun op => (op_Database op == database) && negb (IsTerminal (op_State op))) ops
      then throw ErrOperationInProgress
      else match env_newID env with
      | None => throw ErrNewID
      | Some id =>
          let op := newOperation id kind idempotencyKey requestHash database in
          r ← attempt (writeLocked op);
          match r with
          | inl e =>
              _ ← (if env_removable env then modify (fun s => set_disk (delete id (s_disk s)) s) else mret tt);
              throw e
          | inr _ => mret (op, false)
          end
      end
  end.

(** The loop of FindByKey. *)
Fixpoint findEach (idempotencyKey : string) (ids : list string) : M (list Operation) :=
  match ids with
  | [] => mret []
  | id :: ids =>
      r ← attempt (readLocked id);
      match r with
      | inl e => if e == ErrOperationNotFound then findEach idempotencyKey ids else throw e
      | inr op =>
          if op_IdempotencyKey op == idempotencyKey then
            s ← get;
            if bool_decide (is_Some (s_unsettled s !! op_ID op)) then throw (ErrUnwrittenEnd (op_ID op))
            else rest ← findEach idempotencyKey ids; mret (op :: rest)
          else findEach idempotencyKey ids
      end
  end.

Definition FindByKey (idempotencyKey : string) : M (list Operation) :=
  _ ← settleAll;
  if negb (env_dirReadable env) then throw ErrReadStore
  else s ← get; findEach idempotencyKey (entries s).

Definition Get (id : string) : M Operation :=
  if negb (isValidOperationID id) then throw ErrOperationNotFound
  else
    r ← attempt (settleLocked id);
    match r with
    | inl _ => throw (ErrUnwrittenEnd id)
    | inr _ => readLocked id
    end.

Definition Update (id : string) (mutate : Operation -> Operation) : M Operation := updateLocked id mutate.

Definition Settle (id : string) (mutate : Operation -> Operation) : M unit :=
  _ ← modify (fun s => set_unsettled (<[id := mutate]> (s_unsettled s)) s);
  settleLocked id.

Definition UnwrittenEnds : M (list string) :=
  _ ← settleAll;
  s ← get;
  mret (merge_sort String.le (elements (dom (s_unsettled s)))).

(** Peek reads and changes nothing. *)
Definition Peek (id : string) : M Operation :=
  op ← decodeLocked id;
  s ← get;
  match s_unsettled s !! id with
  | Some mutate => mret (mutate op)
  | None =>
      if bool_decide (id ∈ s_interrupted s) && negb (IsTerminal (op_State op))
      then mret (set_op_failed reasonRestarted op)
      else mret op
  end.

(** reconcileOnStart: the loop stops at the first record that cannot be
    written. *)
Fixpoint failEach (ops : list Operation) : M unit :=
  match ops with
  | [] => mret tt
  | op :: ops =>
      if IsTerminal (op_State op) then failEach ops
      else
        _ ← writeLocked (set_op_UpdatedAt (env_now env) (set_op_failed reasonRestarted op));
        failEach ops
  end.

Definition reconcileOnStart : M unit :=
  ops ← listLocked;
  _ ← modify (fun s => set_interrupted (s_interrupted s ∪ s_unreadable s) s);
  failEach ops.
End store.

(** NewOperationStore on a directory: the maps start empty. *)
Definition NewOperationStore (env : Env) (disk : gmap string Operation) (writes : list WriteOutcome)
  : (StoreErr + unit) * Store :=
  reconcileOnStart env (mkStore disk ∅ ∅ ∅ writes).

(** ** Running the monad *)

Lemma bind_inv {A B} (m : M A) (k : A -> M B) s r s' :
  (m ≫= k) s = (r, s') ->
  (exists e, m s = (inl e, s') /\ r = inl e) \/ (exists x s1, m s = (inr x, s1) /\ k x s1 = (r, s')).
Proof.
  unfold mbind, M_bind. destruct (m s) as [[e|x] s1] eqn:E; intros H; [left|right]; simplify_eq; eauto.
Qed.

Lemma attempt_inv {A} (m : M A) s r s' : attempt m s = (r, s') -> exists x, r = inr x /\ m s = (x, s').
Proof. unfold attempt. destruct (m s) as [x s1]. intros [= <- <-]. eauto. Qed.

(** Takes the first step of a run apart, in both of its outcomes. *)
Tactic Notation "mstep" hyp(H) :=
  let e := fresh "e" in let x := fresh "x" in let s1 := fresh "s1" in
  let Hm := fresh "Hm" in let Hk := fresh "Hk" in
  apply bind_inv in H as [(e & Hm & ->)|(x & s1 & Hm & Hk)].

(** The same for a run that is known to answer. *)
Tactic Notation "manswer" hyp(H) :=
  let e := fresh "e" in let x := fresh "x" in let s1 := fresh "s1" in
  let Hm := fresh "Hm" in let Hk := fresh "Hk" in let Hr := fresh "Hr" in
  apply bind_inv in H as [(e & Hm & Hr)|(x & s1 & Hm & Hk)]; [discriminate Hr|].

(** ** The invariant of the records *)

Definition sameIdentity (o o' : Operation) : Prop :=
  op_ID o' = op_ID o /\ op_Kind o' = op_Kind o /\ op_IdempotencyKey o' = op_IdempotencyKey o /\
  op_RequestHash o' = op_RequestHash o /\ op_Database o' = op_Database o.

Definition ended (o : Operation) : Prop := IsTerminal (op_State o) = true.

(** What the manager's callbacks do to a record: they change its progress
    only; a kept end ends it. *)
Definition keepsIdentity (f : Operation -> Operation) : Prop := forall o, sameIdentity o (f o).
(** An end says nothing new about restored data. *)
Definition sameData (o o' : Operation) : Prop := sameIdentity o o' /\ op_Restored o' = op_Restored o.
Definition isEnd (f : Operation -> Operation) : Prop := (forall o, sameData o (f o)) /\ forall o, ended (f o).

Record StoreInv (s : Store) : Prop := {
  inv_records : forall id o, s_disk s !! id = Some o ->
    isValidOperationID id = true /\ op_ID o = id /\ op_Kind o <> "" /\ op_IdempotencyKey o <> "";
  inv_keys : forall id id' o o', s_disk s !! id = Some o -> s_disk s !! id' = Some o' ->
    op_Kind o = op_Kind o' -> op_IdempotencyKey o = op_IdempotencyKey o' -> id = id';
  inv_single : forall id id' o o', s_disk s !! id = Some o -> s_disk s !! id' = Some o' ->
    op_Database o = op_Database o' -> ~ ended o -> ~ ended o' -> id = id';
  inv_ends : forall id f, s_unsettled s !! id = Some f -> isEnd f }.

(** What the store does to records by itself, inside any call: it ends some of
    them, and forgets kept ends and interruptions that are written. *)
Record settles (s s' : Store) : Prop := {
  settles_disk : forall id, match s_disk s !! id, s_disk s' !! id with
    | Some o, Some o' => o' = o \/ (sameData o o' /\ ended o')
    | None, None => True
    | _, _ => False
    end;
  settles_unsettled : forall id f, s_unsettled s' !! id = Some f -> s_unsettled s !! id = Some f;
  settles_interrupted : s_interrupted s' ⊆ s_interrupted s }.

#[global] Instance sameIdentity_refl : Reflexive sameIdentity.
Proof. intros o. by split_and!. Qed.
#[global] Instance sameIdentity_trans : Transitive sameIdentity.
Proof. intros o1 o2 o3 (?&?&?&?&?) (?&?&?&?&?). split_and!; congruence. Qed.

#[global] Instance sameData_refl : Reflexive sameData.
Proof. intros o. by split. Qed.
#[global] Instance sameData_trans : Transitive sameData.
Proof. intros o1 o2 o3 [? ?] [? ?]. split; [by transitivity o2|congruence]. Qed.

#[global] Instance settles_refl : Reflexive settles.
Proof. intros s. split; [|done|done]. intros id. destruct (s_disk s !! id); eauto. Qed.

#[global] Instance settles_trans : Transitive settles.
Proof.
  intros s1 s2 s3 [H1 U1 I1] [H2 U2 I2]. split; [|eauto|set_solver]. intros id. specialize (H1 id). specialize (H2 id).
  destruct (s_disk s1 !! id) as [o1|], (s_disk s2 !! id) as [o2|], (s_disk s3 !! id) as [o3|]; try done.
  destruct H1 as [->|[Ha Hb]], H2 as [->|[Hc Hd]]; [by left|by right|by right|].
  right. split; [|done]. etransitivity; [exact Ha|exact Hc].
Qed.

Lemma settles_lookup s s' id o' :
  settles s s' -> s_disk s' !! id = Some o' ->
  exists o, s_disk s !! id = Some o /\ sameIdentity o o' /\ (ended o -> o' = o \/ ended o') /\ (~ ended o' -> o' = o).
Proof.
  intros [H _ _] Hl. specialize (H id). rewrite Hl in H. destruct (s_disk s !! id) as [o|]; [|done].
  exists o. destruct H as [->|[[Hi _] He]]; split_and!; auto; try done.
Qed.

Lemma settles_dom s s' : settles s s' -> dom (s_disk s') = dom (s_disk s).
Proof.
  intros [H _ _]. apply set_eq. intros id. rewrite !elem_of_dom. specialize (H id).
  destruct (s_disk s !! id), (s_disk s' !! id); try done; split; intros [? ?]; eauto; done.
Qed.

(** The invariant survives what the store does by itself. *)
Lemma settles_inv s s' : settles s s' -> StoreInv s -> StoreInv s'.
Proof.
  intros Hs [Hr Hk Hd He]. split.
  - intros id o' Hl. destruct (settles_lookup _ _ _ _ Hs Hl) as (o & Ho & (Hid & Hki & Hkey & _) & _).
    destruct (Hr id o Ho) as (?&?&?&?). split_and!; congruence.
  - intros id id' o o' Hl Hl'.
    destruct (settles_lookup _ _ _ _ Hs Hl) as (p & Hp & (?&?&?&?) & _).
    destruct (settles_lookup _ _ _ _ Hs Hl') as (p' & Hp' & (?&?&?&?) & _).
    intros ??. apply (Hk id id' p p'); congruence.
  - intros id id' o o' Hl Hl' Hdb Hn Hn'.
    destruct (settles_lookup _ _ _ _ Hs Hl) as (p & Hp & _ & _ & Hq).
    destruct (settles_lookup _ _ _ _ Hs Hl') as (p' & Hp' & _ & _ & Hq').
    specialize (Hq Hn). specialize (Hq' Hn'). subst o o'. by apply (Hd id id' p p').
  - intros id f Hf. apply (He id). by apply (settles_unsettled _ _ Hs).
Qed.

(** ** The parts of a call *)

Lemma writeLocked_spec op s r s' :
  writeLocked op s = (r, s') ->
  s_unsettled s' = s_unsettled s /\ s_unreadable s' = s_unreadable s /\ s_interrupted s' = s_interrupted s /\
  (s_disk s' = s_disk s /\ r <> inr tt \/ s_disk s' = <[op_ID op := op]> (s_disk s)).
Proof.
  unfold writeLocked. destruct (s_writes s) as [|[] w]; intros [= <- <-]; split_and!; try done; auto; left; done.
Qed.

Lemma writeLocked_err op s e s' : writeLocked op s = (inl e, s') -> e = ErrWriteRecord (op_ID op).
Proof. unfold writeLocked. destruct (s_writes s) as [|[] w]; congruence. Qed.

(** Placing an ended record of the same identity settles. *)
Lemma write_settles op o s r s' :
  writeLocked op s = (r, s') -> s_disk s !! op_ID op = Some o -> sameData o op -> ended op -> settles s s'.
Proof.
  intros (Hu & _ & Hi & Hd)%writeLocked_spec Ho Hid He. split; [|by rewrite Hu|by rewrite Hi]. intros id.
  destruct Hd as [[-> _]| ->]; [destruct (s_disk s !! id); eauto|].
  destruct (decide (id = op_ID op)) as [->|Hne].
  - rewrite Ho, lookup_insert_eq. by right.
  - rewrite lookup_insert_ne by done. destruct (s_disk s !! id); eauto.
Qed.

Lemma decodeLocked_spec env id s r s' :
  decodeLocked env id s = (r, s') ->
  s' = s /\
  match r with
  | inr op => s_disk s !! id = Some op /\ op_ID op = id /\ isValidOperationID id = true /\ env_readable env id = true
  | inl ErrOperationNotFound => isValidOperationID id = false \/ s_disk s !! id = None
  | inl _ => s_disk s !! id <> None
  end.
Proof.
  unfold decodeLocked. destruct (isValidOperationID id) eqn:Ev; simpl; [|intros [= <- <-]; auto].
  destruct (s_disk s !! id) as [op|] eqn:Eo; [|intros [= <- <-]; auto].
  destruct (env_readable env id); simpl; [|intros [= <- <-]; done].
  destruct (_ || _) eqn:Hc; intros [= <- <-]; [done|]. bool_simpl. done.
Qed.

Definition markRestarted (now : Time) (o : Operation) : Operation :=
  set_op_UpdatedAt now (set_op_failed reasonRestarted o).

Lemma markRestarted_end now : isEnd (markRestarted now).
Proof. split; intros o; [by split_and!|done]. Qed.

Lemma failInterruptedLocked_spec env op s r s' :
  failInterruptedLocked env op s = (r, s') -> s_disk s !! op_ID op = Some op ->
  settles s s' /\ s_unsettled s' = s_unsettled s /\ s_unreadable s' = s_unreadable s /\
  match r with
  | inr op' => s_disk s' !! op_ID op = Some op' /\ op_ID op' = op_ID op /\ ended op' /\ (op_ID op ∉ s_interrupted s') /\
      op' = (if IsTerminal (op_State op) then op else markRestarted (env_now env) op)
  | inl e => e = ErrInterruptedWrite (op_ID op)
  end.
Proof.
  unfold failInterruptedLocked. intros H Ho. destruct (IsTerminal (op_State op)) eqn:Et; cbn [negb] in H.
  - unfold mbind, M_bind, mret, M_ret, modify in H. injection H as <- <-. split_and!; try done.
    + split; [|done|simpl; set_solver]. intros id. simpl. destruct (s_disk s !! id); eauto.
    + simpl. set_solver.
  - fold (markRestarted (env_now env) op) in H.
    unfold mbind, M_bind, attempt, mret, M_ret, modify, throw in H.
    destruct (writeLocked (markRestarted (env_now env) op) s) as [w s1] eqn:Ew.
    pose proof (write_settles _ _ _ _ _ Ew Ho (proj1 (markRestarted_end _) op) (proj2 (markRestarted_end _) op)) as Hset.
    apply writeLocked_spec in Ew as (Hu & Hur & Hi & Hd).
    destruct w as [e|[]]; injection H as <- <-; [by split_and!|].
    destruct Hd as [[_ []]|Hd]; [done|]. split_and!; try done.
    + transitivity s1; [done|]. split; [|done|simpl; set_solver]. intros id. simpl. destruct (s_disk s1 !! id); eauto.
    + simpl. rewrite Hd. apply lookup_insert_eq.
    + simpl. set_solver.
Qed.

(** What a record read as [op] was on disk, when the reading started. *)
Lemma readLocked_spec env id s r s' :
  readLocked env id s = (r, s') ->
  settles s s' /\ s_unsettled s' = s_unsettled s /\ s_unreadable s' = s_unreadable s /\
  match r with
  | inr op => s_disk s' !! id = Some op /\ op_ID op = id /\ (id ∉ s_interrupted s') /\
      env_readable env id = true /\
      exists o, s_disk s !! id = Some o /\
        op = (if bool_decide (id ∈ s_interrupted s) && negb (IsTerminal (op_State o))
              then markRestarted (env_now env) o else o)
  | inl ErrOperationNotFound => isValidOperationID id = false \/ s_disk s !! id = None
  | inl _ => s_disk s !! id <> None
  end.
Proof.
  unfold readLocked. intros H. mstep H.
  - apply decodeLocked_spec in Hm as [-> Hm]. split_and!; [done..|]. by destruct e.
  - apply decodeLocked_spec in Hm as [-> (Ho & Hid & Hv & Hre)]. mstep Hk; [done|].
    injection Hm as <- <-. destruct (bool_decide (id ∈ s_interrupted s)) eqn:Ei.
    + subst id. apply failInterruptedLocked_spec in Hk0 as (Hset & Hu & Hur & Hr); [|done].
      split_and!; try done. destruct r as [e|op'].
      * subst e. congruence.
      * destruct Hr as (?&?&?&?&->). split_and!; try done.
        exists x. split; [done|]. by destruct (IsTerminal (op_State x)).
    + injection Hk0 as <- <-. apply bool_decide_eq_false in Ei. split_and!; try done. by exists x.
Qed.

Lemma updateLocked_end env id f s r s' :
  updateLocked env id f s = (r, s') -> isEnd f ->
  settles s s' /\ s_unsettled s' = s_unsettled s /\ s_unreadable s' = s_unreadable s /\
  match r with
  | inr op => s_disk s' !! id = Some op /\ op_ID op = id /\ (id ∉ s_interrupted s') /\
      exists o, s_disk s !! id = Some o /\
        op = set_op_UpdatedAt (env_now env)
               (f (if bool_decide (id ∈ s_interrupted s) && negb (IsTerminal (op_State o))
                   then markRestarted (env_now env) o else o))
  | inl ErrOperationNotFound => isValidOperationID id = false \/ s_disk s !! id = None
  | inl _ => s_disk s !! id <> None
  end.
Proof.
  unfold updateLocked. intros H [Hf He]. mstep H.
  - by apply readLocked_spec in Hm as (?&?&?&?).
  - apply readLocked_spec in Hm as (Hs1 & Hu1 & Hr1 & Hd1 & Hid & Hni & _ & o & Ho & Hx).
    set (op := set_op_UpdatedAt (env_now env) (f x)) in *.
    assert (sameData x op) as Hsame by (destruct (Hf x) as [(?&?&?&?&?) ?]; split; [by split_and!|done]).
    assert (ended op) as Hend by exact (He x).
    assert (op_ID op = id) as Hopid by (destruct Hsame as [[? _] _]; congruence).
    mstep Hk.
    + pose proof (write_settles _ _ _ _ _ Hm ltac:(by rewrite Hopid) Hsame Hend).
      pose proof (writeLocked_err _ _ _ _ Hm) as ->. apply writeLocked_spec in Hm as (?&?&?&?).
      split_and!; [by transitivity s1|congruence|congruence|]. by rewrite Ho.
    + injection Hk0 as <- <-. destruct x0.
      pose proof (write_settles _ _ _ _ _ Hm ltac:(by rewrite Hopid) Hsame Hend).
      apply writeLocked_spec in Hm as (?&?&Hint&[[_ []]|Hd]); [done|].
      split_and!; [by transitivity s1|congruence|congruence| |done|congruence|].
      * rewrite Hd, Hopid. apply lookup_insert_eq.
      * exists o. unfold op. by rewrite Hx.
Qed.

Lemma settleLocked_spec env id s r s' :
  settleLocked env id s = (r, s') -> StoreInv s ->
  settles s s' /\ s_unreadable s' = s_unreadable s /\
  (r = inr tt -> s_unsettled s' !! id = None).
Proof.
  unfold settleLocked. intros H Hinv. mstep H; [done|]. injection Hm as <- <-.
  destruct (s_unsettled s !! id) as [f|] eqn:Ef; [|injection Hk as <- <-; split_and!; done].
  pose proof (inv_ends _ Hinv _ _ Ef) as Hend.
  mstep Hk; [by apply attempt_inv in Hm as (? & ? & _)|]. apply attempt_inv in Hm as (y & [= ->] & Hm).
  apply updateLocked_end in Hm as (Hs1 & Hu1 & Hr1 & Hy); [|done].
  assert (forall s0, s_disk s0 = s_disk s1 -> s_interrupted s0 = s_interrupted s1 ->
    s_unsettled s0 = delete id (s_unsettled s1) -> settles s1 s0) as Hdel.
  { intros s0 Hd Hi Hu. split; [|intros ??; rewrite Hu; intros [_ ?]%lookup_delete_Some; done|by rewrite Hi].
    intros i. rewrite Hd. destruct (s_disk s1 !! i); eauto. }
  destruct y as [e|op].
  - mstep Hk0; [by destruct (e == ErrOperationNotFound)|]. injection Hk as <- <-.
    destruct (e == ErrOperationNotFound); injection Hm as _ <-; split_and!; try done.
    transitivity s1; [done|]. by apply Hdel.
  - injection Hk0 as <- <-. split_and!; try done.
    + transitivity s1; [done|]. by apply Hdel.
    + intros _. simpl. apply lookup_delete_eq.
Qed.

Lemma settleEach_spec env ids : forall s r s',
  settleEach env ids s = (r, s') -> StoreInv s ->
  r = inr tt /\ settles s s' /\ s_unreadable s' = s_unreadable s.
Proof.
  induction ids as [|id ids IH]; intros s r s' H Hinv; cbn [settleEach] in H.
  - injection H as <- <-. done.
  - mstep H; [by apply attempt_inv in Hm as (? & ? & _)|]. apply attempt_inv in Hm as (y & [= ->] & Hm).
    apply settleLocked_spec in Hm as (Hs1 & Hr1 & _); [|done].
    apply IH in Hk as (-> & Hs2 & Hr2); [|by eapply settles_inv].
    split_and!; [done|by transitivity s1|congruence].
Qed.

Lemma settleAll_spec env s r s' :
  settleAll env s = (r, s') -> StoreInv s -> r = inr tt /\ settles s s' /\ s_unreadable s' = s_unreadable s.
Proof.
  unfold settleAll. intros H Hinv. mstep H; [done|]. injection Hm as <- <-. by eapply settleEach_spec.
Qed.

(** What a record listed as [op] is on disk after the listing: the same, or
    ended since. *)
Definition listedAs (s : Store) (op : Operation) : Prop :=
  exists o, s_disk s !! op_ID op = Some o /\ (o = op \/ (sameData op o /\ ended o)).

Lemma listedAs_settles s s' op : settles s s' -> listedAs s op -> listedAs s' op.
Proof.
  intros [H _ _] (o & Ho & Hc). specialize (H (op_ID op)). rewrite Ho in H.
  destruct (s_disk s' !! op_ID op) as [o'|] eqn:Eo; [|done]. exists o'. split; [done|].
  destruct H as [->|[Ha Hb]]; [done|]. destruct Hc as [->|[Hc Hd]]; right; [done|].
  split; [|done]. by transitivity o.
Qed.

Lemma listEach_spec env ids : forall s r s',
  listEach env ids s = (r, s') ->
  settles s s' /\ s_unsettled s' = s_unsettled s /\ s_unreadable s' = s_unreadable s /\
  exists ops bad, r = inr (ops, bad) /\ Forall (listedAs s') ops /\
    (forall id, id ∈ ids -> isValidOperationID id = true -> is_Some (s_disk s !! id) ->
       id ∈ bad \/ exists op, op ∈ ops /\ op_ID op = id) /\
    (forall id, id ∈ bad -> is_Some (s_disk s !! id)).
Proof.
  induction ids as [|id ids IH]; intros s r s' H; cbn [listEach] in H.
  - injection H as <- <-. split_and!; try done. exists [], []. split_and!; [done|constructor| |]; set_solver.
  - mstep H; [by apply attempt_inv in Hm as (? & ? & _)|]. apply attempt_inv in Hm as (y & [= ->] & Hm).
    apply readLocked_spec in Hm as (Hs1 & Hu1 & Hur1 & Hy).
    mstep Hk; [by destruct (IH _ _ _ Hm) as (_ & _ & _ & ? & ? & ? & _)|].
    destruct (IH _ _ _ Hm) as (Hs2 & Hu2 & Hur2 & ops & bad & [= ->] & Hf & Hcov & Hbad).
    assert (forall i, is_Some (s_disk s1 !! i) <-> is_Some (s_disk s !! i)) as Hdom.
    { intros i. by rewrite <- !elem_of_dom, (settles_dom _ _ Hs1). }
    setoid_rewrite Hdom in Hcov. setoid_rewrite Hdom in Hbad.
    destruct y as [e|op].
    + destruct (decide (e = ErrOperationNotFound)) as [->|Hne].
      * rewrite bool_decide_eq_true_2 in Hk0 by done. injection Hk0 as <- <-.
        split_and!; [by transitivity s1|congruence|congruence|]. exists ops, bad. split_and!; try done.
        intros i [->|Hi]%elem_of_cons Hv Hsome; [|by apply Hcov].
        exfalso. destruct Hy as [Hy|Hy]; [congruence|]. rewrite Hy in Hsome. by destruct Hsome.
      * rewrite bool_decide_eq_false_2 in Hk0 by done. injection Hk0 as <- <-.
        split_and!; [by transitivity s1|congruence|congruence|]. exists ops, (id :: bad). split_and!; try done.
        -- intros i [->|Hi]%elem_of_cons Hv Hsome; [set_solver|]. destruct (Hcov i Hi Hv Hsome); set_solver.
        -- intros i [->|Hi]%elem_of_cons; [|by apply Hbad]. destruct e; try done; by apply not_eq_None_Some.
    + injection Hk0 as <- <-. destruct Hy as (Ho & Hid & _ & _).
      split_and!; [by transitivity s1|congruence|congruence|]. exists (op :: ops), bad. split_and!; try done.
      * constructor; [|done]. apply (listedAs_settles s1); [done|]. exists op. rewrite Hid. auto.
      * intros i [->|Hi]%elem_of_cons Hv Hsome; [right; exists op; set_solver|].
        destruct (Hcov i Hi Hv Hsome) as [?|(o & ? & ?)]; [by left|right]. exists o. set_solver.
Qed.

Lemma entries_elem s id : id ∈ entries s <-> is_Some (s_disk s !! id).
Proof. unfold entries. rewrite merge_sort_Permutation, elem_of_elements. by rewrite elem_of_dom. Qed.

(** The records after a listing: every one is listed, or known unreadable. *)
Lemma listLocked_spec env s r s' :
  listLocked env s = (r, s') -> StoreInv s ->
  settles s s' /\ s_unsettled s' = s_unsettled s /\
  match r with
  | inl e => e = ErrReadStore
  | inr ops => Forall (listedAs s') ops /\
      (forall id o, s_disk s' !! id = Some o -> id ∈ s_unreadable s' \/ exists op, op ∈ ops /\ op_ID op = id) /\
      (forall id, id ∈ s_unreadable s' -> is_Some (s_disk s' !! id))
  end.
Proof.
  unfold listLocked. intros H Hinv. destruct (env_dirReadable env); cbn [negb] in H; [|by injection H as <- <-].
  mstep H; [done|]. injection Hm as <- <-. mstep Hk.
  { destruct (listEach_spec _ _ _ _ _ Hm) as (_ & _ & _ & ? & ? & ? & _). done. }
  destruct (listEach_spec _ _ _ _ _ Hm) as (Hs & Hu & _ & ops & bad & [= ->] & Hf & Hcov & Hbad).
  injection Hk0 as <- <-. cbn [fst snd] in *.
  assert (forall i, is_Some (s_disk s1 !! i) <-> is_Some (s_disk s !! i)) as Hdom.
  { intros i. by rewrite <- !elem_of_dom, (settles_dom _ _ Hs). }
  split_and!; try done.
  - transitivity s1; [done|]. split; [|done|done]. intros i. simpl. destruct (s_disk s1 !! i); eauto.
  - intros id o Ho. simpl in *. rewrite elem_of_list_to_set.
    assert (is_Some (s_disk s !! id)) as Hsome by (apply Hdom; eauto). destruct Hsome as [o0 Ho0].
    apply Hcov; [apply entries_elem; eauto| |eauto]. by destruct (inv_records _ Hinv _ _ Ho0).
  - intros id. simpl. rewrite elem_of_list_to_set. intros Hin. apply Hdom. by apply Hbad.
Qed.

(** ** FindOrCreate *)

(** The record of a new operation may be placed beside the ones of [s]. *)
Definition admits (s : Store) (op : Operation) : Prop :=
  s_unreadable s = ∅ /\
  forall id o, s_disk s !! id = Some o ->
    ~ (op_Kind o = op_Kind op /\ op_IdempotencyKey o = op_IdempotencyKey op) /\
    (op_Database o = op_Database op -> ended o).

(** The four ways a call ends: the operation found, one created, a refusal
    that leaves the records as they were (apart from ends written), and a
    creation whose record could not be made durable. *)
Inductive FindOrCreateResult (env : Env) (kind key hash db : string) (s s' : Store)
  : StoreErr + (Operation * bool) -> Prop :=
  | FoundExisting op :
      settles s s' -> listedAs s' op -> op_Kind op = kind -> op_IdempotencyKey op = key -> op_RequestHash op = hash ->
      s_unsettled s' !! op_ID op = None -> FindOrCreateResult env kind key hash db s s' (inr (op, true))
  | CreatedNew s1 id :
      settles s s1 -> env_newID env = Some id -> admits s1 (newOperation env id kind key hash db) ->
      s_disk s' = <[id := newOperation env id kind key hash db]> (s_disk s1) -> s_unsettled s' = s_unsettled s1 ->
      s_interrupted s' = s_interrupted s1 ->
      FindOrCreateResult env kind key hash db s s' (inr (newOperation env id kind key hash db, false))
  | Refused e : settles s s' -> FindOrCreateResult env kind key hash db s s' (inl e)
  | NotWritten s1 id e :
      settles s s1 -> env_newID env = Some id -> admits s1 (newOperation env id kind key hash db) ->
      s_disk s' = <[id := newOperation env id kind key hash db]> (s_disk s1) \/ s_disk s' = s_disk s1 \/
        s_disk s' = delete id (s_disk s1) ->
      s_unsettled s' = s_unsettled s1 -> FindOrCreateResult env kind key hash db s s' (inl e).

(** Without a listed operation of the key and with none running on the
    database, the records admit the new one. *)
Lemma listed_admits s ops op :
  StoreInv s -> s_unreadable s = ∅ -> Forall (listedAs s) ops ->
  (forall id o, s_disk s !! id = Some o -> id ∈ s_unreadable s \/ exists p, p ∈ ops /\ op_ID p = id) ->
  Forall (fun p => ~ (op_IdempotencyKey p = op_IdempotencyKey op /\ op_Kind p = op_Kind op)) ops ->
  existsb (fun p => (op_Database p == op_Database op) && negb (IsTerminal (op_State p))) ops = false ->
  admits s op.
Proof.
  intros Hinv Hur Hl Hcov Hkeys Hex. split; [done|]. intros id o Ho.
  destruct (Hcov id o Ho) as [Hin|(p & Hp & <-)]; [rewrite Hur in Hin; set_solver|].
  destruct (proj1 (Forall_forall _ _) Hl p Hp) as (o' & Ho' & Hc). rewrite Ho in Ho'. injection Ho' as <-.
  assert (sameIdentity p o) as (_ & Hk & Hkey & _ & Hdb) by (by destruct Hc as [->|[[? _] _]]).
  split.
  - rewrite Hk, Hkey. intros [? ?]. by apply (proj1 (Forall_forall _ _) Hkeys p Hp).
  - intros Hd. destruct Hc as [->|[_ He]]; [|done]. unfold ended. apply dec_stable. intros Hn.
    apply not_true_is_false in Hn. assert (existsb (fun p => (op_Database p == op_Database op) && negb (IsTerminal (op_State p))) ops = true) as Ht; [|congruence].
    apply existsb_exists. exists p. split; [by apply list_elem_of_In|]. rewrite Hn, Hd. by rewrite bool_decide_eq_true_2.
Qed.

Lemma unreadableErrLocked_spec s r s' :
  unreadableErrLocked s = (r, s') -> s' = s /\ (r = inr tt -> s_unreadable s = ∅).
Proof.
  unfold unreadableErrLocked, mbind, M_bind, get, mret, M_ret, throw.
  case_bool_decide; intros [= <- <-]; by split.
Qed.

Lemma FindOrCreate_cases env kind key hash db s r s' :
  FindOrCreate env kind key hash db s = (r, s') -> StoreInv s -> FindOrCreateResult env kind key hash db s s' r.
Proof.
  unfold FindOrCreate. intros H Hinv. mstep H; [by apply settleAll_spec in Hm as (? & _)|].
  apply settleAll_spec in Hm as (_ & Hs1 & _); [|done].
  pose proof (settles_inv _ _ Hs1 Hinv) as Hinv1. mstep Hk.
  { apply listLocked_spec in Hm as (Hs2 & _); [|done]. apply Refused. by transitivity s1. }
  apply listLocked_spec in Hm as (Hs2 & Hu2 & Hl & Hcov & Hbad); [|done].
  pose proof (settles_inv _ _ Hs2 Hinv1) as Hinv2. pose proof (transitivity Hs1 Hs2) as Hs12.
  destruct (list_find _ x0) as [[i op]|] eqn:Ef.
  - apply list_find_Some in Ef as (Hi & [Hkey Hki] & _). apply list_elem_of_lookup_2 in Hi.
    case_bool_decide as Hh; cbn [negb] in Hk0; [|injection Hk0 as <- <-; by apply Refused].
    mstep Hk0; [done|]. injection Hm as <- <-. case_bool_decide as Hun.
    + injection Hk as <- <-. by apply Refused.
    + injection Hk as <- <-. apply FoundExisting; try done.
      * by apply (proj1 (Forall_forall _ _) Hl).
      * by apply eq_None_not_Some.
  - apply list_find_None in Ef. mstep Hk0.
    { apply unreadableErrLocked_spec in Hm as [-> _]. by apply Refused. }
    destruct x1. apply unreadableErrLocked_spec in Hm as [-> Hur]. specialize (Hur eq_refl).
    destruct (existsb _ x0) eqn:Hex; [injection Hk as <- <-; by apply Refused|].
    destruct (env_newID env) as [id|] eqn:Eid; [|injection Hk as <- <-; by apply Refused].
    pose proof (listed_admits _ x0 (newOperation env id kind key hash db) Hinv2 Hur Hl Hcov Ef Hex) as Hadm.
    mstep Hk; [by apply attempt_inv in Hm as (? & ? & _)|]. apply attempt_inv in Hm as (y & [= ->] & Hm).
    apply writeLocked_spec in Hm as (Hu & _ & Hint & Hd). cbn [op_ID newOperation] in Hd.
    destruct y as [e|[]].
    + mstep Hk0; [by destruct (env_removable env)|]. injection Hk as <- <-.
      eapply NotWritten; [exact Hs12|done|exact Hadm| |].
      * destruct (env_removable env); injection Hm as _ <-; simpl; destruct Hd as [[-> _]| ->]; auto.
        rewrite delete_insert_eq. auto.
      * by destruct (env_removable env); injection Hm as _ <-.
    + injection Hk0 as <- <-. destruct Hd as [[_ []]|Hd]; [done|].
      by eapply CreatedNew.
Qed.

(** ** Steps of the store *)

Definition freshID (env : Env) (s : Store) : Prop :=
  forall id, env_newID env = Some id -> isValidOperationID id = true /\ s_disk s !! id = None.

(** A progress update is made to an operation that runs, or ends it. *)
Definition mayUpdate (s : Store) (id : string) (f : Operation -> Operation) : Prop :=
  isEnd f \/
  keepsIdentity f /\ (id ∉ s_interrupted s) /\ forall o, s_disk s !! id = Some o -> ~ ended o.

Inductive StoreStep (s s' : Store) : Prop :=
  | StepFindOrCreate env kind key hash db r :
      kind <> "" -> key <> "" -> freshID env s -> FindOrCreate env kind key hash db s = (r, s') -> StoreStep s s'
  | StepFindByKey env key r : FindByKey env key s = (r, s') -> StoreStep s s'
  | StepGet env id r : Get env id s = (r, s') -> StoreStep s s'
  | StepUpdate env id f r : mayUpdate s id f -> Update env id f s = (r, s') -> StoreStep s s'
  | StepSettle env id f r : isEnd f -> Settle env id f s = (r, s') -> StoreStep s s'
  | StepUnwrittenEnds env r : UnwrittenEnds env s = (r, s') -> StoreStep s s'
  | StepRestart env writes r : NewOperationStore env (s_disk s) writes = (r, s') -> StoreStep s s'.

(** Adding an admitted record keeps the invariant. *)
Lemma admit_inv s s' op :
  StoreInv s -> admits s op -> isValidOperationID (op_ID op) = true -> op_Kind op <> "" -> op_IdempotencyKey op <> "" ->
  s_disk s' = <[op_ID op := op]> (s_disk s) -> s_unsettled s' = s_unsettled s -> StoreInv s'.
Proof.
  intros [Hr Hk Hd He] [_ Ha] Hv Hki Hke Hdisk Hu. split.
  - intros id o. rewrite Hdisk. intros [[<- <-]|[_ Ho]]%lookup_insert_Some; [by split_and!|eauto].
  - intros id id' o o'. rewrite Hdisk.
    intros [[<- <-]|[_ Ho]]%lookup_insert_Some [[<- <-]|[_ Ho']]%lookup_insert_Some H1 H2; [done| | |eauto].
    + exfalso. by apply (Ha id' o' Ho').
    + exfalso. by apply (Ha id o Ho).
  - intros id id' o o'. rewrite Hdisk.
    intros [[<- <-]|[_ Ho]]%lookup_insert_Some [[<- <-]|[_ Ho']]%lookup_insert_Some H1 H2 H3; [done| | |eauto].
    + exfalso. apply H3. by apply (Ha id' o' Ho').
    + exfalso. apply H2. by apply (Ha id o Ho).
  - intros id f. rewrite Hu. apply He.
Qed.

(** Replacing a record by one of the same identity that is not revived. *)
Lemma replace_inv s s' o op :
  StoreInv s -> s_disk s !! op_ID op = Some o -> sameIdentity o op -> (ended op \/ ~ ended o) ->
  s_disk s' = <[op_ID op := op]> (s_disk s) -> s_unsettled s' = s_unsettled s -> StoreInv s'.
Proof.
  intros [Hr Hk Hd He] Ho (Hid & Hki & Hke & _ & Hdb) Hend Hdisk Hu. split.
  - intros id p. rewrite Hdisk. intros [[<- <-]|[_ Hp]]%lookup_insert_Some; [|eauto].
    destruct (Hr _ _ Ho) as (?&?&?&?). split_and!; congruence.
  - intros id id' p p'. rewrite Hdisk.
    intros [[<- <-]|[_ Hp]]%lookup_insert_Some [[<- <-]|[_ Hp']]%lookup_insert_Some H1 H2; [done| | |eauto].
    + apply (Hk _ _ o p'); congruence.
    + apply (Hk _ _ p o); congruence.
  - intros id id' p p'. rewrite Hdisk.
    intros [[<- <-]|[_ Hp]]%lookup_insert_Some [[<- <-]|[_ Hp']]%lookup_insert_Some H1 H2 H3; [done| | |eauto].
    + destruct Hend; [done|]. apply (Hd _ _ o p'); congruence.
    + destruct Hend; [done|]. apply (Hd _ _ p o); congruence.
  - intros id f. rewrite Hu. apply He.
Qed.

Lemma same_disk_inv s s' :
  StoreInv s -> s_disk s' = s_disk s -> (forall id f, s_unsettled s' !! id = Some f -> isEnd f) -> StoreInv s'.
Proof. intros [Hr Hk Hd He] Hdisk Hu. split; [rewrite Hdisk; done..|done]. Qed.

Lemma findEach_settles env key ids : forall s r s',
  findEach env key ids s = (r, s') ->
  settles s s' /\ s_unsettled s' = s_unsettled s /\
  forall ops, r = inr ops -> Forall (fun op => listedAs s' op /\ s_unsettled s' !! op_ID op = None /\ op_IdempotencyKey op = key) ops.
Proof.
  induction ids as [|id ids IH]; intros s r s' H; cbn [findEach] in H.
  - injection H as <- <-. split_and!; try done. by intros ops [= <-].
  - mstep H; [by apply attempt_inv in Hm as (? & ? & _)|]. apply attempt_inv in Hm as (y & [= ->] & Hm).
    apply readLocked_spec in Hm as (Hs1 & Hu1 & _ & Hy). destruct y as [e|op].
    + case_bool_decide.
      * apply IH in Hk as (Hs2 & Hu2 & Hr). split_and!; [by transitivity s1|congruence|done].
      * by injection Hk as <- <-.
    + destruct Hy as (Ho & Hid & _). case_bool_decide as Hkey.
      * mstep Hk; [done|]. injection Hm as <- <-. case_bool_decide as Hun; [by injection Hk0 as <- <-|].
        mstep Hk0.
        -- apply IH in Hm as (Hs2 & Hu2 & _). split_and!; [by transitivity s1|congruence|done].
        -- apply IH in Hm as (Hs2 & Hu2 & Hr). injection Hk as <- <-.
           split_and!; [by transitivity s1|congruence|]. intros ops [= <-]. constructor; [|by apply Hr].
           split_and!; [|rewrite Hu2; by apply eq_None_not_Some|done].
           apply (listedAs_settles s1); [done|]. exists op. rewrite Hid. auto.
      * apply IH in Hk as (Hs2 & Hu2 & Hr). split_and!; [by transitivity s1|congruence|done].
Qed.

Lemma FindByKey_spec env key s r s' :
  FindByKey env key s = (r, s') -> StoreInv s ->
  settles s s' /\
  forall ops, r = inr ops -> Forall (fun op => listedAs s' op /\ s_unsettled s' !! op_ID op = None /\ op_IdempotencyKey op = key) ops.
Proof.
  unfold FindByKey. intros H Hinv. mstep H; [by apply settleAll_spec in Hm as (? & _)|].
  apply settleAll_spec in Hm as (_ & Hs1 & _); [|done].
  destruct (env_dirReadable env); cbn [negb] in Hk; [|by injection Hk as <- <-].
  mstep Hk; [done|]. injection Hm as <- <-. apply findEach_settles in Hk0 as (Hs2 & _ & Hr).
  split; [by transitivity s1|done].
Qed.

Lemma Get_spec env id s r s' :
  Get env id s = (r, s') -> StoreInv s ->
  settles s s' /\
  forall op, r = inr op -> s_disk s' !! id = Some op /\ s_unsettled s' !! id = None /\ (id ∉ s_interrupted s').
Proof.
  unfold Get. intros H Hinv. destruct (isValidOperationID id) eqn:Hv; cbn [negb] in H; [|by injection H as <- <-].
  mstep H; [by apply attempt_inv in Hm as (? & ? & _)|]. apply attempt_inv in Hm as (y & [= ->] & Hm).
  apply settleLocked_spec in Hm as (Hs1 & _ & Hu1); [|done]. destruct y as [e|[]]; [by injection Hk as <- <-|].
  apply readLocked_spec in Hk as (Hs2 & Hu2 & _ & Hr). split; [by transitivity s1|].
  intros op ->. destruct Hr as (? & ? & ? & _). split_and!; try done. rewrite Hu2. by apply Hu1.
Qed.

Lemma failEach_spec env ops : forall s r s',
  failEach env ops s = (r, s') -> Forall (listedAs s) ops ->
  settles s s' /\ s_unsettled s' = s_unsettled s /\ s_interrupted s' = s_interrupted s /\
  (r = inr tt -> Forall (fun op => exists o, s_disk s' !! op_ID op = Some o /\ ended o) ops).
Proof.
  induction ops as [|op ops IH]; intros s r s' H Hl; cbn [failEach] in H; [by injection H as <- <-|].
  inversion_clear Hl as [|?? Hop Hl']. destruct (IsTerminal (op_State op)) eqn:Et.
  - apply IH in H as (Hs & Hu & Hi & Hr); [|done]. split_and!; try done. intros Heq. constructor; [|auto].
    destruct (listedAs_settles _ _ _ Hs Hop) as (o & Ho & Hc). exists o. split; [done|]. by destruct Hc as [->|[_ ?]].
  - destruct Hop as (o & Ho & Hc). fold (markRestarted (env_now env) op) in H.
    assert (sameData o (markRestarted (env_now env) op)) as Hsame.
    { destruct Hc as [->|[[(?&?&?&?&?) ?] _]]; [apply markRestarted_end|]. by split; [split_and!|]; simpl; congruence. }
    mstep H.
    + pose proof (write_settles _ _ _ _ _ Hm Ho Hsame (proj2 (markRestarted_end _) op)).
      by apply writeLocked_spec in Hm as (? & _ & ? & _).
    + pose proof (write_settles _ _ _ _ _ Hm Ho Hsame (proj2 (markRestarted_end _) op)) as Hs1.
      destruct x. apply writeLocked_spec in Hm as (Hu & _ & Hi & [[_ []]|Hd]); [done|].
      apply IH in Hk as (Hs2 & Hu2 & Hi2 & Hr).
      * split_and!; [by transitivity s1|congruence|congruence|]. intros Heq. constructor; [|auto].
        specialize (settles_disk _ _ Hs2 (op_ID op)) as Hx.
        rewrite Hd, lookup_insert_eq in Hx. destruct (s_disk s' !! op_ID op) as [o'|]; [|done].
        exists o'. split; [done|]. by destruct Hx as [->|[_ ?]].
      * eapply Forall_impl; [exact Hl'|]. intros p. by apply listedAs_settles.
Qed.

(** ** A restart of the manager *)

(** What the start does to the records: one that had not ended is failed. *)
Definition restarted (now : Time) (d d' : gmap string Operation) : Prop :=
  forall id, match d !! id, d' !! id with
  | Some o, Some o' => o' = o \/ (~ ended o /\ o' = markRestarted now o)
  | None, None => True
  | _, _ => False
  end.

Lemma readLocked_uninterrupted env id s r s' :
  readLocked env id s = (r, s') -> s_interrupted s = ∅ ->
  s' = s /\ forall op, r = inr op -> s_disk s !! op_ID op = Some op.
Proof.
  unfold readLocked. intros H Hi. mstep H.
  - by apply decodeLocked_spec in Hm as [-> _].
  - apply decodeLocked_spec in Hm as [-> (Ho & Hid & _)]. mstep Hk; [done|]. injection Hm as <- <-.
    rewrite bool_decide_eq_false_2 in Hk0 by set_solver. injection Hk0 as <- <-.
    split; [done|]. intros op [= <-]. by rewrite Hid.
Qed.

Lemma listEach_uninterrupted env ids : forall s r s',
  listEach env ids s = (r, s') -> s_interrupted s = ∅ ->
  s' = s /\ forall ops bad, r = inr (ops, bad) -> Forall (fun op => s_disk s !! op_ID op = Some op) ops.
Proof.
  induction ids as [|id ids IH]; intros s r s' H Hi; cbn [listEach] in H.
  - injection H as <- <-. split; [done|]. by intros ?? [= <- <-].
  - mstep H; [by apply attempt_inv in Hm as (? & ? & _)|]. apply attempt_inv in Hm as (y & [= ->] & Hm).
    apply readLocked_uninterrupted in Hm as [-> Hy]; [|done].
    mstep Hk; [by destruct (IH _ _ _ Hm Hi)|].
    destruct (IH _ _ _ Hm Hi) as [-> Hf]. destruct x as [ops bad]. specialize (Hf ops bad eq_refl).
    destruct y as [e|op]; [case_bool_decide|]; injection Hk0 as <- <-; (split; [done|]); intros ?? [= <- <-]; auto.
Qed.

Lemma failEach_restarted env ops d : forall s r s',
  failEach env ops s = (r, s') -> restarted (env_now env) d (s_disk s) ->
  Forall (fun op => d !! op_ID op = Some op) ops -> restarted (env_now env) d (s_disk s').
Proof.
  induction ops as [|op ops IH]; intros s r s' H Hd Hops; cbn [failEach] in H; [by injection H as <- <-|].
  inversion_clear Hops as [|?? Hop Hops']. destruct (IsTerminal (op_State op)) eqn:Et; [by eapply IH|].
  fold (markRestarted (env_now env) op) in H.
  assert (restarted (env_now env) d (<[op_ID op := markRestarted (env_now env) op]> (s_disk s))) as Hins.
  { intros id. destruct (decide (id = op_ID op)) as [->|Hne].
    - rewrite lookup_insert_eq, Hop. right. split; [|done]. unfold ended. by rewrite Et.
    - rewrite lookup_insert_ne by done. apply Hd. }
  mstep H; apply writeLocked_spec in Hm as (_ & _ & _ & [[Hs _]|Hs]).
  - by rewrite Hs.
  - by rewrite Hs.
  - eapply IH; [done| |done]. by rewrite Hs.
  - eapply IH; [done| |done]. by rewrite Hs.
Qed.

Lemma NewOperationStore_spec env disk writes r s' :
  NewOperationStore env disk writes = (r, s') -> StoreInv (mkStore disk ∅ ∅ ∅ writes) ->
  StoreInv s' /\ s_unsettled s' = ∅ /\ restarted (env_now env) disk (s_disk s') /\
  (r = inr tt -> forall id o, s_disk s' !! id = Some o -> ended o \/ id ∈ s_interrupted s').
Proof.
  unfold NewOperationStore, reconcileOnStart. intros H Hinv. set (s0 := mkStore disk ∅ ∅ ∅ writes) in *.
  assert (forall r1 s1, listLocked env s0 = (r1, s1) -> s_disk s1 = disk /\
    forall ops, r1 = inr ops -> Forall (fun op => disk !! op_ID op = Some op) ops) as Hlist.
  { unfold listLocked. intros r1 s1 Hl. destruct (env_dirReadable env); cbn [negb] in Hl; [|by injection Hl as <- <-].
    mstep Hl; [done|]. injection Hm as <- <-. mstep Hk; destruct (listEach_uninterrupted _ _ _ _ _ Hm eq_refl) as [-> Hf].
    - done.
    - injection Hk0 as <- <-. split; [done|]. intros ops [= <-]. destruct x as [ops bad]. by apply (Hf ops bad). }
  assert (forall d, restarted (env_now env) d d) as Hrefl by (intros d id; destruct (d !! id); auto).
  mstep H.
  - destruct (Hlist _ _ Hm) as [Hd _]. apply listLocked_spec in Hm as (Hs & Hu & _); [|done].
    split_and!; [by eapply settles_inv|done|rewrite Hd; apply Hrefl|done].
  - destruct (Hlist _ _ Hm) as [Hd Hops]. specialize (Hops _ eq_refl).
    apply listLocked_spec in Hm as (Hs & Hu & Hl & Hcov & _); [|done].
    pose proof (settles_inv _ _ Hs Hinv) as Hinv1. mstep Hk; [done|]. injection Hm as <- <-.
    set (s2 := set_interrupted _ s1) in *.
    assert (StoreInv s2) as Hinv2 by (apply (same_disk_inv s1); [done|done|apply Hinv1]).
    pose proof (failEach_restarted env x disk _ _ _ Hk0) as Hrel.
    destruct (failEach_spec env x _ _ _ Hk0) as (Hs2 & Hu2 & Hi2 & Hr); [exact Hl|].
    split_and!.
    + by eapply settles_inv.
    + rewrite Hu2. exact Hu.
    + apply Hrel; [simpl; rewrite Hd; apply Hrefl|done].
    + intros -> id o Ho. destruct (settles_lookup _ _ _ _ Hs2 Ho) as (o1 & Ho1 & _).
      destruct (Hcov id o1 Ho1) as [Hin|(op & Hop & <-)].
      * right. rewrite Hi2. simpl. set_solver.
      * left. destruct (proj1 (Forall_forall _ _) (Hr eq_refl) op Hop) as (o2 & Ho2 & ?). congruence.
Qed.

(** ** The claims *)

Lemma result_inv env kind key hash db s s' r :
  FindOrCreateResult env kind key hash db s s' r -> StoreInv s -> freshID env s -> kind <> "" -> key <> "" -> StoreInv s'.
Proof.
  intros H Hinv Hfresh Hk Hkey. destruct H as [op Hs _ _ _ _ _|s1 id Hs Hid Ha Hd Hu|e Hs|s1 id e Hs Hid Ha Hd Hu];
    try (by eapply settles_inv); pose proof (settles_inv _ _ Hs Hinv) as Hinv1;
    destruct (Hfresh id Hid) as [Hv Hnone].
  - eapply (admit_inv s1); eauto.
  - destruct Hd as [Hd|[Hd|Hd]].
    + eapply (admit_inv s1 s' (newOperation env id kind key hash db)); eauto.
    + apply (same_disk_inv s1); [done|done|]. rewrite Hu. apply Hinv1.
    + apply (same_disk_inv s1); [done| |rewrite Hu; apply Hinv1]. rewrite Hd. apply delete_id.
      apply not_elem_of_dom. rewrite (settles_dom _ _ Hs). by apply not_elem_of_dom.
Qed.

Lemma update_inv env id f s r s' :
  Update env id f s = (r, s') -> mayUpdate s id f -> StoreInv s -> StoreInv s'.
Proof.
  intros H [He|(Hf & Hni & Hrun)] Hinv.
  { apply updateLocked_end in H as (Hs & _); [|done]. by eapply settles_inv. }
  unfold Update, updateLocked in H. mstep H; apply readLocked_spec in Hm as (Hs1 & Hu1 & _ & Hx).
  { by eapply settles_inv. }
  pose proof (settles_inv _ _ Hs1 Hinv) as Hinv1. destruct Hx as (Hd & Hid & _ & _ & o & Ho & Hxo).
  rewrite bool_decide_eq_false_2 in Hxo by done. simpl in Hxo. subst x.
  set (op := set_op_UpdatedAt (env_now env) (f o)) in *.
  assert (sameIdentity o op) as Hsame by (destruct (Hf o) as (?&?&?&?&?); by split_and!).
  assert (s_disk s1 !! op_ID op = Some o) as Hd1 by (destruct Hsame; congruence).
  assert (forall r0 s0, writeLocked op s1 = (r0, s0) -> StoreInv s0) as Hw.
  { intros r0 s0 (Hu & _ & _ & [[Hd0 _]|Hd0])%writeLocked_spec.
    - apply (same_disk_inv s1); [done|done|]. rewrite Hu. apply Hinv1.
    - apply (replace_inv s1 s0 o op); try done. right. by apply (Hrun o). }
  mstep Hk; [by eapply Hw|]. injection Hk0 as <- <-. by eapply Hw.
Qed.

Lemma step_inv s s' : StoreStep s s' -> StoreInv s -> StoreInv s'.
Proof.
  intros H Hinv. destruct H as [env kind key hash db r Hk Hkey Hf H|env key r H|env id r H|env id f r Hm H
    |env id f r He H|env r H|env writes r H].
  - eapply result_inv; [by eapply FindOrCreate_cases|done..].
  - apply FindByKey_spec in H as [Hs _]; [|done]. by eapply settles_inv.
  - apply Get_spec in H as [Hs _]; [|done]. by eapply settles_inv.
  - by eapply update_inv.
  - unfold Settle in H. mstep H; [done|]. injection Hm as <- <-.
    set (s1 := set_unsettled _ s) in *.
    assert (StoreInv s1) as Hinv1.
    { apply (same_disk_inv s); [done|done|]. intros i g. simpl.
      intros [[_ <-]|[_ ?]]%lookup_insert_Some; [done|]. by apply (inv_ends _ Hinv i). }
    apply settleLocked_spec in Hk as (Hs & _); [|done]. by eapply settles_inv.
  - unfold UnwrittenEnds in H. mstep H; [by apply settleAll_spec in Hm as (? & _)|].
    apply settleAll_spec in Hm as (_ & Hs & _); [|done]. mstep Hk; [done|]. injection Hm as <- <-.
    injection Hk0 as <- <-. by eapply settles_inv.
  - apply NewOperationStore_spec in H as [? _]; [done|].
    apply (same_disk_inv s); [done|done|]. intros i g. simpl. by rewrite lookup_empty.
Qed.

(** C6: Across any sequence of store operations, with writes failing before
    or after the rename, records and the directory unreadable at any call and
    the manager restarting at any point: every record is filed under its own
    valid ID, no two records share kind and idempotency key, and at most one
    operation per database has not ended. *)
Theorem store_invariant s s' : StoreInv s -> rtc StoreStep s s' -> StoreInv s'.
Proof. intros Hinv H. induction H as [|s1 s2 s3 Hstep _ IH]; [done|]. apply IH. by eapply step_inv. Qed.

(** Idempotency: once a record of this kind and key exists, FindOrCreate
    under them never adds a record, whatever the files do; when it answers,
    it answers that operation as existing and only for the same request. *)
Theorem FindOrCreate_idempotent env kind key hash db s r s' id o :
  StoreInv s -> freshID env s -> s_disk s !! id = Some o -> op_Kind o = kind -> op_IdempotencyKey o = key ->
  FindOrCreate env kind key hash db s = (r, s') ->
  dom (s_disk s') = dom (s_disk s) /\
  forall op existed, r = inr (op, existed) -> existed = true /\ op_ID op = id /\ op_RequestHash o = hash.
Proof.
  intros Hinv Hfresh Ho Hk Hkey H. apply FindOrCreate_cases in H; [|done].
  assert (forall s1 nid, settles s s1 -> ~ admits s1 (newOperation env nid kind key hash db)) as Hno.
  { intros s1 nid Hs [_ Ha]. pose proof (settles_disk _ _ Hs id) as Hd. rewrite Ho in Hd.
    destruct (s_disk s1 !! id) as [o1|] eqn:E1; [|done]. destruct (Ha id o1 E1) as [Hn _]. apply Hn.
    destruct Hd as [->|[[(_ & ? & ? & _) _] _]]; simpl; split; congruence. }
  destruct H as [op Hs (p & Hp & Hc) Hki Hke Hh _|s1 nid Hs Hid Ha Hd _|e Hs|s1 nid e Hs Hid Ha Hd _];
    try (by destruct (Hno s1 nid Hs)); (split; [by apply settles_dom|]); [|done].
  intros op' ex [= <- <-]. destruct (settles_lookup _ _ _ _ Hs Hp) as (q & Hq & Hsame & _).
  assert (sameIdentity op p) as Hopp by (by destruct Hc as [->|[[? _] _]]).
  destruct Hsame as (?&?&?&?&?), Hopp as (?&?&?&?&?).
  assert (op_ID op = id) as Heq by (apply (inv_keys _ Hinv _ _ q o); congruence).
  split_and!; [done|done|]. rewrite Heq in Hq. rewrite Ho in Hq. injection Hq as <-. congruence.
Qed.

(** A new operation starts only when the store could read every record,
    none is under its key, and no operation on its database is unfinished; it
    is then on disk as Pending. *)
Theorem FindOrCreate_creates env kind key hash db s op s' :
  StoreInv s -> FindOrCreate env kind key hash db s = (inr (op, false), s') ->
  op_State op = OpPending /\ s_disk s' !! op_ID op = Some op /\
  exists s1, settles s s1 /\ s_unreadable s1 = ∅ /\
    forall id o, s_disk s1 !! id = Some o ->
      ~ (op_Kind o = kind /\ op_IdempotencyKey o = key) /\ (op_Database o = db -> ended o).
Proof.
  intros Hinv H. apply FindOrCreate_cases in H; [|done].
  inversion H as [|s1 id Hs Hid Ha Hd Hu Heq| |]; subst. split_and!; [done|rewrite Hd; apply lookup_insert_eq|].
  exists s1. split; [done|]. exact Ha.
Qed.

(** A restart never completes an operation by itself: after a start that
    succeeds, every record is as it was or, when it had not ended, failed as
    interrupted; and the next read of any of them answers an ended operation,
    whatever is unreadable or unwritable then. *)
Theorem restart_fails_running env disk writes s' env' id op s'' :
  StoreInv (mkStore disk ∅ ∅ ∅ writes) -> NewOperationStore env disk writes = (inr tt, s') ->
  Get env' id s' = (inr op, s'') ->
  ended op /\
  exists o, disk !! id = Some o /\
    (ended o -> op = o) /\ (~ ended o -> op_State op = OpFailed /\ op_FailureReason op = reasonRestarted).
Proof.
  intros Hinv Hnew Hget.
  apply NewOperationStore_spec in Hnew as (Hinv' & Hu & Hrel & Hend); [|done]. specialize (Hend eq_refl).
  unfold Get in Hget. destruct (isValidOperationID id); cbn [negb] in Hget; [|done].
  manswer Hget. apply attempt_inv in Hm as (y & [= ->] & Hm).
  unfold settleLocked in Hm. mstep Hm; [done|]. injection Hm0 as <- <-. rewrite Hu, lookup_empty in Hk0.
  injection Hk0 as <- <-. apply readLocked_spec in Hk as (_ & _ & _ & _ & _ & _ & _ & o' & Ho' & Hop).
  specialize (Hrel id). rewrite Ho' in Hrel. destruct (disk !! id) as [o|]; [|done].
  assert (IsTerminal (op_State o') = true \/ id ∈ s_interrupted s') as Hcase by (by apply (Hend id)).
  assert (op = o' /\ ended o' \/ op = markRestarted (env_now env') o' /\ ~ ended o') as Hop'.
  { unfold ended. destruct (IsTerminal (op_State o')) eqn:Et; [left|right]; rewrite ?andb_false_r in Hop; [done|].
    destruct Hcase as [?|Hin]; [done|]. by rewrite (bool_decide_eq_true_2 _ Hin) in Hop. }
  split; [destruct Hop' as [[-> ?]|[-> _]]; done|]. exists o. split; [done|].
  destruct Hrel as [->|[Hne ->]]; destruct Hop' as [[-> ?]|[-> ?]]; split; try done.
Qed.

(** An end that was kept in memory is never answered before it is on
    record: a Get of its operation that answers has written it, answers the
    ended operation as it now stands on disk, and keeps nothing in memory. *)
Theorem Get_answers_written_end env id f s op s' :
  StoreInv s -> s_unsettled s !! id = Some f -> Get env id s = (inr op, s') ->
  ended op /\ s_disk s' !! id = Some op /\ s_unsettled s' !! id = None.
Proof.
  intros Hinv Hf H. pose proof H as Hspec. apply Get_spec in Hspec as [Hs Hr]; [|done].
  destruct (Hr op eq_refl) as (Hd & Hu & _). split_and!; try done.
  unfold Get in H. destruct (isValidOperationID id); cbn [negb] in H; [|done].
  manswer H. apply attempt_inv in Hm as (y & [= ->] & Hm).
  unfold settleLocked in Hm. mstep Hm; [done|]. injection Hm0 as <- <-. rewrite Hf in Hk0.
  mstep Hk0; [by apply attempt_inv in Hm as (? & ? & _)|]. apply attempt_inv in Hm as (z & [= ->] & Hm).
  apply updateLocked_end in Hm as (_ & _ & _ & Hz); [|by apply (inv_ends _ Hinv id)].
  destruct z as [e|p].
  - exfalso. mstep Hk1; [by destruct (e == ErrOperationNotFound)|]. injection Hk0 as <- <-. done.
  - injection Hk1 as <- <-. destruct Hz as (Hp & _ & _ & o & _ & ->).
    apply readLocked_spec in Hk as (Hs2 & _ & _ & _). pose proof (settles_disk _ _ Hs2 id) as Hx. simpl in Hx.
    rewrite Hp, Hd in Hx. destruct Hx as [->|[_ ?]]; [|done]. apply (inv_ends _ Hinv id f Hf).
Qed.

Lemma decodeLocked_ok env id s o :
  isValidOperationID id = true -> env_readable env id = true -> s_disk s !! id = Some o ->
  op_ID o = id -> op_Kind o <> "" -> op_IdempotencyKey o <> "" -> decodeLocked env id s = (inr o, s).
Proof.
  intros Hv Hr Ho Hid Hk Hkey. unfold decodeLocked. rewrite Hv, Ho, Hr. cbn [negb].
  rewrite bool_decide_eq_true_2 by done. by rewrite !bool_decide_eq_false_2.
Qed.

Lemma writeLocked_ok op s :
  s_writes s = [] -> writeLocked op s = (inr tt, set_writes [] (set_disk (<[op_ID op := op]> (s_disk s)) s)).
Proof. intros H. unfold writeLocked. by rewrite H. Qed.

(** Reading a record that can be read, with writes that succeed. *)
Lemma readLocked_ok env id s o :
  decodeLocked env id s = (inr o, s) -> op_ID o = id -> s_writes s = [] ->
  exists s', readLocked env id s =
    (inr (if bool_decide (id ∈ s_interrupted s) && negb (IsTerminal (op_State o))
          then markRestarted (env_now env) o else o), s').
Proof.
  intros Hd Hid Hw. unfold readLocked. unfold mbind at 1, M_bind. rewrite Hd. unfold mbind, M_bind, get.
  case_bool_decide as Hi; [|by eexists]. unfold failInterruptedLocked, mbind, M_bind, attempt, mret, M_ret.
  destruct (IsTerminal (op_State o)); cbn [negb andb]; [by eexists|].
  rewrite writeLocked_ok by done. by eexists.
Qed.

(** Peek, which writes nothing, answers what the next Get answers: when
    the writes of that Get succeed, it answers the same operation up to the
    time of its last update, and Peek leaves the store as it is. *)
Theorem Peek_agrees_with_Get env id s op s1 :
  StoreInv s -> s_writes s = [] -> (is_Some (s_unsettled s !! id) -> id ∉ s_interrupted s) ->
  Peek env id s = (inr op, s1) ->
  s1 = s /\ exists op' s2, Get env id s = (inr op', s2) /\ forall t, set_op_UpdatedAt t op' = set_op_UpdatedAt t op.
Proof.
  intros Hinv Hw Hdis H. unfold Peek in H. manswer H. pose proof Hm as Hdec.
  apply decodeLocked_spec in Hm as [-> (Ho & Hid & Hv & Hre)]. rename x into o. manswer Hk. injection Hm as <- <-.
  destruct (inv_records _ Hinv _ _ Ho) as (_ & _ & Hkind & Hkey).
  unfold Get. rewrite Hv. cbn [negb]. unfold settleLocked, attempt. unfold mbind at 1, M_bind.
  unfold mbind at 1, M_bind. cbn [get].
  destruct (s_unsettled s !! id) as [f|] eqn:Ef.
  - injection Hk0 as <- <-. split; [done|]. specialize (Hdis ltac:(eauto)).
    destruct (inv_ends _ Hinv _ _ Ef) as [Hf _]. destruct (Hf o) as [(Hfid & Hfk & Hfkey & _) _].
    unfold updateLocked, readLocked at 1, mbind, M_bind, mret, M_ret, get, modify. rewrite Hdec.
    rewrite bool_decide_eq_false_2 by done. rewrite writeLocked_ok by done. cbn [op_ID set_op_UpdatedAt].
    set (s2 := set_unsettled _ _).
    destruct (readLocked_ok env id s2 (set_op_UpdatedAt (env_now env) (f o))) as [s3 Hread].
    + apply decodeLocked_ok; simpl; try done; try congruence. rewrite Hfid, Hid. apply lookup_insert_eq.
    + simpl. congruence.
    + done.
    + rewrite Hread. cbn [s_interrupted set_unsettled set_writes set_disk s2].
      rewrite bool_decide_eq_false_2 by done. by eexists _, _.
  - unfold mret, M_ret. destruct (readLocked_ok env id s o Hdec Hid Hw) as [s3 Hread]. rewrite Hread.
    destruct (bool_decide (id ∈ s_interrupted s) && negb (IsTerminal (op_State o)));
      injection Hk0 as <- <-; (split; [done|]); by eexists _, _.
Qed.

(** ** A store with one running backup *)
Module StoreExample.
Definition id1 : string := "op-00000000000000000000000000000001".
Definition id2 : string := "op-00000000000000000000000000000002".
Definition running : Operation :=
  mkOperation id1 OpBackup "key-1" "hash-1" "appdb" OpRunningBackup "" None None "" 1 1.
Definition disk : gmap string Operation := {[id1 := running]}.
Definition store : Store := mkStore disk ∅ ∅ ∅ [].
Definition env : Env := mkEnv 100 true (fun _ => true) (Some id2) true.
Definition complete (o : Operation) : Operation :=
  mkOperation (op_ID o) (op_Kind o) (op_IdempotencyKey o) (op_RequestHash o) (op_Database o) OpCompleted
    (op_FailureReason o) (op_Artifact o) (op_Restored o) (op_StagingDir o) (op_CreatedAt o) (op_UpdatedAt o).
Definition unsettled : Store := mkStore disk {[id1 := complete]} ∅ ∅ [].

Lemma complete_end : isEnd complete.
Proof. split; intros o; [by split_and!|done]. Qed.

Lemma disk_inv u i w : (forall id f, u !! id = Some f -> isEnd f) -> StoreInv (mkStore disk u i ∅ w).
Proof.
  intros Hu. split; cbn [s_disk s_unsettled]; [| | |done]; unfold disk.
  - intros id o [<- <-]%lookup_singleton_Some. by split_and!.
  - by intros id id' o o' [<- <-]%lookup_singleton_Some [<- <-]%lookup_singleton_Some.
  - by intros id id' o o' [<- <-]%lookup_singleton_Some [<- <-]%lookup_singleton_Some.
Qed.

Lemma store_inv : StoreInv store.
Proof. apply disk_inv. intros id f. by rewrite lookup_empty. Qed.
Lemma unsettled_inv : StoreInv unsettled.
Proof. apply disk_inv. intros id f [_ <-]%lookup_singleton_Some. apply complete_end. Qed.
Lemma env_fresh : freshID env store.
Proof. intros id [= <-]. by split. Qed.
(** What a run of [FindOrCreate] and [Get] leaves. *)
Definition after {A} (r : (StoreErr + A) * Store) : Store := r.2.
End StoreExample.

Lemma store_invariant_witness :
  StoreInv (StoreExample.after (FindOrCreate StoreExample.env OpRestore "key-2" "hash-2" "otherdb" StoreExample.store)).
Proof.
  apply (store_invariant StoreExample.store).
  - exact StoreExample.store_inv.
  - apply rtc_once.
    apply (StepFindOrCreate _ _ StoreExample.env OpRestore "key-2" "hash-2" "otherdb"
             (FindOrCreate StoreExample.env OpRestore "key-2" "hash-2" "otherdb" StoreExample.store).1);
      [discriminate|discriminate|exact StoreExample.env_fresh|reflexivity].
Defined.

Lemma FindOrCreate_idempotent_witness :
  dom (s_disk (StoreExample.after (FindOrCreate StoreExample.env OpBackup "key-1" "hash-1" "appdb" StoreExample.store))) =
  dom StoreExample.disk.
Proof.
  apply (FindOrCreate_idempotent StoreExample.env OpBackup "key-1" "hash-1" "appdb" StoreExample.store
           (FindOrCreate StoreExample.env OpBackup "key-1" "hash-1" "appdb" StoreExample.store).1 _
           StoreExample.id1 StoreExample.running); try reflexivity.
  - exact StoreExample.store_inv.
  - exact StoreExample.env_fresh.
Defined.

Lemma FindOrCreate_creates_witness :
  op_State (newOperation StoreExample.env StoreExample.id2 OpRestore "key-2" "hash-2" "otherdb") = OpPending.
Proof.
  apply (FindOrCreate_creates StoreExample.env OpRestore "key-2" "hash-2" "otherdb" StoreExample.store _
           (StoreExample.after (FindOrCreate StoreExample.env OpRestore "key-2" "hash-2" "otherdb" StoreExample.store))
           StoreExample.store_inv).
  vm_compute. reflexivity.
Defined.

Lemma restart_fails_running_witness :
  exists op, ended op /\ op_ID op = StoreExample.id1.
Proof.
  eexists. split.
  - refine (proj1 (restart_fails_running StoreExample.env StoreExample.disk []
      (StoreExample.after (NewOperationStore StoreExample.env StoreExample.disk []))
      StoreExample.env StoreExample.id1 _
      (StoreExample.after (Get StoreExample.env StoreExample.id1
         (StoreExample.after (NewOperationStore StoreExample.env StoreExample.disk [])))) StoreExample.store_inv _ _));
      vm_compute; reflexivity.
  - reflexivity.
Defined.

Lemma Get_answers_written_end_witness :
  exists op, ended op /\ op_ID op = StoreExample.id1.
Proof.
  eexists. split.
  - refine (proj1 (Get_answers_written_end StoreExample.env StoreExample.id1 StoreExample.complete
      StoreExample.unsettled _ (StoreExample.after (Get StoreExample.env StoreExample.id1 StoreExample.unsettled))
      StoreExample.unsettled_inv _ _)); vm_compute; reflexivity.
  - reflexivity.
Defined.

Lemma Peek_agrees_with_Get_witness :
  exists op' s2, Get StoreExample.env StoreExample.id1 StoreExample.unsettled = (inr op', s2).
Proof.
  destruct (Peek_agrees_with_Get StoreExample.env StoreExample.id1 StoreExample.unsettled
              (StoreExample.complete StoreExample.running) StoreExample.unsettled) as [_ (op' & s2 & H & _)].
  - exact StoreExample.unsettled_inv.
  - reflexivity.
  - intros _. vm_compute. intros H. inversion H.
  - vm_compute. reflexivity.
  - exists op', s2. exact H.
Defined.
