(* ===== verification/StoreRecords.v ===== *)
(** * What the calls of the store leave of a record

    A call of the operation store touches the record of its own operation
    only, and never takes back that data was restored.  The operations that
    the store serves rely on both: what they recorded stays recorded, whatever
    fails and however often the manager restarts. *)
From stdpp Require Import prelude gmap strings list.
From S2P Require Import Prelude GoStr OpStore.

(** ** Restored data stays on record *)

Definition lasting (s : Store) (id : string) : Prop := exists o, s_disk s !! id = Some o /\ op_Restored o <> None.

(** What was on record as restored is so afterwards, and the records are as
    they should be. *)
Definition advances (s s' : Store) : Prop := (StoreInv s -> StoreInv s') /\ forall id, lasting s id -> lasting s' id.

#[global] Instance advances_refl : Reflexive advances.
Proof. by split. Qed.
#[global] Instance advances_trans : Transitive advances.
Proof. intros s1 s2 s3 [? ?] [? ?]. split; auto. Qed.

Lemma settles_advances s s' : settles s s' -> advances s s'.
Proof.
  intros Hs. split; [by apply settles_inv|]. intros id (o & Ho & Hr). pose proof (settles_disk _ _ Hs id) as H. rewrite Ho in H.
  destruct (s_disk s' !! id) as [o'|] eqn:E; [|done]. exists o'. split; [done|]. by destruct H as [->|[[_ ->] _]].
Qed.

Lemma set_writes_inv ws s : StoreInv s -> StoreInv (set_writes ws s).
Proof. intros []. by split. Qed.
Lemma set_writes_advances ws s : advances s (set_writes ws s).
Proof. split; [apply set_writes_inv|done]. Qed.

(** ** Locality *)

Definition local (id : string) (s s' : Store) : Prop := forall id', id' <> id ->
  s_disk s' !! id' = s_disk s !! id' /\ s_unsettled s' !! id' = s_unsettled s !! id' /\
  (id' ∈ s_interrupted s' <-> id' ∈ s_interrupted s).

#[global] Instance local_refl id : Reflexive (local id).
Proof. intros s id' _. done. Qed.
#[global] Instance local_trans id : Transitive (local id).
Proof.
  intros s1 s2 s3 H1 H2 id' Hne. destruct (H1 id' Hne) as (?&?&?), (H2 id' Hne) as (?&?&?). split_and!; [congruence..|tauto].
Qed.

Lemma writeLocked_local op s r s' : writeLocked op s = (r, s') -> local (op_ID op) s s'.
Proof.
  intros (Hu & _ & Hi & Hd)%writeLocked_spec id' Hne. rewrite Hu, Hi. split_and!; [|done|done].
  destruct Hd as [[-> _]| ->]; [done|]. by rewrite lookup_insert_ne.
Qed.

Lemma failInterruptedLocked_local env op s r s' : failInterruptedLocked env op s = (r, s') -> local (op_ID op) s s'.
Proof.
  assert (forall s1, local (op_ID op) s1 (set_interrupted (s_interrupted s1 ∖ {[op_ID op]}) s1)) as Hint.
  { intros s1 id' Hne. simpl. set_solver. }
  unfold failInterruptedLocked, mbind, M_bind, attempt, mret, M_ret, modify, throw. intros H.
  destruct (IsTerminal (op_State op)); cbn [negb] in H; [injection H as <- <-; apply Hint|].
  destruct (writeLocked _ s) as [w s1] eqn:Ew. apply writeLocked_local in Ew. cbn [op_ID set_op_UpdatedAt set_op_failed] in Ew.
  destruct w as [e|[]]; injection H as <- <-; [done|]. transitivity s1; [done|apply Hint].
Qed.

Lemma readLocked_local env id s r s' : readLocked env id s = (r, s') -> local id s s'.
Proof.
  unfold readLocked. intros H. mstep H; [by apply decodeLocked_spec in Hm as [-> _]|].
  apply decodeLocked_spec in Hm as [-> (_ & <- & _)]. mstep Hk; [done|]. injection Hm as <- <-.
  case_bool_decide; [by eapply failInterruptedLocked_local|by injection Hk0 as <- <-].
Qed.

Lemma updateLocked_local env id f s r s' : updateLocked env id f s = (r, s') -> keepsIdentity f -> local id s s'.
Proof.
  unfold updateLocked. intros H Hf. mstep H; [by eapply readLocked_local|]. pose proof (readLocked_local _ _ _ _ _ Hm) as Hl.
  apply readLocked_spec in Hm as (_ & _ & _ & _ & Hid & _). transitivity s1; [done|].
  assert (op_ID (set_op_UpdatedAt (env_now env) (f x)) = id) as <- by (cbn; destruct (Hf x) as [-> _]; done).
  mstep Hk; [by eapply writeLocked_local|]. injection Hk0 as <- <-. by eapply writeLocked_local.
Qed.

Lemma settleLocked_local env id s r s' : settleLocked env id s = (r, s') -> StoreInv s -> local id s s'.
Proof.
  intros H Hinv. unfold settleLocked in H. mstep H; [done|]. injection Hm as <- <-.
  destruct (s_unsettled s !! id) as [f|] eqn:Ef; [|by injection Hk as <- <-]. destruct (inv_ends _ Hinv _ _ Ef) as [Hf _].
  assert (keepsIdentity f) as Hk' by (intros o; apply Hf).
  assert (forall s1, local id s1 (set_unsettled (delete id (s_unsettled s1)) s1)) as Hdel.
  { intros s1 id' Hne. cbn. by rewrite lookup_delete_ne. }
  unfold mbind, M_bind, attempt, mret, M_ret, modify, throw in Hk. destruct (updateLocked env id f s) as [y s1] eqn:Eu.
  apply updateLocked_local in Eu; [|done]. destruct y as [e|op].
  - case_bool_decide; injection Hk as <- <-; [|done]. transitivity s1; [done|apply Hdel].
  - injection Hk as <- <-. transitivity s1; [done|apply Hdel].
Qed.

Lemma Get_local env id s r s' : Get env id s = (r, s') -> StoreInv s -> local id s s'.
Proof.
  unfold Get. intros H Hinv. destruct (negb _); [by injection H as <- <-|].
  mstep H; [by apply attempt_inv in Hm as (? & ? & _)|]. apply attempt_inv in Hm as (y & [= ->] & Hm).
  apply settleLocked_local in Hm; [|done]. destruct y as [e|[]]; [by injection Hk as <- <-|].
  transitivity s1; [done|]. by eapply readLocked_local.
Qed.

(** ** A running operation *)

Definition live (id : string) (s : Store) : Prop :=
  (id ∉ s_interrupted s) /\ s_unsettled s !! id = None /\ exists o, s_disk s !! id = Some o /\ ~ ended o.

Lemma local_live id id' s s' : local id' s s' -> id <> id' -> live id s -> live id s'.
Proof.
  intros H Hne (Hi & Hu & o & Ho & He). destruct (H id Hne) as (Ed & Eu & Ei). split_and!; [by rewrite Ei|by rewrite Eu|].
  exists o. by rewrite Ed.
Qed.

(** Reading a record that runs changes nothing. *)
Lemma readLocked_live env id s r s' : readLocked env id s = (r, s') -> (id ∉ s_interrupted s) ->
  s' = s /\ forall op, r = inr op -> s_disk s !! id = Some op /\ op_ID op = id /\ isValidOperationID id = true.
Proof.
  unfold readLocked. intros H Hi. mstep H; [by apply decodeLocked_spec in Hm as [-> _]|].
  apply decodeLocked_spec in Hm as [-> (Hx & ? & ? & _)]. mstep Hk; [done|]. injection Hm as <- <-.
  rewrite bool_decide_eq_false_2 in Hk0 by done. injection Hk0 as <- <-. split; [done|]. by intros ? [= <-].
Qed.

Lemma Get_live env id id' s r s' : Get env id' s = (r, s') -> StoreInv s -> live id s -> live id s'.
Proof.
  intros H Hinv Hl. destruct (decide (id = id')) as [<-|Hne]; [|by eapply local_live; [eapply Get_local| |]].
  destruct Hl as (Hi & Hu & o & Ho & He). unfold Get in H. destruct (negb _); [injection H as <- <-; by split_and!; eauto|].
  unfold settleLocked, attempt, mbind, M_bind in H. cbn [get] in H. rewrite Hu in H. cbn [mret M_ret] in H.
  apply readLocked_live in H as [-> _]; [|done]. split_and!; eauto.
Qed.

Lemma Get_ok env id s r s' : Get env id s = (r, s') -> StoreInv s ->
  advances s s' /\ forall op, r = inr op -> s_disk s' !! id = Some op.
Proof.
  intros H Hinv. apply Get_spec in H as [Hs Hr]; [|done]. split; [by apply settles_advances|]. intros op Hop. by apply Hr.
Qed.

Lemma Peek_ok env id s r s' : Peek env id s = (r, s') -> s' = s.
Proof.
  unfold Peek. intros H. mstep H; [by apply decodeLocked_spec in Hm as [-> _]|]. apply decodeLocked_spec in Hm as [-> _].
  mstep Hk; [done|]. injection Hm as <- <-. repeat case_match; by injection Hk0 as <- <-.
Qed.

(** What an operation records while it runs. *)
Definition progress (f : Operation -> Operation) : Prop :=
  keepsIdentity f /\ forall o, (ended (f o) -> ended o) /\ (op_Restored o <> None -> op_Restored (f o) <> None).

Lemma Update_ok env id f s r s' : Update env id f s = (r, s') -> StoreInv s -> live id s -> progress f ->
  advances s s' /\ live id s' /\
  forall op, r = inr op -> isValidOperationID id = true /\ exists o, s_disk s' !! id = Some (set_op_UpdatedAt (env_now env) (f o)).
Proof.
  intros H Hinv Hl [Hf Hp]. pose proof Hl as (Hi & Hu & o & Ho & He).
  assert (StoreInv s') as Hinv'. { eapply update_inv; [done| |done]. right. split_and!; [done..|]. congruence. }
  unfold Update, updateLocked in H. mstep H; (apply readLocked_live in Hm as [-> Hm]; [|done]); [done|].
  destruct (Hm x eq_refl) as (Hx & Hid & Hv). rewrite Ho in Hx. injection Hx as <-. clear Hm.
  set (op := set_op_UpdatedAt (env_now env) (f o)) in *.
  assert (op_ID op = id) as Hopid by (cbn; destruct (Hf o) as [-> _]; done).
  assert (forall r0 s0, writeLocked op s = (r0, s0) -> (StoreInv s -> StoreInv s0) -> advances s s0 /\ live id s0) as Hw.
  { intros r0 s0 (Hu0 & _ & Hi0 & Hd)%writeLocked_spec Hinv0. rewrite Hopid in Hd. unfold advances, live, lasting. rewrite Hu0, Hi0.
    destruct Hd as [[-> _]| ->]; [by split_and!; eauto|]. split_and!; [done| |done|done|].
    - intros id' (o' & Ho' & Hr). destruct (decide (id' = id)) as [->|Hne]; [|by exists o'; rewrite lookup_insert_ne].
      exists op. rewrite lookup_insert_eq. split; [done|]. cbn. apply Hp. congruence.
    - exists op. rewrite lookup_insert_eq. split; [done|]. intros ?. apply He. by apply (Hp o). }
  mstep Hk; [by destruct (Hw _ _ Hm)|]. injection Hk0 as <- <-. destruct (Hw _ _ Hm) as [? ?]; [done|]. split_and!; [done..|].
  intros ? [= <-]. split; [done|]. exists o. apply writeLocked_spec in Hm as (_ & _ & _ & [[_ []]|Hd]); [by destruct x|].
  by rewrite Hd, Hopid, lookup_insert_eq.
Qed.

Lemma Settle_ok env id f s r s' : Settle env id f s = (r, s') -> StoreInv s -> isEnd f -> advances s s'.
Proof.
  intros H Hinv Hf. unfold Settle in H. mstep H; [done|]. injection Hm as <- <-.
  set (s1 := set_unsettled _ s) in *. assert (StoreInv s1) as Hinv1.
  { apply (same_disk_inv s); [done|done|]. intros id' f'. cbn. intros [[_ <-]|[_ ?]]%lookup_insert_Some; [done|by eapply inv_ends]. }
  apply settleLocked_spec in Hk as (Hs & _); [|done]. transitivity s1; [by split|by apply settles_advances].
Qed.

Lemma FindOrCreate_ok env kind key hash db s r s' : FindOrCreate env kind key hash db s = (r, s') -> StoreInv s -> freshID env s ->
  kind <> "" -> key <> "" -> (forall id, env_newID env = Some id -> s_unsettled s !! id = None /\ id ∉ s_interrupted s) ->
  advances s s' /\ forall op, r = inr (op, false) -> live (op_ID op) s'.
Proof.
  intros H Hinv Hfresh Hk Hkey Hnew. apply FindOrCreate_cases in H; [|done]. pose proof (result_inv _ _ _ _ _ _ _ _ H Hinv Hfresh Hk Hkey).
  assert (forall s1 id, settles s s1 -> env_newID env = Some id ->
    (forall id', id' <> id -> s_disk s' !! id' = s_disk s1 !! id') -> forall id', lasting s id' -> lasting s' id') as Hlast.
  { intros s1 id Hs Hid Hd id' Hla. destruct (decide (id' = id)) as [->|Hne].
    - destruct Hla as (o & Ho & _). destruct (Hfresh id Hid) as [_ ?]. congruence.
    - destruct (proj2 (settles_advances _ _ Hs) id' Hla) as (o & Ho & ?). exists o. by rewrite Hd. }
  destruct H as [op Hs _ _ _ _ _|s1 id Hs Hid Ha Hd Hu Hint|e Hs|s1 id e Hs Hid Ha Hd Hu].
  - split; [by apply settles_advances|done].
  - split.
    + split; [done|]. apply (Hlast s1 id Hs Hid). intros id' Hne. by rewrite Hd, lookup_insert_ne.
    + intros op [= <-]. destruct (Hnew id Hid) as [Hu0 Hi0]. cbn [op_ID newOperation]. split_and!.
      * rewrite Hint. pose proof (settles_interrupted _ _ Hs). set_solver.
      * rewrite Hu. destruct (s_unsettled s1 !! id) as [f|] eqn:E; [|done]. apply (settles_unsettled _ _ Hs) in E. congruence.
      * rewrite Hd, lookup_insert_eq. eexists. by split.
  - split; [by apply settles_advances|done].
  - split; [|done]. split; [done|]. apply (Hlast s1 id Hs Hid). intros id' Hne.
    destruct Hd as [->|[-> | ->]]; [by rewrite lookup_insert_ne|done|by rewrite lookup_delete_ne].
Qed.

Lemma NewOperationStore_ok env s writes r s' : NewOperationStore env (s_disk s) writes = (r, s') -> StoreInv s -> advances s s'.
Proof.
  intros H Hinv. apply NewOperationStore_spec in H as (Hinv' & _ & Hr & _).
  - split; [done|]. intros id (o & Ho & Hn). specialize (Hr id). rewrite Ho in Hr. destruct (s_disk s' !! id) as [o'|] eqn:E; [|done].
    exists o'. split; [done|]. by destruct Hr as [->|[_ ->]].
  - by apply (same_disk_inv s).
Qed.

(** ** Which operations run

    No call that reads changes which operations run: an end that the store
    writes by itself, late or for an interrupted operation, is one of an
    operation that ran no more. *)

Definition steady (s s' : Store) : Prop := forall id, live id s <-> live id s'.

#[global] Instance steady_refl : Reflexive steady.
Proof. by intros s id. Qed.
#[global] Instance steady_trans : Transitive steady.
Proof. intros s1 s2 s3 H1 H2 id. by rewrite (H1 id). Qed.

Lemma local_sym id s s' : local id s s' -> local id s' s.
Proof. intros H id' Hne. destruct (H id' Hne) as (?&?&?). by split_and!. Qed.

Lemma local_live_iff id id' s s' : local id' s s' -> id <> id' -> live id s <-> live id s'.
Proof. intros H Hne. split; (eapply local_live; [|done]); [done|by apply local_sym]. Qed.

Lemma local_steady id s s' : local id s s' -> (~ live id s) -> (~ live id s') -> steady s s'.
Proof. intros H Hn Hn' id'. destruct (decide (id' = id)) as [->|Hne]; [by split|by eapply local_live_iff]. Qed.

Lemma ended_not_live id o s : s_disk s !! id = Some o -> ended o -> ~ live id s.
Proof. intros Ho He (_ & _ & o' & Ho' & Hn). rewrite Ho in Ho'. by injection Ho' as <-. Qed.

Lemma absent_not_live id s : s_disk s !! id = None -> ~ live id s.
Proof. intros Ho (_ & _ & o & ? & _). congruence. Qed.

Lemma failInterruptedLocked_err env op s e s' : failInterruptedLocked env op s = (inl e, s') -> s_interrupted s' = s_interrupted s.
Proof.
  unfold failInterruptedLocked, mbind, M_bind, attempt, mret, M_ret, modify, throw. intros H.
  destruct (IsTerminal (op_State op)); cbn [negb] in H; [done|]. destruct (writeLocked _ s) as [w s1] eqn:Ew.
  apply writeLocked_spec in Ew as (_ & _ & Hi & _). destruct w as [?|[]]; [by injection H as _ <-|discriminate].
Qed.

Lemma readLocked_err env id s r s' : readLocked env id s = (r, s') -> (exists e, r = inl e) -> s_interrupted s' = s_interrupted s.
Proof.
  unfold readLocked. intros H He. mstep H; [by apply decodeLocked_spec in Hm as [-> _]|]. apply decodeLocked_spec in Hm as [-> _].
  mstep Hk; [done|]. injection Hm as <- <-. destruct He as [e ->]. case_bool_decide; [by eapply failInterruptedLocked_err|done].
Qed.

Lemma readLocked_steady env id s r s' : readLocked env id s = (r, s') -> steady s s'.
Proof.
  intros H. destruct (decide (id ∈ s_interrupted s)) as [Hi|Hi]; [|by apply readLocked_live in H as [-> _]].
  apply (local_steady id); [by eapply readLocked_local|by intros [? _]|]. destruct r as [e|op].
  - apply readLocked_err in H; [|eauto]. intros [Hn _]. by rewrite H in Hn.
  - apply readLocked_spec in H as (_ & _ & _ & Hd & _ & _ & _ & o & Ho & ->). eapply ended_not_live; [exact Hd|].
    rewrite bool_decide_eq_true_2 by done. unfold ended. destruct (IsTerminal (op_State o)) eqn:E; [exact E|done].
Qed.

Lemma settleLocked_steady env id s r s' : settleLocked env id s = (r, s') -> StoreInv s -> steady s s'.
Proof.
  intros H Hinv. pose proof (settleLocked_local _ _ _ _ _ H Hinv) as Hl. unfold settleLocked in H. mstep H; [done|].
  injection Hm as <- <-. destruct (s_unsettled s !! id) as [f|] eqn:Ef; [|by injection Hk as <- <-].
  apply (local_steady id); [done|intros (_ & ? & _); congruence|]. clear Hl.
  mstep Hk; [by apply attempt_inv in Hm as (? & ? & _)|]. apply attempt_inv in Hm as (y & [= ->] & Hm).
  apply updateLocked_end in Hm as (Hs & Hu & _ & Hy); [|by eapply inv_ends].
  destruct y as [e|op]; [|injection Hk0 as _ <-; destruct Hy as (Hd & _ & _ & o & _ & ->); eapply ended_not_live; [exact Hd|];
    apply (inv_ends _ Hinv _ _ Ef)].
  mstep Hk0; [by destruct (e == ErrOperationNotFound)|]. injection Hk as _ <-. case_bool_decide as He; injection Hm as _ <-.
  - subst e. apply absent_not_live. cbn. assert (s_disk s !! id = None) as Hd.
    { destruct (s_disk s !! id) as [o|] eqn:Eo; [|done]. destruct (inv_records _ Hinv _ _ Eo) as [? _]. by destruct Hy; congruence. }
    pose proof (settles_disk _ _ Hs id) as Hx. rewrite Hd in Hx. by destruct (s_disk s1 !! id).
  - intros (_ & Hn & _). rewrite Hu in Hn. congruence.
Qed.

Lemma Get_steady env id s r s' : Get env id s = (r, s') -> StoreInv s -> steady s s'.
Proof.
  unfold Get. intros H Hinv. destruct (negb _); [by injection H as <- <-|].
  mstep H; [by apply attempt_inv in Hm as (? & ? & _)|]. apply attempt_inv in Hm as (y & [= ->] & Hm).
  apply settleLocked_steady in Hm; [|done]. destruct y as [e|[]]; [by injection Hk as <- <-|].
  transitivity s1; [done|]. by eapply readLocked_steady.
Qed.

Lemma settleEach_steady env ids : forall s r s', settleEach env ids s = (r, s') -> StoreInv s -> steady s s'.
Proof.
  induction ids as [|id ids IH]; intros s r s' H Hinv; cbn [settleEach] in H; [by injection H as <- <-|].
  mstep H; [by apply attempt_inv in Hm as (? & ? & _)|]. apply attempt_inv in Hm as (y & [= ->] & Hm).
  pose proof (settleLocked_steady _ _ _ _ _ Hm Hinv). apply settleLocked_spec in Hm as (Hs & _); [|done].
  transitivity s1; [done|]. eapply IH; [done|by eapply settles_inv].
Qed.

Lemma settleAll_steady env s r s' : settleAll env s = (r, s') -> StoreInv s -> steady s s'.
Proof. unfold settleAll. intros H Hinv. mstep H; [done|]. injection Hm as <- <-. by eapply settleEach_steady. Qed.

Lemma listEach_steady env ids : forall s r s', listEach env ids s = (r, s') -> steady s s'.
Proof.
  induction ids as [|id ids IH]; intros s r s' H; cbn [listEach] in H; [by injection H as <- <-|].
  mstep H; [by apply attempt_inv in Hm as (? & ? & _)|]. apply attempt_inv in Hm as (y & [= ->] & Hm).
  apply readLocked_steady in Hm. transitivity s1; [done|]. mstep Hk; apply IH in Hm0; [done|].
  destruct x as [ops bad]. destruct y as [e|op]; [case_bool_decide|]; by injection Hk0 as <- <-.
Qed.

Lemma listLocked_steady env s r s' : listLocked env s = (r, s') -> steady s s'.
Proof.
  unfold listLocked. intros H. destruct (negb _); [by injection H as <- <-|]. mstep H; [done|]. injection Hm as <- <-.
  mstep Hk; apply listEach_steady in Hm; [done|]. by injection Hk0 as <- <-.
Qed.

Lemma findEach_steady env key ids : forall s r s', findEach env key ids s = (r, s') -> steady s s'.
Proof.
  induction ids as [|id ids IH]; intros s r s' H; cbn [findEach] in H; [by injection H as <- <-|].
  mstep H; [by apply attempt_inv in Hm as (? & ? & _)|]. apply attempt_inv in Hm as (y & [= ->] & Hm).
  apply readLocked_steady in Hm. transitivity s1; [done|]. destruct y as [e|op]; case_bool_decide.
  - by eapply IH.
  - by injection Hk as <- <-.
  - mstep Hk; [done|]. injection Hm0 as <- <-. case_bool_decide; [by injection Hk0 as <- <-|].
    mstep Hk0; apply IH in Hm0; [done|]. by injection Hk as <- <-.
  - by eapply IH.
Qed.

Lemma FindByKey_steady env key s r s' : FindByKey env key s = (r, s') -> StoreInv s -> steady s s'.
Proof.
  unfold FindByKey. intros H Hinv. mstep H; apply settleAll_steady in Hm; [done|done| |done]. transitivity s1; [done|].
  destruct (negb _); [by injection Hk as <- <-|]. mstep Hk; [done|]. injection Hm0 as <- <-. by eapply findEach_steady.
Qed.

Lemma UnwrittenEnds_steady env s r s' : UnwrittenEnds env s = (r, s') -> StoreInv s -> steady s s'.
Proof.
  unfold UnwrittenEnds. intros H Hinv. mstep H; apply settleAll_steady in Hm; [done|done| |done]. mstep Hk; [done|].
  injection Hm0 as <- <-. by injection Hk0 as <- <-.
Qed.

Lemma UnwrittenEnds_settles env s r s' : UnwrittenEnds env s = (r, s') -> StoreInv s -> settles s s'.
Proof.
  unfold UnwrittenEnds. intros H Hinv. mstep H; apply settleAll_spec in Hm as (_ & Hs & _); [done|done| |done]. mstep Hk; [done|].
  injection Hm as <- <-. by injection Hk0 as <- <-.
Qed.

Lemma set_writes_steady ws s : steady s (set_writes ws s).
Proof. done. Qed.

Lemma writeLocked_others id op s r s' : writeLocked op s = (r, s') -> id <> op_ID op -> live id s <-> live id s'.
Proof. intros H%writeLocked_local Hne. by eapply local_live_iff. Qed.

Lemma delete_others id id' s : id <> id' -> live id s <-> live id (set_disk (delete id' (s_disk s)) s).
Proof. intros Hne. unfold live. cbn. by rewrite lookup_delete_ne. Qed.

(** A call that creates an operation changes nothing about the others. *)
Lemma FindOrCreate_steady env kind key hash db s r s' : FindOrCreate env kind key hash db s = (r, s') -> StoreInv s ->
  forall id, env_newID env <> Some id -> live id s <-> live id s'.
Proof.
  unfold FindOrCreate. intros H Hinv id Hid. mstep H; apply settleAll_steady in Hm; [apply Hm|done| |done]. rewrite (Hm id). clear Hm Hinv.
  mstep Hk; apply listLocked_steady in Hm; rewrite (Hm id); clear Hm; [done|]. destruct (list_find _ x0) as [[i op]|].
  { destruct (negb _); [by injection Hk0 as <- <-|]. mstep Hk0; [done|]. injection Hm as <- <-. case_bool_decide; by injection Hk as <- <-. }
  mstep Hk0; [by apply unreadableErrLocked_spec in Hm as [-> _]|]. apply unreadableErrLocked_spec in Hm as [-> _].
  destruct (existsb _ x0); [by injection Hk as <- <-|]. destruct (env_newID env) as [new|]; [|by injection Hk as <- <-].
  mstep Hk; [by apply attempt_inv in Hm as (? & ? & _)|]. apply attempt_inv in Hm as (y & [= ->] & Hm).
  apply (writeLocked_others id) in Hm; [|cbn; congruence]. rewrite Hm. destruct y as [e|[]]; [|by injection Hk0 as <- <-].
  mstep Hk0; [by destruct (env_removable env)|]. injection Hk as _ <-. destruct (env_removable env); injection Hm0 as _ <-; [|done].
  apply delete_others. congruence.
Qed.

Lemma Settle_local env id f s r s' : Settle env id f s = (r, s') -> StoreInv s -> isEnd f -> local id s s'.
Proof.
  intros H Hinv Hf. unfold Settle in H. mstep H; [done|]. injection Hm as <- <-. set (s1 := set_unsettled _ s) in *.
  assert (StoreInv s1) as Hinv1.
  { apply (same_disk_inv s); [done|done|]. intros id' f'. cbn. intros [[_ <-]|[_ ?]]%lookup_insert_Some; [done|by eapply inv_ends]. }
  transitivity s1; [|by eapply settleLocked_local]. intros id' Hne. cbn. by rewrite lookup_insert_ne.
Qed.

(** What Get answers about an operation that does not run. *)
Lemma Get_not_live env id s r s' : Get env id s = (r, s') -> StoreInv s -> isValidOperationID id = true ->
  (r = inl ErrOperationNotFound \/ exists op, r = inr op /\ IsTerminal (op_State op) = true) -> ~ live id s'.
Proof.
  intros H Hinv Hv [Hr|(op & -> & Ht)].
  - unfold Get in H. rewrite Hv in H. cbn [negb] in H. mstep H; [by apply attempt_inv in Hm as (? & ? & _)|].
    destruct x as [e|[]]; [injection Hk as <- <-; discriminate|]. subst r. pose proof (readLocked_steady _ _ _ _ _ Hk id) as Hs.
    apply readLocked_spec in Hk as (_ & _ & _ & [?|Hd]); [congruence|]. rewrite <- Hs. by apply absent_not_live.
  - apply Get_ok in H as [_ Hd]; [|done]. eapply ended_not_live; [by apply Hd|done].
Qed.
