(* ===== verification/ManifestURI.v ===== *)
(** * Where a backup artifact is, and which of them a recovery accepts

    The accepted form of a manifest URI ([api/v1alpha1/cubridcluster_types.go]),
    [parseManifestURI] and [startedManifestLocation]
    ([internal/controller/bootstrap.go]), and the key a backup writes its
    manifest under ([cubridbackup_controller.go], [upload.go]).  The patterns
    are Go regular expressions: they are kept as expressions over code points,
    matched by derivatives, and proved equal to what their comments say. *)
From stdpp Require Import prelude strings list.
From Stdlib Require Import Ascii String.
From S2P Require Import Prelude Api GoStr Utf8.

(** ** Regular expressions *)

Inductive re :=
  | ReNone
  | ReEmpty
  | ReClass (p : N -> bool)
  | ReCat (a b : re)
  | ReAlt (a b : re)
  | ReStar (a : re).

Fixpoint nullable (r : re) : bool :=
  match r with
  | ReNone | ReClass _ => false
  | ReEmpty | ReStar _ => true
  | ReCat a b => nullable a && nullable b
  | ReAlt a b => nullable a || nullable b
  end.

Fixpoint deriv (c : N) (r : re) : re :=
  match r with
  | ReNone | ReEmpty => ReNone
  | ReClass p => if p c then ReEmpty else ReNone
  | ReCat a b => if nullable a then ReAlt (ReCat (deriv c a) b) (deriv c b) else ReCat (deriv c a) b
  | ReAlt a b => ReAlt (deriv c a) (deriv c b)
  | ReStar a => ReCat (deriv c a) (ReStar a)
  end.

(** Whether the expression matches the whole text. *)
Definition matchesAll (r : re) (s : list N) : bool := nullable (fold_left (fun r c => deriv c r) s r).

(** [x?], [x+], [x{m,n}], [x{m,}] and literal text. *)
Definition reOpt (r : re) : re := ReAlt ReEmpty r.
Definition rePlus (r : re) : re := ReCat r (ReStar r).
Fixpoint reTimes (n : nat) (r : re) : re := match n with O => ReEmpty | S n => ReCat r (reTimes n r) end.
Fixpoint reUpTo (n : nat) (r : re) : re := match n with O => ReEmpty | S n => reOpt (ReCat r (reUpTo n r)) end.
Definition reBetween (m n : nat) (r : re) : re := ReCat (reTimes m r) (reUpTo (n - m) r).
Definition reAtLeast (m : nat) (r : re) : re := ReCat (reTimes m r) (ReStar r).
Definition reAny : re := ReClass (fun _ => true).
Definition reIs (c : N) : re := ReClass (fun x => N.eqb x c).
Definition reText (s : string) : re := foldr (fun c r => ReCat (reIs c) r) ReEmpty (bytesOf s).

(** ** The patterns of the API *)

Definition dot : N := 46.
Definition slash : N := 47.
Definition isLowerDigit (c : N) : bool := in_range 97 c 122 || in_range 48 c 57.
(** [\[:space:\]] and [\[:cntrl:\]], which are ASCII classes. *)
Definition isSpaceClass (c : N) : bool := in_range 9 c 13 || N.eqb c 32.
Definition isCntrlClass (c : N) : bool := in_range 0 c 31 || N.eqb c 127.
Definition isBucketChar (c : N) : bool := isLowerDigit c || N.eqb c dot || N.eqb c 45.
(** [\[^/?#%\[:space:\]\[:cntrl:\]\]] *)
Definition isSegmentChar (c : N) : bool :=
  negb (N.eqb c slash || N.eqb c 63 || N.eqb c 35 || N.eqb c 37 || isSpaceClass c || isCntrlClass c).
Definition isSegmentCharNoDot (c : N) : bool := negb (N.eqb c dot) && isSegmentChar c.

Definition S3BucketPattern : re :=
  ReCat (ReClass isLowerDigit) (ReCat (reBetween 1 61 (ReClass isBucketChar)) (ReClass isLowerDigit)).
Definition S3BucketAdjacentDotsPattern : re := ReCat (reIs dot) (reIs dot).
Definition S3KeySegmentPattern : re :=
  ReAlt (reAtLeast 3 (ReClass isSegmentChar))
    (ReAlt (ReCat (ReClass isSegmentCharNoDot) (reOpt (ReClass isSegmentChar)))
       (ReCat (reIs dot) (ReClass isSegmentCharNoDot))).
Definition ManifestObjectName : string := "manifest.json".
(** Anchored at both ends. *)
Definition ManifestURIPattern : re :=
  ReCat (reText "s3://") (ReCat S3BucketPattern
    (ReCat (rePlus (ReCat (reIs slash) S3KeySegmentPattern)) (reText "/manifest.json"))).
(** Anchored at the start only: whatever follows is matched by the last part. *)
Definition ManifestURIBucketAdjacentDotsPattern : re :=
  ReCat (ReCat (reText "s3://")
    (ReCat (ReStar (ReClass (fun c => negb (N.eqb c slash)))) S3BucketAdjacentDotsPattern)) (ReStar reAny).
Definition ManifestURIMaxLength : nat := 1093.

(** ** Go's path package *)

Definition chSlash : ascii := "/".
(** [strings.Split] at a separator of one ASCII character. *)
Fixpoint Split (sep : ascii) (s : string) : list string :=
  match s with
  | EmptyString => [""]
  | String c s =>
      if c == sep then "" :: Split sep s
      else match Split sep s with
      | [] => [String c ""]
      | x :: xs => String c x :: xs
      end
  end.

(** One element of a path in [Clean], on the elements kept so far, last
    first. *)
Definition cleanStep (rooted : bool) (kept : list string) (e : string) : list string :=
  if (e == "") || (e == ".") then kept
  else if e == ".." then
    match kept with
    | [] => if rooted then [] else [".."]
    | x :: rest => if x == ".." then ".." :: kept else rest
    end
  else e :: kept.

Definition isRooted (p : string) : bool := match p with String c _ => c == chSlash | EmptyString => false end.

Definition Clean (p : string) : string :=
  let rooted := isRooted p in
  let kept := strJoin "/" (rev (fold_left (cleanStep rooted) (Split chSlash p) [])) in
  if rooted then "/" +:+ kept else if kept == "" then "." else kept.

(** What [Join] hands to [Clean]. *)
Definition joinStep (buf e : string) : string :=
  if (buf != "") || (e != "") then (if buf != "" then buf +:+ "/" +:+ e else e) else buf.
Definition Join (elems : list string) : string :=
  let buf := fold_left joinStep elems "" in
  if buf == "" then "" else Clean buf.

(** [strings.CutPrefix] and [strings.TrimSuffix]. *)
Definition CutPrefix (p s : string) : option string :=
  string_of_list_ascii <$> stripPrefix (list_ascii_of_string p) (list_ascii_of_string s).
Definition TrimPrefix (p s : string) : string := default s (CutPrefix p s).
Definition TrimSuffix (p s : string) : string :=
  default s ((fun l => string_of_list_ascii (rev l)) <$>
    stripPrefix (rev (list_ascii_of_string p)) (rev (list_ascii_of_string s))).

(** [path.Dir]: [Clean] of what precedes the last slash, slash included. *)
Definition dirPart (p : string) : string :=
  match rev (Split chSlash p) with
  | [] | [_] => ""
  | _ :: front => strJoin "/" (rev front) +:+ "/"
  end.
Definition Dir (p : string) : string := Clean (dirPart p).

(** ** The location of a manifest

    [quote] is [strconv.Quote], the verb %q of a message. *)
Section locations.
Context (quote : string -> string).

Definition parseManifestURI (uri : string) : string + (string * string) :=
  if (ManifestURIMaxLength <? RuneCountInString uri)%nat || negb (matchesAll ManifestURIPattern (runes uri))
     || matchesAll ManifestURIBucketAdjacentDotsPattern (runes uri)
  then inl ("manifestUri " +:+ quote uri +:+ " is not of the form s3://<bucket>/<prefix>/manifest.json "
            +:+ "accepted for a recovery (ADR-0008)")
  else
    let key := TrimPrefix "s3://" uri in
    let '(bucket, key) := default (key, "") (Cut chSlash key) in
    inr (bucket, TrimSuffix ("/" +:+ ManifestObjectName) key).

Definition badSegment (s : string) : bool := (s == "") || (s == ".") || (s == "..").

Definition startedManifestLocation (uri : string) : string + (string * string) :=
  let rest := CutPrefix "s3://" uri in
  let cut := Cut chSlash (default uri rest) in
  let '(bucket, key) := default (default uri rest, "") cut in
  if is_nil rest || is_nil cut || (bucket == "") || (key == "")
  then inl ("manifestUri " +:+ quote uri +:+ " is not an s3:// URI with a bucket and a key")
  else if existsb badSegment (Split chSlash key)
  then inl ("manifestUri " +:+ quote uri +:+ " has an empty, " +:+ quoted "." +:+ " or " +:+ quoted ".." +:+ " segment in its key " +:+ quote key)
  else
    let prefix := Dir key in
    let read := Join [prefix; ManifestObjectName] in
    if read != key
    then inl ("manifestUri " +:+ quote uri +:+ " names the object " +:+ quote key
              +:+ ", but the restore started for it reads " +:+ quote read)
    else inr (bucket, prefix).

(** ** The key of a backup *)

Definition BackupAttemptIDLength : nat := 32.
Definition BackupAttemptPrefix (prefix attemptID : string) : string :=
  Join [prefix; "attempt-" +:+ attemptID].

(** [hex.EncodeToString], and the identity [UploadBackup] makes of 16 random
    bytes. *)
Definition hexDigit (n : N) : ascii := ascii_of_N (if N.ltb n 10 then 48 + n else 87 + n).
Definition EncodeToString (id : list N) : string :=
  string_of_list_ascii (id ≫= fun b => [hexDigit (N.div b 16); hexDigit (N.modulo b 16)]).
Definition isAttemptBytes (id : list N) : bool :=
  (List.length id =? BackupAttemptIDLength / 2)%nat && forallb (fun b => N.ltb b 256) id.

(** [strings.Repeat] *)
Fixpoint Repeat (s : string) (n : nat) : string := match n with O => "" | S n => s +:+ Repeat s n end.

(** backupArtifactPrefix; the caller holds the destination store. *)
Definition backupArtifactPrefix (store : ObjectStorageDestination) (backup : CubridBackup) (cluster : CubridCluster)
  : string :=
  Join [od_Prefix store; cl_UID cluster; bp_Database (bk_Spec backup); bk_UID backup].

Definition artifactKey (prefix attemptID : string) : string :=
  Join [BackupAttemptPrefix prefix attemptID; ManifestObjectName].
Definition artifactURI (bucket key : string) : string := "s3://" +:+ bucket +:+ "/" +:+ key.

Definition backupDestinationRefusal (backup : CubridBackup) (cluster : CubridCluster) : string :=
  match bp_ObjectStorage (bk_Spec backup) with
  | None => ""
  | Some store =>
      let key := artifactKey (backupArtifactPrefix store backup cluster) (Repeat "0" BackupAttemptIDLength) in
      let uri := artifactURI (od_Bucket store) key in
      match parseManifestURI uri with
      | inr _ =>
          if (1024 <? String.length key)%nat
          then "destination bucket " +:+ quote (od_Bucket store) +:+ " and prefix " +:+ quote (od_Prefix store)
               +:+ " would give the artifact the URI " +:+ quote uri +:+ ", which a recovery does not accept"
          else ""
      | inl _ =>
          "destination bucket " +:+ quote (od_Bucket store) +:+ " and prefix " +:+ quote (od_Prefix store)
          +:+ " would give the artifact the URI " +:+ quote uri +:+ ", which a recovery does not accept"
      end
  end.
End locations.

(** ** The language of an expression *)

Inductive lang : re -> list N -> Prop :=
  | lang_empty : lang ReEmpty []
  | lang_class p c : p c = true -> lang (ReClass p) [c]
  | lang_cat a b s t : lang a s -> lang b t -> lang (ReCat a b) (s ++ t)
  | lang_alt_l a b s : lang a s -> lang (ReAlt a b) s
  | lang_alt_r a b s : lang b s -> lang (ReAlt a b) s
  | lang_star_nil a : lang (ReStar a) []
  | lang_star a s t : lang a s -> lang (ReStar a) t -> lang (ReStar a) (s ++ t).
#[local] Hint Constructors lang : core.

Lemma lang_cat_inv a b s : lang (ReCat a b) s <-> exists u v, s = u ++ v /\ lang a u /\ lang b v.
Proof. split; [inversion 1; subst; eauto|]. intros (u & v & -> & Ha & Hb). auto. Qed.
Lemma lang_alt_inv a b s : lang (ReAlt a b) s <-> lang a s \/ lang b s.
Proof. split; [inversion 1; subst; auto|]. intros [H|H]; auto. Qed.
Lemma lang_class_inv p s : lang (ReClass p) s <-> exists c, s = [c] /\ p c = true.
Proof. split; [inversion 1; subst; eauto|]. intros (c & -> & Hc). auto. Qed.
Lemma lang_empty_inv s : lang ReEmpty s <-> s = [].
Proof. split; [by inversion 1|by intros ->]. Qed.

Lemma nullable_lang r : nullable r = true <-> lang r [].
Proof.
  induction r as [| |p|a IHa b IHb|a IHa b IHb|a IHa]; cbn [nullable].
  - split; [done|]. inversion 1.
  - split; auto.
  - split; [done|]. rewrite lang_class_inv. by intros (c & ? & _).
  - rewrite andb_true_iff, IHa, IHb, lang_cat_inv. split; [intros [??]; by exists [], []|].
    intros (u & v & Huv & Hu & Hv). symmetry in Huv. apply app_nil in Huv as [-> ->]. done.
  - by rewrite orb_true_iff, IHa, IHb, lang_alt_inv.
  - split; auto.
Qed.

Lemma lang_star_cons a c s : lang (ReStar a) (c :: s) <-> exists u v, s = u ++ v /\ lang a (c :: u) /\ lang (ReStar a) v.
Proof.
  split.
  - remember (ReStar a) as r eqn:Er. remember (c :: s) as l eqn:El. intros Hl. revert s El.
    induction Hl as [| | | | | |a' u v Hu _ Hv IH]; intros rest El; simplify_eq.
    destruct u as [|x u]; simplify_eq/=; [by apply IH|]. eauto.
  - intros (u & v & -> & Hu & Hv). exact (lang_star a (c :: u) v Hu Hv).
Qed.

Lemma deriv_lang c r s : lang (deriv c r) s <-> lang r (c :: s).
Proof.
  revert s. induction r as [| |p|a IHa b IHb|a IHa b IHb|a IHa]; intros s; cbn [deriv].
  - split; inversion 1.
  - split; inversion 1.
  - rewrite lang_class_inv. destruct (p c) eqn:E.
    + rewrite lang_empty_inv. split; [intros ->; eauto|]. by intros (x & [= <- ->] & _).
    + split; [inversion 1|]. intros (x & [= <- ->] & Hx). congruence.
  - assert (lang (ReCat a b) (c :: s) <->
      lang (ReCat (deriv c a) b) s \/ (lang a [] /\ lang (deriv c b) s)) as Hcat.
    { rewrite !lang_cat_inv. split.
      - intros ([|x u] & v & Huv & Hu & Hv); simplify_eq/=; [right; by rewrite IHb|].
        left. exists u, v. by rewrite IHa.
      - intros [(u & v & -> & Hu%IHa & Hv)|[Hn Hs%IHb]]; [by exists (c :: u), v|by exists [], (c :: s)]. }
    rewrite Hcat, <- nullable_lang. destruct (nullable a) eqn:E; [rewrite lang_alt_inv; tauto|].
    split; [by left|]. by intros [?|[? _]].
  - by rewrite !lang_alt_inv, IHa, IHb.
  - rewrite lang_star_cons, lang_cat_inv. split; intros (u & v & -> & Hu & Hv); exists u, v.
    + by rewrite <- IHa.
    + by rewrite IHa.
Qed.

Lemma matchesAll_lang r s : matchesAll r s = true <-> lang r s.
Proof.
  unfold matchesAll. revert r. induction s as [|c s IH]; intros r; cbn [fold_left]; [apply nullable_lang|].
  by rewrite IH, deriv_lang.
Qed.

(** ** What the patterns say *)

Notation all p l := (Forall (fun c : N => p c = true) l).

Lemma lang_times p n s : lang (reTimes n (ReClass p)) s <-> List.length s = n /\ all p s.
Proof.
  revert s. induction n as [|n IH]; intros s; cbn [reTimes].
  - rewrite lang_empty_inv. split; [intros ->; by split|]. by intros [?%nil_length_inv _].
  - rewrite lang_cat_inv. split.
    + intros (u & v & -> & (c & -> & Hc)%lang_class_inv & [<- Hv]%IH). split; [done|by constructor].
    + intros [Hl Ha]. destruct s as [|c s]; [done|]. apply Forall_cons in Ha as [Hc Hs]. simplify_eq/=.
      exists [c], s. split_and!; [done|auto|by apply IH].
Qed.

Lemma lang_upTo p n s : lang (reUpTo n (ReClass p)) s <-> (List.length s <= n)%nat /\ all p s.
Proof.
  revert s. induction n as [|n IH]; intros s; cbn [reUpTo].
  - rewrite lang_empty_inv. split; [intros ->; by split|]. destruct s; [done|]. cbn. intros [? _]. lia.
  - unfold reOpt. rewrite lang_alt_inv, lang_empty_inv, lang_cat_inv. split.
    + intros [->|(u & v & -> & (c & -> & Hc)%lang_class_inv & [Hl Hv]%IH)]; [split; [cbn; lia|constructor]|].
      split; [cbn; lia|by constructor].
    + intros [Hl Ha]. destruct s as [|c s]; [by left|right]. apply Forall_cons in Ha as [Hc Hs].
      exists [c], s. split_and!; [done|auto|]. apply IH. split; [cbn in Hl; lia|done].
Qed.

Lemma lang_star_class p s : lang (ReStar (ReClass p)) s <-> all p s.
Proof.
  induction s as [|c s IH]; [by split; auto|]. rewrite lang_star_cons, Forall_cons. split.
  - intros (u & v & -> & (x & [= <- ->] & Hc)%lang_class_inv & Hv). split; [done|by apply IH].
  - intros [Hc Hs]. exists [], s. split_and!; [done|auto|by apply IH].
Qed.

Lemma lang_atLeast p n s : lang (reAtLeast n (ReClass p)) s <-> (n <= List.length s)%nat /\ all p s.
Proof.
  unfold reAtLeast. rewrite lang_cat_inv. split.
  - intros (u & v & -> & [Hl Hu]%lang_times & Hv%lang_star_class). rewrite length_app. split; [lia|by apply Forall_app].
  - intros [Hl Ha]. exists (take n s), (drop n s). rewrite take_drop, lang_times, lang_star_class, length_take.
    split_and!; [done|lia|by apply Forall_take|by apply Forall_drop].
Qed.

Lemma lang_between p m n s : (m <= n)%nat ->
  lang (reBetween m n (ReClass p)) s <-> (m <= List.length s <= n)%nat /\ all p s.
Proof.
  intros Hmn. unfold reBetween. rewrite lang_cat_inv. split.
  - intros (u & v & -> & [Hl Hu]%lang_times & [Hl' Hv]%lang_upTo). rewrite length_app. split; [lia|by apply Forall_app].
  - intros [Hl Ha]. exists (take m s), (drop m s). rewrite take_drop, lang_times, lang_upTo, length_take, length_drop.
    split_and!; [done|lia|by apply Forall_take|lia|by apply Forall_drop].
Qed.

Lemma lang_text t s : lang (reText t) s <-> s = bytesOf t.
Proof.
  unfold reText. revert s. induction (bytesOf t) as [|c l IH]; intros s; cbn [foldr]; [apply lang_empty_inv|].
  rewrite lang_cat_inv. split.
  - intros (u & v & -> & (x & -> & Hx%N.eqb_eq)%lang_class_inv & ->%IH). by subst.
  - intros ->. exists [c], l. split_and!; [done| |by apply IH]. constructor. apply N.eqb_refl.
Qed.

(** A key segment, as its comment describes it. *)
Definition goodSegment (s : list N) : Prop := s <> [] /\ s <> [dot] /\ s <> [dot; dot] /\ all isSegmentChar s.

Lemma isSegmentCharNoDot_iff c : isSegmentCharNoDot c = true <-> c <> dot /\ isSegmentChar c = true.
Proof. unfold isSegmentCharNoDot. by rewrite andb_true_iff, negb_true_iff, N.eqb_neq. Qed.

Lemma segment_lang s : lang S3KeySegmentPattern s <-> goodSegment s.
Proof.
  unfold S3KeySegmentPattern, reOpt, reIs, goodSegment. rewrite !lang_alt_inv, lang_atLeast, !lang_cat_inv. split.
  - intros [[Hl Ha]|[(u & v & -> & (c & -> & [Hc Hs]%isSegmentCharNoDot_iff)%lang_class_inv & Hv)
      |(u & v & -> & (c & -> & ->%N.eqb_eq)%lang_class_inv & (d & -> & [Hd Hs]%isSegmentCharNoDot_iff)%lang_class_inv)]].
    + split_and!; try done; intros ->; cbn in Hl; lia.
    + rewrite lang_alt_inv, lang_empty_inv, lang_class_inv in Hv.
      destruct Hv as [->|(d & -> & Hd)]; cbn; split_and!; try done; try congruence; by repeat constructor.
    + cbn. split_and!; try done; try congruence. by repeat constructor.
  - intros (H0 & H1 & H2 & Ha). destruct s as [|c [|d [|e s]]].
    + done.
    + right. left. apply Forall_cons in Ha as [Hc _]. exists [c], []. split_and!; [done| |auto].
      constructor. apply isSegmentCharNoDot_iff. split; [congruence|done].
    + apply Forall_cons in Ha as [Hc [Hd _]%Forall_cons]. right. destruct (decide (c = dot)) as [->|Hne].
      * right. exists [dot], [d]. split_and!; [done|constructor; apply N.eqb_refl|].
        constructor. apply isSegmentCharNoDot_iff. split; [congruence|done].
      * left. exists [c], [d]. split_and!; [done| |auto]. constructor. by apply isSegmentCharNoDot_iff.
    + left. split; [cbn; lia|done].
Qed.

(** A bucket name, up to the adjacent dots. *)
Definition bucketShape (s : list N) : Prop :=
  (3 <= List.length s <= 63)%nat /\ all isBucketChar s /\
  (exists c rest, s = c :: rest /\ isLowerDigit c = true) /\ (exists front c, s = front ++ [c] /\ isLowerDigit c = true).

Lemma bucket_lang s : lang S3BucketPattern s <-> bucketShape s.
Proof.
  unfold S3BucketPattern, bucketShape. rewrite lang_cat_inv. split.
  - intros (u & v & -> & (c & -> & Hc)%lang_class_inv & (x & y & -> & Hx & (d & -> & Hd)%lang_class_inv)%lang_cat_inv).
    apply lang_between in Hx as [Hl Ha]; [|lia].
    assert (forall z, isLowerDigit z = true -> isBucketChar z = true) as Hld by (intros z Hz; unfold isBucketChar; by rewrite Hz).
    split_and!.
    + cbn. rewrite length_app. cbn. lia.
    + cbn. rewrite length_app. cbn. lia.
    + constructor; [auto|]. apply Forall_app. split; [done|]. constructor; auto.
    + by exists c, (x ++ [d]).
    + by exists (c :: x), d.
  - intros (Hl & Ha & (c & rest & -> & Hc) & (front & d & Hf & Hd)).
    destruct front as [|c' mid]; simplify_eq/=; [cbn in Hl; lia|].
    exists [c'], (mid ++ [d]). split_and!; [done|auto|]. apply lang_cat_inv. exists mid, [d]. split_and!; [done| |auto].
    apply lang_between; [lia|]. rewrite length_app in Hl. cbn in Hl. split; [lia|].
    apply Forall_cons in Ha as [_ [Ha _]%Forall_app]. done.
Qed.

(** Segments, each after a slash. *)
Definition slashed (segs : list (list N)) : list N := segs ≫= cons slash.

Lemma slashed_lang s :
  lang (rePlus (ReCat (reIs slash) S3KeySegmentPattern)) s <-> exists segs, segs <> [] /\ Forall goodSegment segs /\ s = slashed segs.
Proof.
  assert (forall u, lang (ReCat (reIs slash) S3KeySegmentPattern) u <-> exists g, goodSegment g /\ u = slash :: g) as Hone.
  { intros u. rewrite lang_cat_inv. split.
    - intros (x & g & -> & (c & -> & ->%N.eqb_eq)%lang_class_inv & Hg%segment_lang). eauto.
    - intros (g & Hg & ->). exists [slash], g. split_and!; [done|constructor; apply N.eqb_refl|by apply segment_lang]. }
  assert (forall u, lang (ReStar (ReCat (reIs slash) S3KeySegmentPattern)) u <->
    exists segs, Forall goodSegment segs /\ u = slashed segs) as Hstar.
  { intros u. split.
    - remember (ReStar _) as r eqn:Er. induction 1 as [| | | | | |a x y Hx _ Hy IH]; simplify_eq; [by exists []|].
      apply Hone in Hx as (g & Hg & ->). destruct IH as (segs & Hs & ->); [done|]. exists (g :: segs). by split; [constructor|].
    - intros (segs & Hs & ->). induction Hs as [|g segs Hg _ IH]; [apply lang_star_nil|].
      apply (lang_star _ (slash :: g)); [apply Hone; eauto|done]. }
  unfold rePlus. rewrite lang_cat_inv. split.
  - intros (u & v & -> & (g & Hg & ->)%Hone & (segs & Hs & ->)%Hstar). exists (g :: segs). by split_and!; [|constructor|].
  - intros (segs & Hne & Hs & ->). destruct segs as [|g segs]; [done|]. apply Forall_cons in Hs as [Hg Hs].
    exists (slash :: g), (slashed segs). split_and!; [done|apply Hone; eauto|apply Hstar; eauto].
Qed.

Lemma manifest_lang s : lang ManifestURIPattern s <->
  exists bucket segs, bucketShape bucket /\ segs <> [] /\ Forall goodSegment segs /\
    s = bytesOf "s3://" ++ bucket ++ slashed segs ++ bytesOf "/manifest.json".
Proof.
  unfold ManifestURIPattern. split.
  - intros (u & v & -> & ->%lang_text & (b & v' & -> & Hb%bucket_lang & (x & y & -> & Hx & ->%lang_text)%lang_cat_inv)%lang_cat_inv)%lang_cat_inv.
    apply slashed_lang in Hx as (segs & Hne & Hs & ->). exists b, segs. done.
  - intros (b & segs & Hb & Hne & Hs & ->). apply lang_cat; [by apply lang_text|].
    apply lang_cat; [by apply bucket_lang|]. apply lang_cat; [apply slashed_lang; eauto|by apply lang_text].
Qed.

Lemma adjacent_lang s : lang ManifestURIBucketAdjacentDotsPattern s <->
  exists a b, s = bytesOf "s3://" ++ a ++ [dot; dot] ++ b /\ slash ∉ a.
Proof.
  unfold ManifestURIBucketAdjacentDotsPattern, S3BucketAdjacentDotsPattern, reIs. split.
  - intros (u & b & -> & (t & v & -> & ->%lang_text & (a & w & -> & Ha%lang_star_class & Hw)%lang_cat_inv)%lang_cat_inv & _)%lang_cat_inv.
    apply lang_cat_inv in Hw as (x & y & -> & (c & -> & ->%N.eqb_eq)%lang_class_inv & (d & -> & ->%N.eqb_eq)%lang_class_inv).
    exists a, b. rewrite <- !app_assoc. split; [done|]. intros Hin.
    by apply (proj1 (Forall_forall _ _) Ha) in Hin.
  - intros (a & b & -> & Ha). rewrite !app_assoc. apply lang_cat; [|apply lang_star_class; by apply Forall_true].
    rewrite <- app_assoc. apply lang_cat; [by apply lang_text|]. apply lang_cat.
    + apply lang_star_class. apply Forall_forall. intros c Hc. apply negb_true_iff, N.eqb_neq. by intros ->.
    + apply (lang_cat _ _ [dot] [dot]); constructor; apply N.eqb_refl.
Qed.

(** ** From patterns to strings *)

Definition goodBucket (s : string) : Prop :=
  bucketShape (bytesOf s) /\ forall a b, bytesOf s <> a ++ [dot; dot] ++ b.
Definition goodPart (s : string) : Prop := goodSegment (runes s).

(** The URI of a manifest in a bucket below a prefix of segments. *)
Definition manifestURI (bucket : string) (segs : list string) : string :=
  "s3://" +:+ bucket +:+ "/" +:+ strJoin "/" segs +:+ "/" +:+ ManifestObjectName.

Definition isAsciiByte (c : N) : Prop := (c < 128)%N.

Lemma bucketShape_ascii s : bucketShape s -> Forall isAsciiByte s.
Proof.
  intros (_ & Ha & _). eapply Forall_impl; [exact Ha|]. intros c Hc. unfold isAsciiByte.
  unfold isBucketChar, isLowerDigit, in_range, dot in Hc. bool_simpl.
  repeat match goal with Hx : _ || _ = true |- _ => apply orb_true_iff in Hx as [Hx|Hx] end; bool_simpl;
    rewrite ?N.leb_le, ?N.eqb_eq in *; lia.
Qed.

Lemma bucket_no_slash s : bucketShape s -> slash ∉ s.
Proof. intros (_ & Ha & _) Hin. by apply (proj1 (Forall_forall _ _) Ha) in Hin. Qed.

Lemma strJoin_cons x xs : xs <> [] -> strJoin "/" (x :: xs) = x +:+ "/" +:+ strJoin "/" xs.
Proof. unfold strJoin. by destruct xs. Qed.

Lemma runes_slash a b : runes (a +:+ "/" +:+ b) = runes a ++ slash :: runes b.
Proof. apply (runes_app_ascii_mid a chSlash b). done. Qed.

(** The runes of the segments of a prefix, with the slash before them. *)
Lemma runes_slashed segs : segs <> [] ->
  slash :: runes (strJoin "/" segs) = slashed (runes <$> segs).
Proof.
  induction segs as [|x segs IH]; [done|]. intros _. destruct segs as [|y segs].
  - cbn. by rewrite app_nil_r.
  - rewrite strJoin_cons, runes_slash, IH by done. done.
Qed.

Lemma manifestURI_runes bucket segs : Forall isAsciiByte (bytesOf bucket) -> segs <> [] ->
  runes (manifestURI bucket segs) =
  bytesOf "s3://" ++ bytesOf bucket ++ slashed (runes <$> segs) ++ bytesOf "/manifest.json".
Proof.
  intros Hb Hs. unfold manifestURI. rewrite runes_app_ascii_l by (vm_compute; repeat constructor).
  rewrite runes_app_ascii_l by done. do 2 f_equal.
  etransitivity; [apply (runes_slash "")|]. by rewrite runes_slash, <- runes_slashed.
Qed.

(** No adjacent dots before the first slash that ends the bucket. *)
Lemma adjacent_in_bucket bucket rest a b : slash ∉ bucket -> slash ∉ a ->
  bucket ++ slash :: rest = a ++ [dot; dot] ++ b -> exists c, bucket = a ++ [dot; dot] ++ c.
Proof.
  revert a. induction bucket as [|x bucket IH]; intros a Hb Ha He; cbn in He.
  - destruct a as [|y a]; simplify_eq/=. set_solver.
  - destruct a as [|y a]; simplify_eq/=.
    + destruct bucket as [|z bucket]; simplify_eq/=. by exists bucket.
    + destruct (IH a) as [c ->]; [set_solver|set_solver|done|]. by exists c.
Qed.

Lemma stripPrefix_app p s : stripPrefix p (p ++ s) = Some s.
Proof. induction p as [|c p IH]; [done|]. cbn [stripPrefix app]. by rewrite bool_decide_eq_true_2. Qed.

Lemma CutPrefix_app p s : CutPrefix p (p +:+ s) = Some s.
Proof. unfold CutPrefix. rewrite list_ascii_app, stripPrefix_app. cbn. by rewrite string_of_list_ascii_of_string. Qed.

Lemma TrimSuffix_app s p : TrimSuffix p (s +:+ p) = s.
Proof.
  unfold TrimSuffix. rewrite list_ascii_app, rev_app_distr, stripPrefix_app. cbn.
  by rewrite rev_involutive, string_of_list_ascii_of_string.
Qed.

Lemma no_slash_str s : slash ∉ bytesOf s -> str_forall (fun c => c != chSlash) s = true.
Proof.
  induction s as [|c s IH]; [done|]. unfold bytesOf. cbn [list_ascii_of_string fmap list_fmap str_forall].
  intros Hn. rewrite IH by set_solver. rewrite andb_true_r. btrue. btrue. intros ->. apply Hn. by left.
Qed.

(** Runes of the required form come from bytes of that form. *)
Lemma slashed_bytes S M l : Forall isAsciiByte M -> runesOf l = slashed S ++ slash :: M ->
  exists ss, runesOf <$> ss = S /\ l = slashed ss ++ slash :: M.
Proof.
  intros HM. revert l. induction S as [|g S IH]; intros l Hl.
  - exists []. split; [done|]. cbn in *. rewrite <- Hl. apply runesOf_ascii_inv. rewrite Hl. by constructor.
  - destruct (runesOf_split l [] slash (g ++ slashed S ++ slash :: M)) as (l1 & l2 & -> & H1 & H2); [done| |].
    { rewrite Hl. cbn. by rewrite app_assoc. }
    destruct l1 as [|b l1]; [|by rewrite runesOf_cons in H1].
    assert (exists T, slashed S ++ slash :: M = slash :: T) as [T HT].
    { destruct S; cbn; eauto. }
    rewrite HT in H2. destruct (runesOf_split l2 g slash T) as (l3 & l4 & -> & H3 & H4); [done|done|].
    destruct (IH (slash :: l4)) as (ss & Hss & Hl4).
    { rewrite decode_ascii by done. by rewrite H4, HT. }
    exists (l3 :: ss). split; [by rewrite fmap_cons, H3, Hss|]. rewrite Hl4. cbn. by rewrite <- app_assoc.
Qed.

Lemma slashed_string ss : ss <> [] -> Forall (Forall (fun b => (b < 256)%N)) ss ->
  stringOfBytes (slashed ss) = "/" +:+ strJoin "/" (stringOfBytes <$> ss).
Proof.
  intros Hne Hb. induction Hb as [|s ss Hs _ IH]; [done|]. destruct ss as [|s2 ss].
  - cbn. by rewrite app_nil_r.
  - rewrite fmap_cons, strJoin_cons by done. rewrite <- IH by done.
    change (slashed (s :: s2 :: ss)) with (slash :: s ++ slashed (s2 :: ss)).
    change (slash :: s ++ slashed (s2 :: ss)) with ([slash] ++ (s ++ slashed (s2 :: ss))).
    by rewrite !stringOfBytes_app.
Qed.

Section parsing.
Context (quote : string -> string).

Definition accepted (uri bucket prefix : string) : Prop :=
  exists segs, segs <> [] /\ goodBucket bucket /\ Forall goodPart segs /\ prefix = strJoin "/" segs /\
    uri = manifestURI bucket segs /\ (RuneCountInString uri <= ManifestURIMaxLength)%nat.

Lemma parse_accepts uri bucket prefix : accepted uri bucket prefix -> parseManifestURI quote uri = inr (bucket, prefix).
Proof.
  intros (segs & Hne & [Hshape Hdots] & Hs & -> & -> & Hlen). unfold parseManifestURI.
  rewrite (proj2 (Nat.ltb_ge _ _) Hlen). pose proof (bucketShape_ascii _ Hshape) as Hasc.
  rewrite manifestURI_runes by done.
  rewrite (proj2 (matchesAll_lang _ _)).
  2:{ apply manifest_lang. exists (bytesOf bucket), (runes <$> segs). split_and!; [done|by destruct segs| |done].
      by apply Forall_fmap. }
  replace (matchesAll ManifestURIBucketAdjacentDotsPattern _) with false.
  2:{ symmetry. apply not_true_iff_false. rewrite matchesAll_lang, adjacent_lang. intros (a & b & He & Ha).
      apply app_inv_head in He. destruct segs as [|g segs]; [done|]. cbn in He.
      apply adjacent_in_bucket in He as [c Hc]; [by apply (Hdots a c)|by apply bucket_no_slash|done]. }
  cbn [negb orb]. unfold manifestURI, TrimPrefix. rewrite CutPrefix_app. cbn [default].
  pose proof (no_slash_str _ (bucket_no_slash _ Hshape)) as Hns. unfold chSlash in *.
  unfold id. rewrite Cut_app by done. cbn [default fst snd]. unfold id.
  by rewrite (TrimSuffix_app _ ("/" +:+ ManifestObjectName)).
Qed.

Lemma parse_accepted uri bucket prefix : parseManifestURI quote uri = inr (bucket, prefix) -> accepted uri bucket prefix.
Proof.
  intros Hp. enough (exists b p, accepted uri b p) as (b & p & Hacc).
  { pose proof (parse_accepts _ _ _ Hacc) as Hp'. rewrite Hp in Hp'. by simplify_eq. }
  unfold parseManifestURI in Hp. destruct (_ || _) eqn:Et in Hp; [done|]. clear Hp.
  apply orb_false_iff in Et as [[Hlen%Nat.ltb_ge Hm%negb_false_iff]%orb_false_iff Hadj].
  apply matchesAll_lang, manifest_lang in Hm as (B & S & HB & HS & Hgood & Hr).
  destruct S as [|g S]; [done|].
  destruct (runesOf_split (bytesOf uri) (bytesOf "s3://" ++ B) slash (g ++ slashed S ++ bytesOf "/manifest.json"))
    as (l1 & l2 & Hl & H1 & H2); [done|fold (runes uri); rewrite Hr; cbn; by rewrite <- !app_assoc|].
  assert (Forall isAsciiByte (bytesOf "s3://" ++ B)) as Hasc.
  { apply Forall_app. split; [by vm_compute; repeat constructor|by apply bucketShape_ascii]. }
  assert (l1 = bytesOf "s3://" ++ B) as -> by (rewrite <- H1; apply runesOf_ascii_inv; by rewrite H1).
  destruct (slashed_bytes (g :: S) (bytesOf "manifest.json") (slash :: l2)) as (ss & Hss & Hl2).
  { by vm_compute; repeat constructor. }
  { rewrite decode_ascii by done. rewrite H2. cbn. by rewrite <- app_assoc. }
  assert (Forall (fun b => (b < 256)%N) B /\ Forall (Forall (fun b => (b < 256)%N)) ss) as [HBb Hssb].
  { pose proof (bytesOf_bound uri) as Hb. rewrite Hl, Hl2 in Hb. apply Forall_app in Hb as [Hb1 [Hb2 _]%Forall_app].
    apply Forall_app in Hb1 as [_ Hb1]. split; [done|]. clear -Hb2.
    induction ss as [|s ss IH]; [constructor|]. cbn in Hb2. apply Forall_cons in Hb2 as [_ [Hs Hb2]%Forall_app].
    constructor; [done|by apply IH]. }
  assert (ss <> []) as Hne by (by destruct ss).
  exists (stringOfBytes B), (strJoin "/" (stringOfBytes <$> ss)), (stringOfBytes <$> ss). unfold goodBucket.
  rewrite bytesOf_string by done. split_and!; [by destruct ss|done| | |done| |done].
  - intros a b Hab. enough (matchesAll ManifestURIBucketAdjacentDotsPattern (runes uri) = true) by congruence.
    apply matchesAll_lang, adjacent_lang. rewrite Hr, Hab, <- !app_assoc. eexists a, _. split; [done|].
    apply bucket_no_slash in HB. rewrite Hab in HB. set_solver.
  - rewrite Forall_fmap. rewrite <- Hss, Forall_fmap in Hgood.
    eapply Forall_impl; [apply Forall_and; split; [exact Hgood|exact Hssb]|].
    intros s [Hs Hb]. unfold compose, goodPart, runes in *. by rewrite bytesOf_string.
  - rewrite <- (stringOfBytes_bytesOf uri), Hl, Hl2, <- app_assoc, !stringOfBytes_app, slashed_string by done.
    unfold manifestURI. rewrite !str_app_assoc. done.
Qed.

(** C35: The manifest URIs a recovery accepts are exactly those of the documented
    form: s3://, a bucket of 3 to 63 lower-case letters, digits, dots and
    hyphens that starts and ends with a letter or digit and has no two
    adjacent dots, one or more segments that are not empty, "." or ".." and
    have no "/", "?", "#", "%", ASCII white space or control character, and
    manifest.json, in at most 1093 characters. Parsing returns that bucket and
    the segments joined as written. *)
Theorem parseManifestURI_iff uri bucket prefix :
  parseManifestURI quote uri = inr (bucket, prefix) <-> accepted uri bucket prefix.
Proof. split; [apply parse_accepted|apply parse_accepts]. Qed.
End parsing.

(** ** Keys *)

(** A path element that [Clean] keeps. *)
Definition normal (s : string) : Prop := s <> "" /\ s <> "." /\ s <> ".." /\ str_forall (fun c => c != chSlash) s = true.

Lemma Split_none s : str_forall (fun c => c != chSlash) s = true -> Split chSlash s = [s].
Proof.
  induction s as [|c s IH]; [done|]. cbn [str_forall Split]. intros [Hc Hs]%andb_true_iff.
  rewrite negb_true_iff in Hc. by rewrite Hc, IH.
Qed.

Lemma Split_not_nil sep s : Split sep s <> [].
Proof. destruct s as [|c s]; [done|]. cbn [Split]. destruct (bool_decide _); [done|]. by destruct (Split sep s). Qed.

Lemma Split_app a b : Split chSlash (a +:+ "/" +:+ b) = Split chSlash a ++ Split chSlash b.
Proof.
  induction a as [|c a IH]; [done|].
  change (String c a +:+ "/" +:+ b) with (String c (a +:+ "/" +:+ b)). cbn [Split]. rewrite IH.
  destruct (bool_decide (c = chSlash)); [done|]. pose proof (Split_not_nil chSlash a) as Hn.
  by destruct (Split chSlash a).
Qed.

Lemma join_Split s : strJoin "/" (Split chSlash s) = s.
Proof.
  induction s as [|c s IH]; [done|]. cbn [Split]. pose proof (Split_not_nil chSlash s) as Hn.
  case_bool_decide as Hc.
  - subst c. rewrite strJoin_cons, IH by done. done.
  - destruct (Split chSlash s) as [|x xs]; [done|]. destruct xs as [|y xs].
    + cbn in *. by subst.
    + rewrite strJoin_cons in * by done. rewrite <- IH. done.
Qed.

Lemma join_snoc xs x : xs <> [] -> strJoin "/" (xs ++ [x]) = strJoin "/" xs +:+ "/" +:+ x.
Proof.
  induction xs as [|y xs IH]; [done|]. intros _. destruct xs as [|z xs]; [done|].
  change ((y :: z :: xs) ++ [x]) with (y :: ((z :: xs) ++ [x])).
  rewrite strJoin_cons, IH, (strJoin_cons y (z :: xs)), !str_app_assoc by done. done.
Qed.

Lemma Split_join xs : xs <> [] -> Forall normal xs -> Split chSlash (strJoin "/" xs) = xs.
Proof.
  intros Hne Hn. induction Hn as [|x xs (_ & _ & _ & Hx) Hxs IH]; [done|]. destruct xs as [|y xs].
  - by apply Split_none.
  - rewrite strJoin_cons, Split_app, Split_none, IH by done. done.
Qed.

Lemma cleanStep_normal rooted kept x : normal x -> cleanStep rooted kept x = x :: kept.
Proof. intros (H0 & H1 & H2 & _). unfold cleanStep. by rewrite !bool_decide_eq_false_2 by done. Qed.

Lemma cleanSteps_normal rooted xs kept : Forall normal xs -> fold_left (cleanStep rooted) xs kept = rev xs ++ kept.
Proof.
  intros Hn. revert kept. induction Hn as [|x xs Hx _ IH]; intros kept; [done|]. cbn [fold_left rev].
  rewrite cleanStep_normal, IH, <- app_assoc by done. done.
Qed.

Lemma isRooted_app a b : a <> "" -> isRooted (a +:+ b) = isRooted a.
Proof. by destruct a. Qed.

Lemma normal_not_rooted x : normal x -> isRooted x = false.
Proof.
  intros (Hne & _ & _ & Hs). destruct x as [|c x]; [done|]. cbn [str_forall isRooted] in *.
  apply andb_true_iff in Hs as [Hc _]. by apply negb_true_iff in Hc.
Qed.

(** What is kept of a prefix when a normal element is joined to it. *)
Definition cleanFront (p : string) : list string := rev (fold_left (cleanStep (isRooted p)) (Split chSlash p) []).

Lemma Join_normal p x : normal x ->
  Join [p; x] = (if isRooted p then "/" else "") +:+ strJoin "/" (cleanFront p ++ [x]).
Proof.
  intros Hx. unfold Join, joinStep. cbn [fold_left]. pose proof Hx as (Hne & _).
  rewrite (bool_decide_eq_true_2 ("" = "")) by done. cbn [negb orb].
  destruct (decide (p = "")) as [->|Hp].
  - rewrite (bool_decide_eq_true_2 ("" = "")) by done. cbn [negb orb].
    rewrite !(bool_decide_eq_false_2 _ Hne). cbn [negb]. unfold Clean.
    rewrite normal_not_rooted, Split_none by (done || apply Hx). cbn [fold_left]. rewrite cleanStep_normal by done.
    change (strJoin "/" (rev [x])) with x. by rewrite (bool_decide_eq_false_2 (x = "")).
  - rewrite !(bool_decide_eq_false_2 _ Hp). cbn [negb orb].
    rewrite (bool_decide_eq_false_2 (p +:+ "/" +:+ x = "")) by by destruct p. unfold Clean.
    rewrite isRooted_app, Split_app, fold_left_app by done. rewrite (Split_none x) by apply Hx. cbn [fold_left].
    rewrite cleanStep_normal by done. cbn [rev]. fold (cleanFront p). destruct (isRooted p); [done|].
    rewrite bool_decide_eq_false_2; [done|]. intros He. destruct (cleanFront p) as [|y ys] eqn:Ef.
    + done.
    + rewrite join_snoc in He by done. by destruct (strJoin "/" (y :: ys)).
Qed.

Lemma goodPart_normal s : goodPart s -> normal s.
Proof.
  intros (H0 & H1 & H2 & Ha). split_and!.
  - by intros ->.
  - by intros ->.
  - by intros ->.
  - apply no_slash_str. intros [i Hi]%list_elem_of_lookup. apply list_elem_of_split_length in Hi as (a & b & Hab & _).
    unfold goodPart, runes in Ha. rewrite Hab, runesOf_ascii in Ha by done.
    apply Forall_app in Ha as [_ [Hs _]%Forall_cons]. done.
Qed.

Lemma manifest_normal : normal ManifestObjectName.
Proof. by split_and!. Qed.

Lemma cleanFront_normal xs : xs <> [] -> Forall normal xs -> isRooted (strJoin "/" xs) = false /\ cleanFront (strJoin "/" xs) = xs.
Proof.
  intros Hne Hn. assert (isRooted (strJoin "/" xs) = false) as Hr.
  { destruct Hn as [|x xs Hx Hxs]; [done|]. destruct xs as [|y ys]; [by apply normal_not_rooted|].
    rewrite strJoin_cons, isRooted_app by (done || apply Hx). by apply normal_not_rooted. }
  split; [done|]. unfold cleanFront. rewrite Hr, Split_join, cleanSteps_normal, app_nil_r, rev_involutive by done. done.
Qed.

Section keys.
Context (quote : string -> string).

Lemma parsed_key uri bucket prefix :
  parseManifestURI quote uri = inr (bucket, prefix) ->
  uri = artifactURI bucket (Join [prefix; ManifestObjectName]).
Proof.
  intros (segs & Hne & _ & Hs & -> & -> & _)%parse_accepted.
  assert (Forall normal segs) as Hn by (eapply Forall_impl; [exact Hs|]; apply goodPart_normal).
  destruct (cleanFront_normal segs Hne Hn) as [Hr Hf].
  rewrite Join_normal, Hr, Hf, join_snoc by (done || apply manifest_normal). done.
Qed.

Lemma stripPrefix_Some p s t : stripPrefix p s = Some t -> s = p ++ t.
Proof.
  revert s. induction p as [|a p IH]; intros s; cbn [stripPrefix]; [by intros [= ->]|].
  destruct s as [|b s]; [done|]. case_bool_decide; [|done]. intros Ht. subst. cbn. f_equal. by apply IH.
Qed.

Lemma CutPrefix_Some p s t : CutPrefix p s = Some t -> s = p +:+ t.
Proof.
  unfold CutPrefix. intros (l & Hl%stripPrefix_Some & ->)%fmap_Some.
  rewrite <- (string_of_list_ascii_of_string s), Hl. clear Hl. induction p as [|c p IH]; [done|]. cbn. by rewrite IH.
Qed.

Lemma Cut_Some sep s a b : Cut sep s = Some (a, b) -> s = a +:+ String sep b.
Proof.
  revert a. induction s as [|c s IH]; intros a; [done|]. cbn [Cut]. case_bool_decide; [by intros [= <- <-]; subst|].
  destruct (Cut sep s) as [[x y]|]; [|done]. intros [= <- <-]. change (String c s = String c (x +:+ String sep y)). f_equal. by apply IH.
Qed.

(** A restore that an earlier release started reads the object its URI names,
    too. *)
Lemma started_key uri bucket prefix :
  startedManifestLocation quote uri = inr (bucket, prefix) -> uri = artifactURI bucket (Join [prefix; ManifestObjectName]).
Proof.
  unfold startedManifestLocation. destruct (CutPrefix "s3://" uri) as [rest|] eqn:E1; [|by destruct (default _ _)].
  apply CutPrefix_Some in E1. change (default uri (Some rest)) with rest.
  destruct (Cut chSlash rest) as [[b k]|] eqn:E2; [|done]. apply Cut_Some in E2. change (default (rest, "") (Some (b, k))) with (b, k).
  cbv beta iota. destruct (_ || _); [done|]. destruct (existsb _ _); [done|].
  destruct (bool_decide (Join [Dir k; ManifestObjectName] = k)) eqn:E3; cbn [negb]; [|done]. bool_simpl.
  intros [= <- <-]. rewrite E3, E1, E2. done.
Qed.

(** The object a manifest URI names is the object that is read for it: for
    every accepted URI, joining the prefix that parsing returns with
    manifest.json, as the Instance Manager does, gives back the key of the
    URI, unchanged by path cleaning. *)
Theorem parsed_key_is_read uri bucket prefix :
  parseManifestURI quote uri = inr (bucket, prefix) ->
  uri = artifactURI bucket (Join [prefix; ManifestObjectName]).
Proof. apply parsed_key. Qed.
End keys.

(** What [Clean] keeps: normal elements, after leading [..] of a relative
    path; last first. *)
Definition cleanKept (rooted : bool) (kept : list string) : Prop :=
  exists ns k, kept = ns ++ replicate k ".." /\ Forall normal ns /\ (rooted = true -> k = 0%nat).

Lemma normal_or_dots e : str_forall (fun c => c != chSlash) e = true -> e = "" \/ e = "." \/ e = ".." \/ normal e.
Proof.
  intros He. destruct (decide (e = "")), (decide (e = ".")), (decide (e = "..")); [tauto..|].
  right; right; right. by split_and!.
Qed.

Lemma cleanStep_kept rooted kept e : str_forall (fun c => c != chSlash) e = true ->
  cleanKept rooted kept -> cleanKept rooted (cleanStep rooted kept e).
Proof.
  intros He (ns & k & -> & Hn & Hk). destruct (normal_or_dots e He) as [->|[->|[->|Hx]]].
  - by exists ns, k.
  - by exists ns, k.
  - unfold cleanStep. rewrite !bool_decide_eq_false_2, bool_decide_eq_true_2 by done. cbn [orb].
    destruct ns as [|x ns]; [destruct k as [|k]|]; cbn [app replicate].
    + destruct rooted; [by exists [], 0%nat|by exists [], 1%nat].
    + rewrite bool_decide_eq_true_2 by done. exists [], (S (S k)). split_and!; [done|done|].
      intros Hr. specialize (Hk Hr). done.
    + apply Forall_cons in Hn as [(_ & _ & Hx & _) Hn]. rewrite bool_decide_eq_false_2 by done. by exists ns, k.
  - rewrite cleanStep_normal by done. exists (e :: ns), k. by split_and!; [|constructor|].
Qed.

Lemma Split_no_slash s : Forall (fun e => str_forall (fun c => c != chSlash) e = true) (Split chSlash s).
Proof.
  induction s as [|c s IH]; [by repeat constructor|]. cbn [Split]. destruct (bool_decide (c = chSlash)) eqn:E.
  - by constructor.
  - destruct IH as [|x xs Hx Hxs]; [by repeat constructor; cbn; rewrite E|].
    constructor; [|done]. cbn [str_forall]. by rewrite E, Hx.
Qed.

Lemma cleanFront_kept p : cleanKept (isRooted p) (rev (cleanFront p)).
Proof.
  unfold cleanFront. rewrite rev_involutive. generalize (isRooted p). intros rooted.
  pose proof (Split_no_slash p) as Hs. assert (cleanKept rooted []) as Hk by by exists [], 0%nat.
  revert Hk. generalize (@nil string). induction Hs as [|e es He _ IH]; intros kept Hk; [done|].
  cbn [fold_left]. apply IH. by apply cleanStep_kept.
Qed.

Lemma cleanDots k kept : Forall (eq "..") kept -> fold_left (cleanStep false) (replicate k "..") kept = replicate k ".." ++ kept.
Proof.
  revert kept. induction k as [|k IH]; intros kept Hk; [done|]. cbn [replicate fold_left].
  assert (cleanStep false kept ".." = ".." :: kept) as ->.
  { unfold cleanStep. rewrite !bool_decide_eq_false_2, bool_decide_eq_true_2 by done. cbn [orb].
    destruct Hk as [|x xs <- _]; [done|]. by rewrite bool_decide_eq_true_2. }
  rewrite IH by by constructor. by rewrite replicate_cons_app, <- app_assoc.
Qed.

Lemma Split_join_plain xs : xs <> [] -> Forall (fun e => str_forall (fun c => c != chSlash) e = true) xs ->
  Split chSlash (strJoin "/" xs) = xs.
Proof.
  intros Hne Hn. induction Hn as [|x xs Hx Hxs IH]; [done|]. destruct xs as [|y xs].
  - by apply Split_none.
  - rewrite strJoin_cons, Split_app, Split_none, IH by done. done.
Qed.

Lemma normal_plain x : normal x -> str_forall (fun c => c != chSlash) x = true.
Proof. by intros (_ & _ & _ & ?). Qed.

Lemma rev_replicate {A} k (x : A) : rev (replicate k x) = replicate k x.
Proof. induction k as [|k IH]; [done|]. cbn [replicate rev]. by rewrite IH, <- replicate_cons_app. Qed.

(** Cleaning what was cleaned changes nothing. *)
Lemma cleanFront_again p x : normal x ->
  let y := (if isRooted p then "/" else "") +:+ strJoin "/" (cleanFront p ++ [x]) in
  isRooted y = isRooted p /\ cleanFront y = cleanFront p ++ [x].
Proof.
  intros Hx. cbv zeta. destruct (cleanFront_kept p) as (ns & k & Hf & Hn & Hk).
  assert (cleanFront p = replicate k ".." ++ rev ns) as ->.
  { rewrite <- (rev_involutive (cleanFront p)), Hf, rev_app_distr. f_equal. apply rev_replicate. }
  set (els := (replicate k ".." ++ rev ns) ++ [x]).
  assert (Forall normal (rev ns ++ [x])) as Hall by (apply Forall_app; split; [by apply Forall_rev|by constructor]).
  assert (Forall (fun e => str_forall (fun c => c != chSlash) e = true) els) as Hpl.
  { unfold els. rewrite <- app_assoc. apply Forall_app. split; [by apply Forall_replicate|].
    eapply Forall_impl; [exact Hall|apply normal_plain]. }
  assert (els <> []) as Hne by (unfold els; by destruct (replicate k ".." ++ rev ns)).
  assert (forall rooted, (rooted = true -> k = 0%nat) -> fold_left (cleanStep rooted) els [] = rev els) as Hfold.
  { intros rooted Hr. unfold els. rewrite <- app_assoc, fold_left_app. destruct rooted.
    - rewrite Hr by done. cbn [replicate fold_left app]. rewrite cleanSteps_normal by done. by rewrite app_nil_r.
    - rewrite cleanDots by constructor. rewrite app_nil_r, cleanSteps_normal by done.
      by rewrite (rev_app_distr (replicate _ _)), rev_replicate. }
  destruct (isRooted p) eqn:Er.
  - change ("/" +:+ strJoin "/" els) with ("" +:+ "/" +:+ strJoin "/" els). split; [done|].
    unfold cleanFront. change (isRooted ("" +:+ "/" +:+ strJoin "/" els)) with true.
    rewrite (Split_app ""), Split_join_plain by done. cbn [Split app fold_left].
    change (cleanStep true [] "") with (@nil string). rewrite Hfold by auto. apply rev_involutive.
  - change ("" +:+ strJoin "/" els) with (strJoin "/" els).
    assert (isRooted (strJoin "/" els) = false) as Hr.
    { assert (Forall (.≠ "") els) as Hfull.
      { unfold els. rewrite <- app_assoc. apply Forall_app. split; [by apply Forall_replicate|].
        eapply Forall_impl; [exact Hall|]. by intros ? [??]. }
      clearbody els. destruct els as [|e els']; [done|]. apply Forall_cons in Hpl as [He _].
      apply Forall_cons in Hfull as [Hene _].
      assert (isRooted e = false) as Hre.
      { destruct e as [|c e]; [done|]. cbn [str_forall isRooted] in *. bool_simpl. by apply bool_decide_eq_false_2. }
      destruct els'; [done|]. rewrite strJoin_cons, isRooted_app by done. done. }
    split; [done|]. unfold cleanFront. rewrite Hr, Split_join_plain, Hfold by done. apply rev_involutive.
Qed.

Lemma Join_twice p x m : normal x -> normal m ->
  Join [Join [p; x]; m] = (if isRooted p then "/" else "") +:+ strJoin "/" (cleanFront p ++ [x; m]).
Proof.
  intros Hx Hm. rewrite (Join_normal (Join _)) by done. rewrite (Join_normal p x Hx).
  destruct (cleanFront_again p x Hx) as [-> ->]. by rewrite <- app_assoc.
Qed.

Lemma cleanFront_plain p : Forall (fun e => str_forall (fun c => c != chSlash) e = true) (cleanFront p).
Proof.
  destruct (cleanFront_kept p) as (ns & k & Hf & Hn & _). rewrite <- (rev_involutive (cleanFront p)), Hf.
  apply Forall_rev, Forall_app. split; [eapply Forall_impl; [exact Hn|apply normal_plain]|by apply Forall_replicate].
Qed.

(** The elements of the URI of an object whose key is a prefix, an element and
    the name of the object. *)
Definition uriHead (bucket p : string) : list string :=
  ["s3:"; ""] ++ Split chSlash bucket ++ (if isRooted p then [""] else []) ++ cleanFront p.

Lemma artifact_elements bucket p x : normal x ->
  Split chSlash (artifactURI bucket (Join [Join [p; x]; ManifestObjectName])) = uriHead bucket p ++ [x; ManifestObjectName].
Proof.
  intros Hx. unfold uriHead. rewrite Join_twice by (done || apply manifest_normal). unfold artifactURI.
  change ("s3://" +:+ ?s) with ("s3:" +:+ "/" +:+ "" +:+ "/" +:+ s). rewrite !Split_app.
  assert (Split chSlash (strJoin "/" (cleanFront p ++ [x; ManifestObjectName])) = cleanFront p ++ [x; ManifestObjectName]) as Hs.
  { apply Split_join_plain; [by destruct (cleanFront p)|]. apply Forall_app. split; [apply cleanFront_plain|].
    repeat constructor; by apply normal_plain. }
  destruct (isRooted p).
  - change ("/" +:+ ?s) with ("" +:+ "/" +:+ s). rewrite Split_app, Hs, <- !app_assoc. done.
  - change ("" +:+ ?s) with s. rewrite Hs, <- !app_assoc. done.
Qed.

Lemma manifestURI_join b segs : segs <> [] -> manifestURI b segs = strJoin "/" (["s3:"; ""; b] ++ segs ++ [ManifestObjectName]).
Proof.
  intros Hne. unfold manifestURI. cbn [app]. rewrite !strJoin_cons, join_snoc by (done || by destruct segs). done.
Qed.

Lemma manifestURI_elements b segs : goodBucket b -> segs <> [] -> Forall goodPart segs ->
  Split chSlash (manifestURI b segs) = ["s3:"; ""; b] ++ segs ++ [ManifestObjectName].
Proof.
  intros [Hb _] Hne Hs. rewrite manifestURI_join by done. apply Split_join_plain; [done|].
  repeat (constructor; [done|]). constructor; [by apply no_slash_str, bucket_no_slash|].
  apply Forall_app. split; [|by repeat constructor].
  eapply Forall_impl; [exact Hs|]. intros y Hy. by apply normal_plain, goodPart_normal.
Qed.

Lemma manifestURI_count b segs x y : goodBucket b -> List.length (runes x) = List.length (runes y) ->
  RuneCountInString (manifestURI b (segs ++ [x])) = RuneCountInString (manifestURI b (segs ++ [y])).
Proof.
  intros [Hb%bucketShape_ascii _] Hl. unfold RuneCountInString.
  rewrite !manifestURI_runes by (done || by destruct segs). unfold slashed.
  rewrite !fmap_app, !bind_app, !length_app. cbn. rewrite !app_nil_r. lia.
Qed.

(** The last element of a prefix can be exchanged for one as long. *)
Lemma accepted_exchange bucket p x y b pre :
  goodPart x -> goodPart y -> List.length (runes x) = List.length (runes y) ->
  accepted (artifactURI bucket (Join [Join [p; x]; ManifestObjectName])) b pre ->
  exists segs, accepted (artifactURI bucket (Join [Join [p; y]; ManifestObjectName])) b (strJoin "/" (segs ++ [y])).
Proof.
  intros Hx Hy Hl (segs & Hne & Hb & Hs & -> & Hu & Hlen). pose proof (artifact_elements bucket p) as Hh.
  pose proof (Hh x (goodPart_normal x Hx)) as Hex. rewrite Hu, manifestURI_elements in Hex by done.
  destruct segs as [|z segs _] using rev_ind; [done|]. rewrite <- app_assoc in Hex. cbn [app] in Hex.
  change (["s3:"; ""; b] ++ segs ++ [z; ManifestObjectName] = uriHead bucket p ++ [x; ManifestObjectName]) in Hex.
  rewrite app_assoc in Hex. apply app_inj_2 in Hex as [Hhead Hz]; [|done]. simplify_eq.
  apply Forall_app in Hs as [Hs _]. exists segs, (segs ++ [y]).
  assert (artifactURI bucket (Join [Join [p; y]; ManifestObjectName]) = manifestURI b (segs ++ [y])) as Huy.
  { rewrite <- (join_Split (artifactURI _ _)), (Hh y (goodPart_normal y Hy)), manifestURI_join, <- Hhead by by destruct segs.
    by rewrite <- !app_assoc. }
  split_and!; [by destruct segs|done| |done|done|].
  - apply Forall_app. split; [done|by apply Forall_singleton].
  - rewrite Huy, (manifestURI_count b segs y x) by done. by rewrite <- Hu.
Qed.

(** ** The identity of an upload *)

Lemma hexDigit_code n : (n < 16)%N -> isLowerDigit (N_of_ascii (hexDigit n)) = true.
Proof.
  intros Hn. unfold hexDigit, isLowerDigit, in_range. rewrite N_ascii_embedding by (destruct (N.ltb n 10); lia).
  destruct (N.ltb_spec n 10); apply orb_true_iff; [right|left]; apply andb_true_iff; rewrite !N.leb_le; lia.
Qed.

Lemma bytesOf_length s : List.length (bytesOf s) = String.length s.
Proof. unfold bytesOf. rewrite length_fmap. induction s as [|c s IH]; [done|]. cbn. by rewrite IH. Qed.

Lemma bytesOf_list l : bytesOf (string_of_list_ascii l) = N_of_ascii <$> l.
Proof. unfold bytesOf. by rewrite list_ascii_of_string_of_list_ascii. Qed.

Lemma EncodeToString_bytes id : Forall (fun b => (b < 256)%N) id ->
  all isLowerDigit (bytesOf (EncodeToString id)) /\ List.length (bytesOf (EncodeToString id)) = (2 * List.length id)%nat.
Proof.
  unfold EncodeToString. rewrite bytesOf_list. induction 1 as [|b id Hb _ [IH1 IH2]]; [done|].
  cbn [mbind list_bind app fmap list_fmap List.length] in *. split; [|cbn in *; lia].
  pose proof (N.mod_lt b 16 ltac:(done)). assert (N.div b 16 < 16)%N by (apply N.Div0.div_lt_upper_bound; lia).
  constructor; [by apply hexDigit_code|]. constructor; [by apply hexDigit_code|done].
Qed.

Lemma attempt_good id : isAttemptBytes id = true ->
  goodPart ("attempt-" +:+ EncodeToString id) /\
  List.length (runes ("attempt-" +:+ EncodeToString id)) = 40%nat /\
  String.length ("attempt-" +:+ EncodeToString id) = 40%nat.
Proof.
  unfold isAttemptBytes. intros [Hn%Nat.eqb_eq Hb]%andb_true_iff.
  rewrite forallb_forall in Hb.
  destruct (EncodeToString_bytes id) as [Ha Hl].
  { apply Forall_forall. intros b Hin%list_elem_of_In. by apply N.ltb_lt, Hb. }
  rewrite Hn in Hl. change (2 * (BackupAttemptIDLength / 2))%nat with 32%nat in Hl.
  assert (asciiOnly ("attempt-" +:+ EncodeToString id)) as Hasc.
  { unfold asciiOnly. rewrite bytesOf_app. apply Forall_app. split; [by vm_compute; repeat constructor|].
    eapply Forall_impl; [exact Ha|]. cbn beta. unfold isLowerDigit, in_range. intros c Hc.
    rewrite orb_true_iff, !andb_true_iff, !N.leb_le in Hc. lia. }
  rewrite runes_ascii by done. split_and!.
  - unfold goodPart, goodSegment. rewrite runes_ascii by done. rewrite bytesOf_app. split_and!; [done..|].
    apply Forall_app. split; [by vm_compute; repeat constructor|]. eapply Forall_impl; [exact Ha|].
    cbn beta. intros c Hc. unfold isLowerDigit, in_range in Hc.
    rewrite orb_true_iff, !andb_true_iff, !N.leb_le in Hc.
    unfold isSegmentChar, isSpaceClass, isCntrlClass, in_range, slash.
    rewrite negb_true_iff, !orb_false_iff, !andb_false_iff, !N.eqb_neq, !N.leb_gt. lia.
  - rewrite bytesOf_app, length_app, Hl. done.
  - by rewrite <- bytesOf_length, bytesOf_app, length_app, Hl.
Qed.

Lemma str_length_app s t : String.length (s +:+ t) = (String.length s + String.length t)%nat.
Proof. by rewrite <- !bytesOf_length, bytesOf_app, length_app. Qed.

Lemma join_two_length front x y m : String.length x = String.length y ->
  String.length (strJoin "/" (front ++ [x; m])) = String.length (strJoin "/" (front ++ [y; m])).
Proof.
  intros Hl. change [x; m] with ([x] ++ [m]). change [y; m] with ([y] ++ [m]). rewrite !app_assoc.
  rewrite !(join_snoc _ m) by by destruct front. rewrite !str_length_app. f_equal.
  destruct front as [|z front]; [done|]. rewrite !join_snoc, !str_length_app by done. lia.
Qed.

Lemma artifactKey_length p x y : normal x -> normal y -> String.length x = String.length y ->
  String.length (Join [Join [p; x]; ManifestObjectName]) = String.length (Join [Join [p; y]; ManifestObjectName]).
Proof.
  intros Hx Hy Hl. rewrite !Join_twice by (done || apply manifest_normal). rewrite !str_length_app.
  by rewrite (join_two_length _ x y).
Qed.

Section refusal.
Context (quote : string -> string) (backup : CubridBackup) (cluster : CubridCluster).

Lemma artifactKey_eq p id : artifactKey p id = Join [Join [p; "attempt-" +:+ id]; ManifestObjectName].
Proof. done. Qed.

Lemma preflight_attempt : Repeat "0" BackupAttemptIDLength = EncodeToString (replicate 16 0%N).
Proof. by vm_compute. Qed.

Lemma refusal_none store : bp_ObjectStorage (bk_Spec backup) = Some store ->
  backupDestinationRefusal quote backup cluster = "" ->
  let key := artifactKey (backupArtifactPrefix store backup cluster) (Repeat "0" BackupAttemptIDLength) in
  (exists location, parseManifestURI quote (artifactURI (od_Bucket store) key) = inr location) /\
  (1024 <? String.length key)%nat = false.
Proof.
  unfold backupDestinationRefusal. intros ->. cbv zeta.
  generalize (artifactKey (backupArtifactPrefix store backup cluster) (Repeat "0" BackupAttemptIDLength)). intros key.
  destruct (parseManifestURI _ _) as [|location]; [done|]. generalize (1024 <? String.length key)%nat.
  intros [|]; [done|]. eauto.
Qed.

(** The admission of a backup covers the artifact it will write: when the
    destination is not refused, the manifest of every attempt - whatever the
    16 random bytes the uploader draws - has a URI that a recovery accepts and
    a key within the 1024 bytes of an object store, although the check ran on
    a placeholder. *)
Theorem admitted_destination_recoverable store id :
  bp_ObjectStorage (bk_Spec backup) = Some store ->
  backupDestinationRefusal quote backup cluster = "" ->
  isAttemptBytes id = true ->
  let key := artifactKey (backupArtifactPrefix store backup cluster) (EncodeToString id) in
  (exists location, parseManifestURI quote (artifactURI (od_Bucket store) key) = inr location) /\
  (String.length key <= 1024)%nat.
Proof.
  intros Hst Href Hid. cbv zeta. destruct (refusal_none store Hst Href) as [[[b pre] Ep] Hk].
  apply Nat.ltb_ge in Hk. rewrite preflight_attempt, artifactKey_eq in Ep, Hk. rewrite artifactKey_eq.
  destruct (attempt_good id Hid) as (Hg & Hr & Hl).
  destruct (attempt_good (replicate 16 0%N)) as (Hg0 & Hr0 & Hl0); [by vm_compute|].
  revert Ep Hk Hg0 Hr0 Hl0. generalize (EncodeToString (replicate 16 0%N)). intros x Ep Hk Hg0 Hr0 Hl0.
  rewrite (artifactKey_length _ _ ("attempt-" +:+ x)) by (by apply goodPart_normal || congruence).
  split; [|exact Hk]. apply parse_accepted in Ep.
  apply (accepted_exchange _ _ _ ("attempt-" +:+ EncodeToString id)) in Ep as [segs Hacc]; [|done|done|congruence].
  eexists. by apply parse_accepts.
Qed.
End refusal.

(** ** Examples *)

Module ArtifactExample.
Definition cluster : CubridCluster :=
  mkCluster "c" "ns" "u1" 1 (mkSpec "11.4" ["db"] 3 true None (Some (mkObjectStorage "s3.local" "" false "" "" "s3")))
    (mkStatus 1 "" [] [] [] None "" None None).
Definition store : ObjectStorageDestination := mkDestinationStore "backups" "daily".
Definition backup : CubridBackup :=
  mkBackup "ns" "b" "u2" 1 0 (mkBackupSpec "c" "db" "PreferStandby" DestinationObjectStorage (Some store)) zeroBackupStatus.
Definition id : list N := N.of_nat <$> seq 3 16.
End ArtifactExample.

Lemma parsed_key_is_read_witness :
  "s3://backups/daily/u1/manifest.json" = artifactURI "backups" (Join ["daily/u1"; ManifestObjectName]).
Proof. apply (parsed_key_is_read quoted). by vm_compute. Defined.

Lemma admitted_destination_recoverable_witness :
  let key := artifactKey (backupArtifactPrefix ArtifactExample.store ArtifactExample.backup ArtifactExample.cluster)
    (EncodeToString ArtifactExample.id) in
  key = "daily/u1/db/u2/attempt-030405060708090a0b0c0d0e0f101112/manifest.json" /\
  exists location, parseManifestURI quoted (artifactURI "backups" key) = inr location.
Proof.
  split; [by vm_compute|].
  destruct (admitted_destination_recoverable quoted ArtifactExample.backup ArtifactExample.cluster
    ArtifactExample.store ArtifactExample.id) as [H _]; [by vm_compute..|exact H].
Defined.
