(* ===== verification/Paths.v ===== *)
(** * Paths of the Instance Manager

    What [restore.go] and [server.go] use of Go's [filepath] package besides
    the [path] functions of ManifestURI.v, and the clean absolute paths: those
    that [Clean] leaves as they are name their elements one for one. *)
From stdpp Require Import prelude strings list.
From Stdlib Require Import Ascii String.
From S2P Require Import Prelude GoStr ManifestURI.

(** [strings.HasPrefix] *)
Definition HasPrefix (s p : string) : bool := non_nil (CutPrefix p s).

(** The first element that is not empty, or the root. *)
Fixpoint firstNamed (l : list string) : string :=
  match l with [] => "/" | e :: rest => if e == "" then firstNamed rest else e end.
(** [filepath.Base]: trailing slashes do not count. *)
Definition Base (p : string) : string := if p == "" then "." else firstNamed (rev (Split chSlash p)).

(** [filepath.Rel] of two absolute paths, the only ones it is asked for: the
    elements they share, then up from the base and down to the target. *)
Fixpoint afterShared (base targ : list string) : list string * list string :=
  match base, targ with
  | b :: base', t :: targ' => if b == t then afterShared base' targ' else (base, targ)
  | _, _ => (base, targ)
  end.
Definition Rel (base targ : string) : string :=
  let '(up, down) := afterShared (cleanFront base) (cleanFront targ) in
  let rel := strJoin "/" (replicate (List.length up) ".." ++ down) in
  if rel == "" then "." else rel.

(** within (restore.go) *)
Definition within (target dir : string) : bool :=
  let rel := Rel dir target in
  (rel != "..") && negb (HasPrefix rel "../").

(** ** Clean absolute paths *)

Definition absPath (xs : list string) : string := "/" +:+ strJoin "/" xs.

Lemma strJoin_empty xs : Forall normal xs -> strJoin "/" xs = "" -> xs = [].
Proof.
  intros [|x ys Hx _]; [done|]. destruct Hx as (Hne & _). destruct ys; [done|]. rewrite strJoin_cons by done. by destruct x.
Qed.

Lemma absPath_Split xs : xs <> [] -> Forall normal xs -> Split chSlash (absPath xs) = "" :: xs.
Proof.
  intros Hne Hn. unfold absPath. change ("/" +:+ ?s) with ("" +:+ "/" +:+ s). by rewrite Split_app, Split_join.
Qed.

Lemma absPath_front xs : Forall normal xs -> cleanFront (absPath xs) = xs.
Proof.
  intros Hn. destruct (decide (xs = [])) as [->|Hne]; [done|]. unfold cleanFront. rewrite absPath_Split by done.
  change (isRooted (absPath xs)) with true. cbn [fold_left]. change (cleanStep true [] "") with (@nil string).
  rewrite cleanSteps_normal, app_nil_r, rev_involutive by done. done.
Qed.

Lemma Clean_front p : Clean p = if isRooted p then absPath (cleanFront p)
  else if strJoin "/" (cleanFront p) == "" then "." else strJoin "/" (cleanFront p).
Proof. done. Qed.

Lemma absPath_Clean xs : Forall normal xs -> Clean (absPath xs) = absPath xs.
Proof. intros Hn. rewrite Clean_front. change (isRooted (absPath xs)) with true. by rewrite absPath_front. Qed.

Lemma absPath_inj xs ys : Forall normal xs -> Forall normal ys -> absPath xs = absPath ys -> xs = ys.
Proof. intros Hx Hy E. rewrite <- (absPath_front xs), <- (absPath_front ys) by done. by f_equal. Qed.

(** What is kept of an absolute path. *)
Lemma rooted_front p : isRooted p = true -> Forall normal (cleanFront p).
Proof.
  intros Hr. destruct (cleanFront_kept p) as (ns & k & Hf & Hn & Hk). rewrite (Hk Hr), app_nil_r in Hf.
  rewrite <- (rev_involutive (cleanFront p)), Hf. by apply Forall_rev.
Qed.

Lemma clean_absolute p : isRooted p = true -> Clean p = p -> p = absPath (cleanFront p) /\ Forall normal (cleanFront p).
Proof. intros Hr Hc. split; [|by apply rooted_front]. rewrite <- Hc at 1. by rewrite Clean_front, Hr. Qed.

Lemma rooted_Clean p : isRooted p = true -> Clean p = absPath (cleanFront p) /\ Forall normal (cleanFront p).
Proof. intros Hr. rewrite Clean_front, Hr. split; [done|by apply rooted_front]. Qed.

Lemma absPath_root xs : Forall normal xs -> absPath xs = "/" <-> xs = [].
Proof.
  intros Hn. split; [|by intros ->]. intros E. apply (strJoin_empty xs Hn). unfold absPath in E. by injection E.
Qed.

Lemma absPath_Dir xs x : Forall normal xs -> normal x -> Dir (absPath (xs ++ [x])) = absPath xs.
Proof.
  intros Hn Hx. assert (Forall normal (xs ++ [x])) as Hall by (apply Forall_app; split; [done|by constructor]).
  unfold Dir, dirPart. rewrite absPath_Split by (done || by destruct xs). cbn [rev]. rewrite rev_app_distr. cbn [rev app].
  destruct (rev xs ++ [""]) as [|e l] eqn:E; [by destruct (rev xs)|].
  rewrite <- E, rev_app_distr, rev_involutive. cbn [rev app].
  destruct (decide (xs = [])) as [->|Hne]; [done|]. rewrite strJoin_cons by done.
  change ("" +:+ "/" +:+ ?s) with ("/" +:+ s). rewrite str_app_assoc. change (strJoin "/" xs +:+ "/") with (strJoin "/" xs +:+ "/" +:+ "").
  rewrite <- join_snoc by done. rewrite Clean_front. change (isRooted ("/" +:+ _)) with true. f_equal.
  unfold cleanFront. change (isRooted ("/" +:+ _)) with true.
  change ("/" +:+ strJoin "/" (xs ++ [""])) with ("" +:+ "/" +:+ strJoin "/" (xs ++ [""])). rewrite Split_app.
  rewrite Split_join_plain; [|by destruct xs|].
  2:{ apply Forall_app. split; [eapply Forall_impl; [exact Hn|apply normal_plain]|by repeat constructor]. }
  cbn [Split app fold_left]. change (cleanStep true [] "") with (@nil string). rewrite fold_left_app, (cleanSteps_normal _ xs) by done.
  cbn [fold_left]. rewrite app_nil_r. change (cleanStep true (rev xs) "") with (rev xs). by rewrite rev_involutive.
Qed.

Lemma absPath_Base xs x : Forall normal xs -> normal x -> Base (absPath (xs ++ [x])) = x.
Proof.
  intros Hn Hx. unfold Base. rewrite bool_decide_eq_false_2 by done.
  rewrite absPath_Split; [|by destruct xs|apply Forall_app; split; [done|by constructor]].
  cbn [rev]. rewrite rev_app_distr. cbn [rev app firstNamed]. by rewrite bool_decide_eq_false_2 by apply Hx.
Qed.

Lemma absPath_Join xs x : Forall normal xs -> normal x -> Join [absPath xs; x] = absPath (xs ++ [x]).
Proof. intros Hn Hx. rewrite Join_normal by done. change (isRooted (absPath xs)) with true. by rewrite absPath_front. Qed.

(** A path directly below another. *)
Lemma directly_below p root : isRooted p = true -> Clean p = p -> Dir p = root -> p <> "/" ->
  exists xs x, Forall normal xs /\ normal x /\ p = absPath (xs ++ [x]) /\ root = absPath xs /\ Base p = x.
Proof.
  intros Hr Hc Hd Hne. destruct (clean_absolute p Hr Hc) as [E Hn]. revert E Hn.
  generalize (cleanFront p). intros xs -> Hn. destruct xs as [|x xs _] using rev_ind; [done|].
  apply Forall_app in Hn as [Hn [Hx _]%Forall_cons]. rewrite absPath_Dir in Hd by done. exists xs, x.
  by rewrite absPath_Base.
Qed.

Lemma afterShared_spec base targ : exists shared, let '(up, down) := afterShared base targ in
  base = shared ++ up /\ targ = shared ++ down /\ (up = [] \/ down = [] \/ head up <> head down).
Proof.
  revert targ. induction base as [|b base IH]; intros targ; [by exists []; split_and!; auto|].
  destruct targ as [|t targ]; [by exists []; split_and!; auto|]. cbn [afterShared]. case_bool_decide as E.
  - subst t. destruct (IH targ) as [shared H]. exists (b :: shared). destruct (afterShared base targ) as [up down].
    destruct H as (-> & -> & H). done.
  - exists []. split_and!; [done|done|]. right; right. cbn. congruence.
Qed.

Lemma HasPrefix_iff s p : HasPrefix s p = true <-> exists t, s = p +:+ t.
Proof.
  unfold HasPrefix, non_nil, is_nil. split.
  - destruct (CutPrefix p s) as [t|] eqn:E; [|done]. intros _. exists t. by apply CutPrefix_Some.
  - intros [t ->]. by rewrite CutPrefix_app.
Qed.

(** [within] is the order of the directories. *)
Lemma within_iff xs ys : Forall normal xs -> Forall normal ys -> within (absPath xs) (absPath ys) = true <-> ys `prefix_of` xs.
Proof.
  intros Hx Hy. unfold within, Rel. rewrite !absPath_front by done. destruct (afterShared_spec ys xs) as [shared H].
  destruct (afterShared ys xs) as [up down]. destruct H as (-> & -> & H). apply Forall_app in Hx as [Hs Hdown].
  destruct up as [|u up]; cbn [replicate List.length app].
  - rewrite app_nil_r. split; [intros _; by exists down|]. intros _.
    destruct (strJoin "/" down == "") eqn:E; [done|]. destruct Hdown as [|d ds Hd Hds]; [done|].
    apply andb_true_iff. split; apply negb_true_iff; [apply bool_decide_eq_false|apply not_true_iff_false].
    + intros Ed. pose proof (Split_join (d :: ds) ltac:(done) ltac:(by constructor)) as Hsp. rewrite Ed in Hsp.
      injection Hsp as <- _. by destruct Hd as (_ & _ & ? & _).
    + intros [t Et]%HasPrefix_iff. pose proof (Split_join (d :: ds) ltac:(done) ltac:(by constructor)) as Hsp.
      rewrite Et in Hsp. change ("../" +:+ t) with (".." +:+ "/" +:+ t) in Hsp. rewrite Split_app in Hsp. cbn in Hsp.
      injection Hsp as <- _. by destruct Hd as (_ & _ & ? & _).
  - split.
    + intros Hw. exfalso. apply andb_true_iff in Hw as [H1 H2]. destruct (replicate (List.length up) ".." ++ down) as [|e l] eqn:E; [done|].
      rewrite strJoin_cons in H1, H2 by done. rewrite bool_decide_eq_false_2 in H2 by done.
      apply negb_true_iff, not_true_iff_false in H2. apply H2, HasPrefix_iff. by eexists.
    + intros [rest Hrest]. rewrite <- app_assoc in Hrest. apply app_inv_head in Hrest. subst down.
      destruct H as [?|[?|H]]; [done|done|]. by cbn in H.
Qed.

(** ** Clean relative paths *)

(** What [Clean] keeps of a relative path, cleaned again. *)
Lemma relative_front k ns : Forall normal ns -> replicate k ".." ++ ns <> [] ->
  isRooted (strJoin "/" (replicate k ".." ++ ns)) = false /\
  cleanFront (strJoin "/" (replicate k ".." ++ ns)) = replicate k ".." ++ ns.
Proof.
  intros Hn Hne.
  assert (Forall (fun e => str_forall (fun c => c != chSlash) e = true) (replicate k ".." ++ ns)) as Hpl
    by (apply Forall_app; split; [by apply Forall_replicate|eapply Forall_impl; [exact Hn|apply normal_plain]]).
  assert (isRooted (strJoin "/" (replicate k ".." ++ ns)) = false) as Hr.
  { destruct k as [|k]; [by apply cleanFront_normal|]. cbn [replicate app].
    destruct (replicate k ".." ++ ns); [done|by rewrite strJoin_cons]. }
  split; [done|]. unfold cleanFront. rewrite Hr, Split_join_plain, fold_left_app, cleanDots by (done || constructor).
  rewrite app_nil_r, cleanSteps_normal by done. by rewrite rev_app_distr, rev_involutive, rev_replicate.
Qed.

Lemma front_kept p : exists k ns, cleanFront p = replicate k ".." ++ ns /\ Forall normal ns.
Proof.
  destruct (cleanFront_kept p) as (ns & k & Hf & Hn & _). exists k, (rev ns). split; [|by apply Forall_rev].
  by rewrite <- (rev_involutive (cleanFront p)), Hf, rev_app_distr, rev_replicate.
Qed.

(** A clean relative path is its elements, except for the empty one. *)
Lemma clean_relative p : isRooted p = false -> Clean p = p -> p <> "." -> cleanFront p <> [] /\ p = strJoin "/" (cleanFront p).
Proof.
  intros Hr Hc Hd. rewrite Clean_front, Hr in Hc. destruct (strJoin "/" (cleanFront p) == "") eqn:E; [by subst p|].
  split; [|done]. intros Hn. by rewrite Hn in E.
Qed.

Lemma join_front_nonempty p : cleanFront p <> [] -> strJoin "/" (cleanFront p) <> "".
Proof.
  destruct (front_kept p) as (k & ns & -> & Hn). destruct k as [|k]; cbn [replicate app].
  - intros Hne E. by apply Hne, strJoin_empty.
  - intros _. destruct (replicate k ".." ++ ns); [done|]. by rewrite strJoin_cons.
Qed.

Lemma Clean_rooted p : isRooted (Clean p) = isRooted p.
Proof.
  rewrite Clean_front. destruct (isRooted p); [done|]. case_bool_decide as E; [done|].
  destruct (front_kept p) as (k & ns & Hf & Hn). rewrite Hf in *. apply relative_front; [done|]. intros Hne. by rewrite Hne in E.
Qed.

Lemma Clean_idem p : Clean (Clean p) = Clean p.
Proof.
  rewrite (Clean_front p). destruct (isRooted p) eqn:Er; [by apply absPath_Clean, rooted_front|].
  case_bool_decide as E; [done|]. destruct (front_kept p) as (k & ns & Hf & Hn). rewrite Hf in *.
  destruct (relative_front k ns Hn) as [Hr Hf']; [intros Hne; by rewrite Hne in E|].
  rewrite Clean_front, Hr, Hf'. by rewrite bool_decide_eq_false_2.
Qed.

Lemma dirPart_prefix p : exists q, p = dirPart p +:+ q.
Proof.
  unfold dirPart. destruct (rev (Split chSlash p)) as [|x [|y l]] eqn:E; [by exists p..|].
  exists x. rewrite <- (join_Split p), <- (rev_involutive (Split chSlash p)), E. cbn [rev]. rewrite join_snoc by by destruct (rev l).
  by rewrite str_app_assoc.
Qed.

Lemma Dir_rooted p : isRooted (Dir p) = true -> isRooted p = true.
Proof. unfold Dir. rewrite Clean_rooted. destruct (dirPart_prefix p) as [q Hq]. rewrite Hq at 2. by destruct (dirPart p). Qed.

(** ** Joined paths *)

Lemma joinSteps buf xs : buf <> "" -> Forall normal xs -> fold_left joinStep xs buf = strJoin "/" (buf :: xs).
Proof.
  intros Hb Hn. revert buf Hb. induction Hn as [|x xs Hx _ IH]; intros buf Hb; [done|]. cbn [fold_left].
  unfold joinStep at 2. rewrite !(bool_decide_eq_false_2 _ Hb). cbn [negb orb].
  rewrite IH by (by destruct buf). destruct xs as [|y xs]; [done|]. by rewrite !strJoin_cons, !str_app_assoc by done.
Qed.

(** Joining plain elements to a path. *)
Lemma Join_normals p xs : xs <> [] -> Forall normal xs ->
  Join (p :: xs) = (if isRooted p then "/" else "") +:+ strJoin "/" (cleanFront p ++ xs).
Proof.
  intros Hne Hn. destruct Hn as [|x xs Hx Hn]; [done|]. destruct Hx as (Hx0 & Hx1). assert (normal x) as Hx by done.
  assert (Forall normal (x :: xs)) as Hall by by constructor.
  assert (strJoin "/" (x :: xs) <> "") as Hj by (intros E; by apply strJoin_empty in E).
  unfold Join. destruct (decide (p = "")) as [->|Hp].
  - cbn [fold_left]. assert (joinStep (joinStep "" "") x = x) as ->.
    { unfold joinStep. by rewrite bool_decide_eq_true_2, (bool_decide_eq_false_2 _ Hx0). }
    rewrite joinSteps by done. rewrite (bool_decide_eq_false_2 _ Hj).
    destruct (cleanFront_normal (x :: xs)) as [Hr Hf]; [done|done|]. rewrite Clean_front, Hr, Hf.
    by rewrite (bool_decide_eq_false_2 _ Hj).
  - cbn [fold_left]. assert (joinStep "" p = p) as -> by (unfold joinStep; by rewrite bool_decide_eq_true_2, (bool_decide_eq_false_2 _ Hp)).
    change (fold_left joinStep xs (joinStep p x)) with (fold_left joinStep (x :: xs) p). rewrite joinSteps, strJoin_cons by done.
    rewrite bool_decide_eq_false_2 by by destruct p. rewrite Clean_front, isRooted_app by done.
    assert (cleanFront (p +:+ "/" +:+ strJoin "/" (x :: xs)) = cleanFront p ++ x :: xs) as ->.
    { unfold cleanFront. rewrite isRooted_app, Split_app, fold_left_app, Split_join, cleanSteps_normal by done.
      by rewrite rev_app_distr, rev_involutive. }
    destruct (isRooted p); [done|]. rewrite bool_decide_eq_false_2; [done|].
    destruct (front_kept p) as (k & ns & -> & Hns). intros E. destruct k as [|k]; cbn [replicate app] in E.
    + apply strJoin_empty in E; [by destruct ns|]. by apply Forall_app.
    + destruct (_ ++ x :: xs) as [|y ys]; [done|]. by rewrite strJoin_cons in E.
Qed.

(** A key prefix of plain elements is clean and stays below its bucket. *)
Lemma plain_prefix xs : xs <> [] -> Forall normal xs ->
  isRooted (strJoin "/" xs) = false /\ Clean (strJoin "/" xs) = strJoin "/" xs /\ strJoin "/" xs <> "" /\ strJoin "/" xs <> ".." /\
  HasPrefix (strJoin "/" xs) "../" = false.
Proof.
  intros Hne Hn. destruct (cleanFront_normal xs Hne Hn) as [Hr Hf].
  assert (strJoin "/" xs <> "") as Hj by (intros E; by apply strJoin_empty in E).
  pose proof (Split_join xs Hne Hn) as Hs. split_and!; [done| |done| |].
  - rewrite Clean_front, Hr, Hf. by rewrite (bool_decide_eq_false_2 _ Hj).
  - intros E. rewrite E in Hs. subst xs. apply Forall_cons in Hn as [(_ & _ & Hd & _) _]. done.
  - apply not_true_iff_false. intros [t E]%HasPrefix_iff. rewrite E in Hs.
    change ("../" +:+ t) with (".." +:+ "/" +:+ t) in Hs. rewrite Split_app in Hs. cbn in Hs. subst xs.
    apply Forall_cons in Hn as [(_ & _ & Hd & _) _]. done.
Qed.
