(* ===== verification/Manifest.v ===== *)
(** * The manifest of a backup artifact

    [internal/instancemanager/manifest.go]: the record of what an artifact
    holds, what a restore requires of it, and the keys it may name. *)
From stdpp Require Import prelude strings pretty list.
From Stdlib Require Import Ascii String.
From S2P Require Import Prelude GoStr Utf8 Api Engine HARole ManifestURI Paths.

Definition ManifestVersion : Z := 1.

Record ManifestObject := mkObject { mo_Key : string; mo_SizeBytes : Z; mo_SHA256 : string }.
Record BackupManifest := mkManifest {
  mf_ManifestVersion : Z; mf_Database : string; mf_ClusterUID : string; mf_CubridVersion : string; mf_Level : Z;
  mf_SourceInstance : string; mf_SourceRole : string; mf_CreatedAt : string; mf_OperationID : string;
  mf_Objects : list ManifestObject }.
#[global] Instance ManifestObject_eq_dec : EqDecision ManifestObject.
Proof. solve_decision. Defined.
#[global] Instance BackupManifest_eq_dec : EqDecision BackupManifest.
Proof. solve_decision. Defined.

(** The manifest with its version and its objects set. *)
Definition withObjects (objects : list ManifestObject) (m : BackupManifest) : BackupManifest :=
  mkManifest ManifestVersion (mf_Database m) (mf_ClusterUID m) (mf_CubridVersion m) (mf_Level m) (mf_SourceInstance m)
    (mf_SourceRole m) (mf_CreatedAt m) (mf_OperationID m) objects.

(** TotalSize: an int64 sum. *)
Definition TotalSize (m : BackupManifest) : Z := fold_left (fun n o => wrap64 (n + mo_SizeBytes o)) (mf_Objects m) 0.

Record ManifestExpectation := mkExpectation {
  ex_Database : string; ex_CubridVersion : string; ex_Level : option Z; ex_RequireSourceRole : string;
  ex_SourceInstance : string; ex_ClusterUID : string }.

Section manifest.
Context (quote : string -> string).

Definition Verify (m : BackupManifest) (exp : ManifestExpectation) : option string :=
  let series := EngineSeries (mf_CubridVersion m) in
  if mf_ManifestVersion m != ManifestVersion
  then Some ("manifest version " +:+ pretty (mf_ManifestVersion m) +:+ " does not match supported " +:+ pretty ManifestVersion)
  else if (ex_Database exp != "") && (mf_Database m != ex_Database exp)
  then Some ("manifest database " +:+ quote (mf_Database m) +:+ " does not match expected " +:+ quote (ex_Database exp))
  else if (ex_CubridVersion exp != "") && ((series == "") || (series != EngineSeries (ex_CubridVersion exp)))
  then Some ("manifest cubridVersion " +:+ quote (mf_CubridVersion m) +:+ " is not of the series of " +:+ quote (ex_CubridVersion exp))
  else if match ex_Level exp with Some level => mf_Level m != level | None => false end
  then Some ("manifest level " +:+ pretty (mf_Level m) +:+ " does not match expected " +:+ pretty (default 0 (ex_Level exp)))
  else if (ex_RequireSourceRole exp != "") && (mf_SourceRole m != ex_RequireSourceRole exp)
  then Some ("manifest sourceRole " +:+ quote (mf_SourceRole m) +:+ " does not match required " +:+ quote (ex_RequireSourceRole exp))
  else if (ex_SourceInstance exp != "") && (mf_SourceInstance m != ex_SourceInstance exp)
  then Some ("manifest sourceInstance " +:+ quote (mf_SourceInstance m) +:+ " does not match expected " +:+ quote (ex_SourceInstance exp))
  else if (ex_ClusterUID exp != "") && (mf_ClusterUID m != ex_ClusterUID exp)
  then Some ("manifest clusterUID " +:+ quote (mf_ClusterUID m) +:+ " does not match expected " +:+ quote (ex_ClusterUID exp))
  else if bool_decide (mf_Objects m = []) then Some "manifest lists no backup objects"
  else None.

(** ParseManifest on what [json.Unmarshal] decoded; [None] is an error of it. *)
Definition ParseManifest (decoded : option BackupManifest) : string + BackupManifest :=
  match decoded with
  | None => inl "decode manifest"
  | Some m =>
      if mf_ManifestVersion m != ManifestVersion
      then inl ("unsupported manifest version " +:+ pretty (mf_ManifestVersion m) +:+ " (want " +:+ pretty ManifestVersion +:+ ")")
      else inr m
  end.

Definition objectKeyRoot : string := "backup".

Definition chNul : ascii := ascii_of_nat 0.
Definition chBackslash : ascii := "\".
(** A character that a key must not have. *)
Definition contains (c : ascii) (s : string) : bool := negb (str_forall (fun d => d != c) s).

(** What is wrong with one key. *)
Definition keyFault (key : string) : option string :=
  let rest := CutPrefix (objectKeyRoot +:+ "/") key in
  if (key == "") || contains chNul key || contains chBackslash key
  then Some ("manifest object key " +:+ quote key +:+ " is not a usable path")
  else if isRooted key || (Clean key != key)
  then Some ("manifest object key " +:+ quote key +:+ " is not a clean relative path")
  else if is_nil rest || (default key rest == "")
  then Some ("manifest object key " +:+ quote key +:+ " is not below " +:+ objectKeyRoot +:+ "/")
  else if existsb (fun e => (e == "..") || (e == ".")) (Split chSlash key)
  then Some ("manifest object key " +:+ quote key +:+ " is not a clean relative path")
  else None.

Fixpoint validateKeys (seen : list string) (keys : list string) : option string :=
  match keys with
  | [] => None
  | key :: rest =>
      match keyFault key with
      | Some err => Some err
      | None =>
          if bool_decide (key ∈ seen) then Some ("manifest lists object key " +:+ quote key +:+ " twice")
          else validateKeys (key :: seen) rest
      end
  end.

Definition ValidateObjectKeys (m : BackupManifest) : option string := validateKeys [] (mo_Key <$> mf_Objects m).

(** ** What they accept *)

(** An element of a usable key. *)
Definition plainElement (s : string) : Prop := normal s /\ contains chNul s = false /\ contains chBackslash s = false.

(** The key of a file below backup/. *)
Definition objectKey (elements : list string) : string := strJoin "/" (objectKeyRoot :: elements).

Lemma contains_join c xs : c <> chSlash -> contains c (strJoin "/" xs) = existsb (contains c) xs.
Proof.
  intros Hc. induction xs as [|x xs IH]; [done|]. cbn [existsb]. rewrite <- IH. destruct xs as [|y ys].
  - cbn. by rewrite orb_false_r.
  - rewrite strJoin_cons by done. unfold contains. rewrite !str_forall_app, !negb_andb. cbn [str_forall].
    rewrite (bool_decide_eq_false_2 (chSlash = c)) by congruence. done.
Qed.

Lemma keyFault_None key : keyFault key = None <->
  exists elements, elements <> [] /\ Forall plainElement elements /\ key = objectKey elements.
Proof.
  unfold keyFault, objectKey. split.
  - intros H. repeat (case_test_in H; [done|]). bool_simpl.
    destruct (CutPrefix (objectKeyRoot +:+ "/") key) as [rest|] eqn:Ec; [|done]. apply CutPrefix_Some in Ec. cbn [default from_option id] in *.
    destruct (clean_relative key) as [Hne Ej]; [done|done|by intros ->|].
    assert (Split chSlash key = cleanFront key) as Es by (rewrite Ej at 1; by apply Split_join_plain, cleanFront_plain).
    assert (Forall normal (cleanFront key)) as Hn.
    { destruct (front_kept key) as (k & ns & Hf & Hns). destruct k as [|k]; [by rewrite Hf|]. exfalso.
      rewrite Es, Hf in *. cbn [replicate app existsb] in *. by rewrite bool_decide_eq_true_2 in *. }
    assert (Split chSlash key = objectKeyRoot :: Split chSlash rest) as Es'.
    { rewrite Ec, str_app_assoc, Split_app. done. }
    exists (Split chSlash rest). rewrite Es' in Es. rewrite <- Es in Hn. apply Forall_cons in Hn as [_ Hn].
    split_and!; [apply Split_not_nil| |by rewrite Ej at 1; rewrite <- Es].
    assert (forall c x, c <> chSlash -> contains c key = false -> x ∈ Split chSlash rest -> contains c x = false) as Hc.
    { intros c x Hc Hk Hx. rewrite Ej, <- Es, contains_join in Hk by done. cbn [existsb] in Hk. apply orb_false_iff in Hk as [_ Hk].
      apply not_true_iff_false. intros Hcx. revert Hk. apply not_false_iff_true, existsb_exists. exists x. by rewrite <- list_elem_of_In. }
    apply Forall_forall. intros x Hx. split_and!; [by apply (proj1 (Forall_forall _ _) Hn)|by apply Hc..].
  - intros (xs & Hne & Hp & ->). assert (Forall normal (objectKeyRoot :: xs)) as Hn.
    { constructor; [by split_and!|]. eapply Forall_impl; [exact Hp|]. by intros x [? _]. }
    destruct (plain_prefix (objectKeyRoot :: xs)) as (Hr & Hc & H0 & _ & _); [done|done|].
    assert (forall c, c = chNul \/ c = chBackslash -> contains c (strJoin "/" (objectKeyRoot :: xs)) = false) as Hcs.
    { intros c Hc'. rewrite contains_join by by destruct Hc' as [-> | ->]. apply not_true_iff_false. intros (x & Hx & Hcx)%existsb_exists.
      destruct Hx as [<-|Hx]; [by destruct Hc' as [-> | ->]|]. apply list_elem_of_In, (proj1 (Forall_forall _ _) Hp) in Hx as (_ & ? & ?).
      destruct Hc' as [-> | ->]; congruence. }
    rewrite !Hcs, (bool_decide_eq_false_2 _ H0), Hr, Hc, (bool_decide_eq_true_2 (strJoin "/" (objectKeyRoot :: xs) = _)) by auto.
    cbn [orb negb]. rewrite strJoin_cons by done. rewrite <- str_app_assoc, CutPrefix_app. cbn [is_nil default from_option id orb].
    apply Forall_cons in Hn as [_ Hn].
    rewrite (bool_decide_eq_false_2 (strJoin "/" xs = "")) by (intros E; by apply strJoin_empty in E).
    rewrite str_app_assoc, Split_app, Split_join by done.
    assert (existsb (fun e => (e == "..") || (e == ".")) (Split chSlash objectKeyRoot ++ xs) = false) as ->; [|done].
    apply not_true_iff_false. intros (x & Hx & Hd)%existsb_exists. apply in_app_or in Hx as [[<-|[]]|Hx]; [done|].
    apply list_elem_of_In, (proj1 (Forall_forall _ _) Hn) in Hx as (_ & ? & ? & _).
    by rewrite !bool_decide_eq_false_2 in Hd.
Qed.

Lemma validateKeys_None seen keys : validateKeys seen keys = None <->
  Forall (fun key => keyFault key = None) keys /\ NoDup keys /\ Forall (fun key => key ∉ seen) keys.
Proof.
  revert seen. induction keys as [|key keys IH]; intros seen; cbn [validateKeys]; [split; [by repeat constructor|done]|].
  rewrite !Forall_cons, NoDup_cons. destruct (keyFault key) as [err|]; [split; [done|by intros ([? _] & _)]|].
  case_bool_decide as E; [split; [done|by intros (_ & _ & [? _])]|]. rewrite IH. rewrite !Forall_forall.
  split; [|set_solver]. intros (H1 & H2 & H3). split_and!; [done|done| |done|done|]; set_solver.
Qed.

Lemma validated_keys m : ValidateObjectKeys m = None <->
  NoDup (mo_Key <$> mf_Objects m) /\
  Forall (fun o => exists elements, elements <> [] /\ Forall plainElement elements /\ mo_Key o = objectKey elements) (mf_Objects m).
Proof.
  unfold ValidateObjectKeys. rewrite validateKeys_None, Forall_fmap. unfold compose.
  rewrite (Forall_iff _ _ _ (fun o => keyFault_None (mo_Key o))).
  assert (Forall (fun key => key ∉ @nil string) (mo_Key <$> mf_Objects m)) by (apply Forall_forall; set_solver). tauto.
Qed.

(** The keys a manifest may name.  A manifest's keys are accepted exactly
    when they are distinct and each is backup/ followed by one or more plain
    elements - none empty, [.] or [..], and no slash, backslash or NUL byte in
    one - so that no key of a manifest, which is read from the bucket, names
    anything outside of the artifact and its staging directory. *)
Theorem ValidateObjectKeys_iff m : ValidateObjectKeys m = None <->
  NoDup (mo_Key <$> mf_Objects m) /\
  Forall (fun o => exists elements, elements <> [] /\ Forall plainElement elements /\ mo_Key o = objectKey elements) (mf_Objects m).
Proof. apply validated_keys. Qed.

(** What the expectation of a restore requires of the artifact's origin. *)
Definition meets (m : BackupManifest) (exp : ManifestExpectation) : Prop :=
  (ex_Database exp = "" \/ mf_Database m = ex_Database exp) /\
  (ex_CubridVersion exp = "" \/ EngineSeries (mf_CubridVersion m) <> "" /\
    EngineSeries (mf_CubridVersion m) = EngineSeries (ex_CubridVersion exp)) /\
  (forall level, ex_Level exp = Some level -> mf_Level m = level) /\
  (ex_RequireSourceRole exp = "" \/ mf_SourceRole m = ex_RequireSourceRole exp) /\
  (ex_SourceInstance exp = "" \/ mf_SourceInstance m = ex_SourceInstance exp) /\
  (ex_ClusterUID exp = "" \/ mf_ClusterUID m = ex_ClusterUID exp).

Lemma Verify_None m exp : Verify m exp = None <-> mf_ManifestVersion m = ManifestVersion /\ meets m exp /\ mf_Objects m <> [].
Proof.
  unfold Verify, meets. split.
  - intros H. repeat (case_test_in H; [done|]). repeat match goal with H : _ && _ = false |- _ => apply andb_false_iff in H end.
    rewrite ?negb_false_iff, ?orb_false_iff, ?negb_false_iff, ?bool_decide_eq_true, ?bool_decide_eq_false in *. split_and!; try tauto.
    intros level Hl. rewrite Hl in *. by bool_simpl.
  - intros (Hv & (Hd & Hc & Hl & Hr & Hi & Hu) & Ho). rewrite Hv, (bool_decide_eq_true_2 (ManifestVersion = _)), (bool_decide_eq_false_2 _ Ho) by done.
    assert (forall x y : string, (x = "" \/ y = x) -> (x != "") && (y != x) = false) as Hb.
    { intros x y [-> | ->]; [done|]. rewrite (bool_decide_eq_true_2 (x = x)) by done. apply andb_false_r. }
    rewrite !Hb by done. cbn [negb].
    assert ((ex_CubridVersion exp != "") && ((EngineSeries (mf_CubridVersion m) == "") || (EngineSeries (mf_CubridVersion m) != EngineSeries (ex_CubridVersion exp))) = false) as ->.
    { destruct Hc as [-> | [Hc E]]; [done|]. by rewrite (bool_decide_eq_false_2 _ Hc), (bool_decide_eq_true_2 _ E), andb_false_r. }
    destruct (ex_Level exp) as [level|]; [|done]. rewrite (Hl level) by done. by rewrite bool_decide_eq_true_2.
Qed.
End manifest.
