(* ===== verification/ImClient.v ===== *)
(** * The client of the Instance Manager

    [internal/controller/imclient.go]: how the operator calls a member's
    Instance Manager, with which token, and what it makes of the answers.  An
    error is the text it prints and the sentinel errors that [errors.Is] finds
    in its chain.  The network is [transport], which answers each attempt;
    JSON decoding, [unicode.IsPrint], [strconv.Quote] and SHA-256 are
    parameters too. *)
From stdpp Require Import prelude gmap strings pretty list.
From Stdlib Require Import Ascii String.
From S2P Require Import Prelude Api GoStr Utf8 HARole OpStore.

(** ** Errors *)

Inductive Sentinel :=
  | errTokenRefused | errObjectStorageNotApplied | errStartConflict | errOperationInProgress
  | errStagingInUse | errRequestConflict | errOperationMissing | errOperationRecordUnreadable
  | errNotAnHAMember | errRequestRefused.
#[global] Instance Sentinel_eq_dec : EqDecision Sentinel.
Proof. solve_decision. Defined.

Definition sentinelText (s : Sentinel) : string :=
  match s with
  | errTokenRefused => "the member refused the cluster's Instance Manager token"
  | errObjectStorageNotApplied => "the member's Instance Manager runs without object storage"
  | errStartConflict => "the member refused the start as a conflict"
  | errOperationInProgress => "another operation runs on the database"
  | errStagingInUse => "a running operation of another request owns the staging destination"
  | errRequestConflict => "the member holds an operation under this key for another request"
  | errOperationMissing => "the member holds no record of the operation"
  | errOperationRecordUnreadable => "the member's Instance Manager holds an operation record it cannot read"
  | errNotAnHAMember => "the member is a standalone server, not an HA member"
  | errRequestRefused => "the member refused the request"
  end.

Record Err := mkErr { e_wraps : list Sentinel; e_text : string }.

(** [errors.Is] *)
Definition Is (e : Err) (s : Sentinel) : bool := bool_decide (s ∈ e_wraps e).
(** [errors.New], and [fmt.Errorf] with verbs %w. *)
Definition plainErr (text : string) : Err := mkErr [] text.
Definition sentinelErr (s : Sentinel) : Err := mkErr [s] (sentinelText s).
Definition prefixErr (text : string) (e : Err) : Err := mkErr (e_wraps e) (text +:+ e_text e).
Definition suffixErr (e : Err) (text : string) : Err := mkErr (e_wraps e) (e_text e +:+ text).
Definition joinErr (a : Err) (sep : string) (b : Err) : Err :=
  mkErr (e_wraps a ++ e_wraps b) (e_text a +:+ sep +:+ e_text b).

Definition reasonObjectStorageNotApplied : string := "ObjectStorageNotApplied".
Definition reasonRequestRefused : string := "InstanceManagerRequestRefused".
Definition reasonNotAnHAMember : string := "InstanceManagerNotAnHAMember".
Definition reasonOperationInProgress : string := "InstanceManagerOperationInProgress".
Definition reasonStagingInUse : string := "InstanceManagerStagingInUse".
Definition reasonRequestConflict : string := "InstanceManagerRequestConflict".
Definition reasonConflict : string := "InstanceManagerConflict".
Definition reasonOperationRecordUnreadable : string := "InstanceManagerOperationRecordUnreadable".
Definition reasonInstanceManagerUnavailable : string := "InstanceManagerUnavailable".
Definition runbookUnreadableRecord : string := "Runbook: an operation record that cannot be read".

Definition instanceManagerFailureReason (err : Err) : string :=
  if Is err errTokenRefused then reasonTokenRefused
  else if Is err errObjectStorageNotApplied then reasonObjectStorageNotApplied
  else if Is err errOperationInProgress then reasonOperationInProgress
  else if Is err errStagingInUse then reasonStagingInUse
  else if Is err errRequestConflict then reasonRequestConflict
  else if Is err errNotAnHAMember then reasonNotAnHAMember
  else if Is err errRequestRefused then reasonRequestRefused
  else if Is err errStartConflict then reasonConflict
  else if Is err errOperationRecordUnreadable then reasonOperationRecordUnreadable
  else reasonInstanceManagerUnavailable.

(** ** Answers *)

(** The codes of an error answer ([internal/instancemanager/errorcode.go]). *)
Definition CodeOperationInProgress : string := "OperationInProgress".
Definition CodeIdempotencyConflict : string := "IdempotencyConflict".
Definition CodeStagingDestinationInUse : string := "StagingDestinationInUse".
Definition CodeNotAnHAMember : string := "NotAnHAMember".
Definition CodeOperationRecordUnreadable : string := "OperationRecordUnreadable".

Inductive Body := NoBody | ReadFailed | Raw (raw : string).

Record Response := mkResponse { hr_StatusCode : Z; hr_RequestID : string; hr_Body : Body }.

Definition maxErrorBody : nat := 4096.
Definition maxErrorMessage : nat := 256.

(** [unicode.IsSpace] *)
Definition isSpace (r : N) : bool :=
  in_range 9 r 13 || bool_decide (r ∈ [32; 133; 160; 5760; 8232; 8233; 8239; 8287; 12288]%N) || in_range 8192 r 8202.

(** [strings.FieldsFunc], with the runes of the field being read, last first. *)
Fixpoint fieldsFunc (sep : N -> bool) (cur : list N) (l : list N) : list (list N) :=
  match l with
  | [] => match cur with [] => [] | _ => [rev cur] end
  | r :: l =>
      if sep r then match cur with [] => fieldsFunc sep [] l | _ => rev cur :: fieldsFunc sep [] l end
      else fieldsFunc sep (r :: cur) l
  end.

(** [strings.Join(fields, " ")] *)
Fixpoint joinFields (fields : list (list N)) : list N :=
  match fields with
  | [] => []
  | [f] => f
  | f :: fields => f ++ 32%N :: joinFields fields
  end.

Definition isLetter (r : N) : bool := in_range 65 r 90 || in_range 97 r 122.

Section client.
Context (isPrint : N -> bool) (quote : string -> string).
Context (unmarshalError : string -> option (string * string)).
Context (unmarshalOperation : string -> string + Operation).
Context (unmarshalList : string -> option (list Operation)).
Context (tokenFingerprint : string -> string).

Definition notClean (r : N) : bool := negb (isPrint r) || isSpace r.

Definition cleanMessage (msg : string) : string :=
  let cleaned := joinFields (fieldsFunc notClean [] (runes msg)) in
  stringOfRunes
    (if (maxErrorMessage <? List.length cleaned)%nat then take maxErrorMessage cleaned ++ bytesOf "..." else cleaned).

Definition readErrorAnswer (resp : Response) : string * string :=
  match hr_Body resp with
  | NoBody | ReadFailed => ("", "")
  | Raw raw =>
      if (maxErrorBody <? String.length raw)%nat then ("", "")
      else match unmarshalError raw with
      | None => ("", "")
      | Some (error, code) =>
          (if (String.length code <=? 64)%nat && forallb isLetter (runes code) then code else "", cleanMessage error)
      end
  end.

Definition requestRef (resp : Response) : string :=
  if hr_RequestID resp != "" then " (request " +:+ hr_RequestID resp +:+ ")" else "".

Definition describeAnswer (resp : Response) : string * string * string :=
  let '(code, msg) := readErrorAnswer resp in
  let detail := "status " +:+ pretty (hr_StatusCode resp) in
  let detail := if code != "" then detail +:+ ", " +:+ code else detail in
  let detail := if msg != "" then detail +:+ ": " +:+ msg else detail in
  (code, msg, detail +:+ requestRef resp).

Definition wrapDetail (e : Err) (detail : string) : Err := suffixErr e (" (" +:+ detail +:+ ")").

Definition statusError (resp : Response) (code detail : string) : Err :=
  let conflict cause := wrapDetail (joinErr (sentinelErr errStartConflict) ": " (sentinelErr cause)) detail in
  if tokenRefused (hr_StatusCode resp) then wrapDetail (sentinelErr errTokenRefused) detail
  else if hr_StatusCode resp == 412 then wrapDetail (sentinelErr errObjectStorageNotApplied) detail
  else if code == CodeOperationRecordUnreadable then
    suffixErr (wrapDetail (sentinelErr errOperationRecordUnreadable) detail)
      ("; see the runbook " +:+ quote runbookUnreadableRecord +:+ " in docs/observability.md")
  else if hr_StatusCode resp != 409 then plainErr ("unexpected " +:+ detail)
  else if code == CodeOperationInProgress then conflict errOperationInProgress
  else if code == CodeStagingDestinationInUse then conflict errStagingInUse
  else if code == CodeIdempotencyConflict then conflict errRequestConflict
  else if code == CodeNotAnHAMember then conflict errNotAnHAMember
  else wrapDetail (sentinelErr errStartConflict) detail.

Definition unexpectedStatus (resp : Response) : Err :=
  let '(code, _, detail) := describeAnswer resp in statusError resp code detail.

Definition startError (resp : Response) : Err :=
  let err := unexpectedStatus resp in
  let s := hr_StatusCode resp in
  if (s == 400) || (s == 413) || (s == 422) then joinErr (sentinelErr errRequestRefused) ": " err else err.

(** operationOfKey; [find] is the lookup, run when the refusal calls for it. *)
Definition operationOfKey (err : Err) (kind key : string) (find : unit -> Err + option Operation) : Err + Operation :=
  if negb (Is err errStartConflict) || Is err errOperationInProgress || Is err errStagingInUse || Is err errNotAnHAMember
  then inl err
  else match find tt with
  | inl lookupErr =>
      inl (joinErr (suffixErr err ("; the " +:+ kind +:+ " operation under the key " +:+ quote key))
             " could not be looked up: " lookupErr)
  | inr None => inl (suffixErr err ("; the member holds no " +:+ kind +:+ " operation under the key " +:+ quote key))
  | inr (Some op) => inr op
  end.

(** ** Tokens *)

Definition imTokenKey : string := "token".
Definition imPreviousTokenKey : string := "previousToken".
Definition imTokenSecretName (cluster : string) : string := cluster +:+ "-im-token".

(** The name before and the text after the last hyphen, as
    [strings.LastIndexByte] finds it; absent when there is none. *)
Fixpoint cutLast (sep : ascii) (s : string) : option (string * string) :=
  match s with
  | EmptyString => None
  | String c s =>
      match cutLast sep s with
      | Some (a, b) => Some (String c a, b)
      | None => if c == sep then Some ("", s) else None
      end
  end.

Definition isDigit (r : N) : bool := in_range 48 r 57.
Definition digitsValue (l : list N) : N := fold_left (fun v d => (v * 10 + (d - 48))%N) l 0%N.
(** [strconv.ParseUint(s, 10, 32)] succeeds. *)
Definition parsesUint32 (s : string) : bool :=
  (s != "") && forallb isDigit (bytesOf s) && (N.leb (digitsValue (bytesOf s)) 4294967295).

(** The data of a Secret that was read, or the error of the read. *)
Definition ClusterTokens (getSecret : string -> string + gmap string string) (podName : string) : Err + list string :=
  let notMember := plainErr (podName +:+ " is not the name of a cluster member") in
  match cutLast "-" podName with
  | None => inl notMember
  | Some (cluster, ordinal) =>
      if (cluster == "") || negb (parsesUint32 ordinal) then inl notMember
      else match getSecret (imTokenSecretName cluster) with
      | inl err => inl (plainErr ("read the Instance Manager token of " +:+ podName +:+ ": " +:+ err))
      | inr data =>
          let current := lookupd "" data imTokenKey in
          let previous := lookupd "" data imPreviousTokenKey in
          inr (if current == "" then []
               else if (previous != "") && (previous != current) then [current; previous] else [current])
      end
  end.

(** memberTokens; a nil TokenSource is [None]. *)
Definition memberTokens (tokens : option (string -> Err + list string)) (podName : string) : Err + list string :=
  match tokens with
  | None => inl (plainErr ("no Instance Manager token source for " +:+ podName))
  | Some tokens =>
      match tokens podName with
      | inl err => inl err
      | inr candidates =>
          if bool_decide ("" ∈ candidates) || (candidates == [])
          then inl (plainErr ("no Instance Manager token for " +:+ podName))
          else inr candidates
      end
  end.

(** ** Requests *)

Record Request := mkRequest { hq_Method : string; hq_URL : string; hq_IdempotencyKey : string; hq_Body : string }.

(** What the client keeps, and the attempts it made, the last one last: each
    with the token it carried. *)
Record ClientState := mkClient {
  ct_accepted : gmap string string;
  ct_sent : list (Request * string) }.

(** The answer to each attempt of one call: its number and its token. *)
Definition Transport : Type := Request -> nat -> string -> string + Response.

Definition preferAccepted (accepted : gmap string string) (member : string) (tokens : list string) : list string :=
  match accepted !! member with
  | None => tokens
  | Some last =>
      match list_find (fun t => tokenFingerprint t = last) tokens with
      | Some (S i, t) => t :: delete (S i) tokens
      | _ => tokens
      end
  end.

(** The loop of send; [resp] is the answer of the attempt before. *)
Fixpoint sendEach (transport : Transport) (req : Request) (member : string) (i : nat) (tokens : list string)
  (resp : option Response) (c : ClientState) : (Err + option Response) * ClientState :=
  match tokens with
  | [] => (inr resp, c)
  | token :: tokens =>
      let c := mkClient (ct_accepted c) (ct_sent c ++ [(req, token)]) in
      match transport req i token with
      | inl err => (inl (plainErr err), c)
      | inr resp =>
          if hr_StatusCode resp != 401
          then (inr (Some resp), mkClient (<[member := tokenFingerprint token]> (ct_accepted c)) (ct_sent c))
          else sendEach transport req member (S i) tokens (Some resp) c
      end
  end.

Definition send (transport : Transport) (req : Request) (member : string) (tokens : list string) (c : ClientState)
  : (Err + option Response) * ClientState :=
  sendEach transport req member 0 (preferAccepted (ct_accepted c) member tokens) None c.

Section calls.
Context (tokens : option (string -> Err + list string)) (transport : Transport).

Definition baseURL (podName namespace : string) : string :=
  "http://" +:+ podName +:+ "." +:+ namespace +:+ ".svc:9090".

(** [do]: a nil response without an error does not occur ([do_answers]). *)
Definition do_ (req : Request) (podName namespace : string) (c : ClientState)
  : (Err + option Response) * ClientState :=
  match memberTokens tokens podName with
  | inl err => (inl err, c)
  | inr ts => send transport req (namespace +:+ "/" +:+ podName) ts c
  end.

Definition decodeOperation (resp : Response) : Err + Operation :=
  match hr_Body resp with
  | Raw raw =>
      match unmarshalOperation raw with
      | inl err => inl (plainErr ("decode operation: " +:+ err))
      | inr op => inr op
      end
  | NoBody | ReadFailed => inl (plainErr "decode operation: EOF")
  end.

(** A call whose answer is handed to [k]. *)
Definition call {A} (req : Request) (podName namespace what : string) (k : Response -> Err + A) (c : ClientState)
  : (Err + A) * ClientState :=
  match do_ req podName namespace c with
  | (inl err, c) => (inl (prefixErr what err), c)
  | (inr None, c) => (inl (plainErr what), c)
  | (inr (Some resp), c) => (k resp, c)
  end.

(** The three starts differ in their path and in how they name themselves;
    the request body is given encoded. *)
Definition start (path what : string) (podName namespace idempotencyKey body : string) (c : ClientState)
  : (Err + Operation) * ClientState :=
  let what := "start " +:+ what +:+ " on " +:+ podName +:+ ": " in
  call (mkRequest "POST" (baseURL podName namespace +:+ path) idempotencyKey body) podName namespace what
    (fun resp => if hr_StatusCode resp != 202 then inl (prefixErr what (startError resp)) else decodeOperation resp) c.
Definition StartBackup := start "/v1/backup" "backup".
Definition StartRestore := start "/v1/restore/prepare" "restore".
Definition StartHABootstrap := start "/v1/ha/bootstrap" "HA bootstrap".

Definition textOperationNotFound : string := "operation not found".

Definition GetOperation (podName namespace id : string) (c : ClientState) : (Err + Operation) * ClientState :=
  let what := "get operation " +:+ id +:+ " on " +:+ podName +:+ ": " in
  call (mkRequest "GET" (baseURL podName namespace +:+ "/v1/operations/" +:+ id) "" "") podName namespace what
    (fun resp =>
       if hr_StatusCode resp == 404 then
         let '(code, msg, detail) := describeAnswer resp in
         inl (prefixErr what (if msg == textOperationNotFound
                              then wrapDetail (sentinelErr errOperationMissing) detail
                              else statusError resp code detail))
       else if hr_StatusCode resp != 200 then inl (prefixErr what (unexpectedStatus resp))
       else decodeOperation resp) c.

(** [queryEscape] is [url.Values.Encode] of the one parameter. *)
Definition FindOperation (queryEscape : string -> string) (podName namespace kind idempotencyKey : string)
  (c : ClientState) : (Err + option Operation) * ClientState :=
  let what := "look up the " +:+ kind +:+ " operation on " +:+ podName +:+ ": " in
  call (mkRequest "GET" (baseURL podName namespace +:+ "/v1/operations?idempotencyKey=" +:+ queryEscape idempotencyKey) "" "")
    podName namespace what
    (fun resp =>
       if hr_StatusCode resp != 200 then inl (prefixErr what (unexpectedStatus resp))
       else match hr_Body resp with
       | Raw raw =>
           match unmarshalList raw with
           | None => inl (plainErr (what +:+ "unreadable answer" +:+ requestRef resp))
           | Some ops => inr (snd <$> list_find (fun op => op_Kind op = kind) ops)
           end
       | NoBody | ReadFailed => inl (plainErr (what +:+ "unreadable answer" +:+ requestRef resp))
       end) c.
Definition FindBackupOperation queryEscape podName namespace := FindOperation queryEscape podName namespace OpBackup.
End calls.
End client.

(** ** What an answer means *)

Section answers.
Context (isPrint : N -> bool) (quote : string -> string) (unmarshalError : string -> option (string * string)).
Notation describe := (describeAnswer isPrint unmarshalError).
Notation refusal := (startError isPrint quote unmarshalError).

Definition codeOf (resp : Response) : string := (readErrorAnswer isPrint unmarshalError resp).1.
Definition messageOf (resp : Response) : string := (readErrorAnswer isPrint unmarshalError resp).2.

Lemma describe_code resp : (describe resp).1 = (codeOf resp, messageOf resp).
Proof. unfold describeAnswer, codeOf, messageOf. by destruct (readErrorAnswer _ _ resp). Qed.

(** The sentinels of an error, as a set of causes. *)
Definition causesOf (s : Z) (code : string) : list Sentinel :=
  if tokenRefused s then [errTokenRefused]
  else if s == 412 then [errObjectStorageNotApplied]
  else if code == CodeOperationRecordUnreadable then [errOperationRecordUnreadable]
  else if s != 409 then []
  else errStartConflict ::
    (if code == CodeOperationInProgress then [errOperationInProgress]
     else if code == CodeStagingDestinationInUse then [errStagingInUse]
     else if code == CodeIdempotencyConflict then [errRequestConflict]
     else if code == CodeNotAnHAMember then [errNotAnHAMember] else []).
Definition causes (resp : Response) : list Sentinel := causesOf (hr_StatusCode resp) (codeOf resp).

Lemma statusError_causes resp detail : e_wraps (statusError quote resp (codeOf resp) detail) = causes resp.
Proof. unfold statusError, causes, causesOf. repeat case_test; done. Qed.

Lemma unexpectedStatus_causes resp : e_wraps (unexpectedStatus isPrint quote unmarshalError resp) = causes resp.
Proof.
  unfold unexpectedStatus. pose proof (describe_code resp) as H.
  destruct (describe resp) as [[code msg] detail]. simpl in H. simplify_eq. apply statusError_causes.
Qed.

Definition refusedRequest (s : Z) : bool := (s == 400) || (s == 413) || (s == 422).

(** Case analysis on a variable against the constants it is compared with. *)
#[local] Ltac by_constants x :=
  repeat match goal with
  | |- context [bool_decide (x = ?k)] =>
      destruct (decide (x = k)); [subst x|rewrite !(bool_decide_eq_false_2 (x = k)) by assumption]
  end.

Lemma startError_causes resp :
  e_wraps (refusal resp) = (if refusedRequest (hr_StatusCode resp) then [errRequestRefused] else []) ++ causes resp.
Proof.
  unfold startError. fold (refusedRequest (hr_StatusCode resp)).
  destruct (refusedRequest _); simpl; by rewrite unexpectedStatus_causes.
Qed.

Lemma causes_table s code :
  let wraps e := bool_decide (e ∈ (if refusedRequest s then [errRequestRefused] else []) ++ causesOf s code) in
  let unreadable := (code == CodeOperationRecordUnreadable) in
  wraps errRequestRefused = refusedRequest s /\
  wraps errTokenRefused = tokenRefused s /\
  wraps errObjectStorageNotApplied = (s == 412) /\
  wraps errOperationRecordUnreadable = (unreadable && negb (tokenRefused s) && (s != 412)) /\
  wraps errStartConflict = ((s == 409) && negb unreadable) /\
  wraps errOperationInProgress = ((s == 409) && (code == CodeOperationInProgress)) /\
  wraps errStagingInUse = ((s == 409) && (code == CodeStagingDestinationInUse)) /\
  wraps errRequestConflict = ((s == 409) && (code == CodeIdempotencyConflict)) /\
  wraps errNotAnHAMember = ((s == 409) && (code == CodeNotAnHAMember)) /\
  wraps errOperationMissing = false.
Proof.
  unfold causesOf, refusedRequest, tokenRefused. by_constants s; by_constants code; vm_compute; by split_and!.
Qed.

Lemma causes_not_missing resp : bool_decide (errOperationMissing ∈ causes resp) = false.
Proof. apply bool_decide_eq_false_2. unfold causes, causesOf. repeat case_test; set_solver. Qed.

(** What a start that was not accepted means is decided by the status and
    the code of the answer alone: it counts as refused for good exactly when
    the status is 400, 413 or 422, as a conflict exactly when it is 409 and
    the answer names no unreadable record, as a refused token exactly for 401
    and 403, as a manager without object storage exactly for 412; and each
    cause of a conflict exactly for its code. *)
Theorem startError_classes resp :
  let s := hr_StatusCode resp in
  let code := codeOf resp in
  let unreadable := (code == CodeOperationRecordUnreadable) in
  Is (refusal resp) errRequestRefused = refusedRequest s /\
  Is (refusal resp) errTokenRefused = tokenRefused s /\
  Is (refusal resp) errObjectStorageNotApplied = (s == 412) /\
  Is (refusal resp) errOperationRecordUnreadable = (unreadable && negb (tokenRefused s) && (s != 412)) /\
  Is (refusal resp) errStartConflict = ((s == 409) && negb unreadable) /\
  Is (refusal resp) errOperationInProgress = ((s == 409) && (code == CodeOperationInProgress)) /\
  Is (refusal resp) errStagingInUse = ((s == 409) && (code == CodeStagingDestinationInUse)) /\
  Is (refusal resp) errRequestConflict = ((s == 409) && (code == CodeIdempotencyConflict)) /\
  Is (refusal resp) errNotAnHAMember = ((s == 409) && (code == CodeNotAnHAMember)) /\
  Is (refusal resp) errOperationMissing = false.
Proof.
  cbv zeta. unfold Is. rewrite startError_causes. apply causes_table.
Qed.
End answers.

(** ** One call is carried out at most once *)

Section sending.
Context (tokenFingerprint : string -> string) (transport : Transport) (req : Request) (member : string).
Notation sends := (sendEach tokenFingerprint transport req member).

(** The attempts of a call: each token in turn, as long as the member answers
    401. *)
Inductive Attempts : nat -> list string -> list string -> Prop :=
  | AttemptsNone i tokens : Attempts i tokens []
  | AttemptsLast i token tokens : Attempts i (token :: tokens) [token]
  | AttemptsRefused i token tokens resp sent :
      transport req i token = inr resp -> hr_StatusCode resp = 401 ->
      Attempts (S i) tokens sent -> Attempts i (token :: tokens) (token :: sent).

Lemma sendEach_attempts i tokens resp c :
  exists sent, ct_sent (sends i tokens resp c).2 = ct_sent c ++ ((fun t => (req, t)) <$> sent) /\
    Attempts i tokens sent /\ (tokens <> [] -> sent <> []).
Proof.
  revert i resp c. induction tokens as [|t ts IH]; intros i resp c; cbn [sendEach].
  { exists []. rewrite app_nil_r. split_and!; [done|constructor|done]. }
  destruct (transport req i t) as [err|r] eqn:E; [exists [t]; split_and!; [done|constructor|done]|].
  case_bool_decide as H401; cbn [negb].
  - destruct (IH (S i) (Some r) (mkClient (ct_accepted c) (ct_sent c ++ [(req, t)]))) as (sent & Hs & Ha & _).
    exists (t :: sent). rewrite Hs. cbn [ct_sent]. rewrite <- app_assoc.
    split_and!; [done|by econstructor|done].
  - exists [t]. split_and!; [done|constructor|done].
Qed.

(** The answer of the call, given that the last attempt was answered. *)
Lemma sendEach_answer i tokens resp c r c' :
  sends i tokens resp c = (inr r, c') ->
  (r = resp /\ tokens = [] /\ c' = c) \/
  (exists token j r', r = Some r' /\ token ∈ tokens /\ transport req j token = inr r' /\
     (hr_StatusCode r' <> 401 -> ct_accepted c' = <[member := tokenFingerprint token]> (ct_accepted c)) /\
     (hr_StatusCode r' = 401 -> ct_accepted c' = ct_accepted c)).
Proof.
  revert i resp c. induction tokens as [|t ts IH]; intros i resp c; cbn [sendEach].
  { intros [= -> ->]. by left. }
  destruct (transport req i t) as [err|r'] eqn:E; [done|]. case_bool_decide as H401; cbn [negb].
  - intros [(-> & -> & ->)|(t' & j & r'' & Hr & Ht & Hj & Hacc)]%IH; right.
    + exists t, i, r'. split_and!; [done|set_solver|done|done|done].
    + exists t', j, r''. split_and!; [done|set_solver|done|..]; apply Hacc.
  - intros [= <- <-]. right. exists t, i, r'. split_and!; [done|set_solver|done|done|done].
Qed.
End sending.

Lemma Attempts_refused transport req k tried sent :
  Attempts transport req k tried sent ->
  forall i t, sent !! i = Some t -> (S i < List.length sent)%nat ->
  exists resp, transport req (k + i)%nat t = inr resp /\ hr_StatusCode resp = 401.
Proof.
  induction 1 as [k tr|k t tr|k tok toks resp sent' Ht H401 _ IH]; intros j t' Hj Hl; [done|simpl in Hl; lia|].
  destruct j as [|j]; simplify_eq/=; [rewrite Nat.add_0_r; eauto|].
  rewrite Nat.add_succ_r. apply (IH j t' Hj). lia.
Qed.

Lemma preferAccepted_perm fp accepted member tokens : preferAccepted fp accepted member tokens ≡ₚ tokens.
Proof.
  unfold preferAccepted. destruct (accepted !! member); [|done].
  destruct (list_find _ tokens) as [[[|i] t]|] eqn:E; [done| |done].
  apply list_find_Some in E as (Ht & _ & _). by rewrite <- delete_Permutation.
Qed.

(** C36: A call to a member. A token that the member accepted last time is
    tried first; the call is repeated, with each of the member's tokens at
    most once, only while the member answers 401, which it does before it acts
    on a request. So of all attempts of one call at most the last one can have
    been carried out, every attempt carries a token of the member's own
    cluster, and no other request is sent. *)
Theorem send_carried_out_once fp transport req member tokens c :
  let tried := preferAccepted fp (ct_accepted c) member tokens in
  exists sent : list string,
    ct_sent (send fp transport req member tokens c).2 = ct_sent c ++ ((fun t => (req, t)) <$> sent) /\
    sent `prefix_of` tried /\ tried ≡ₚ tokens /\
    (forall i t, sent !! i = Some t -> (S i < List.length sent)%nat ->
       exists resp, transport req i t = inr resp /\ hr_StatusCode resp = 401).
Proof.
  cbv zeta. set (tried := preferAccepted _ _ _ _).
  destruct (sendEach_attempts fp transport req member 0 tried None c) as (sent & Hs & Ha & _).
  exists sent. split_and!; [done| | apply preferAccepted_perm |].
  - clear Hs. induction Ha as [| |??????? IH]; [apply prefix_nil|apply prefix_cons, prefix_nil|by apply prefix_cons].
  - intros i t Hi Hl. exact (Attempts_refused _ _ _ _ _ Ha i t Hi Hl).
Qed.

(** ** The calls *)

Section operations.
Context (isPrint : N -> bool) (quote : string -> string).
Context (unmarshalError : string -> option (string * string)) (unmarshalOperation : string -> string + Operation).
Context (unmarshalList : string -> option (list Operation)) (fp : string -> string) (queryEscape : string -> string).
Context (tokens : option (string -> Err + list string)) (transport : Transport).
Notation sendTo := (do_ fp tokens transport).
Notation find := (FindOperation isPrint quote unmarshalError unmarshalList fp tokens transport queryEscape).
Notation getOp := (GetOperation isPrint quote unmarshalError unmarshalOperation fp tokens transport).

(** An error or an answer: never neither. *)
Lemma do_answers req podName namespace c r c' : sendTo req podName namespace c = (inr r, c') ->
  exists ts token j resp, memberTokens tokens podName = inr ts /\ token ∈ ts /\ r = Some resp /\
    transport req j token = inr resp.
Proof.
  unfold do_. destruct (memberTokens tokens podName) as [err|ts] eqn:E; [done|]. unfold send. intros H.
  assert (ts <> []) as Hts.
  { unfold memberTokens in E. destruct tokens as [f|]; [|done]. destruct (f podName); [done|].
    case_test_in E; simplify_eq. bool_simpl. done. }
  pose proof (preferAccepted_perm fp (ct_accepted c) (namespace +:+ "/" +:+ podName) ts) as Hp.
  apply sendEach_answer in H as [(_ & Hnil & _)|(token & j & resp & -> & Ht & Hj & _)].
  - rewrite Hnil in Hp. by apply Permutation_nil_l in Hp.
  - exists ts, token, j, resp. rewrite Hp in Ht. done.
Qed.

(** A lookup of the operation under a key answers that the member holds
    none only on the member's own list: the request for that key, with a token
    of the member, was answered 200 with a list that could be decoded and that has
    no operation of the kind. An operation it answers is the first of the
    kind in such a list. Any other answer is an error. *)
Theorem FindOperation_answered podName namespace kind key c r c' :
  find podName namespace kind key c = (inr r, c') ->
  let req := mkRequest "GET" (baseURL podName namespace +:+ "/v1/operations?idempotencyKey=" +:+ queryEscape key) "" "" in
  exists ts token j resp raw ops,
    memberTokens tokens podName = inr ts /\ token ∈ ts /\ transport req j token = inr resp /\
    hr_StatusCode resp = 200 /\ hr_Body resp = Raw raw /\ unmarshalList raw = Some ops /\
    (r = None -> Forall (fun op => op_Kind op <> kind) ops) /\
    (forall op, r = Some op -> op ∈ ops /\ op_Kind op = kind).
Proof.
  unfold FindOperation, call. cbv zeta. set (req := mkRequest _ _ _ _).
  destruct (sendTo req podName namespace c) as [[err|[resp|]] c1] eqn:E; [done| |done].
  apply do_answers in E as (ts & token & j & resp' & Hts & Ht & [= <-] & Hj).
  destruct (bool_decide (hr_StatusCode resp = 200)) eqn:E200; cbn [negb]; [|done]. bool_simpl.
  destruct (hr_Body resp) as [| |raw] eqn:Eb; [done|done|]. destruct (unmarshalList raw) as [ops|] eqn:El; [|done].
  intros [= <- _]. exists ts, token, j, resp, raw, ops. split_and!; try done.
  - intros Hn%fmap_None. by apply list_find_None in Hn.
  - intros op Hop. apply fmap_Some in Hop as ([i op'] & Hf%list_find_Some & ->).
    destruct Hf as (Hl & Hk & _). split; [by eapply list_elem_of_lookup_2|done].
Qed.

(** A poll counts the recorded operation as missing exactly when the
    member answered 404 with its own message that it holds no such record; a
    404 of a manager without an operation store, of a proxy or of an image
    without the route, and every other answer, does not. *)
Theorem GetOperation_missing podName namespace id c resp c' :
  sendTo (mkRequest "GET" (baseURL podName namespace +:+ "/v1/operations/" +:+ id) "" "") podName namespace c
    = (inr (Some resp), c') ->
  (exists e, (getOp podName namespace id c).1 = inl e /\ Is e errOperationMissing = true) <->
  hr_StatusCode resp = 404 /\ messageOf isPrint unmarshalError resp = textOperationNotFound.
Proof.
  intros E. unfold GetOperation, call. rewrite E. cbn [fst].
  assert (forall d, Is (statusError quote resp (codeOf isPrint unmarshalError resp) d) errOperationMissing = false) as Hno.
  { intros d. unfold Is. rewrite statusError_causes. apply causes_not_missing. }
  pose proof (describe_code isPrint unmarshalError resp) as Hd.
  destruct (describeAnswer isPrint unmarshalError resp) as [[code msg] detail] eqn:Ed. simpl in Hd. simplify_eq.
  case_bool_decide as H404.
  - case_bool_decide as Hm.
    + split; [done|]. intros _. eexists. split; [done|]. by apply bool_decide_eq_true_2, list_elem_of_here.
    + split; [|by intros []]. intros (e & He & Hi). simplify_eq.
      unfold Is in *. cbn [prefixErr e_wraps] in Hi. by rewrite Hno in Hi.
  - split; [|by intros []]. intros (e & He & Hi). exfalso.
    destruct (bool_decide (hr_StatusCode resp = 200)); cbn [negb] in He.
    + unfold decodeOperation in He. repeat case_test_in He; by simplify_eq.
    + simplify_eq. unfold unexpectedStatus in Hi. rewrite Ed in Hi.
      unfold Is in *. cbn [prefixErr e_wraps] in Hi. by rewrite Hno in Hi.
Qed.
End operations.

(** ** The tokens of a member *)

Lemma pretty_N_char_byte d : (d < 10)%N -> N_of_ascii (pretty_N_char d) = (48 + d)%N.
Proof.
  intros H. assert (d ∈ [0; 1; 2; 3; 4; 5; 6; 7; 8; 9]%N) as Hd by (rewrite !elem_of_cons; lia).
  repeat (apply elem_of_cons in Hd as [->|Hd]; [done|]). set_solver.
Qed.

Lemma digitsValue_snoc l d : digitsValue (l ++ [d]) = (digitsValue l * 10 + (d - 48))%N.
Proof. unfold digitsValue. by rewrite fold_left_app. Qed.

Lemma pretty_N_go_digits x s : exists ds,
  bytesOf (pretty_N_go x s) = ds ++ bytesOf s /\ forallb isDigit ds = true /\ digitsValue ds = x.
Proof.
  revert s. induction (N.lt_wf_0 x) as [x _ IH]. intros s. destruct (decide (x = 0%N)) as [->|Hx].
  { exists []. by rewrite pretty_N_go_0. }
  rewrite pretty_N_go_step by lia.
  assert (x `mod` 10 < 10)%N as Hd by (apply N.mod_lt; lia).
  destruct (IH (x `div` 10)%N ltac:(apply N.div_lt; lia) (String (pretty_N_char (x `mod` 10)) s)) as (ds & -> & Hds & Hv).
  exists (ds ++ [48 + x `mod` 10]%N). split_and!.
  - rewrite <- app_assoc. unfold bytesOf. cbn [list_ascii_of_string fmap list_fmap app].
    by rewrite pretty_N_char_byte.
  - rewrite forallb_app, Hds. cbn [forallb andb]. unfold isDigit, in_range.
    rewrite andb_true_r. apply andb_true_iff. rewrite !N.leb_le.
    clear -Hd. revert Hd. generalize (x `mod` 10)%N. lia.
  - rewrite digitsValue_snoc, Hv. rewrite (N.add_comm 48), N.add_sub, N.mul_comm.
    symmetry. by apply N.div_mod.
Qed.

Lemma pretty_digits n : forallb isDigit (bytesOf (pretty n)) = true /\ digitsValue (bytesOf (pretty n)) = n /\ pretty n <> "".
Proof.
  unfold pretty, pretty_N. case_decide as Hn; [by subst|].
  destruct (pretty_N_go_digits n "") as (ds & Hb & Hd & Hv).
  change (bytesOf "") with (@nil N) in Hb. rewrite app_nil_r in Hb. rewrite Hb.
  split_and!; [done|done|]. intros Hs. rewrite Hs in Hb. by destruct ds.
Qed.

Lemma cutLast_None sep s : str_forall (fun c => c != sep) s = true -> cutLast sep s = None.
Proof.
  induction s as [|c s IH]; [done|]. cbn [str_forall cutLast]. intros [Hc Hs]%andb_true_iff.
  rewrite IH by done. bool_simpl. by rewrite bool_decide_eq_false_2.
Qed.

Lemma cutLast_app sep a b :
  str_forall (fun c => c != sep) b = true -> cutLast sep (a +:+ String sep b) = Some (a, b).
Proof.
  intros Hb. induction a as [|c a IH]; simpl.
  - by rewrite cutLast_None, bool_decide_eq_true_2.
  - by rewrite IH.
Qed.

Lemma digits_no_hyphen s : forallb isDigit (bytesOf s) = true -> str_forall (fun c => c != "-"%char) s = true.
Proof.
  induction s as [|c s IH]; [done|]. unfold bytesOf. cbn [list_ascii_of_string fmap list_fmap forallb str_forall].
  intros [Hc Hs]%andb_true_iff. rewrite IH by done.
  rewrite andb_true_r. btrue. btrue. by intros ->.
Qed.

(** A member is called with the tokens of its own cluster and no others:
    the tokens of the Pod with ordinal [i] of a cluster are read from the
    Secret of that cluster alone. The current token comes first, the previous
    one second and only when it differs; a Secret without a current token
    yields none, in which case the member is not called. *)
Theorem ClusterTokens_own getSecret cluster i :
  (cluster <> "") -> (i <= 4294967295)%N ->
  ClusterTokens getSecret (memberName cluster i) =
  match getSecret (imTokenSecretName cluster) with
  | inl err => inl (plainErr ("read the Instance Manager token of " +:+ memberName cluster i +:+ ": " +:+ err))
  | inr data =>
      inr (match lookupd "" data imTokenKey, lookupd "" data imPreviousTokenKey with
           | "", _ => []
           | current, "" => [current]
           | current, previous => if decide (current = previous) then [current] else [current; previous]
           end)
  end.
Proof.
  intros Hc Hi. unfold ClusterTokens. destruct (pretty_digits i) as (Hd & Hv & Hne).
  change (memberName cluster i) with (cluster +:+ String "-" (pretty i)).
  rewrite cutLast_app by by apply digits_no_hyphen.
  rewrite bool_decide_eq_false_2 by done. unfold parsesUint32.
  rewrite bool_decide_eq_false_2 by done. rewrite Hd, Hv, (proj2 (N.leb_le _ _) Hi). cbn [andb orb negb].
  destruct (getSecret _) as [err|data]; [done|]. f_equal.
  destruct (lookupd "" data imTokenKey) as [|c1 current]; [done|].
  destruct (lookupd "" data imPreviousTokenKey) as [|c2 previous]; [done|].
  rewrite !(bool_decide_eq_false_2 (String _ _ = "")) by done. cbn [negb andb].
  destruct (decide (String c1 current = String c2 previous)) as [E|E].
  - by rewrite E, bool_decide_eq_true_2.
  - by rewrite bool_decide_eq_false_2 by congruence.
Qed.

Lemma ClusterTokens_own_witness :
  ClusterTokens (fun name => if name == "prod-im-token" then inr {["token" := "t2"; "previousToken" := "t1"]} else inl "other")
    (memberName "prod" 2) = inr ["t2"; "t1"].
Proof.
  rewrite (ClusterTokens_own _ "prod" 2); [vm_compute; reflexivity|vm_compute; congruence|vm_compute; congruence].
Defined.

(** ** The text of a member *)

(** Every space follows a rune that is none. *)
Definition singleSpaced (l : list N) : Prop :=
  forall i, l !! i = Some 32%N -> exists j r, i = S j /\ l !! j = Some r /\ r <> 32%N.

Lemma fieldsFunc_clean sep cur l : Forall (fun r => sep r = false) cur ->
  Forall (fun f => f <> [] /\ Forall (fun r => sep r = false) f) (fieldsFunc sep cur l).
Proof.
  revert cur. induction l as [|r l IH]; intros cur Hcur; cbn [fieldsFunc].
  - destruct cur as [|x cur]; [constructor|]. constructor; [|constructor].
    split; [simpl; by destruct (rev cur)|by apply Forall_rev].
  - destruct (sep r) eqn:E; [|apply IH; by constructor].
    destruct cur as [|x cur]; [by apply IH|]. constructor; [|by apply IH].
    split; [simpl; by destruct (rev cur)|by apply Forall_rev].
Qed.

Section joined.
Context (sep : N -> bool) (sep_space : sep 32%N = true).
Notation clean := (Forall (fun f => f <> [] /\ Forall (fun r => sep r = false) f)).

Lemma joinFields_runes fields : clean fields -> Forall (fun r => sep r = false \/ r = 32%N) (joinFields fields).
Proof using sep.
  clear sep_space. induction 1 as [|f fields [_ Hf] Hfs IH]; [constructor|].
  assert (Forall (fun r => sep r = false \/ r = 32%N) f) as Hf' by (eapply Forall_impl; [exact Hf|]; tauto).
  destruct fields; [done|]. apply Forall_app. split; [done|]. constructor; [by right|exact IH].
Qed.

Lemma clean_no_space f i : Forall (fun r => sep r = false) f -> f !! i <> Some 32%N.
Proof using sep_space. intros Hf Hi. apply (Forall_lookup_1 _ _ _ _ Hf) in Hi. congruence. Qed.

Lemma joinFields_spaced fields : clean fields -> singleSpaced (joinFields fields).
Proof using sep_space.
  induction 1 as [|f fields [Hne Hf] Hfs IH]; [done|]. intros i Hi.
  destruct fields as [|f2 fields]; [exfalso; by eapply clean_no_space|].
  change (joinFields (f :: f2 :: fields)) with (f ++ 32%N :: joinFields (f2 :: fields)) in *.
  destruct (decide (i < List.length f)%nat) as [Hl|Hl].
  { rewrite lookup_app_l in Hi by done. exfalso. by eapply clean_no_space. }
  rewrite lookup_app_r in Hi by lia. destruct (i - List.length f)%nat as [|k] eqn:Ek.
  - destruct f as [|x f _] using rev_ind; [done|]. rewrite length_app in *. simpl in *.
    exists (List.length f), x. split_and!; [lia| |].
    + rewrite lookup_app_l by (rewrite length_app; simpl; lia). by rewrite list_lookup_middle.
    + intros ->. apply Forall_app in Hf as [_ Hx]. inversion Hx. congruence.
  - cbn in Hi. apply IH in Hi as (j & r & -> & Hj & Hr). exists (List.length f + S j)%nat, r.
    split_and!; [lia| |done]. rewrite lookup_app_r by lia.
    by replace (List.length f + S j - List.length f)%nat with (S j) by lia.
Qed.
End joined.

Lemma singleSpaced_take n l : singleSpaced l -> singleSpaced (take n l).
Proof.
  intros H i Hi. apply lookup_take_Some in Hi as [Hi Hn]. apply H in Hi as (j & r & -> & Hj & Hr).
  exists j, r. split_and!; [done| |done]. by rewrite lookup_take_lt by lia.
Qed.

Lemma singleSpaced_app l t : singleSpaced l -> 32%N ∉ t -> singleSpaced (l ++ t).
Proof.
  intros H Ht i Hi. destruct (decide (i < List.length l)%nat).
  - rewrite lookup_app_l in Hi by done. apply H in Hi as (j & r & -> & Hj & Hr).
    exists j, r. split_and!; [done| |done]. by apply lookup_app_l_Some.
  - rewrite lookup_app_r in Hi by lia. by apply list_elem_of_lookup_2 in Hi.
Qed.

Lemma fieldsFunc_runes P sep cur l : Forall P cur -> Forall P l -> Forall (Forall P) (fieldsFunc sep cur l).
Proof.
  intros Hcur Hl. revert cur Hcur. induction Hl as [|r l Hr _ IH]; intros cur Hcur; cbn [fieldsFunc].
  - destruct cur; repeat constructor. by apply Forall_rev.
  - destruct (sep r); [|apply IH; by constructor].
    destruct cur; [by apply IH|]. constructor; [by apply Forall_rev|by apply IH].
Qed.

Lemma joinFields_Forall (P : N -> Prop) fields : P 32%N -> Forall (Forall P) fields -> Forall P (joinFields fields).
Proof.
  intros H32. induction 1 as [|f fields Hf Hfs IH]; [constructor|].
  destruct fields; [done|]. apply Forall_app. split; [done|]. constructor; [done|exact IH].
Qed.

(** A message that a member sends reaches conditions, Events and logs as
    one bounded line: at most 256 characters and an ellipsis, each of them
    printable and no white space other than single spaces between words, and
    none at the start, whatever bytes the member sent. *)
Theorem cleanMessage_bounded isPrint msg :
  let out := runes (cleanMessage isPrint msg) in
  (List.length out <= 259)%nat /\
  Forall (fun r => (isPrint r = true /\ isSpace r = false) \/ r = 32%N \/ r = 46%N) out /\
  singleSpaced out.
Proof.
  cbv zeta. unfold cleanMessage. change (bytesOf "...") with [46; 46; 46]%N. set (cleaned := joinFields _).
  pose proof (fieldsFunc_clean (notClean isPrint) [] (runes msg) ltac:(constructor)) as Hc.
  assert (notClean isPrint 32%N = true) as Hsp by apply orb_true_r.
  assert (Forall (fun r => isScalar r = true) cleaned) as Hscalar.
  { apply joinFields_Forall; [done|]. apply fieldsFunc_runes; [constructor|apply runesOf_scalar]. }
  assert (Forall (fun r => (isPrint r = true /\ isSpace r = false) \/ r = 32%N \/ r = 46%N) cleaned) as Hrunes.
  { eapply Forall_impl; [by apply joinFields_runes|]. intros r [Hr| ->]; [|by right; left].
    left. unfold notClean in Hr. bool_simpl. done. }
  pose proof (joinFields_spaced _ Hsp _ Hc) as Hspaced. fold cleaned in Hspaced.
  destruct (Nat.ltb_spec maxErrorMessage (List.length cleaned)) as [Hl|Hl]; unfold maxErrorMessage in *.
  - rewrite runes_stringOfRunes; [|apply Forall_app; split; [by apply Forall_take|by repeat constructor]].
    split_and!.
    + rewrite length_app, length_take. cbn [List.length]. lia.
    + apply Forall_app. split; [by apply Forall_take|]. repeat constructor; by right; right.
    + apply singleSpaced_app; [by apply singleSpaced_take|]. set_solver.
  - rewrite runes_stringOfRunes by done. split_and!; [lia|done|done].
Qed.

(** A start refused as a conflict is answered by the operation the member
    holds under the same key exactly when the answer is a 409 whose code
    neither says that the database or the staging destination is busy, nor
    that the member is no HA member, nor that a record is unreadable, and the
    lookup found one. Otherwise the refusal stays an error that still carries
    every cause of it. *)
Theorem operationOfKey_follows isPrint quote unmarshalError resp kind key find :
  let err := startError isPrint quote unmarshalError resp in
  let code := codeOf isPrint unmarshalError resp in
  (forall op, operationOfKey quote err kind key find = inr op <->
     hr_StatusCode resp = 409 /\
     ~ code ∈ [CodeOperationRecordUnreadable; CodeOperationInProgress; CodeStagingDestinationInUse; CodeNotAnHAMember] /\
     find tt = inr (Some op)) /\
  (forall e s, operationOfKey quote err kind key find = inl e -> Is err s = true -> Is e s = true).
Proof.
  cbv zeta. set (err := startError _ _ _ _). set (code := codeOf _ _ _).
  pose proof (causes_table (hr_StatusCode resp) code) as (_ & _ & _ & _ & Hc & Hp & Hs & _ & Hn & _).
  cbv zeta in *. unfold code in *. fold (causes isPrint unmarshalError resp) in Hc, Hp, Hs, Hn.
  rewrite <- (startError_causes isPrint quote unmarshalError) in Hc, Hp, Hs, Hn. fold err in Hc, Hp, Hs, Hn.
  fold (Is err errStartConflict) (Is err errOperationInProgress) (Is err errStagingInUse) (Is err errNotAnHAMember) in *.
  unfold operationOfKey. rewrite Hc, Hp, Hs, Hn. split.
  - intros op. rewrite !not_elem_of_cons. repeat case_bool_decide; cbn [negb andb orb];
      (split; [|intros (? & (? & ? & ? & ? & _) & Hf)]); try done; try (intros Hf; done);
      try (rewrite Hf; done); try congruence;
      destruct (find tt) as [e|[op'|]]; intros; simplify_eq; ((split_and!; [done..|set_solver|done]) || done).
  - intros e s He Hi. case_test_in He; simplify_eq; [done|].
    destruct (find tt) as [e'|[op'|]]; simplify_eq; unfold Is in *; bool_simpl; apply bool_decide_eq_true_2; simpl; set_solver.
Qed.

(** ** Concrete calls *)

Module ClientExamples.
Definition asciiPrint (r : N) : bool := in_range 32 r 126.
Definition noJSON (raw : string) : option (string * string) :=
  if raw == "missing" then Some (textOperationNotFound, "") else None.
Definition held : Operation := mkOperation "op-1" OpBackup "k" "h" "db" OpPending "" None None "" 1 1.
Definition jsonList (raw : string) : option (list Operation) := if raw == "held" then Some [held] else None.
Definition tokensOf : option (string -> Err + list string) := Some (fun _ => inr ["new"; "old"]).
(** A member that holds the old token. *)
Definition member : Transport := fun req _ token =>
  if token == "old" then
    inr (if hq_URL req == "http://c-0.ns.svc:9090/v1/operations/op-2" then mkResponse 404 "" (Raw "missing")
         else mkResponse 200 "" (Raw "held"))
  else inr (mkResponse 401 "" NoBody).
Definition fresh : ClientState := mkClient ∅ [].
Notation ask := (FindOperation asciiPrint quoted noJSON jsonList (fun t => t) tokensOf member (fun k => k)).

Lemma FindOperation_answered_witness :
  exists c', ask "c-0" "ns" OpBackup "k" fresh = (inr (Some held), c') /\
    let req := mkRequest "GET" (baseURL "c-0" "ns" +:+ "/v1/operations?idempotencyKey=k") "" "" in
    exists ts token j resp raw ops, memberTokens tokensOf "c-0" = inr ts /\ token ∈ ts /\
      member req j token = inr resp /\ hr_StatusCode resp = 200 /\ hr_Body resp = Raw raw /\ jsonList raw = Some ops /\
      (Some held = None -> Forall (fun op => op_Kind op <> OpBackup) ops) /\
      (forall op, Some held = Some op -> op ∈ ops /\ op_Kind op = OpBackup).
Proof.
  eexists. split; [vm_compute; reflexivity|].
  eapply (FindOperation_answered asciiPrint quoted noJSON jsonList (fun t => t) (fun k => k) tokensOf member "c-0" "ns" OpBackup "k" fresh).
  vm_compute. reflexivity.
Defined.

Lemma GetOperation_missing_witness :
  exists e, (GetOperation asciiPrint quoted noJSON (fun _ => inl "no JSON") (fun t => t) tokensOf member
               "c-0" "ns" "op-2" fresh).1 = inl e /\ Is e errOperationMissing = true.
Proof.
  eapply (GetOperation_missing asciiPrint quoted noJSON (fun _ => inl "no JSON") (fun t => t) tokensOf member
            "c-0" "ns" "op-2" fresh); [vm_compute; reflexivity|].
  split; vm_compute; reflexivity.
Defined.
End ClientExamples.
