(* ===== verification/BackupController.v ===== *)
(** * The backup controller

    [internal/controller/cubridbackup_controller.go]: the reconcile of a
    CubridBackup.  A reconcile works on a copy of the object that it read, in
    whatever version the cache had; its writes go to the API server, which
    refuses one that is not based on the current version.  The state of a
    reconcile [W] holds that copy, the versions the server has stored, the
    calls made to members and the Events; one definition per method of the
    reconciler, in a state monad.

    The surroundings of one reconcile are in [Env]: the version of the object
    that is read, the cluster and the Pod as read, the observations of the
    members, the readings of the clock and the answers of the members.  At
    most one answer of each kind is used.  Kubernetes' condition helpers and
    [DeepEqual], the formatting of times and [strconv.Quote] are parameters;
    so is [asStored], what the API server keeps of a time. *)
From stdpp Require Import prelude gmap strings pretty list.
From S2P Require Import Prelude GoState Api GoStr HARole Replication OpStore BackupTarget ManifestURI ImClient.

(** ** Constants *)

Definition conditionAccepted : string := "Accepted".
Definition conditionBackupReady : string := "Ready".
Definition reasonRecordedTargetSelected : string := "RecordedTargetSelected".
Definition reasonRecordedTargetNotEligible : string := "RecordedTargetNotEligible".
Definition reasonUnsupportedDestination : string := "UnsupportedDestination".
Definition reasonRecordedTargetNotStarted : string := "RecordedTargetNotStarted".
Definition reasonRecordedOperationMissing : string := "RecordedOperationMissing".
Definition reasonRecordedOperationLost : string := "RecordedOperationLost".
Definition reasonRecordedTargetUnverified : string := "RecordedTargetUnverified".
Definition reasonObjectStorageWaitExpired : string := "ObjectStorageWaitExpired".
Definition objectStorageEnvPrefix : string := "IM_S3_".
Definition backupStagingRoot : string := "/var/lib/cubrid/backup-staging".
Definition backupPollAfter : Duration := 10 * Second.
Definition backupClusterWait : Duration := 10 * Minute.
Definition backupTargetWait : Duration := 30 * Minute.
Definition backupOperationMissingWait : Duration := 30 * Minute.
(** How fmt prints these bounds. *)
Definition printWait30m : string := "30m0s".
Definition printWait10m : string := "10m0s".
Definition printWait30s : string := "30s".
Definition appName : string := "cubrid".

(** ** Data *)

Record BackupUpload := mkUpload {
  bu_Bucket : string; bu_Prefix : string; bu_ClusterUID : string;
  bu_CubridVersion : string; bu_SourceInstance : string; bu_SourceRole : string; bu_Seed : bool }.
Record BackupRequest := mkBackupRequest {
  br_Database : string; br_Destination : string; br_Level : Z; br_Upload : option BackupUpload }.

(** corev1.EnvVar: a value, or where it comes from. *)
Inductive EnvVarSource := SecretKeyRef (name key : string) | OtherSource (description : string).
Record EnvVar := mkEnvVar { ev_Name : string; ev_Value : string; ev_ValueFrom : option EnvVarSource }.
#[global] Instance EnvVarSource_eq_dec : EqDecision EnvVarSource.
Proof. solve_decision. Defined.
#[global] Instance EnvVar_eq_dec : EqDecision EnvVar.
Proof. solve_decision. Defined.
Record Container := mkContainer { ct_Name : string; ct_Env : list EnvVar }.

(** The answer of a read: not found, another error, or the object. *)
Inductive Read (A : Type) := ReadNotFound | ReadError | ReadOk (x : A).
Arguments ReadNotFound {A}.
Arguments ReadError {A}.
Arguments ReadOk {A} x.

(** What becomes of a status update: written; refused, since the object
    changed; failed without effect; or written with the answer lost. *)
Inductive UpdateOutcome := UWritten | UConflict | UFailed | ULost.
Inductive UpdateResult := Updated | UpdateConflict | UpdateError.

(** What a reconcile does that others can see, in order. *)
Inductive Trace :=
  | TWrite (st : CubridBackupStatus)
  | TStart (pod namespace key : string) (req : BackupRequest)
  | TGet (pod namespace id : string)
  | TFind (pod namespace key : string).

Inductive EventType := EventTypeNormal | EventTypeWarning.
Record BackupEvent := mkBackupEvent { ev_Type : EventType; ev_Reason : string; ev_Message : string }.

(** CubridBackupReconciler: whether its collaborators are set, and the
    readings it shares with the cluster controller. *)
Record Reconciler := mkReconciler {
  r_Prober : bool; r_Backup : bool; r_Recorder : bool; r_Positions : option (gmap string clusterPositions) }.

Record Env := mkBackupEnv {
  be_read : Read nat;
  be_cluster : Read CubridCluster;
  be_pod : Read (list Container);
  be_probe : string -> RoleObservation;
  be_observedAt : Time;
  be_clock : nat -> Time;
  be_end : Time;
  be_start : Err + Operation;
  be_get : Err + Operation;
  be_find : Err + option Operation }.

(** The state of one reconcile.  [w_server] are the versions of the status the
    server has stored, the current one first; [w_current] says that the copy
    is based on it; [w_phase] is the entry of [phases]; [w_updates] are the
    outcomes of the updates to come, [UWritten] once they are used up. *)
Record W := mkW {
  w_backup : CubridBackup;
  w_current : bool;
  w_server : list CubridBackupStatus;
  w_phase : option string;
  w_trace : list Trace;
  w_events : list BackupEvent;
  w_ticks : nat;
  w_updates : list UpdateOutcome }.

Definition set_w_backup b w := mkW b (w_current w) (w_server w) (w_phase w) (w_trace w) (w_events w) (w_ticks w) (w_updates w).
Definition set_w_current c w := mkW (w_backup w) c (w_server w) (w_phase w) (w_trace w) (w_events w) (w_ticks w) (w_updates w).
Definition set_w_phase p w := mkW (w_backup w) (w_current w) (w_server w) p (w_trace w) (w_events w) (w_ticks w) (w_updates w).
Definition set_w_ticks t w := mkW (w_backup w) (w_current w) (w_server w) (w_phase w) (w_trace w) (w_events w) t (w_updates w).
Definition set_w_updates u w := mkW (w_backup w) (w_current w) (w_server w) (w_phase w) (w_trace w) (w_events w) (w_ticks w) u.
Definition add_trace t w := mkW (w_backup w) (w_current w) (w_server w) (w_phase w) (w_trace w ++ [t]) (w_events w) (w_ticks w) (w_updates w).
Definition add_event e w := mkW (w_backup w) (w_current w) (w_server w) (w_phase w) (w_trace w) (w_events w ++ [e]) (w_ticks w) (w_updates w).
Definition store st w := mkW (w_backup w) (w_current w) (st :: w_server w) (w_phase w) (w_trace w ++ [TWrite st]) (w_events w) (w_ticks w) (w_updates w).

(** ctrl.Result and error: the time to the next reconcile, 0 for none asked
    for, or an error, which is retried. *)
Inductive Outcome := Done (requeueAfter : Duration) | Failed.

(** The state monad of a reconcile. *)
Notation Rec := (St W).
Definition theBackup : Rec CubridBackup := fun w => (w_backup w, w).
Definition modStatus (f : CubridBackupStatus -> CubridBackupStatus) : Rec unit :=
  fun w => (tt, set_w_backup (map_backup_status f (w_backup w)) w).
Definition emit (t : Trace) : Rec unit := fun w => (tt, add_trace t w).

(** ** Pure parts *)

Definition idempotencyKey (backup : CubridBackup) : string :=
  "cubridbackup:" +:+ bk_Namespace backup +:+ ":" +:+ bk_Name backup +:+ ":" +:+ bk_UID backup.

Definition replicationHistory (cluster : CubridCluster) : gmap string InstanceReplication :=
  fold_left (fun history i =>
    match is_Replication i with
    | Some r => <[is_Name i := r]> history
    | None => delete (is_Name i) history
    end) (st_Instances (cl_Status cluster)) ∅.

(** validateBackupSpec: the reason and the message of a refusal. *)
Definition validateBackupSpec (backup : CubridBackup) : option (string * string) :=
  let type := bp_DestinationType (bk_Spec backup) in
  if (type != DestinationObjectStorage) && (bt_OperationRef (bk_Status backup) == "")
  then Some (reasonUnsupportedDestination, "destination type " +:+ type +:+
             " is not supported: a backup is stored in object storage only")
  else if (type == DestinationObjectStorage) && is_nil (bp_ObjectStorage (bk_Spec backup))
  then Some ("InvalidDestination", "destination.objectStorage is required when type is ObjectStorage")
  else None.

Definition buildBackupRequest (backup : CubridBackup) (cluster : CubridCluster) (sel : TargetSelection) : BackupRequest :=
  let '(bucket, prefix) :=
    match bp_ObjectStorage (bk_Spec backup) with
    | Some store => (od_Bucket store, backupArtifactPrefix store backup cluster)
    | None => ("", "")
    end in
  mkBackupRequest (bp_Database (bk_Spec backup)) (Join [backupStagingRoot; bk_UID backup]) 0
    (Some (mkUpload bucket prefix (cl_UID cluster) (sp_Version (cl_Spec cluster)) (ts_Instance sel) (ts_Role sel) false)).

(** objectStorageEnv (cubridcluster_controller.go) *)
Definition objectStorageEnv (storage : option CubridObjectStorage) : list EnvVar :=
  match storage with
  | None => []
  | Some s =>
      let fromSecret key := Some (SecretKeyRef (os_CredentialsSecretRef s) key) in
      [mkEnvVar "IM_S3_ENDPOINT" (os_Endpoint s) None;
       mkEnvVar "IM_S3_ACCESS_KEY" "" (fromSecret "accessKey");
       mkEnvVar "IM_S3_SECRET_KEY" "" (fromSecret "secretKey")] ++
      (if os_Region s != "" then [mkEnvVar "IM_S3_REGION" (os_Region s) None] else []) ++
      (if os_Insecure s then [mkEnvVar "IM_S3_INSECURE" "true" None] else [])
  end.

Definition appliedEnv (pod : list Container) : gmap string EnvVar :=
  fold_left (fun applied c =>
    if ct_Name c != appName then applied
    else fold_left (fun applied e =>
           if non_nil (CutPrefix objectStorageEnvPrefix (ev_Name e)) then <[ev_Name e := e]> applied else applied)
         (ct_Env c) applied) pod ∅.

(** backupPhaseEvents: the reason of the Event of a phase. *)
Definition backupPhaseEvents (phase : string) : option string :=
  if phase == BackupPhasePending then Some "BackupPending"
  else if phase == BackupPhaseRunning then Some "BackupStarted"
  else if phase == BackupPhaseUploading then Some "BackupUploading"
  else if phase == BackupPhaseCompleted then Some "BackupCompleted"
  else if phase == BackupPhaseFailed then Some "BackupFailed"
  else None.

Definition terminalPhase (phase : string) : bool := (phase == BackupPhaseCompleted) || (phase == BackupPhaseFailed).

(** ** The reconciler *)

Section reconciler.
Context `{O : ConditionOps}.
Context (quote : string -> string) (formatTime : Time -> string).
Context (asStored : Time -> Time) (DeepEqual : EnvVar -> EnvVar -> bool).
Context (r : Reconciler) (env : Env).

(** now: each reading of the clock is the next one. *)
Definition now : Rec Time := fun w => (be_clock env (w_ticks w), set_w_ticks (S (w_ticks w)) w).

(** The answers of the member, each call in the trace. *)
Definition callStart (pod namespace key : string) (req : BackupRequest) : Rec (Err + Operation) :=
  _ ← emit (TStart pod namespace key req); mret (be_start env).
Definition callGet (pod namespace id : string) : Rec (Err + Operation) :=
  _ ← emit (TGet pod namespace id); mret (be_get env).
Definition callFind (pod namespace key : string) : Rec (Err + option Operation) :=
  _ ← emit (TFind pod namespace key); mret (be_find env).

Definition setBackupCondition (condType : string) (status : ConditionStatus) (reason msg : string) : Rec unit :=
  backup ← theBackup;
  modStatus (fun s => set_bt_Conditions
    (SetStatusCondition (bt_Conditions s) (mkCondition condType status (bk_Generation backup) 0 reason msg)) s).

(** A time and a status as the API server stores and answers them. *)
Definition storedCondition (c : Condition) : Condition :=
  mkCondition (c_Type c) (c_Status c) (c_ObservedGeneration c) (asStored (c_LastTransitionTime c)) (c_Reason c) (c_Message c).
Definition storedStatus (s : CubridBackupStatus) : CubridBackupStatus :=
  mkBackupStatus (bt_ObservedGeneration s) (bt_Phase s) (bt_OperationRef s) (bt_TargetInstance s) (bt_TargetRole s)
    (bt_FallbackUsed s) (bt_ClusterUID s) (asStored <$> bt_TargetRecordedAt s)
    (asStored <$> bt_ObjectStorageNotAppliedSince s) (asStored <$> bt_PrimaryLogEndNotReadSince s)
    (asStored <$> bt_OperationMissingSince s) (asStored <$> bt_StartedAt s) (asStored <$> bt_CompletedAt s)
    (bt_Artifact s) (storedCondition <$> bt_Conditions s).

(** [r.Status().Update(ctx, backup)]: a written object is answered back into
    the copy. *)
Definition statusUpdate : Rec UpdateResult := fun w =>
  let '(o, rest) := match w_updates w with [] => (UWritten, []) | o :: rest => (o, rest) end in
  let w := set_w_updates rest w in
  let st := storedStatus (bk_Status (w_backup w)) in
  match o with
  | UConflict => (UpdateConflict, w)
  | UFailed => (UpdateError, w)
  | UWritten =>
      if w_current w then (Updated, set_w_backup (map_backup_status (fun _ => st) (w_backup w)) (store st w))
      else (UpdateConflict, w)
  | ULost => (UpdateError, if w_current w then set_w_current false (store st w) else w)
  end.

(** What writeStatus does after a write: [phases] holds the phase that is
    stored now, and a phase it did not hold before is reported. *)
Definition reportPhase (backup : CubridBackup) : Rec unit := fun w =>
  let phase := bt_Phase (bk_Status backup) in
  let w' := set_w_phase (Some phase) w in
  (tt,
   match backupPhaseEvents phase, w_phase w with
   | Some reason, Some stored =>
       if (stored == phase) || negb (r_Recorder r) then w'
       else
         let msg := match findCondition (bt_Conditions (bk_Status backup)) conditionBackupReady with
                    | Some c => c_Message c
                    | None => phase
                    end in
         add_event (mkBackupEvent (if phase == BackupPhaseFailed then EventTypeWarning else EventTypeNormal) reason msg) w'
   | _, _ => w'
   end).

Definition writeStatus : Rec UpdateResult :=
  res ← statusUpdate;
  match res with
  | Updated => backup ← theBackup; _ ← reportPhase backup; mret Updated
  | res => mret res
  end.

(** How a handler ends on a failed write. *)
Definition writeFailed (res : UpdateResult) : Outcome :=
  match res with UpdateConflict => Done Second | _ => Failed end.

Definition commit (result : Outcome) : Rec Outcome :=
  backup ← theBackup;
  _ ← modStatus (set_bt_ObservedGeneration (bk_Generation backup));
  res ← writeStatus;
  match res with Updated => mret result | res => mret (writeFailed res) end.

Definition ended (reason msg : string) : Rec Outcome :=
  t ← now;
  _ ← modStatus (fun s => set_bt_CompletedAt (Some t) (set_bt_Phase BackupPhaseFailed s));
  _ ← setBackupCondition conditionBackupReady ConditionFalse reason msg;
  commit (Done 0).

Definition rejected (reason msg : string) : Rec Outcome :=
  _ ← setBackupCondition conditionAccepted ConditionFalse reason msg;
  ended reason msg.

Definition failedBackup (reason : string) : Rec Outcome :=
  _ ← modStatus (fun s => set_bt_CompletedAt (Some (be_end env)) (set_bt_Phase BackupPhaseFailed s));
  _ ← setBackupCondition conditionBackupReady ConditionFalse "BackupFailed" reason;
  commit (Done 0).

Definition completed (op : Operation) : Rec Outcome :=
  _ ← modStatus (fun s => set_bt_CompletedAt (Some (be_end env)) (set_bt_Phase BackupPhaseCompleted s));
  _ ← match op_Artifact op with
      | Some a => modStatus (set_bt_Artifact (Some (mkBackupArtifact (oa_ManifestURI a) (oa_ManifestDigest a)
                    (oa_SizeBytes a) (oa_CubridVersion a) (oa_Database a) CubridBackupFull)))
      | None => mret tt
      end;
  _ ← setBackupCondition conditionBackupReady ConditionTrue "BackupCompleted" "backup completed";
  commit (Done 0).

(** Sets the phase of a backup that has none. *)
Definition pendingIfNew : Rec unit :=
  modStatus (fun s => if bt_Phase s == "" then set_bt_Phase BackupPhasePending s else s).

Definition clusterMissing : Rec Outcome :=
  backup ← theBackup;
  let name := bp_ClusterRef (bk_Spec backup) in
  if bt_ClusterUID (bk_Status backup) != "" then
    ended "ClusterDeleted" ("CubridCluster " +:+ name +:+ " was deleted after this backup was started on it")
  else
    t ← now;
    if backupClusterWait <? Sub t (bk_CreationTimestamp backup) then
      rejected "ClusterNotFound" ("referenced CubridCluster " +:+ name +:+ " was not found within " +:+ printWait10m
        +:+ " of the backup's creation")
    else
      _ ← pendingIfNew;
      let msg := "referenced CubridCluster " +:+ name +:+ " is not found; waiting for it for at most " +:+ printWait10m
                 +:+ " from the backup's creation" in
      _ ← setBackupCondition conditionAccepted ConditionFalse "ClusterNotFound" msg;
      _ ← setBackupCondition conditionBackupReady ConditionFalse "ClusterNotFound" msg;
      commit (Done backupPollAfter).

(** ** Following an operation *)

Definition operationMissing (err : Err) : Rec Outcome :=
  backup ← theBackup;
  let target := bt_TargetInstance (bk_Status backup) in
  let id := bt_OperationRef (bk_Status backup) in
  since ← match bt_OperationMissingSince (bk_Status backup) with
          | Some since => mret since
          | None => t ← now; _ ← modStatus (set_bt_OperationMissingSince (Some t)); mret t
          end;
  t ← now;
  if backupOperationMissingWait <? Sub t since then
    ended reasonRecordedOperationLost (target +:+ " has held no record of this backup's operation " +:+ id +:+ " since "
      +:+ formatTime since +:+ ", for " +:+ printWait30m +:+ " or longer (" +:+ e_text err +:+ "). A missing record "
      +:+ "does not show that the work ended: a backup may still be running on " +:+ target +:+ " and upload under this "
      +:+ "backup's prefix; check that member and the prefix before relying on it. The backup is not started "
      +:+ "again, on " +:+ target +:+ " or another member")
  else
    _ ← setBackupCondition conditionBackupReady ConditionFalse reasonRecordedOperationMissing
          (target +:+ " holds no record of this backup's operation " +:+ id +:+ "; waiting for at most " +:+ printWait30m
           +:+ " from " +:+ formatTime since +:+ " for it to be read again");
    commit (Done backupPollAfter).

Definition pollBackup : Rec Outcome :=
  if negb (r_Backup r) then commit (Done 0)
  else
    backup ← theBackup;
    op ← callGet (bt_TargetInstance (bk_Status backup)) (bk_Namespace backup) (bt_OperationRef (bk_Status backup));
    match op with
    | inl err =>
        if Is err errOperationMissing then operationMissing err
        else
          _ ← setBackupCondition conditionBackupReady ConditionFalse (instanceManagerFailureReason err) (e_text err);
          commit (Done backupPollAfter)
    | inr op =>
        _ ← modStatus (set_bt_OperationMissingSince None);
        if op_State op == OpCompleted then completed op
        else if op_State op == OpFailed then failedBackup (op_FailureReason op)
        else
          _ ← (if op_State op == OpUploading then
                 _ ← modStatus (set_bt_Phase BackupPhaseUploading);
                 setBackupCondition conditionBackupReady ConditionFalse "UploadRunning" "uploading artifact"
               else
                 _ ← modStatus (set_bt_Phase BackupPhaseRunning);
                 setBackupCondition conditionBackupReady ConditionFalse "BackupRunning" "backup in progress");
          commit (Done backupPollAfter)
    end.

Definition adoptBackup (op : Operation) : Rec Outcome :=
  _ ← modStatus (fun s => set_bt_OperationRef (op_ID op) (set_bt_Phase BackupPhaseRunning s));
  backup ← theBackup;
  _ ← match bt_StartedAt (bk_Status backup) with
      | Some _ => mret tt
      | None =>
          t ← now;
          modStatus (set_bt_StartedAt (Some (if negb (IsZero (op_CreatedAt op)) then op_CreatedAt op else t)))
      end;
  pollBackup.

(** ** Waiting on the recorded target *)

Definition recordedTargetWaitExpired : Rec bool :=
  backup ← theBackup;
  at_ ← match bt_TargetRecordedAt (bk_Status backup) with
        | Some t => mret t
        | None => t ← now; _ ← modStatus (set_bt_TargetRecordedAt (Some t)); mret t
        end;
  t ← now;
  mret (backupTargetWait <? Sub t at_).

Definition waitOnRecordedTarget (reason msg : string) : Rec Outcome :=
  _ ← setBackupCondition conditionBackupReady ConditionFalse reason
        (msg +:+ "; waiting for at most " +:+ printWait30m +:+ " from when the target was recorded");
  commit (Done backupPollAfter).

Definition endRecordedTargetWait : Rec Outcome :=
  backup ← theBackup;
  let target := bt_TargetInstance (bk_Status backup) in
  found ← callFind target (bk_Namespace backup) (idempotencyKey backup);
  let last := match findCondition (bt_Conditions (bk_Status backup)) conditionBackupReady with
              | Some ready => " (last: " +:+ c_Reason ready +:+ ": " +:+ c_Message ready +:+ ")"
              | None => ""
              end in
  match found with
  | inr (Some op) => adoptBackup op
  | inl err =>
      ended reasonRecordedTargetUnverified ("the backup was not started on its recorded target " +:+ target +:+ " within "
        +:+ printWait30m +:+ last +:+ ", and " +:+ target +:+ " could not be asked whether it holds the backup's operation: "
        +:+ e_text err +:+ ". A backup may still be running on " +:+ target +:+ " and upload under this backup's "
        +:+ "prefix; check that member before relying on that prefix. The backup is not started on another member")
  | inr None =>
      ended reasonRecordedTargetNotStarted ("the backup was not started on its recorded target " +:+ target +:+ " within "
        +:+ printWait30m +:+ last +:+ ", and " +:+ target +:+ " holds no operation of it; "
        +:+ "nothing runs, and the backup is not started on another member")
  end.

Definition holdRecordedTarget (reason msg : string) : Rec Outcome :=
  expired ← recordedTargetWaitExpired;
  if (expired : bool) then endRecordedTargetWait
  else
    backup ← theBackup;
    found ← callFind (bt_TargetInstance (bk_Status backup)) (bk_Namespace backup) (idempotencyKey backup);
    match found with
    | inr (Some op) => adoptBackup op
    | inl err => waitOnRecordedTarget reason (msg +:+ "; it could not be asked whether it runs the backup: " +:+ e_text err)
    | inr None => waitOnRecordedTarget reason (msg +:+ "; it holds no operation of this backup")
    end.

(** ** Starting *)

(** objectStorageNotApplied; the answer is empty when the settings are applied. *)
Definition objectStorageNotApplied (cluster : CubridCluster) (instance : string) : option string :=
  match be_pod env with
  | ReadNotFound => Some ("Pod " +:+ instance +:+ " is not found; waiting for it to run with the cluster's spec.objectStorage")
  | ReadError => None
  | ReadOk pod =>
      let applied := appliedEnv pod in
      let desired := objectStorageEnv (sp_ObjectStorage (cl_Spec cluster)) in
      let same := (size applied == List.length desired) &&
        forallb (fun e => match applied !! ev_Name e with Some got => DeepEqual got e | None => false end) desired in
      Some (if same then ""
            else "Pod " +:+ instance +:+ " was started without the cluster's current spec.objectStorage; "
                 +:+ "it picks the settings up when it is restarted")
  end.

(** The last part of startBackup: the start is sent to the recorded target. *)
Definition dispatch (cluster : CubridCluster) (sel : TargetSelection) : Rec Outcome :=
  backup ← theBackup;
  let key := idempotencyKey backup in
  op ← callStart (ts_Instance sel) (bk_Namespace backup) key (buildBackupRequest backup cluster sel);
  match op with
  | inl err =>
      if Is err errStartConflict then holdRecordedTarget (instanceManagerFailureReason err) (e_text err)
      else if Is err errRequestRefused then
        found ← callFind (ts_Instance sel) (bk_Namespace backup) key;
        match found with
        | inr (Some held) => adoptBackup held
        | inr None =>
            ended reasonRequestRefused (e_text err +:+ "; the target holds no operation of this backup, nothing was started, "
              +:+ "and the backup is not continued")
        | inl lookupErr =>
            waitOnRecordedTarget reasonRequestRefused
              (e_text err +:+ "; it could not be asked whether it runs the backup: " +:+ e_text lookupErr)
        end
      else waitOnRecordedTarget (instanceManagerFailureReason err) (e_text err)
  | inr op =>
      _ ← modStatus (fun s => set_bt_StartedAt (Some (be_end env))
            (set_bt_OperationRef (op_ID op) (set_bt_Phase BackupPhaseRunning s)));
      _ ← setBackupCondition conditionBackupReady ConditionFalse (ts_Reason sel) ("backup started on " +:+ ts_Instance sel);
      commit (Done backupPollAfter)
  end.

(** The middle part, for a fresh selection: its Pod is judged, the target is
    written to the status, and only then the start is sent. *)
Definition recordTarget (cluster : CubridCluster) (sel : TargetSelection) : Rec Outcome :=
  match objectStorageNotApplied cluster (ts_Instance sel) with
  | None => mret Failed
  | Some notApplied =>
      if notApplied != "" then
        backup ← theBackup;
        since ← match bt_ObjectStorageNotAppliedSince (bk_Status backup) with
                | Some since => mret since
                | None => t ← now; _ ← modStatus (set_bt_ObjectStorageNotAppliedSince (Some t)); mret t
                end;
        t ← now;
        if backupTargetWait <? Sub t since then
          ended reasonObjectStorageWaitExpired (notApplied +:+ "; no selected Pod ran with the cluster's spec.objectStorage within "
            +:+ printWait30m +:+ ", nothing was started, and the backup is not continued")
        else
          _ ← pendingIfNew;
          _ ← setBackupCondition conditionBackupReady ConditionFalse reasonObjectStorageNotApplied
                (notApplied +:+ "; waiting for at most " +:+ printWait30m +:+ " from the first time this was found");
          commit (Done backupPollAfter)
      else
        _ ← pendingIfNew;
        _ ← modStatus (set_bt_Target (ts_Instance sel) (ts_Role sel) (ts_FallbackUsed sel) (cl_UID cluster));
        t ← now;
        _ ← modStatus (fun s => set_bt_ObjectStorageNotAppliedSince None (set_bt_TargetRecordedAt (Some t) s));
        _ ← setBackupCondition conditionBackupReady ConditionFalse (ts_Reason sel) ("starting the backup on " +:+ ts_Instance sel);
        backup ← theBackup;
        _ ← modStatus (set_bt_ObservedGeneration (bk_Generation backup));
        res ← writeStatus;
        match res with
        | Updated => dispatch cluster sel
        | res => mret (writeFailed res)
        end
  end.

Definition probeAll (members : list string) : gmap string RoleObservation :=
  list_to_map ((fun m => (m, be_probe env m)) <$> members).

Definition recordedSelection (st : CubridBackupStatus) : TargetSelection :=
  mkSelection (bt_TargetInstance st) (bt_TargetRole st) (bt_FallbackUsed st) true reasonRecordedTargetSelected.

Definition startBackup (cluster : CubridCluster) : Rec Outcome :=
  let count := sp_PromotableMembers (cl_Spec cluster) in
  let members := memberNames cluster count in
  let obs := probeAll members in
  let observedAt := be_observedAt env in
  let res := resolvePrimary members obs observedAt in
  let single := count <=? 1 in
  backup ← theBackup;
  let st := bk_Status backup in
  if bt_TargetInstance st != "" then
    let sel := recordedSelection st in
    expired ← recordedTargetWaitExpired;
    if (expired : bool) then endRecordedTargetWait
    else if negb (recordedTargetEligible members obs res observedAt sel single) then
      holdRecordedTarget reasonRecordedTargetNotEligible
        ("recorded target " +:+ ts_Instance sel +:+ " is no longer eligible for its recorded role " +:+ bt_TargetRole st)
    else dispatch cluster sel
  else
    let since := bt_PrimaryLogEndNotReadSince st in
    logEndWaitOver ← match since with
                     | None => mret false
                     | Some s => t ← now; mret (primaryLogEndWait <=? Sub t s)
                     end;
    let sel := selectBackupTarget members obs (replicationHistory cluster)
                 (readings (r_Positions r) (cl_UID cluster) observedAt) res observedAt
                 (bp_Preference (bk_Spec backup)) single logEndWaitOver in
    _ ← (if ts_Reason sel != reasonPrimaryLogEndNotRead then modStatus (set_bt_PrimaryLogEndNotReadSince None)
         else if is_nil since then t ← now; modStatus (set_bt_PrimaryLogEndNotReadSince (Some t))
         else mret tt);
    if negb (ts_Selected sel) then
      _ ← modStatus (set_bt_ObjectStorageNotAppliedSince None);
      let msg := if ts_Reason sel == reasonPrimaryLogEndNotRead
                 then "the master's own log end was not read, so no standby's copy of its log can be judged; "
                      +:+ "asking again, and falling back to the master " +:+ printWait30s +:+ " after this wait began"
                 else "no safe backup target yet; waiting for a healthy target" in
      _ ← setBackupCondition conditionBackupReady ConditionFalse (ts_Reason sel) msg;
      commit (Done backupPollAfter)
    else recordTarget cluster sel.

(** ** Reconcile *)

(** Reconcile from the point where the object was read. *)
Definition reconcileRead : Rec Outcome :=
  backup ← theBackup;
  if terminalPhase (bt_Phase (bk_Status backup)) then mret (Done 0)
  else match validateBackupSpec backup with
  | Some (reason, msg) => rejected reason msg
  | None =>
      match be_cluster env with
      | ReadNotFound => clusterMissing
      | ReadError => mret Failed
      | ReadOk cluster =>
          let st := bk_Status backup in
          if (bt_ClusterUID st != "") && (bt_ClusterUID st != cl_UID cluster) then
            ended "ClusterReplaced" ("CubridCluster " +:+ cl_Name cluster +:+
              " was deleted and created again after this backup was started; the backup is not continued on the new cluster")
          else
            let refusal := if (bt_OperationRef st == "") && (bt_TargetInstance st == "")
                           then backupDestinationRefusal quote backup cluster else "" in
            if refusal != "" then rejected "InvalidBackupDestination" refusal
            else
              _ ← setBackupCondition conditionAccepted ConditionTrue "BackupAccepted"
                    "spec is valid and the referenced cluster exists";
              if bt_OperationRef st != "" then pollBackup
              else if is_nil (sp_ObjectStorage (cl_Spec cluster)) then
                if (bt_TargetInstance st != "") && r_Backup r then
                  holdRecordedTarget "ObjectStorageNotConfigured" ("CubridCluster " +:+ cl_Name cluster +:+
                    " has no spec.objectStorage; the start is not sent again to the recorded target " +:+ bt_TargetInstance st)
                else
                  _ ← pendingIfNew;
                  _ ← modStatus (fun s => set_bt_PrimaryLogEndNotReadSince None (set_bt_ObjectStorageNotAppliedSince None s));
                  _ ← setBackupCondition conditionBackupReady ConditionFalse "ObjectStorageNotConfigured"
                        ("CubridCluster " +:+ cl_Name cluster +:+ " has no spec.objectStorage; its DB Pods cannot upload the backup");
                  commit (Done backupPollAfter)
              else if negb (r_Prober r) || negb (r_Backup r) then
                _ ← pendingIfNew;
                _ ← setBackupCondition conditionBackupReady ConditionFalse "BackupWorkflowNotConfigured"
                      "no role prober / backup client configured on the controller";
                commit (Done 0)
              else startBackup cluster
      end
  end.
End reconciler.

(** Reconcile, on the object as the API server has it: the read finds one of
    the versions stored so far, the k-th before the current one.  Metadata and
    spec do not change (the API server refuses a changed spec). *)
Record World := mkWorld {
  wd_meta : CubridBackup;
  wd_server : list CubridBackupStatus;
  wd_trace : list Trace;
  wd_events : list BackupEvent }.

Definition readVersion (wd : World) (k : nat) (st : CubridBackupStatus) (updates : list UpdateOutcome) : W :=
  mkW (map_backup_status (fun _ => st) (wd_meta wd)) (k == 0%nat) (wd_server wd) (Some (bt_Phase st))
    (wd_trace wd) (wd_events wd) 0 updates.

Definition Reconcile `{O : ConditionOps} quote formatTime asStored DeepEqual (r : Reconciler) (env : Env)
  (updates : list UpdateOutcome) (wd : World) : Outcome * World :=
  match be_read env with
  | ReadNotFound => (Done 0, wd)
  | ReadError => (Failed, wd)
  | ReadOk k =>
      match wd_server wd !! k with
      | None => (Done 0, wd)
      | Some st =>
          let '(o, w) := reconcileRead quote formatTime asStored DeepEqual r env (readVersion wd k st updates) in
          (o, mkWorld (wd_meta wd) (w_server w) (w_trace w) (w_events w))
      end
  end.

(** ** Reasoning about handlers *)

Lemma keeps_get (R : W -> W -> Prop) `{!PreOrder R} : keeps R theBackup.
Proof. apply keeps_read, _. Qed.
#[export] Hint Resolve keeps_get : keeps.

(** What an update of the status does. *)
Lemma statusUpdate_cases asStored w :
  let st := storedStatus asStored (bk_Status (w_backup w)) in
  (exists res u, statusUpdate asStored w = (res, set_w_updates u w) /\ res <> Updated) \/
  (w_current w = true /\ exists u, statusUpdate asStored w =
     (Updated, set_w_backup (map_backup_status (fun _ => st) (w_backup w)) (store st (set_w_updates u w)))) \/
  (w_current w = true /\ exists u, statusUpdate asStored w =
     (UpdateError, set_w_current false (store st (set_w_updates u w)))).
Proof.
  unfold statusUpdate. destruct (w_updates w) as [|o rest]; cbn [w_current w_backup set_w_updates].
  { destruct (w_current w) eqn:E; [right; left; eauto|left; eauto]. }
  destruct o; [destruct (w_current w) eqn:E; [right; left; eauto|left; eauto]|left; eauto|left; eauto|].
  destruct (w_current w) eqn:E; [right; right; eauto|left; eauto].
Qed.

(** *** The starts of a trace *)

Definition starts (tr : list Trace) : list (string * string * string * BackupRequest) :=
  omap (fun t => match t with TStart p n k q => Some (p, n, k, q) | _ => None end) tr.

Lemma starts_app a b : starts (a ++ b) = starts a ++ starts b.
Proof. apply omap_app. Qed.

(** No start is sent. *)
Definition noStart (w w' : W) : Prop := starts (w_trace w') = starts (w_trace w).
#[global] Instance noStart_preorder : PreOrder noStart.
Proof. split; unfold noStart; [done|intros ???; congruence]. Qed.

Section no_start.
Context `{O : ConditionOps} (quote : string -> string) (formatTime : Time -> string).
Context (asStored : Time -> Time) (DeepEqual : EnvVar -> EnvVar -> bool) (r : Reconciler) (env : Env).

Lemma noStart_mod f : keeps noStart (modStatus f).
Proof. done. Qed.
Lemma noStart_now : keeps noStart (now env).
Proof. done. Qed.
Lemma noStart_get p n i : keeps noStart (callGet env p n i).
Proof. intros w. change (starts (w_trace w ++ [TGet p n i]) = starts (w_trace w)). by rewrite starts_app, app_nil_r. Qed.
Lemma noStart_find p n k : keeps noStart (callFind env p n k).
Proof. intros w. change (starts (w_trace w ++ [TFind p n k]) = starts (w_trace w)). by rewrite starts_app, app_nil_r. Qed.
Lemma noStart_update : keeps noStart (statusUpdate asStored).
Proof.
  intros w. unfold noStart.
  destruct (statusUpdate_cases asStored w) as [(res & u & -> & _)|[[_ [u ->]]|[_ [u ->]]]]; [done|..];
    cbn [snd w_trace store set_w_backup set_w_updates set_w_current]; rewrite starts_app; apply app_nil_r.
Qed.
Lemma noStart_report b : keeps noStart (reportPhase r b).
Proof. intros w. unfold noStart, reportPhase. cbn [snd]. by repeat case_match. Qed.
#[local] Hint Resolve noStart_mod noStart_now noStart_get noStart_find noStart_update noStart_report : keeps.

Lemma noStart_cond t s reason msg : keeps noStart (setBackupCondition t s reason msg).
Proof. unfold setBackupCondition. keeps_solve. Qed.
Lemma noStart_write : keeps noStart (writeStatus asStored r).
Proof. unfold writeStatus. keeps_solve. Qed.
#[local] Hint Resolve noStart_cond noStart_write : keeps.
Lemma noStart_commit o : keeps noStart (commit asStored r o).
Proof. unfold commit. keeps_solve. Qed.
#[local] Hint Resolve noStart_commit : keeps.
Lemma noStart_ended reason msg : keeps noStart (ended asStored r env reason msg).
Proof. unfold ended. keeps_solve. Qed.
#[local] Hint Resolve noStart_ended : keeps.
Lemma noStart_rejected reason msg : keeps noStart (rejected asStored r env reason msg).
Proof. unfold rejected. keeps_solve. Qed.
#[local] Hint Resolve noStart_rejected : keeps.
Lemma noStart_missing : keeps noStart (clusterMissing asStored r env).
Proof. unfold clusterMissing, pendingIfNew. keeps_solve. Qed.
Lemma noStart_poll : keeps noStart (pollBackup formatTime asStored r env).
Proof. unfold pollBackup, operationMissing, completed, failedBackup. keeps_solve. Qed.
#[local] Hint Resolve noStart_missing noStart_poll : keeps.
Lemma noStart_adopt op : keeps noStart (adoptBackup formatTime asStored r env op).
Proof. unfold adoptBackup. keeps_solve. Qed.
#[local] Hint Resolve noStart_adopt : keeps.
Lemma noStart_expired : keeps noStart (recordedTargetWaitExpired env).
Proof. unfold recordedTargetWaitExpired. keeps_solve. Qed.
Lemma noStart_wait reason msg : keeps noStart (waitOnRecordedTarget asStored r reason msg).
Proof. unfold waitOnRecordedTarget. keeps_solve. Qed.
Lemma noStart_endWait : keeps noStart (endRecordedTargetWait formatTime asStored r env).
Proof. unfold endRecordedTargetWait. keeps_solve. Qed.
#[local] Hint Resolve noStart_expired noStart_wait noStart_endWait : keeps.
Lemma noStart_hold reason msg : keeps noStart (holdRecordedTarget formatTime asStored r env reason msg).
Proof. unfold holdRecordedTarget. keeps_solve. Qed.
#[local] Hint Resolve noStart_hold : keeps.

(** dispatch sends exactly one start. *)
Definition startOf (backup : CubridBackup) (cluster : CubridCluster) (sel : TargetSelection) :=
  (ts_Instance sel, bk_Namespace backup, idempotencyKey backup, buildBackupRequest backup cluster sel).

Lemma dispatch_starts cluster sel w :
  starts (w_trace (dispatch formatTime asStored r env cluster sel w).2) =
  starts (w_trace w) ++ [startOf (w_backup w) cluster sel].
Proof.
  unfold dispatch. rewrite run_bind. cbn [fst snd theBackup]. rewrite run_bind.
  match goal with |- context [callStart env ?p ?n ?k ?q w] =>
    change (callStart env p n k q w) with (be_start env, add_trace (TStart p n k q) w); cbn [fst snd];
    transitivity (starts (w_trace (add_trace (TStart p n k q) w))); [|apply starts_app] end.
  match goal with |- starts (w_trace (?m ?w1).2) = starts (w_trace ?w1) =>
    assert (keeps noStart m) as Hk; [keeps_solve|exact (Hk w1)] end.
Qed.
End no_start.

(** *** The object stays the same apart from its status *)

Definition sameMeta (w w' : W) : Prop := exists f, w_backup w' = map_backup_status f (w_backup w).
#[global] Instance sameMeta_preorder : PreOrder sameMeta.
Proof.
  split.
  - intros w. exists id. by destruct w as [[] ???????].
  - intros w1 w2 w3 [f Hf] [g Hg]. exists (fun s => g (f s)). rewrite Hg, Hf. done.
Qed.

Lemma startOf_meta w w' cluster sel : sameMeta w w' -> startOf (w_backup w') cluster sel = startOf (w_backup w) cluster sel.
Proof. intros [f Hf]. by rewrite Hf. Qed.

Section same_meta.
Context `{O : ConditionOps} (asStored : Time -> Time) (r : Reconciler) (env : Env).

Lemma sameMeta_mod f : keeps sameMeta (modStatus f).
Proof. intros w. by exists f. Qed.
Lemma sameMeta_now : keeps sameMeta (now env).
Proof. intros w. exists id. by destruct w as [[] ???????]. Qed.
Lemma sameMeta_update : keeps sameMeta (statusUpdate asStored).
Proof.
  intros w. destruct (statusUpdate_cases asStored w) as [(res & u & -> & _)|[[_ [u ->]]|[_ [u ->]]]].
  - exists id. by destruct w as [[] ???????].
  - by eexists.
  - exists id. by destruct w as [[] ???????].
Qed.
Lemma sameMeta_report b : keeps sameMeta (reportPhase r b).
Proof. intros w. exists id. unfold reportPhase. cbn [snd]. repeat case_match; by destruct w as [[] ???????]. Qed.
#[local] Hint Resolve sameMeta_mod sameMeta_now sameMeta_update sameMeta_report : keeps.
Lemma sameMeta_cond t s reason msg : keeps sameMeta (setBackupCondition t s reason msg).
Proof. unfold setBackupCondition. keeps_solve. Qed.
Lemma sameMeta_write : keeps sameMeta (writeStatus asStored r).
Proof. unfold writeStatus. keeps_solve. Qed.
Lemma sameMeta_expired : keeps sameMeta (recordedTargetWaitExpired env).
Proof. unfold recordedTargetWaitExpired. keeps_solve. Qed.
Lemma sameMeta_pending : keeps sameMeta pendingIfNew.
Proof. apply sameMeta_mod. Qed.
End same_meta.

(** *** Who is started *)

(** The relation of a handler that sends at most one start, to a target for
    which [P] holds. *)
Definition mayStart (P : CubridCluster -> TargetSelection -> Prop) (w w' : W) : Prop :=
  starts (w_trace w') = starts (w_trace w) \/
  exists cluster sel, P cluster sel /\ starts (w_trace w') = starts (w_trace w) ++ [startOf (w_backup w) cluster sel].

Lemma mayStart_quiet P {A B} (m : Rec A) (k : A -> Rec B) :
  keeps noStart m -> keeps sameMeta m -> (forall x, keeps (mayStart P) (k x)) -> keeps (mayStart P) (m ≫= k).
Proof.
  intros Hn Hm Hk w. rewrite run_bind. destruct (Hk (m w).1 (m w).2) as [Hs|(cl & sel & HP & Hs)].
  - left. rewrite Hs. apply Hn.
  - right. exists cl, sel. split; [done|]. rewrite Hs, (Hn w). by rewrite (startOf_meta _ _ cl sel (Hm w)).
Qed.

Lemma mayStart_none P {A} (m : Rec A) : keeps noStart m -> keeps (mayStart P) m.
Proof. intros Hn w. left. apply Hn. Qed.

Section who_is_started.
Context `{O : ConditionOps} (quote : string -> string) (formatTime : Time -> string).
Context (asStored : Time -> Time) (DeepEqual : EnvVar -> EnvVar -> bool) (r : Reconciler) (env : Env).

(** The target is named, and on the observations of this reconcile eligible
    for the role it is recorded with. *)
Definition eligibleNow (cluster : CubridCluster) (sel : TargetSelection) : Prop :=
  let count := sp_PromotableMembers (cl_Spec cluster) in
  let members := memberNames cluster count in
  let obs := probeAll env members in
  be_cluster env = ReadOk cluster /\ ts_Instance sel <> "" /\
  recordedTargetEligible members obs (resolvePrimary members obs (be_observedAt env)) (be_observedAt env) sel
    (count <=? 1) = true.

#[local] Hint Resolve noStart_mod noStart_now noStart_get noStart_find noStart_update noStart_report noStart_cond
  noStart_write noStart_commit noStart_ended noStart_rejected noStart_missing noStart_poll noStart_adopt noStart_expired
  noStart_wait noStart_endWait noStart_hold : keeps.
#[local] Hint Resolve sameMeta_mod sameMeta_now sameMeta_update sameMeta_report sameMeta_cond sameMeta_write
  sameMeta_expired sameMeta_pending : keeps.

(** Decomposes a handler up to its last part. *)
#[local] Ltac mayStart_solve :=
  repeat match goal with
  | |- keeps (mayStart _) (mbind _ _) => apply mayStart_quiet; [solve [keeps_solve]|solve [keeps_solve]|intros ?]
  | |- keeps (mayStart _) (if ?b then _ else _) => destruct b eqn:?
  | |- keeps (mayStart _) (match ?x with _ => _ end) => destruct x eqn:?
  | |- keeps (mayStart _) _ => apply mayStart_none; solve [keeps_solve]
  end.

Lemma dispatch_may cluster sel : eligibleNow cluster sel -> keeps (mayStart eligibleNow) (dispatch formatTime asStored r env cluster sel).
Proof. intros He w. right. exists cluster, sel. split; [done|]. apply dispatch_starts. Qed.

Lemma recordTarget_may cluster sel :
  eligibleNow cluster sel -> keeps (mayStart eligibleNow) (recordTarget formatTime asStored DeepEqual r env cluster sel).
Proof. intros He. unfold recordTarget. mayStart_solve. by apply dispatch_may. Qed.

Lemma memberNames_named cluster count m : m ∈ memberNames cluster count -> m <> "".
Proof.
  unfold memberNames. intros (i & -> & _)%list_elem_of_fmap. unfold memberName. by destruct (cl_Name cluster).
Qed.

Lemma startBackup_may cluster :
  be_cluster env = ReadOk cluster -> keeps (mayStart eligibleNow) (startBackup formatTime asStored DeepEqual r env cluster).
Proof.
  intros Hc. unfold startBackup. mayStart_solve.
  - apply dispatch_may. bool_simpl. split_and!; done.
  - bool_simpl. match goal with Hs : ts_Selected ?sel = true |- _ => destruct (select_eligible _ _ _ _ _ _ _ _ _ Hs) as [He Hn] end.
    apply recordTarget_may. split_and!; [done| |done].
    destruct Hn as [Hn%memberNames_named|Hn]; done.
Qed.

Lemma reconcileRead_may :
  keeps (mayStart eligibleNow) (reconcileRead quote formatTime asStored DeepEqual r env).
Proof. unfold reconcileRead. mayStart_solve. by apply startBackup_may. Qed.
End who_is_started.

(** *** Relations that every step keeps

    What the primitive steps keep, a whole reconcile keeps. *)
Section every_step.
Context `{O : ConditionOps} (quote : string -> string) (formatTime : Time -> string).
Context (asStored : Time -> Time) (DeepEqual : EnvVar -> EnvVar -> bool) (r : Reconciler) (env : Env).
Context (R : W -> W -> Prop) `{!PreOrder R}.
Hypothesis R_mod : forall f, keeps R (modStatus f).
Hypothesis R_now : keeps R (now env).
Hypothesis R_start : forall p n k q, keeps R (callStart env p n k q).
Hypothesis R_get : forall p n i, keeps R (callGet env p n i).
Hypothesis R_find : forall p n k, keeps R (callFind env p n k).
Hypothesis R_update : keeps R (statusUpdate asStored).
Hypothesis R_report : forall b, keeps R (reportPhase r b).
#[local] Hint Resolve R_mod R_now R_start R_get R_find R_update R_report : keeps.

Lemma cond_keeps t s reason msg : keeps R (setBackupCondition t s reason msg).
Proof. unfold setBackupCondition. keeps_solve. Qed.
Lemma write_keeps : keeps R (writeStatus asStored r).
Proof. unfold writeStatus. keeps_solve. Qed.
#[local] Hint Resolve cond_keeps write_keeps : keeps.
Lemma commit_keeps o : keeps R (commit asStored r o).
Proof. unfold commit. keeps_solve. Qed.
#[local] Hint Resolve commit_keeps : keeps.
Lemma ended_keeps reason msg : keeps R (ended asStored r env reason msg).
Proof. unfold ended. keeps_solve. Qed.
#[local] Hint Resolve ended_keeps : keeps.
Lemma poll_keeps : keeps R (pollBackup formatTime asStored r env).
Proof. unfold pollBackup, operationMissing, completed, failedBackup. keeps_solve. Qed.
#[local] Hint Resolve poll_keeps : keeps.
Lemma adopt_keeps op : keeps R (adoptBackup formatTime asStored r env op).
Proof. unfold adoptBackup. keeps_solve. Qed.
#[local] Hint Resolve adopt_keeps : keeps.
Lemma expired_keeps : keeps R (recordedTargetWaitExpired env).
Proof. unfold recordedTargetWaitExpired. keeps_solve. Qed.
Lemma endWait_keeps : keeps R (endRecordedTargetWait formatTime asStored r env).
Proof. unfold endRecordedTargetWait. keeps_solve. Qed.
#[local] Hint Resolve expired_keeps endWait_keeps : keeps.
Lemma hold_keeps reason msg : keeps R (holdRecordedTarget formatTime asStored r env reason msg).
Proof. unfold holdRecordedTarget, waitOnRecordedTarget. keeps_solve. Qed.
#[local] Hint Resolve hold_keeps : keeps.
Lemma dispatch_keeps cluster sel : keeps R (dispatch formatTime asStored r env cluster sel).
Proof. unfold dispatch, waitOnRecordedTarget. keeps_solve. Qed.
#[local] Hint Resolve dispatch_keeps : keeps.
Lemma recordTarget_keeps cluster sel : keeps R (recordTarget formatTime asStored DeepEqual r env cluster sel).
Proof. unfold recordTarget, pendingIfNew. keeps_solve. Qed.
#[local] Hint Resolve recordTarget_keeps : keeps.
Lemma startBackup_keeps cluster : keeps R (startBackup formatTime asStored DeepEqual r env cluster).
Proof. unfold startBackup. keeps_solve. Qed.
#[local] Hint Resolve startBackup_keeps : keeps.
Lemma reconcileRead_keeps : keeps R (reconcileRead quote formatTime asStored DeepEqual r env).
Proof. unfold reconcileRead, clusterMissing, rejected, pendingIfNew. keeps_solve. Qed.
End every_step.
