(* ===== verification/BackupSafety.v ===== *)
(** * What the backup controller keeps across reconciles

    The versions of a CubridBackup that the API server stores, over any
    sequence of reconciles: each reads some version, perhaps an old one, and
    each of its writes may be refused, fail, or be stored with its answer
    lost.  The target of a backup is stored before anything is started on it
    and never changes after; a final phase stays. *)
From stdpp Require Import prelude gmap strings pretty list.
From S2P Require Import Prelude GoState Api GoStr HARole Replication OpStore BackupTarget ManifestURI ImClient BackupController.

(** ** The versions the server stores *)

(** The target of one status is that of the other, with its role, its cluster
    and, once it has one, the time it was recorded. *)
Record SameTarget (old new : CubridBackupStatus) : Prop := {
  sa_target : bt_TargetInstance new = bt_TargetInstance old;
  sa_role : bt_TargetRole new = bt_TargetRole old;
  sa_fallback : bt_FallbackUsed new = bt_FallbackUsed old;
  sa_cluster : bt_ClusterUID new = bt_ClusterUID old;
  sa_recorded : bt_TargetRecordedAt old <> None -> bt_TargetRecordedAt new = bt_TargetRecordedAt old }.

(** An operation is kept; a new one is recorded only where a target was. *)
Definition KeepsOperation (old new : CubridBackupStatus) : Prop :=
  bt_OperationRef new = bt_OperationRef old \/ (bt_OperationRef old = "" /\ bt_TargetInstance old <> "").

(** What a stored version is to the one before it: either the target stays,
    or there was none and this version does nothing but record one. *)
Definition Follows (old new : CubridBackupStatus) : Prop :=
  terminalPhase (bt_Phase old) = false /\
  ((SameTarget old new /\ KeepsOperation old new) \/
   (bt_TargetInstance old = "" /\ bt_OperationRef old = "" /\ bt_OperationRef new = "" /\
    terminalPhase (bt_Phase new) = false)).

#[global] Instance SameTarget_preorder : PreOrder SameTarget.
Proof.
  split; [by intros st; split|]. intros a b c [A1 B1 C1 D1 E1] [A2 B2 C2 D2 E2]. split; try congruence.
  intros Ha. rewrite E2; [by apply E1|]. by rewrite E1.
Qed.

Section versions.
Context (asStored : Time -> Time).

Record ServerOk (srv : list CubridBackupStatus) (tr : list Trace) : Prop := {
  so_chain : forall i new old, srv !! i = Some new -> srv !! S i = Some old -> Follows old new;
  so_stored : Forall (fun st => storedStatus asStored st = st) srv;
  so_writes : forall st, st ∈ srv -> bt_TargetInstance st <> "" -> TWrite st ∈ tr;
  so_trace : forall st, TWrite st ∈ tr -> st ∈ srv;
  so_starts : forall i p n k q, tr !! i = Some (TStart p n k q) ->
    p <> "" /\ exists j st, (j < i)%nat /\ tr !! j = Some (TWrite st) /\ bt_TargetInstance st = p }.

Definition SrvOk (w : W) : Prop := ServerOk (w_server w) (w_trace w).

(** During a reconcile: a copy that is based on the current version has its
    target, and that version is not final. *)
Record Mid (w : W) : Prop := {
  mi_server : SrvOk w;
  mi_current : w_current w = true -> exists head rest, w_server w = head :: rest /\
    terminalPhase (bt_Phase head) = false /\ SameTarget head (bk_Status (w_backup w)) /\
    KeepsOperation head (bk_Status (w_backup w)) }.

Definition target (w : W) : string := bt_TargetInstance (bk_Status (w_backup w)).
Definition Known (w : W) : Prop :=
  target w <> "" -> exists st, st ∈ w_server w /\ bt_TargetInstance st = target w.
Definition NoOp (w : W) : Prop := bt_OperationRef (bk_Status (w_backup w)) = "".

(** A lookup or a poll. *)
Definition harmless (t : Trace) : Prop := match t with TGet _ _ _ | TFind _ _ _ => True | _ => False end.

(** Nothing is stored or started, and the recorded target and operation of
    the copy stay. *)
Record calm (w w' : W) : Prop := {
  ca_server : w_server w' = w_server w;
  ca_current : w_current w' = w_current w;
  ca_updates : w_updates w' = w_updates w;
  ca_trace : exists l, w_trace w' = w_trace w ++ l /\ Forall harmless l;
  ca_target : SameTarget (bk_Status (w_backup w)) (bk_Status (w_backup w'));
  ca_operation : bt_OperationRef (bk_Status (w_backup w')) = bt_OperationRef (bk_Status (w_backup w)) }.

#[global] Instance calm_preorder : PreOrder calm.
Proof.
  split.
  - intros w. split; [done..| |reflexivity|done]. exists []. by rewrite app_nil_r.
  - intros w1 w2 w3 [S1 C1 U1 (l1 & T1 & F1) A1 O1] [S2 C2 U2 (l2 & T2 & F2) A2 O2].
    split; [congruence..| |by transitivity (bk_Status (w_backup w2))|congruence].
    exists (l1 ++ l2). rewrite T2, T1, app_assoc. split; [done|by apply Forall_app].
Qed.

Lemma calm_meta w w' : w_server w' = w_server w -> w_current w' = w_current w -> w_updates w' = w_updates w ->
  w_trace w' = w_trace w -> bk_Status (w_backup w') = bk_Status (w_backup w) -> calm w w'.
Proof.
  intros Hs Hc Hu Ht Hb. split; [done..| | |by rewrite Hb].
  - exists []. by rewrite Ht, app_nil_r.
  - rewrite Hb. reflexivity.
Qed.

Lemma starts_ok_app tr l : Forall harmless l ->
  (forall i p n k q, tr !! i = Some (TStart p n k q) ->
     p <> "" /\ exists j st, (j < i)%nat /\ tr !! j = Some (TWrite st) /\ bt_TargetInstance st = p) ->
  forall i p n k q, (tr ++ l) !! i = Some (TStart p n k q) ->
    p <> "" /\ exists j st, (j < i)%nat /\ (tr ++ l) !! j = Some (TWrite st) /\ bt_TargetInstance st = p.
Proof.
  intros Hl Htr i p n k q [Hi|[_ Hi]]%lookup_app_Some.
  - apply Htr in Hi as (Hp & j & st & Hj & Hst & Ht). split; [done|]. exists j, st.
    split_and!; [done|by apply lookup_app_l_Some|done].
  - exfalso. by apply (Forall_lookup_1 _ _ _ _ Hl) in Hi.
Qed.

Lemma ServerOk_harmless srv tr l : Forall harmless l -> ServerOk srv tr -> ServerOk srv (tr ++ l).
Proof.
  intros Hl [Hc Hs Hw Ht Hst]. split; [done|done| | |by apply starts_ok_app].
  - intros st Hin Hne. apply elem_of_app. left. by apply Hw.
  - intros st [Hin|Hin]%elem_of_app; [by apply Ht|].
    by apply (proj1 (Forall_forall _ _) Hl) in Hin.
Qed.

Lemma KeepsOperation_calm old w w' : calm w w' ->
  KeepsOperation old (bk_Status (w_backup w)) -> KeepsOperation old (bk_Status (w_backup w')).
Proof. intros [_ _ _ _ _ Ho]. unfold KeepsOperation. by rewrite Ho. Qed.

Lemma Mid_calm w w' : calm w w' -> Mid w -> Mid w'.
Proof.
  intros Hcalm [Ho Hcur]. pose proof Hcalm as [Hs Hc _ (l & Ht & Hl) Ha _]. split.
  - unfold SrvOk. rewrite Hs, Ht. by apply ServerOk_harmless.
  - rewrite Hc, Hs. intros Hx. apply Hcur in Hx as (head & rest & He & Hn & Hsame & Hop). exists head, rest.
    split_and!; [done|done|by transitivity (bk_Status (w_backup w))|by eapply KeepsOperation_calm].
Qed.

Lemma Known_calm w w' : calm w w' -> Known w -> Known w'.
Proof. intros [Hs _ _ _ [A _ _ _ _] _]. unfold Known, target. by rewrite Hs, A. Qed.

Lemma NoOp_calm w w' : calm w w' -> NoOp w -> NoOp w'.
Proof. intros [_ _ _ _ _ G]. unfold NoOp. by rewrite G. Qed.

Lemma target_calm w w' : calm w w' -> target w' = target w.
Proof. by intros [_ _ _ _ [A _ _ _ _] _]. Qed.
End versions.

Section handlers_ok.
Context `{O : ConditionOps} (formatTime : Time -> string).
Context (asStored : Time -> Time) (asStored_idem : forall t, asStored (asStored t) = asStored t).
Context (r : Reconciler) (env : Env).

(** ** What is calm *)

Definition calmUpdate (f : CubridBackupStatus -> CubridBackupStatus) : Prop :=
  forall s, bt_TargetInstance (f s) = bt_TargetInstance s /\ bt_TargetRole (f s) = bt_TargetRole s /\
    bt_FallbackUsed (f s) = bt_FallbackUsed s /\ bt_ClusterUID (f s) = bt_ClusterUID s /\
    bt_OperationRef (f s) = bt_OperationRef s /\ bt_TargetRecordedAt (f s) = bt_TargetRecordedAt s.

Lemma calm_mod f : calmUpdate f -> keeps calm (modStatus f).
Proof.
  intros Hf w. destruct (Hf (bk_Status (w_backup w))) as (A & B & C & D & E & F). split; [done..| | |done].
  - exists []. by rewrite app_nil_r.
  - by split.
Qed.
Lemma calm_now : keeps calm (now env).
Proof. intros w. by apply calm_meta. Qed.
Lemma calm_get p n i : keeps calm (callGet env p n i).
Proof.
  intros w. split; [done..| |reflexivity|done]. exists [TGet p n i]. split; [done|by repeat constructor].
Qed.
Lemma calm_find p n k : keeps calm (callFind env p n k).
Proof.
  intros w. split; [done..| |reflexivity|done]. exists [TFind p n k]. split; [done|by repeat constructor].
Qed.
Lemma calm_report b : keeps calm (reportPhase r b).
Proof. intros w. apply calm_meta; unfold reportPhase; cbn [snd]; by repeat case_match. Qed.
#[local] Hint Resolve calm_mod calm_now calm_get calm_find calm_report : keeps.
#[local] Hint Extern 0 (calmUpdate _) => intros ?; repeat case_match; by split_and! : keeps.
Lemma calm_cond t s reason msg : keeps calm (setBackupCondition t s reason msg).
Proof. unfold setBackupCondition. keeps_solve. Qed.
Lemma calm_pending : keeps calm pendingIfNew.
Proof. unfold pendingIfNew. keeps_solve. Qed.
#[local] Hint Resolve calm_cond calm_pending : keeps.

Lemma calm_expired : keeps calm (recordedTargetWaitExpired env).
Proof.
  unfold recordedTargetWaitExpired. intros w. rewrite run_bind. cbn [theBackup fst snd].
  rewrite run_bind. destruct (bt_TargetRecordedAt (bk_Status (w_backup w))) as [t|] eqn:Er.
  - by apply calm_meta.
  - split; [done..| | |done].
    + exists []. by rewrite app_nil_r.
    + cbn. split; try done; by rewrite Er.
Qed.
#[local] Hint Resolve calm_expired : keeps.

(** ** Triples *)

(** From a state with [P], the versions stored stay well-formed. *)
Definition ok {A} (P : W -> Prop) (m : Rec A) : Prop := forall w, Mid asStored w -> P w -> SrvOk asStored (m w).2.

Class Stable (P : W -> Prop) : Prop := stable w w' : calm w w' -> P w -> P w'.
#[local] Instance stable_True : Stable (fun _ => True).
Proof. by intros w w'. Qed.
#[local] Instance stable_NoOp : Stable NoOp.
Proof. intros w w'. apply NoOp_calm. Qed.
#[local] Instance stable_Known : Stable Known.
Proof. intros w w'. apply Known_calm. Qed.
#[local] Instance stable_target t : Stable (fun w => target w = t).
Proof. intros w w' Hc <-. by apply target_calm. Qed.
#[local] Instance stable_operation (v : string) : Stable (fun w => bt_OperationRef (bk_Status (w_backup w)) = v).
Proof. intros w w' [_ _ _ _ _ G]. by rewrite G. Qed.
#[local] Instance stable_and P Q `{!Stable P, !Stable Q} : Stable (fun w => P w /\ Q w).
Proof. intros w w' Hc [HP HQ]. split; by apply (stable w). Qed.

Lemma ok_mid {A} (P Q : W -> Prop) (m : Rec A) : (forall w, Mid asStored w -> P w -> Q w) -> ok Q m -> ok P m.
Proof. intros Hpq Hm w HM HP. apply Hm; [done|by apply Hpq]. Qed.

Lemma ok_weaken {A} (P Q : W -> Prop) (m : Rec A) : ok Q m -> (forall w, P w -> Q w) -> ok P m.
Proof. intros Hm Hpq w HM HP. by apply Hm, Hpq. Qed.

Lemma ok_True {A} P (m : Rec A) : ok (fun _ => True) m -> ok P m.
Proof. intros Hm. by apply (ok_weaken _ (fun _ => True)). Qed.

Lemma ok_ret {A} P (x : A) : ok P (mret x).
Proof. intros w HM _. apply HM. Qed.

Lemma ok_bind {A B} P `{!Stable P} (m : Rec A) (k : A -> Rec B) :
  keeps calm m -> (forall x, ok P (k x)) -> ok P (m ≫= k).
Proof.
  intros Hm Hk w HM HP. rewrite run_bind. apply Hk; [apply (Mid_calm asStored w); [apply Hm|done]|apply (stable w); [apply Hm|done]].
Qed.

(** A calm last part. *)
Lemma ok_calm {A} P (m : Rec A) : keeps calm m -> ok P m.
Proof. intros Hm w HM _. apply (Mid_calm asStored w); [apply Hm|done]. Qed.

#[local] Ltac ok_solve :=
  repeat match goal with
  | |- ok _ (mbind _ _) => apply ok_bind; [apply _|solve [keeps_solve]|intros ?]
  | |- ok _ (if ?b then _ else _) => destruct b eqn:?
  | |- ok _ (match ?x with _ => _ end) => destruct x eqn:?
  | |- ok _ (mret _) => apply ok_ret
  | |- ok _ _ => solve [eauto with ok]
  end.
#[local] Ltac ok_case :=
  match goal with
  | |- ok _ (if ?b then _ else _) => destruct b eqn:?
  | |- ok _ (match ?x with _ => _ end) => destruct x eqn:?
  end.
Create HintDb ok.
#[local] Hint Extern 0 (Stable _) => apply _ : ok.

(** ** Writing *)

Lemma SameTarget_stored head st :
  storedStatus asStored head = head -> SameTarget head st -> SameTarget head (storedStatus asStored st).
Proof.
  intros Hh [A B C D E]. split; [done..|]. cbn. intros Hr. rewrite (E Hr). by rewrite <- Hh at 2.
Qed.

Lemma storedStatus_idem st : storedStatus asStored (storedStatus asStored st) = storedStatus asStored st.
Proof using asStored_idem.
  unfold storedStatus. cbn.
  assert (forall o : option Time, asStored <$> (asStored <$> o) = asStored <$> o) as Ho.
  { intros [t|]; cbn; by rewrite ?asStored_idem. }
  rewrite !Ho, <- list_fmap_compose. f_equal. apply list_fmap_ext. intros i c _.
  unfold storedCondition. cbn. by rewrite asStored_idem.
Qed.

(** One version more. *)
Lemma ServerOk_store head rest st tr :
  ServerOk asStored (head :: rest) tr -> Follows head (storedStatus asStored st) ->
  ServerOk asStored (storedStatus asStored st :: head :: rest) (tr ++ [TWrite (storedStatus asStored st)]).
Proof using asStored_idem.
  intros [Hc Hs Hw Ht Hst] Hf. split.
  - intros [|i] new old Hn Ho; simplify_eq/=; [done|by eapply Hc].
  - constructor; [apply storedStatus_idem|done].
  - intros x [->|Hx]%elem_of_cons Hne; apply elem_of_app; [right; set_solver|left; by apply Hw].
  - intros x [Hx|Hx]%elem_of_app; [apply elem_of_cons; right; by apply Ht|]. apply elem_of_cons. left. set_solver.
  - intros i p n k q [Hi|[_ Hi]]%lookup_app_Some.
    + apply Hst in Hi as (Hp & j & x & Hj & Hx & Htx). split; [done|]. exists j, x.
      split_and!; [done|by apply lookup_app_l_Some|done].
    + by apply list_lookup_singleton_Some in Hi as [_ Hi].
Qed.

(** The copy may be written. *)
Record Writable (w : W) : Prop := {
  wr_server : SrvOk asStored w;
  wr_current : w_current w = true -> exists head rest, w_server w = head :: rest /\
    Follows head (storedStatus asStored (bk_Status (w_backup w))) }.

Lemma Mid_writable w : Mid asStored w -> Writable w.
Proof.
  intros [Ho Hcur]. split; [done|]. intros Hc. destruct (Hcur Hc) as (head & rest & He & Hn & Hs & Hk).
  exists head, rest. split; [done|]. split; [done|]. left. split; [|done]. apply SameTarget_stored; [|done].
  destruct Ho as [_ Hst _ _ _]. rewrite He in Hst. by apply Forall_cons in Hst as [? _].
Qed.

(** What an update leaves: the versions are well-formed; after a write that
    was answered, the copy is the stored version. *)
Lemma update_ok w : Writable w ->
  SrvOk asStored (statusUpdate asStored w).2 /\
  ((statusUpdate asStored w).1 = Updated ->
   let w' := (statusUpdate asStored w).2 in
   let st := storedStatus asStored (bk_Status (w_backup w)) in
   w_backup w' = map_backup_status (fun _ => st) (w_backup w) /\
   w_current w' = true /\ exists rest, w_server w' = st :: rest).
Proof using asStored_idem.
  intros [Ho Hcur].
  destruct (statusUpdate_cases asStored w) as [(res & u & -> & Hr)|[[Hc [u ->]]|[Hc [u ->]]]]; cbn [fst snd].
  - split; [done|]. by intros ->.
  - destruct (Hcur Hc) as (head & rest & He & Hf). unfold SrvOk in *. cbn. rewrite He in *.
    split; [by apply ServerOk_store|]. intros _. split_and!; [done|done|eauto].
  - destruct (Hcur Hc) as (head & rest & He & Hf). unfold SrvOk in *. cbn. rewrite He in *.
    split; [by apply ServerOk_store|done].
Qed.

Lemma SrvOk_calm w w' : calm w w' -> SrvOk asStored w -> SrvOk asStored w'.
Proof.
  intros [Hs _ _ (l & Ht & Hl) _ _] Ho. unfold SrvOk. rewrite Hs, Ht. by apply ServerOk_harmless.
Qed.

Lemma writeStatus_ok w : Writable w -> SrvOk asStored (writeStatus asStored r w).2.
Proof using asStored_idem.
  intros HM. unfold writeStatus. rewrite run_bind. pose proof (update_ok w HM) as [Ho _].
  destruct (statusUpdate asStored w) as [res w1]. cbn [fst snd] in *. destruct res; [|done|done].
  match goal with |- SrvOk _ (?m w1).2 => assert (keeps calm m) as Hk by keeps_solve end.
  eapply SrvOk_calm; [apply Hk|done].
Qed.

Lemma commit_ok P o : ok P (commit asStored r o).
Proof using asStored_idem.
  apply ok_True. unfold commit. apply ok_bind; [apply _|keeps_solve|intros backup].
  apply ok_bind; [apply _|keeps_solve|intros _]. intros w HM _. rewrite run_bind.
  pose proof (writeStatus_ok w (Mid_writable w HM)) as Ho. by destruct (writeStatus asStored r w) as [[] w1].
Qed.
#[local] Hint Resolve commit_ok : ok.

Lemma ended_ok P reason msg : ok P (ended asStored r env reason msg).
Proof using asStored_idem. apply ok_True. unfold ended. ok_solve. Qed.
#[local] Hint Resolve ended_ok : ok.
Lemma rejected_ok P reason msg : ok P (rejected asStored r env reason msg).
Proof using asStored_idem. apply ok_True. unfold rejected. ok_solve. Qed.
Lemma wait_ok P reason msg : ok P (waitOnRecordedTarget asStored r reason msg).
Proof using asStored_idem. apply ok_True. unfold waitOnRecordedTarget. ok_solve. Qed.
#[local] Hint Resolve rejected_ok wait_ok : ok.
Lemma clusterMissing_ok P : ok P (clusterMissing asStored r env).
Proof using asStored_idem. apply ok_True. unfold clusterMissing. ok_solve. Qed.
Lemma poll_ok P : ok P (pollBackup formatTime asStored r env).
Proof using asStored_idem.
  apply ok_True. unfold pollBackup, operationMissing, completed, failedBackup. ok_solve.
Qed.
#[local] Hint Resolve clusterMissing_ok poll_ok : ok.


(** ** Recording an operation *)

(** The copy has a target, as the version it is based on does, and no
    operation: one may be started, or one found may be recorded. *)
Definition Ready (w : W) : Prop := NoOp w /\ target w <> "".
#[local] Instance stable_Ready : Stable Ready.
Proof. intros w w' Hc [Hn Ht]. split; [by eapply NoOp_calm|]. by rewrite (target_calm _ _ Hc). Qed.

Definition opUpdate (f : CubridBackupStatus -> CubridBackupStatus) : Prop :=
  forall s, bt_TargetInstance (f s) = bt_TargetInstance s /\ bt_TargetRole (f s) = bt_TargetRole s /\
    bt_FallbackUsed (f s) = bt_FallbackUsed s /\ bt_ClusterUID (f s) = bt_ClusterUID s /\
    bt_TargetRecordedAt (f s) = bt_TargetRecordedAt s.

Lemma Mid_operation f w : opUpdate f -> Mid asStored w -> Ready w -> Mid asStored (modStatus f w).2.
Proof.
  intros Hf [Ho Hcur] [Hno Ht]. split; [exact Ho|]. intros Hc.
  destruct (Hcur Hc) as (head & rest & He & Hn & Hs & Hk).
  exists head, rest. split_and!; [done|done| |].
  - transitivity (bk_Status (w_backup w)); [done|]. destruct (Hf (bk_Status (w_backup w))) as (A & B & C & D & F).
    by split.
  - right. destruct Hs as [Hst _ _ _ _]. split; [|by rewrite <- Hst].
    destruct Hk as [Hk|[Hk _]]; [|done]. rewrite <- Hk. exact Hno.
Qed.

Lemma ok_operation {A} P f (k : unit -> Rec A) :
  (forall w, P w -> Ready w) -> opUpdate f -> (forall x, ok (fun _ => True) (k x)) -> ok P (modStatus f ≫= k).
Proof.
  intros HP Hf Hk w HM Hw. rewrite run_bind. apply Hk; [|done]. apply Mid_operation; [done|done|by apply HP].
Qed.

Lemma adopt_ok P op : (forall w, P w -> Ready w) -> ok P (adoptBackup formatTime asStored r env op).
Proof using asStored_idem.
  intros HP. unfold adoptBackup. apply ok_operation; [done|by intros ?; split_and!|intros _]. ok_solve.
Qed.
#[local] Hint Resolve adopt_ok : ok.

Lemma endWait_ok P `{!Stable P} : (forall w, P w -> Ready w) -> ok P (endRecordedTargetWait formatTime asStored r env).
Proof using asStored_idem. intros HP. unfold endRecordedTargetWait. ok_solve. Qed.
#[local] Hint Resolve endWait_ok : ok.

Lemma hold_ok P `{!Stable P} reason msg :
  (forall w, P w -> Ready w) -> ok P (holdRecordedTarget formatTime asStored r env reason msg).
Proof using asStored_idem. intros HP. unfold holdRecordedTarget. ok_solve. Qed.
#[local] Hint Resolve hold_ok : ok.

(** ** Starting the recorded target *)

Lemma Mid_start w n k q : Mid asStored w -> Known w -> target w <> "" ->
  Mid asStored (add_trace (TStart (target w) n k q) w).
Proof.
  intros [[Hc Hs Hw Ht Hst] Hcur] Hk Hne. destruct (Hk Hne) as (st & Hin & Htst). split; [|done].
  split; [done|done| | |]; cbn [add_trace w_trace w_server].
  - intros x Hx Hx'. apply elem_of_app. left. by apply Hw.
  - intros x [Hx|Hx]%elem_of_app; [by apply Ht|set_solver].
  - intros i p n' k' q' [Hi|[Hl Hi]]%lookup_app_Some.
    + apply Hst in Hi as (Hp & j & x & Hj & Hx & Htx). split; [done|]. exists j, x.
      split_and!; [done|by apply lookup_app_l_Some|done].
    + apply list_lookup_singleton_Some in Hi as [Hi [= <- <- <- <-]]. split; [done|].
      assert (TWrite st ∈ w_trace w) as (j & Hj)%list_elem_of_lookup by (apply Hw; congruence).
      exists j, st. pose proof (lookup_lt_Some _ _ _ Hj). split_and!; [lia|by apply lookup_app_l_Some|done].
Qed.

Lemma dispatch_ok cluster sel :
  ok (fun w => (Ready w /\ Known w) /\ target w = ts_Instance sel) (dispatch formatTime asStored r env cluster sel).
Proof using asStored_idem.
  unfold dispatch. intros w HM ((Hr & Hk) & Ht). rewrite run_bind. cbn [theBackup fst snd]. rewrite run_bind.
  match goal with |- context [callStart env ?p ?n ?k ?q w] =>
    change (callStart env p n k q w) with (be_start env, add_trace (TStart p n k q) w); cbn [fst snd];
    set (w1 := add_trace (TStart p n k q) w) end.
  assert (Mid asStored w1) as HM1 by (unfold w1; rewrite <- Ht; apply Mid_start; [done|done|apply Hr]).
  assert (Ready w1) as Hr1 by done. clearbody w1.
  match goal with |- SrvOk _ (?m w1).2 => cut (ok Ready m); [intros Hok; by apply Hok|] end.
  ok_solve. apply ok_operation; [done|by intros ?; split_and!|intros _]. ok_solve.
Qed.

(** ** Recording a target *)

(** The copy's phase is not final, and a step keeps it so. *)
Definition Open (w : W) : Prop := terminalPhase (bt_Phase (bk_Status (w_backup w))) = false.

(** Between the choice of a target and the write that records it. *)
Record Placing (t : string) (w : W) : Prop := {
  pl_server : SrvOk asStored w;
  pl_noop : NoOp w;
  pl_open : Open w;
  pl_target : target w = t;
  pl_current : w_current w = true -> exists head rest, w_server w = head :: rest /\
    terminalPhase (bt_Phase head) = false /\ bt_TargetInstance head = "" /\ bt_OperationRef head = "" }.

(** A step that writes, calls and ends nothing. *)
Record placing (w w' : W) : Prop := {
  pg_server : w_server w' = w_server w;
  pg_current : w_current w' = w_current w;
  pg_trace : w_trace w' = w_trace w;
  pg_target : target w' = target w;
  pg_operation : bt_OperationRef (bk_Status (w_backup w')) = bt_OperationRef (bk_Status (w_backup w));
  pg_open : Open w -> Open w' }.
#[local] Instance placing_preorder : PreOrder placing.
Proof.
  split; [by intros w; split|]. intros a b c [A1 B1 C1 D1 E1 F1] [A2 B2 C2 D2 E2 F2].
  split; [congruence..|tauto].
Qed.

Lemma Placing_step t w w' : placing w w' -> Placing t w -> Placing t w'.
Proof.
  intros [A B C D E F] [Ho Hn Hop Ht Hc]. split; [|by unfold NoOp; rewrite E|by apply F|congruence|].
  - unfold SrvOk. by rewrite A, C.
  - by rewrite A, B.
Qed.

Lemma placing_mod f :
  (forall s, bt_TargetInstance (f s) = bt_TargetInstance s /\ bt_OperationRef (f s) = bt_OperationRef s /\
     (terminalPhase (bt_Phase s) = false -> terminalPhase (bt_Phase (f s)) = false)) ->
  keeps placing (modStatus f).
Proof. intros Hf w. destruct (Hf (bk_Status (w_backup w))) as (A & B & C). by split. Qed.
Lemma placing_now : keeps placing (now env).
Proof. by intros w. Qed.
#[local] Hint Resolve placing_mod placing_now : keeps.
Lemma placing_pending : keeps placing pendingIfNew.
Proof. apply placing_mod. intros s. by destruct (bool_decide (bt_Phase s = "")). Qed.
Lemma placing_cond t s reason msg : keeps placing (setBackupCondition t s reason msg).
Proof. unfold setBackupCondition. keeps_solve. Qed.
#[local] Hint Resolve placing_pending placing_cond : keeps.

Lemma Placing_writable t w : t <> "" -> Placing t w -> Writable w.
Proof.
  intros Hne [Ho Hn Hop Ht Hc]. split; [done|]. intros Hx. destruct (Hc Hx) as (head & rest & He & Hh & Hht & Hhop).
  exists head, rest. split; [done|]. split; [done|]. right. by split_and!.
Qed.

(** What the write of the target leaves to go on with. *)
Lemma writeStatus_known t w : t <> "" -> Placing t w -> (writeStatus asStored r w).1 = Updated ->
  let w' := (writeStatus asStored r w).2 in Mid asStored w' /\ (Ready w' /\ Known w') /\ target w' = t.
Proof using asStored_idem.
  intros Hne HP. unfold writeStatus. rewrite !run_bind. destruct (update_ok w (Placing_writable t w Hne HP)) as [Ho Hup].
  destruct HP as [_ Hno Hop Ht _].
  destruct (statusUpdate asStored w) as [res w1]. cbn [fst snd] in *. destruct res; [|done|done]. intros _.
  destruct (Hup eq_refl) as (Hb & Hc & rest & Hs). cbv zeta.
  match goal with |- context [(?m w1).2] => assert (calm w1 (m w1).2) as Hk by (apply (fun H : keeps calm m => H w1); keeps_solve) end.
  assert (Mid asStored w1) as HM1.
  { split; [done|]. intros _. eexists _, rest. split_and!; [exact Hs|exact Hop| |by left; rewrite Hb].
    rewrite Hb. reflexivity. }
  assert (target w1 = t) as Ht1 by (rewrite <- Ht; unfold target; by rewrite Hb).
  assert (Ready w1 /\ Known w1) as HR1.
  { split; [split; [unfold NoOp; by rewrite Hb|congruence]|]. intros _. eexists.
    split; [rewrite Hs; apply elem_of_cons; by left|]. rewrite Ht1. exact Ht. }
  split; [by apply (Mid_calm _ w1)|]. split; [|by rewrite (target_calm _ _ Hk)].
  split; [apply (stable_Ready _ _ Hk)|apply (stable_Known _ _ Hk)]; apply HR1.
Qed.

Lemma ok_placing {A B} (t : string) (m : Rec A) (k : A -> Rec B) :
  keeps placing m -> (forall x w, Placing t w -> SrvOk asStored (k x w).2) ->
  forall w, Placing t w -> SrvOk asStored ((m ≫= k) w).2.
Proof. intros Hm Hk w HP. rewrite run_bind. apply Hk. by apply (Placing_step t w). Qed.

Lemma recordTarget_ok DeepEqual cluster sel : ts_Instance sel <> "" ->
  ok (fun w => (NoOp w /\ target w = "") /\ Open w) (recordTarget formatTime asStored DeepEqual r env cluster sel).
Proof using asStored_idem.
  intros Hsel. unfold recordTarget.
  destruct (objectStorageNotApplied DeepEqual env cluster (ts_Instance sel)) as [notApplied|]; [|apply ok_ret].
  destruct (bool_decide (notApplied = "")); cbn [negb]; [|apply ok_True; ok_solve].
  intros w HM [[Hno Ht] HO]. rewrite run_bind.
  assert (keeps calm pendingIfNew) as Hk1 by keeps_solve. assert (keeps placing pendingIfNew) as Hk2 by keeps_solve.
  specialize (Hk1 w). specialize (Hk2 w). set (w0 := (pendingIfNew w).2) in *. clearbody w0.
  apply (Mid_calm asStored _ _ Hk1) in HM. destruct Hk2 as [_ _ _ Ht0 Hop0 HO0].
  rewrite run_bind. set (w1 := (modStatus _ w0).2).
  assert (Placing (ts_Instance sel) w1) as HP.
  { destruct HM as [Hsrv Hcur]. split; [done|unfold NoOp, w1; cbn; rewrite Hop0; exact Hno|exact (HO0 HO)|done|].
    intros Hc. destruct (Hcur Hc) as (head & rest & He & Hh & [Hst _ _ _ _] & Hk). exists head, rest.
    assert (bt_TargetInstance head = "") as Hht by (rewrite <- Hst; fold (target w0); congruence).
    split_and!; [done|done|done|]. destruct Hk as [Hk|[_ Hk]]; [|done]. rewrite <- Hk, Hop0. exact Hno. }
  clearbody w1. revert w1 HP. apply ok_placing; [keeps_solve|intros t].
  apply ok_placing; [keeps_solve|intros _]. apply ok_placing; [keeps_solve|intros _].
  apply ok_placing; [keeps_solve|intros backup]. apply ok_placing; [keeps_solve|intros _].
  intros w1 HP. rewrite run_bind. pose proof (writeStatus_ok w1 (Placing_writable _ _ Hsel HP)) as Ho.
  pose proof (writeStatus_known _ _ Hsel HP) as Hkn. destruct (writeStatus asStored r w1) as [res w2].
  cbn [fst snd] in *. destruct res; [|done|done]. destruct (Hkn eq_refl) as (HM1 & HR1 & Ht1).
  apply dispatch_ok; done.
Qed.

(** ** Reconcile *)

(** The rule of sequence that also keeps the phase open. *)
Lemma ok_open {A B} P `{!Stable P} (m : Rec A) (k : A -> Rec B) :
  keeps calm m -> keeps placing m -> (forall x, ok (fun w => P w /\ Open w) (k x)) ->
  ok (fun w => P w /\ Open w) (m ≫= k).
Proof.
  intros Hm Ho Hk w HM [HP HO]. rewrite run_bind. apply Hk; [apply (Mid_calm asStored w); [apply Hm|done]|].
  split; [apply (stable w); [apply Hm|done]|by apply (Ho w)].
Qed.

Lemma startBackup_ok DeepEqual cluster :
  ok (fun w => (NoOp w /\ Known w) /\ Open w) (startBackup formatTime asStored DeepEqual r env cluster).
Proof using asStored_idem.
  unfold startBackup. intros w HM HP. rewrite run_bind. cbn [theBackup fst snd].
  destruct (bool_decide (bt_TargetInstance (bk_Status (w_backup w)) = "")) eqn:Et; bool_simpl; cbn [negb].
  - match goal with |- SrvOk _ (?m w).2 => cut (ok (fun w => (NoOp w /\ target w = "") /\ Open w) m);
      [intros Hok; apply Hok; [done|]; split_and!; try done; apply HP|] end.
    apply ok_open; [apply _|keeps_solve|keeps_solve|intros over].
    apply ok_open; [apply _|keeps_solve|keeps_solve|intros _].
    match goal with |- context [ts_Selected ?sel] => destruct (ts_Selected sel) eqn:Es end; cbn [negb].
    + apply recordTarget_ok. destruct (select_eligible _ _ _ _ _ _ _ _ _ Es) as [_ [Hn%memberNames_named|Hn]]; done.
    + apply ok_True. ok_solve.
  - match goal with |- SrvOk _ (?m w).2 => cut (ok (fun v => (Ready v /\ Known v) /\ target v = target w) m);
      [intros Hok; apply Hok; [done|]; destruct HP as [[? ?] ?]; by repeat split|] end.
    apply ok_bind; [apply _|keeps_solve|intros [|]]; [apply endWait_ok; [apply _|tauto]|].
    ok_case; [apply hold_ok; [apply _|tauto]|].
    exact (dispatch_ok cluster (recordedSelection (bk_Status (w_backup w)))).
Qed.

Lemma reconcileRead_ok quote DeepEqual :
  ok (fun w => Known w /\ Open w) (reconcileRead quote formatTime asStored DeepEqual r env).
Proof using asStored_idem.
  unfold reconcileRead. intros w HM HP. rewrite run_bind. cbn [theBackup fst snd].
  match goal with |- SrvOk _ (?m w).2 => cut (ok (fun v => (Known v /\ (target v = target w /\
    bt_OperationRef (bk_Status (w_backup v)) = bt_OperationRef (bk_Status (w_backup w)))) /\ Open v) m);
      [intros Hok; apply Hok; [done|]; split_and!; try done; apply HP|] end.
  ok_case; [apply ok_ret|]. ok_case; [ok_case; apply rejected_ok|].
  ok_case; [apply clusterMissing_ok|apply ok_ret|].
  ok_case; [apply ended_ok|]. ok_case; [apply rejected_ok|].
  apply ok_open; [apply _|keeps_solve|keeps_solve|intros _].
  ok_case; [apply poll_ok|]. bool_simpl. ok_case.
  - ok_case; [|apply ok_True; ok_solve]. bool_simpl.
    apply (ok_mid _ Ready); [|apply hold_ok; [apply _|done]].
    intros v _ [(_ & Ht & Ho) _]. split; [unfold NoOp; congruence|by rewrite Ht].
  - ok_case; [apply ok_True; ok_solve|]. apply (ok_weaken _ _ _ (startBackup_ok _ _)).
    intros v [(Hk & _ & Ho) Hop]. split_and!; [unfold NoOp; congruence|done|done].
Qed.
End handlers_ok.

(** ** All sequences of reconciles *)

Section worlds.
Context `{O : ConditionOps} (quote : string -> string) (formatTime : Time -> string).
Context (asStored : Time -> Time) (DeepEqual : EnvVar -> EnvVar -> bool) (meta : CubridBackup).
Notation step r env updates wd := (Reconcile quote formatTime asStored DeepEqual r env updates wd).2.

(** The object is created without a status; then reconciles follow, each with
    its own collaborators, surroundings and outcomes of its writes. *)
Inductive reachable : World -> Prop :=
  | reach_new : reachable (mkWorld meta [zeroBackupStatus] [] [])
  | reach_step wd r env updates : reachable wd -> reachable (step r env updates wd).

Hypothesis asStored_idem : forall t, asStored (asStored t) = asStored t.

Lemma Reconcile_meta r env updates wd : wd_meta (step r env updates wd) = wd_meta wd.
Proof. unfold Reconcile. repeat case_test; done. Qed.

Lemma Reconcile_ok r env updates wd :
  ServerOk asStored (wd_server wd) (wd_trace wd) ->
  ServerOk asStored (wd_server (step r env updates wd)) (wd_trace (step r env updates wd)).
Proof using asStored_idem.
  intros Ho. unfold Reconcile. destruct (be_read env) as [| |k]; [done|done|].
  destruct (wd_server wd !! k) as [st|] eqn:Ek; [|done].
  set (w := readVersion wd k st updates).
  pose proof (reconcileRead_ok formatTime asStored asStored_idem r env quote DeepEqual w) as Hok.
  destruct (terminalPhase (bt_Phase st)) eqn:Eterm.
  { clear Hok. unfold reconcileRead. rewrite run_bind. cbn [theBackup fst snd].
    change (bk_Status (w_backup w)) with st. by rewrite Eterm. }
  destruct (reconcileRead _ _ _ _ _ _ w) as [o w']. cbn [fst snd] in *. apply Hok; [|split; [|done]].
  - split; [done|]. cbn. intros Hk%bool_decide_eq_true. subst k. exists st.
    destruct (wd_server wd) as [|x rest]; [done|]. simplify_eq/=. exists rest.
    split_and!; [done|done|reflexivity|by left].
  - intros _. exists st. split; [|done]. by eapply list_elem_of_lookup_2.
Qed.

Lemma reachable_ok wd : reachable wd ->
  wd_meta wd = meta /\ ServerOk asStored (wd_server wd) (wd_trace wd).
Proof using asStored_idem.
  induction 1 as [|wd r env updates _ [Hm Ho]].
  - split; [done|]. split; cbn.
    + intros [|[|i]] new old H1 H2; simplify_eq/=.
    + by repeat constructor.
    + intros st [->|?]%elem_of_cons; [done|set_solver].
    + intros st ?. set_solver.
    + intros i p n k q Hi. by rewrite lookup_nil in Hi.
  - rewrite Reconcile_meta. split; [done|]. by apply Reconcile_ok.
Qed.

(** *** Who is started, once more *)

Lemma Reconcile_starts r env updates wd :
  starts (wd_trace (step r env updates wd)) = starts (wd_trace wd) \/
  exists cluster sel, eligibleNow env cluster sel /\
    starts (wd_trace (step r env updates wd)) = starts (wd_trace wd) ++ [startOf (wd_meta wd) cluster sel].
Proof.
  unfold Reconcile. destruct (be_read env) as [| |k]; [by left|by left|].
  destruct (wd_server wd !! k) as [st|]; [|by left].
  pose proof (reconcileRead_may quote formatTime asStored DeepEqual r env (readVersion wd k st updates)) as Hm.
  destruct (reconcileRead _ _ _ _ _ _ _) as [o w']. exact Hm.
Qed.

Lemma reachable_starts wd : reachable wd -> forall p n k q, (p, n, k, q) ∈ starts (wd_trace wd) ->
  n = bk_Namespace meta /\ k = idempotencyKey meta /\
  exists cluster sel, ts_Instance sel = p /\ q = buildBackupRequest meta cluster sel.
Proof using asStored_idem.
  induction 1 as [|wd r env updates Hr IH]; intros p n k q; [set_solver|].
  destruct (reachable_ok wd Hr) as [Hm _].
  destruct (Reconcile_starts r env updates wd) as [->|(cluster & sel & _ & ->)]; [apply IH|].
  rewrite Hm. intros [Hin|Hin]%elem_of_app; [by apply IH|].
  apply list_elem_of_singleton in Hin. unfold startOf in Hin. simplify_eq.
  split_and!; [done|done|]. by exists cluster, sel.
Qed.

Lemma starts_lookup tr i p n k q : tr !! i = Some (TStart p n k q) -> (p, n, k, q) ∈ starts tr.
Proof. intros Hi%list_elem_of_lookup_2. apply list_elem_of_omap. by exists (TStart p n k q). Qed.

(** *** The chain of versions *)

(** Between any two versions. *)
Lemma chain_target srv tr i j new old : ServerOk asStored srv tr -> (i <= j)%nat ->
  srv !! i = Some new -> srv !! j = Some old -> bt_TargetInstance old <> "" -> SameTarget old new.
Proof.
  intros [Hc _ _ _ _]. revert new. remember (j - i)%nat as d eqn:Ed. revert i Ed.
  induction d as [|d IH]; intros i Ed new Hle Hi Hj Hne.
  { assert (i = j) as -> by lia. rewrite Hj in Hi. simplify_eq. reflexivity. }
  destruct (srv !! S i) as [mid|] eqn:Em.
  - assert (SameTarget old mid) as Hs by (eapply (IH (S i)); [lia|lia|done|done|done]).
    transitivity mid; [done|]. destruct (Hc i new mid Hi Em) as [_ [[Hsame _]|[Hnone _]]]; [done|].
    destruct Hs as [Ht _ _ _ _]. congruence.
  - apply lookup_ge_None in Em. apply lookup_lt_Some in Hj. lia.
Qed.

Lemma targets_agree srv tr st st' : ServerOk asStored srv tr -> st ∈ srv -> st' ∈ srv ->
  bt_TargetInstance st <> "" -> bt_TargetInstance st' <> "" -> bt_TargetInstance st = bt_TargetInstance st'.
Proof.
  intros Ho [i Hi]%list_elem_of_lookup [j Hj]%list_elem_of_lookup Hn Hn'.
  destruct (decide (i <= j)%nat).
  - by destruct (chain_target srv tr i j st st' Ho) as [-> _ _ _ _].
  - symmetry. destruct (chain_target srv tr j i st' st Ho) as [-> _ _ _ _]; [lia|done..].
Qed.

(** C5: One backup, one member.  Whatever sequence of reconciles runs, with
    stale reads, refused, failed and unanswered status writes and restarts of
    the operator between them: every start that is sent for a backup carries
    its idempotency key, goes to the member its stored status names, after a
    status that records this member was stored, and all starts go to the same
    member. *)
Theorem backup_started_on_one_member wd i p n k q :
  reachable wd -> wd_trace wd !! i = Some (TStart p n k q) ->
  k = idempotencyKey meta /\ n = bk_Namespace meta /\ p <> "" /\
  (exists j st, (j < i)%nat /\ wd_trace wd !! j = Some (TWrite st) /\ bt_TargetInstance st = p) /\
  (forall i' p' n' k' q', wd_trace wd !! i' = Some (TStart p' n' k' q') -> p' = p) /\
  (forall st, st ∈ wd_server wd -> bt_TargetInstance st <> "" -> bt_TargetInstance st = p).
Proof using asStored_idem.
  intros Hr Hi. destruct (reachable_ok wd Hr) as [_ Ho]. pose proof Ho as [_ _ _ Htr Hst].
  destruct (reachable_starts wd Hr p n k q (starts_lookup _ _ _ _ _ _ Hi)) as (Hn & Hk & _).
  destruct (Hst _ _ _ _ _ Hi) as (Hp & j & st & Hj & Hjt & Ht).
  assert (st ∈ wd_server wd) as Hin by (apply Htr; by eapply list_elem_of_lookup_2).
  assert (forall x, x ∈ wd_server wd -> bt_TargetInstance x <> "" -> bt_TargetInstance x = p) as Hall.
  { intros x Hx Hne. rewrite <- Ht. eapply targets_agree; eauto. congruence. }
  split_and!; [done|done|done|by exists j, st| |done].
  intros i' p' n' k' q' Hi'. destruct (Hst _ _ _ _ _ Hi') as (Hp' & j' & st' & _ & Hjt' & Ht').
  rewrite <- Ht'. apply Hall; [|congruence]. apply Htr. by eapply list_elem_of_lookup_2.
Qed.

(** A start is sent only to a member that, by the observations of the same
    reconcile, is still what the backup needs: at most one start per
    reconcile, to a named member that is eligible for the role recorded with
    it, in the cluster as it was read in this reconcile. *)
Theorem backup_start_eligible r env updates wd :
  let wd' := (Reconcile quote formatTime asStored DeepEqual r env updates wd).2 in
  starts (wd_trace wd') = starts (wd_trace wd) \/
  exists cluster sel, eligibleNow env cluster sel /\
    starts (wd_trace wd') = starts (wd_trace wd) ++ [startOf (wd_meta wd) cluster sel].
Proof. apply Reconcile_starts. Qed.

(** *** Versions are only added *)

Definition grows (w w' : W) : Prop := exists l, w_server w' = l ++ w_server w.
#[local] Instance grows_preorder : PreOrder grows.
Proof.
  split; [by intros w; exists []|]. intros a b c [l1 H1] [l2 H2]. exists (l2 ++ l1).
  by rewrite H2, H1, app_assoc.
Qed.

Lemma Reconcile_grows r env updates wd : exists l, wd_server (step r env updates wd) = l ++ wd_server wd.
Proof.
  unfold Reconcile. destruct (be_read env) as [| |k]; [by exists []|by exists []|].
  destruct (wd_server wd !! k) as [st|]; [|by exists []].
  assert (keeps grows (reconcileRead quote formatTime asStored DeepEqual r env)) as Hk.
  { apply reconcileRead_keeps; try (intros; intros w; by exists []).
    - apply _.
    - intros w. destruct (statusUpdate_cases asStored w) as [(res & u & -> & _)|[[_ [u ->]]|[_ [u ->]]]];
        [by exists []|by eexists [_]..].
    - intros b w. exists []. unfold reportPhase. cbn [snd]. repeat case_match; done. }
  pose proof (Hk (readVersion wd k st updates)) as Hg. by destruct (reconcileRead _ _ _ _ _ _ _) as [o w'].
Qed.

(** *** A final phase stays *)

(** Nothing is stored on behalf of a copy that is not based on the current
    version. *)
Definition staleKept (w w' : W) : Prop :=
  w_current w = false -> w_current w' = false /\ w_server w' = w_server w.
#[local] Instance staleKept_preorder : PreOrder staleKept.
Proof.
  split; [by intros w|]. intros a b c Hab Hbc Ha. destruct (Hab Ha) as [Hb Hs]. destruct (Hbc Hb) as [Hc Hs'].
  split; congruence.
Qed.

Lemma reconcileRead_stale r env : keeps staleKept (reconcileRead quote formatTime asStored DeepEqual r env).
Proof.
  apply reconcileRead_keeps; try (intros; by intros w).
  - apply _.
  - intros w Hc. destruct (statusUpdate_cases asStored w) as [(res & u & -> & _)|[[Hx _]|[Hx _]]]; [done|congruence..].
  - intros b w Hc. unfold reportPhase. cbn [snd]. repeat case_match; done.
Qed.

(** Completed and Failed are final.  Once the stored status of a backup
    has one of these phases, no reconcile stores another status, whichever
    version it reads and whatever the members answer. *)
Theorem backup_phase_final r env updates wd head rest :
  wd_server wd = head :: rest -> terminalPhase (bt_Phase head) = true ->
  wd_server (Reconcile quote formatTime asStored DeepEqual r env updates wd).2 = wd_server wd.
Proof.
  intros Hs Ht. unfold Reconcile. destruct (be_read env) as [| |k]; [done|done|].
  destruct (wd_server wd !! k) as [st|] eqn:Ek; [|done]. set (w := readVersion wd k st updates).
  destruct (decide (k = 0%nat)) as [->|Hk].
  - rewrite Hs in Ek. simplify_eq/=. unfold reconcileRead. rewrite run_bind. cbn [theBackup fst snd].
    change (bk_Status (w_backup w)) with st. by rewrite Ht.
  - pose proof (reconcileRead_stale r env w) as Hst. destruct (reconcileRead _ _ _ _ _ _ w) as [o w'].
    cbn [fst snd] in *. apply Hst. by apply bool_decide_eq_false_2.
Qed.

(** *** The life of a backup

    The abstract machine: a backup waits for a target, is placed on a member,
    follows one operation on it, and is over. *)
Inductive stage := Waiting | Placed (target : string) | Following (target op : string) | Over (target op : string).

Inductive advance : stage -> stage -> Prop :=
  | adv_wait : advance Waiting Waiting
  | adv_place t : t <> "" -> advance Waiting (Placed t)
  | adv_refuse : advance Waiting (Over "" "")
  | adv_hold t : advance (Placed t) (Placed t)
  | adv_follow t o : o <> "" -> advance (Placed t) (Following t o)
  | adv_give_up t o : advance (Placed t) (Over t o)
  | adv_poll t o : advance (Following t o) (Following t o)
  | adv_end t o : advance (Following t o) (Over t o).

Definition stageOf (st : CubridBackupStatus) : stage :=
  let t := bt_TargetInstance st in
  let o := bt_OperationRef st in
  if terminalPhase (bt_Phase st) then Over t o
  else if o != "" then Following t o
  else if t != "" then Placed t
  else Waiting.

Lemma follows_advance old new : Follows old new -> advance (stageOf old) (stageOf new).
Proof.
  unfold stageOf. intros [-> [[[Ht _ _ _ _] Hk]|(Ht & Ho & Hn & ->)]].
  - rewrite Ht. destruct (decide (bt_OperationRef old = "")) as [Eo|Eo].
    + rewrite Eo. destruct (decide (bt_TargetInstance old = "")) as [Et|Et].
      * destruct Hk as [Hk|[_ Hk]]; [|done]. rewrite Et, Hk, Eo. destruct (terminalPhase _); constructor.
      * rewrite (bool_decide_eq_false_2 _ Et). cbn. destruct (terminalPhase _); [constructor|].
        destruct (bool_decide (bt_OperationRef new = "")) eqn:E; bool_simpl; cbn; by constructor.
    + destruct Hk as [Hk|[Hk _]]; [|done]. rewrite Hk, (bool_decide_eq_false_2 _ Eo). cbn.
      destruct (terminalPhase _); constructor.
  - rewrite Ht, Ho, Hn. cbn.
    destruct (bool_decide (bt_TargetInstance new = "")) eqn:E; bool_simpl; cbn; by constructor.
Qed.

(** C26: The controller implements the life of a backup: from its creation on,
    each status that is stored is, seen as a stage, one step of the abstract
    machine after the one stored before it.  A target is recorded by a write
    of its own before any operation is, neither is ever exchanged, and nothing
    follows the end. *)
Theorem backup_refines_lifecycle wd :
  reachable wd ->
  (stageOf <$> last (wd_server wd)) = Some Waiting /\
  forall i new old, wd_server wd !! i = Some new -> wd_server wd !! S i = Some old ->
    advance (stageOf old) (stageOf new).
Proof using asStored_idem.
  intros Hr. split.
  - induction Hr as [|wd r env updates _ IH]; [done|].
    destruct (Reconcile_grows r env updates wd) as [l ->]. rewrite last_app.
    by destruct (last (wd_server wd)).
  - destruct (reachable_ok wd Hr) as [_ [Hc _ _ _ _]]. intros i new old Hn Ho. apply follows_advance. eauto.
Qed.
End worlds.
