(* ===== verification/BackupWaits.v ===== *)
(** * Every wait of a backup ends

    The bounds of [cubridbackup_controller.go], each as what one reconcile
    stores once its bound has passed: the wait for an operation on the recorded
    target, the wait for a recorded operation whose record is missing, and the
    wait for a cluster that does not exist. *)
From stdpp Require Import prelude gmap strings pretty list.
From S2P Require Import Prelude GoState Api GoStr HARole Replication OpStore BackupTarget ManifestURI ImClient BackupController BackupSafety.

Section stores.
Context `{O : ConditionOps} (formatTime : Time -> string) (asStored : Time -> Time) (r : Reconciler) (env : Env).
#[local] Hint Resolve calm_mod calm_now calm_get calm_find calm_report calm_cond calm_pending calm_expired : keeps.
#[local] Hint Extern 0 (calmUpdate _) => intros ?; repeat case_match; by split_and! : keeps.

(** From a copy of the current version, with writes that succeed, a handler
    stores one status, which [Q] relates to the copy it started from. *)
Definition stores (Q : W -> CubridBackupStatus -> Prop) (m : Rec Outcome) : Prop :=
  forall w, w_updates w = [] -> w_current w = true -> exists st, w_server (m w).2 = st :: w_server w /\ Q w st.

Lemma stores_bind {A} Q (m : Rec A) (k : A -> Rec Outcome) :
  keeps calm m -> (forall w w' st, calm w w' -> Q w' st -> Q w st) -> (forall x, stores Q (k x)) -> stores Q (m ≫= k).
Proof.
  intros Hm HQ Hk w Hu Hc. rewrite run_bind. specialize (Hm w). pose proof Hm as [Hs Hc' Hu' _ _ _].
  destruct (Hk (m w).1 (m w).2) as (st & Hst & HQst); [congruence..|].
  exists st. rewrite Hst, Hs. split; [done|by eapply HQ].
Qed.

Lemma stores_weaken (Q Q' : W -> CubridBackupStatus -> Prop) m :
  stores Q m -> (forall w st, Q w st -> Q' w st) -> stores Q' m.
Proof. intros Hm HQ w Hu Hc. destruct (Hm w Hu Hc) as (st & Hs & Hst). eauto. Qed.

(** What commit stores is the copy. *)
Definition asCommitted (w : W) (st : CubridBackupStatus) : Prop :=
  st = storedStatus asStored (set_bt_ObservedGeneration (bk_Generation (w_backup w)) (bk_Status (w_backup w))).

Lemma report_server b w : w_server (reportPhase r b w).2 = w_server w.
Proof. unfold reportPhase. cbn [snd]. by repeat case_match. Qed.

Lemma write_run w : w_updates w = [] -> w_current w = true ->
  (writeStatus asStored r w).1 = Updated /\
  w_server (writeStatus asStored r w).2 = storedStatus asStored (bk_Status (w_backup w)) :: w_server w.
Proof.
  intros Hu Hc. unfold writeStatus. rewrite run_bind. unfold statusUpdate. rewrite Hu.
  cbn [w_current set_w_updates]. rewrite Hc. cbn [fst snd]. rewrite !run_bind. cbn [theBackup fst snd].
  split; [done|]. cbn [mret St_ret snd]. by rewrite report_server.
Qed.

Lemma commit_stores o : stores asCommitted (commit asStored r o).
Proof.
  intros w Hu Hc. unfold commit. rewrite !run_bind. cbn [theBackup fst snd].
  match goal with |- context [writeStatus asStored r ?w1] => destruct (write_run w1) as [Hr Hs]; [done|done|] end.
  rewrite Hr. eexists. split; [exact Hs|done].
Qed.

(** The status a final failure leaves. *)
Definition failedWith (reason : string) (st : CubridBackupStatus) : Prop :=
  bt_Phase st = BackupPhaseFailed /\
  exists msg gen, conditionView (bt_Conditions st) conditionBackupReady = Some (ConditionFalse, reason, msg, gen).

Context `{!ConditionLaws O}.

Lemma findCondition_stored cs t :
  findCondition (storedCondition asStored <$> cs) t = storedCondition asStored <$> findCondition cs t.
Proof.
  unfold findCondition. rewrite (find_by_types (storedCondition asStored <$> cs) cs).
  - destruct (FindStatusCondition cs t); [|done]. cbn. apply list_lookup_fmap.
  - by rewrite <- list_fmap_compose.
Qed.

Lemma view_stored cs t : conditionView (storedCondition asStored <$> cs) t = conditionView cs t.
Proof. unfold conditionView. rewrite findCondition_stored. by destruct (findCondition cs t). Qed.

Lemma ended_stores reason msg : stores (fun _ => failedWith reason) (ended asStored r env reason msg).
Proof.
  intros w Hu Hc. unfold ended. rewrite !run_bind. cbn [now fst snd modStatus]. unfold setBackupCondition.
  rewrite !run_bind. cbn [theBackup fst snd modStatus].
  match goal with |- context [commit asStored r (Done 0) ?w1] =>
    destruct (commit_stores (Done 0) w1) as (st & Hs & ->); [done|done|] end.
  eexists. split; [exact Hs|]. split; [done|]. eexists _, _. cbn. rewrite view_stored.
  apply (find_set_same _ (mkCondition _ _ _ _ _ _)).
Qed.

Lemma rejected_stores reason msg : stores (fun _ => failedWith reason) (rejected asStored r env reason msg).
Proof. unfold rejected. apply stores_bind; [keeps_solve|done|intros _]. apply ended_stores. Qed.

(** *** Following *)

Definition keepsRef (w : W) (st : CubridBackupStatus) : Prop := bt_OperationRef st = bt_OperationRef (bk_Status (w_backup w)).

Lemma keepsRef_calm w w' st : calm w w' -> keepsRef w' st -> keepsRef w st.
Proof. intros [_ _ _ _ _ Ho]. unfold keepsRef. by rewrite Ho. Qed.

Lemma commit_keepsRef o : stores keepsRef (commit asStored r o).
Proof. eapply stores_weaken; [apply commit_stores|]. by intros w st ->. Qed.

Create HintDb stores.
#[local] Ltac stores_solve :=
  repeat match goal with
  | |- stores keepsRef (mbind _ _) => apply stores_bind; [solve [keeps_solve]|apply keepsRef_calm|intros ?]
  | |- stores keepsRef (if ?b then _ else _) => destruct b
  | |- stores keepsRef (match ?x with _ => _ end) => destruct x
  | |- stores keepsRef (commit _ _ _) => apply commit_keepsRef
  | |- _ => solve [eauto with stores]
  end.

Lemma ended_keepsRef reason msg : stores keepsRef (ended asStored r env reason msg).
Proof. unfold ended. stores_solve. Qed.
#[local] Hint Resolve ended_keepsRef : stores.

Lemma poll_stores : stores keepsRef (pollBackup formatTime asStored r env).
Proof. unfold pollBackup, operationMissing, completed, failedBackup. stores_solve. Qed.

Lemma adopt_stores op : stores (fun _ st => bt_OperationRef st = op_ID op) (adoptBackup formatTime asStored r env op).
Proof.
  intros w Hu Hc. unfold adoptBackup. rewrite run_bind. set (w1 := (modStatus _ w).2).
  change (op_ID op) with (bt_OperationRef (bk_Status (w_backup w1))).
  change (w_server w) with (w_server w1). assert (w_updates w1 = [] /\ w_current w1 = true) as [Hu1 Hc1] by done.
  clearbody w1. match goal with |- exists st, w_server (?m w1).2 = _ /\ _ => cut (stores keepsRef m) end.
  { intros Hm. by apply Hm. }
  stores_solve. apply poll_stores.
Qed.
End stores.

(** ** The bounds *)

Lemma bound_passed d t u : in_duration d -> d < t - u -> (d <? Sub t u) = true.
Proof. intros Hd Ht. apply Z.ltb_lt. pose proof (Sub_le t u d Hd). lia. Qed.

Lemma wait30m_in : in_duration (30 * Minute).
Proof. unfold in_duration, minDuration, maxDuration, Minute, Second. lia. Qed.
Lemma wait10m_in : in_duration (10 * Minute).
Proof. unfold in_duration, minDuration, maxDuration, Minute, Second. lia. Qed.

Section bounds.
Context `{O : ConditionOps} `{!ConditionLaws O} (quote : string -> string) (formatTime : Time -> string).
Context (asStored : Time -> Time) (DeepEqual : EnvVar -> EnvVar -> bool) (r : Reconciler) (env : Env).
Notation step wd := (Reconcile quote formatTime asStored DeepEqual r env [] wd).2.
Notation body := (reconcileRead quote formatTime asStored DeepEqual r env).

(** The reconcile reads the current version of a backup that has not ended. *)
Definition readsCurrent (wd : World) (st : CubridBackupStatus) : Prop :=
  be_read env = ReadOk 0%nat /\ (exists rest, wd_server wd = st :: rest) /\
  terminalPhase (bt_Phase st) = false /\
  validateBackupSpec (map_backup_status (fun _ => st) (wd_meta wd)) = None.

Lemma step_run wd st : readsCurrent wd st ->
  let w := readVersion wd 0 st [] in
  wd_server (step wd) = w_server (body w).2 /\ wd_trace (step wd) = w_trace (body w).2.
Proof.
  intros (Hr & (rest & Hs) & _ & _). unfold Reconcile. rewrite Hr, Hs. cbn [lookup list_lookup].
  cbv zeta. by destruct (body (readVersion wd 0 st [])).
Qed.

Lemma step_stores wd st Q (m : Rec Outcome) w1 : readsCurrent wd st ->
  body (readVersion wd 0 st []) = m w1 -> calm (readVersion wd 0 st []) w1 -> stores Q m ->
  exists st', wd_server (step wd) = st' :: wd_server wd /\ Q w1 st'.
Proof.
  intros Hr Hb [Hs Hc Hu _ _ _] Hm. destruct (step_run wd st Hr) as [-> _]. rewrite Hb.
  destruct (Hm w1) as (st' & Hst & HQ); [by rewrite Hu|by rewrite Hc|]. exists st'. by rewrite Hst, Hs.
Qed.

Lemma endWait_stores :
  stores (fun _ st => match be_find env with
                      | inr (Some op) => bt_OperationRef st = op_ID op
                      | inr None => failedWith reasonRecordedTargetNotStarted st
                      | inl _ => failedWith reasonRecordedTargetUnverified st
                      end) (endRecordedTargetWait formatTime asStored r env).
Proof using All.
  intros w Hu Hc. unfold endRecordedTargetWait. rewrite !run_bind. cbn [theBackup fst snd].
  match goal with |- context [callFind env ?p ?n ?k w] =>
    change (callFind env p n k w) with (be_find env, add_trace (TFind p n k) w); cbn [fst snd] end.
  destruct (be_find env) as [err|[op|]].
  - exact (ended_stores asStored r env _ _ (add_trace _ w) Hu Hc).
  - exact (adopt_stores formatTime asStored r env op (add_trace _ w) Hu Hc).
  - exact (ended_stores asStored r env _ _ (add_trace _ w) Hu Hc).
Qed.

(** Up to the end of the wait, from a target whose bound has passed. *)
Lemma reaches_endWait wd st cluster t0 : readsCurrent wd st -> be_cluster env = ReadOk cluster ->
  bt_ClusterUID st = cl_UID cluster -> r_Prober r = true -> r_Backup r = true ->
  bt_OperationRef st = "" -> bt_TargetInstance st <> "" -> bt_TargetRecordedAt st = Some t0 ->
  (forall i, backupTargetWait < be_clock env i - t0) ->
  exists w1, body (readVersion wd 0 st []) = endRecordedTargetWait formatTime asStored r env w1 /\
    calm (readVersion wd 0 st []) w1 /\ noStart (readVersion wd 0 st []) w1.
Proof using All.
  intros (Hr & (rest & Hs) & Hopen & Hvalid) Hcl Huid Hp Hb Hop Ht Hrec Hclock. set (w := readVersion wd 0 st []).
  unfold reconcileRead. rewrite run_bind. cbn [theBackup fst snd].
  change (w_backup w) with (map_backup_status (fun _ => st) (wd_meta wd)). rewrite Hvalid.
  cbn [bk_Status map_backup_status]. rewrite Hopen, Hcl, Huid, Hop, (bool_decide_eq_true_2 (cl_UID cluster = cl_UID cluster)) by done. cbn [negb].
  rewrite andb_false_r, (bool_decide_eq_false_2 _ Ht). cbn [andb negb]. rewrite !(bool_decide_eq_true_2 ("" = "")) by done.
  cbn [negb]. rewrite run_bind. set (w0 := (setBackupCondition _ _ _ _ w).2).
  assert (calm w w0) as Hc0 by apply calm_cond.
  assert (noStart w w0) as Hn0 by apply (noStart_cond env).
  set (w1 := (recordedTargetWaitExpired env w0).2).
  assert (calm w w1) as Hc1 by (transitivity w0; [done|apply calm_expired]).
  assert (noStart w w1) as Hn1 by (transitivity w0; [done|apply noStart_expired]).
  assert ((recordedTargetWaitExpired env w0).1 = true) as Hexp.
  { unfold recordedTargetWaitExpired. rewrite !run_bind. cbn [theBackup fst snd].
    change (bt_TargetRecordedAt (bk_Status (w_backup w0))) with (bt_TargetRecordedAt st). rewrite Hrec.
    cbn. apply bound_passed; [apply wait30m_in|apply Hclock]. }
  exists w1. split; [|done]. rewrite Hb, Hp. cbn [andb orb negb]. destruct (is_nil _).
  - unfold holdRecordedTarget. rewrite run_bind, Hexp. done.
  - unfold startBackup. rewrite run_bind. cbn [theBackup fst snd].
    change (bt_TargetInstance (bk_Status (w_backup w0))) with (bt_TargetInstance st).
    rewrite (bool_decide_eq_false_2 _ Ht). cbn [negb]. rewrite run_bind, Hexp. done.
Qed.

(** C33: The wait for an operation on the recorded target is bounded.  Once the
    clock has passed 30 minutes from the time the target was recorded, the
    next reconcile that reads the current status sends no start; by the
    target's answer to a lookup of the backup's operation it stores either
    that operation, to be followed, or the final phase Failed, with the reason
    that says whether the target denied it or could not be asked. *)
Theorem recorded_target_wait_bounded wd st cluster t0 :
  readsCurrent wd st -> be_cluster env = ReadOk cluster -> bt_ClusterUID st = cl_UID cluster ->
  r_Prober r = true -> r_Backup r = true ->
  bt_OperationRef st = "" -> bt_TargetInstance st <> "" -> bt_TargetRecordedAt st = Some t0 ->
  (forall i, backupTargetWait < be_clock env i - t0) ->
  starts (wd_trace (step wd)) = starts (wd_trace wd) /\
  exists st', wd_server (step wd) = st' :: wd_server wd /\
    match be_find env with
    | inr (Some op) => bt_OperationRef st' = op_ID op
    | inr None => failedWith reasonRecordedTargetNotStarted st'
    | inl _ => failedWith reasonRecordedTargetUnverified st'
    end.
Proof using All.
  intros Hr Hcl Huid Hp Hb Hop Ht Hrec Hclock.
  destruct (reaches_endWait wd st cluster t0 Hr Hcl Huid Hp Hb Hop Ht Hrec Hclock) as (w1 & He & Hc & Hn). split.
  - destruct (step_run wd st Hr) as [_ ->]. rewrite He. transitivity (starts (w_trace w1)); [|exact Hn].
    apply (noStart_endWait formatTime asStored r env).
  - apply (step_stores wd st _ _ w1 Hr He Hc endWait_stores).
Qed.

Lemma missing_stores t0 err : (forall i, backupOperationMissingWait < be_clock env i - t0) ->
  forall w, w_updates w = [] -> w_current w = true -> bt_OperationMissingSince (bk_Status (w_backup w)) = Some t0 ->
  exists st, w_server (operationMissing formatTime asStored r env err w).2 = st :: w_server w /\
    failedWith reasonRecordedOperationLost st.
Proof using All.
  intros Hclock w Hu Hc Hm. unfold operationMissing. rewrite !run_bind. cbn [theBackup fst snd]. rewrite Hm.
  cbn [mret St_ret now fst snd].
  rewrite bound_passed by (apply wait30m_in || apply Hclock).
  exact (ended_stores asStored r env _ _ (set_w_ticks _ w) Hu Hc).
Qed.

(** The wait for a missing operation record is bounded.  When the target
    answers that it holds no record of the recorded operation, and it first
    did so more than 30 minutes ago without a read in between, the reconcile
    stores the final phase Failed with the reason RecordedOperationLost; the
    backup is not started again. *)
Theorem operation_missing_wait_bounded wd st cluster t0 err :
  readsCurrent wd st -> be_cluster env = ReadOk cluster ->
  (bt_ClusterUID st = "" \/ bt_ClusterUID st = cl_UID cluster) -> r_Backup r = true ->
  bt_OperationRef st <> "" -> bt_OperationMissingSince st = Some t0 ->
  be_get env = inl err -> Is err errOperationMissing = true ->
  (forall i, backupOperationMissingWait < be_clock env i - t0) ->
  starts (wd_trace (step wd)) = starts (wd_trace wd) /\
  exists st', wd_server (step wd) = st' :: wd_server wd /\ failedWith reasonRecordedOperationLost st'.
Proof using All.
  intros Hr Hcl Huid Hb Hop Hm Hget Hmiss Hclock. pose proof Hr as (_ & (rest & Hs) & Hopen & Hvalid).
  set (w := readVersion wd 0 st []).
  assert (body w = pollBackup formatTime asStored r env (setBackupCondition conditionAccepted ConditionTrue "BackupAccepted"
            "spec is valid and the referenced cluster exists" w).2) as Hbody.
  { unfold reconcileRead. rewrite run_bind. cbn [theBackup fst snd].
    change (w_backup w) with (map_backup_status (fun _ => st) (wd_meta wd)). rewrite Hvalid.
    cbn [bk_Status map_backup_status]. rewrite Hopen, Hcl, (bool_decide_eq_false_2 _ Hop). cbn [andb].
    replace ((bt_ClusterUID st != "") && (bt_ClusterUID st != cl_UID cluster)) with false.
    2:{ destruct Huid as [->| ->]; [done|]. by rewrite (bool_decide_eq_true_2 (cl_UID cluster = cl_UID cluster)), andb_false_r. }
    cbn [negb]. rewrite (bool_decide_eq_true_2 ("" = "")) by done. cbn [negb]. by rewrite run_bind. }
  set (w0 := (setBackupCondition _ _ _ _ w).2) in *.
  destruct (step_run wd st Hr) as [-> ->]. fold w. rewrite Hbody.
  split.
  { transitivity (starts (w_trace w0)); [apply noStart_poll|apply (noStart_cond env)]. }
  unfold pollBackup. rewrite Hb. cbn [negb]. rewrite !run_bind. cbn [theBackup fst snd].
  match goal with |- context [callGet env ?p ?n ?k w0] =>
    change (callGet env p n k w0) with (be_get env, add_trace (TGet p n k) w0); cbn [fst snd] end.
  rewrite Hget, Hmiss. apply (missing_stores t0 err Hclock (add_trace _ w0)); done.
Qed.

(** The wait for the cluster is bounded.  When the cluster of a backup is
    not found, the reconcile stores Failed with the reason ClusterDeleted if
    the backup was started on it, and Failed with the reason ClusterNotFound
    if the backup was created more than 10 minutes ago.  Nothing is started. *)
Theorem cluster_wait_bounded wd st :
  readsCurrent wd st -> be_cluster env = ReadNotFound ->
  (bt_ClusterUID st <> "" \/ forall i, backupClusterWait < be_clock env i - bk_CreationTimestamp (wd_meta wd)) ->
  starts (wd_trace (step wd)) = starts (wd_trace wd) /\
  exists st', wd_server (step wd) = st' :: wd_server wd /\
    failedWith (if bt_ClusterUID st != "" then "ClusterDeleted" else "ClusterNotFound") st'.
Proof using All.
  intros Hr Hcl Hwait. pose proof Hr as (_ & (rest & Hs) & Hopen & Hvalid). set (w := readVersion wd 0 st []).
  assert (body w = clusterMissing asStored r env w) as Hbody.
  { unfold reconcileRead. rewrite run_bind. cbn [theBackup fst snd].
    change (w_backup w) with (map_backup_status (fun _ => st) (wd_meta wd)). rewrite Hvalid.
    cbn [bk_Status map_backup_status]. by rewrite Hopen, Hcl. }
  destruct (step_run wd st Hr) as [-> ->]. fold w. rewrite Hbody. split; [apply noStart_missing|].
  unfold clusterMissing. rewrite run_bind. cbn [theBackup fst snd].
  change (w_backup w) with (map_backup_status (fun _ => st) (wd_meta wd)).
  cbn [bk_Status map_backup_status]. destruct (bool_decide (bt_ClusterUID st = "")) eqn:E; bool_simpl; cbn [negb].
  - destruct Hwait as [|Hwait]; [done|]. rewrite run_bind. cbn [now fst snd].
    rewrite bound_passed by (apply wait10m_in || apply Hwait).
    exact (rejected_stores asStored r env _ _ (set_w_ticks _ w) eq_refl eq_refl).
  - exact (ended_stores asStored r env _ _ w eq_refl eq_refl).
Qed.
End bounds.

(** ** A backup of the three-member cluster *)

Module BackupExample.
Import SliceConditions.
Definition toSecond (t : Time) : Time := t - t mod Second.
Lemma toSecond_idem t : toSecond (toSecond t) = toSecond t.
Proof.
  unfold toSecond. rewrite Zminus_mod, Z.mod_mod, Z.sub_diag, Z.mod_0_l by (unfold Second; lia). lia.
Qed.

Definition storage : CubridObjectStorage := mkObjectStorage "s3.local" "" false "" "" "s3".
Definition cluster : CubridCluster :=
  mkCluster "c" "ns" "u1" 1 (mkSpec "11.4" ["db"] 3 true None (Some storage))
    (mkStatus 1 "" [] [] [] None "" None None).
Definition meta : CubridBackup :=
  mkBackup "ns" "b" "u2" 1 (4000 * Second)
    (mkBackupSpec "c" "db" PreferStandby DestinationObjectStorage (Some (mkDestinationStore "backups" "daily")))
    zeroBackupStatus.
Definition op : Operation := mkOperation "op-1" OpBackup "k" "h" "db" OpRunningBackup "" None None "" (5000 * Second) (5000 * Second).
Definition lost : Err := mkErr [errOperationMissing] "no record".
Definition reconciler : Reconciler := mkReconciler true true true None.
(** The cluster read is [c], and the clock reads [t]. *)
Definition env (c : Read CubridCluster) (t : Time) : Env :=
  mkBackupEnv (ReadOk 0%nat) c (ReadOk [mkContainer "cubrid" (objectStorageEnv (Some storage))])
    (lookupd zeroObservation TargetExample.obs) TargetExample.now (fun _ => t) t (inr op) (inl lost) (inr None).
Definition formatTime (t : Time) : string := pretty t.
Definition sameEnv (a b : EnvVar) : bool := bool_decide (a = b).
Notation step e updates wd := (Reconcile quoted formatTime toSecond sameEnv reconciler e updates wd).2.

Definition created : World := mkWorld meta [zeroBackupStatus] [] [].
(** The target is stored and the start sent, but the write of the operation
    fails. *)
Definition placed : World := step (env (ReadOk cluster) (5000 * Second)) [UWritten; UFailed] created.
(** The start is sent again, and its operation stored. *)
Definition running : World := step (env (ReadOk cluster) (5010 * Second)) [] placed.
(** The record is missing. *)
Definition missing : World := step (env (ReadOk cluster) (5020 * Second)) [] running.
(** The cluster is gone. *)
Definition over : World := step (env ReadNotFound (5030 * Second)) [] running.

Lemma running_reachable : reachable quoted formatTime toSecond sameEnv meta running.
Proof. do 2 apply reach_step. apply reach_new. Qed.
End BackupExample.

Import SliceConditions BackupExample.

Lemma backup_started_on_one_member_witness :
  exists n k q, wd_trace running !! 2%nat = Some (TStart "c-1" n k q) /\ k = idempotencyKey meta /\
    (forall i' p' n' k' q', wd_trace running !! i' = Some (TStart p' n' k' q') -> p' = "c-1").
Proof.
  eexists _, _, _. split; [vm_compute; reflexivity|].
  epose proof (backup_started_on_one_member quoted formatTime toSecond sameEnv meta toSecond_idem running 2 "c-1" _ _ _
    running_reachable ltac:(vm_compute; reflexivity)) as (Hk & _ & _ & _ & Hall & _).
  split; [exact Hk|exact Hall].
Defined.

(** The status the reconcile reads. *)
Definition headOf (wd : World) : CubridBackupStatus := default zeroBackupStatus (head (wd_server wd)).

Lemma backup_phase_final_witness :
  wd_server (step (env (ReadOk cluster) (9000 * Second)) [] over) = wd_server over.
Proof.
  eapply (backup_phase_final quoted formatTime toSecond sameEnv reconciler); vm_compute; reflexivity.
Defined.

Lemma backup_refines_lifecycle_witness :
  stageOf <$> wd_server over = [Over "c-1" "op-1"; Following "c-1" "op-1"; Placed "c-1"; Waiting] /\
  advance (Following "c-1" "op-1") (Over "c-1" "op-1").
Proof.
  split; [vm_compute; reflexivity|].
  destruct (backup_refines_lifecycle quoted formatTime toSecond sameEnv meta toSecond_idem over) as [_ Hadv].
  { apply reach_step, running_reachable. }
  assert (stageOf (headOf running) = Following "c-1" "op-1") as <- by (vm_compute; reflexivity).
  assert (stageOf (headOf over) = Over "c-1" "op-1") as <- by (vm_compute; reflexivity).
  apply (Hadv 0%nat); vm_compute; reflexivity.
Defined.

Lemma recorded_target_wait_bounded_witness :
  exists st', wd_server (step (env (ReadOk cluster) (9000 * Second)) [] placed) = st' :: wd_server placed /\
    failedWith reasonRecordedTargetNotStarted st'.
Proof.
  destruct (recorded_target_wait_bounded quoted formatTime toSecond sameEnv reconciler (env (ReadOk cluster) (9000 * Second))
            placed (headOf placed) cluster (5000 * Second)) as [_ Hst]; [..|exact Hst].
  - split_and!; [reflexivity|exists (tail (wd_server placed)); vm_compute; reflexivity|vm_compute; reflexivity..].
  - reflexivity.
  - vm_compute. reflexivity.
  - reflexivity.
  - reflexivity.
  - vm_compute. reflexivity.
  - vm_compute. discriminate.
  - vm_compute. reflexivity.
  - intros i. vm_compute. reflexivity.
Defined.

Lemma operation_missing_wait_bounded_witness :
  exists st', wd_server (step (env (ReadOk cluster) (9000 * Second)) [] missing) = st' :: wd_server missing /\
    failedWith reasonRecordedOperationLost st'.
Proof.
  destruct (operation_missing_wait_bounded quoted formatTime toSecond sameEnv reconciler (env (ReadOk cluster) (9000 * Second))
            missing (headOf missing) cluster (5020 * Second) lost) as [_ Hst]; [..|exact Hst].
  - split_and!; [reflexivity|exists (tail (wd_server missing)); vm_compute; reflexivity|vm_compute; reflexivity..].
  - reflexivity.
  - right. vm_compute. reflexivity.
  - reflexivity.
  - vm_compute. discriminate.
  - vm_compute. reflexivity.
  - reflexivity.
  - vm_compute. reflexivity.
  - intros i. vm_compute. reflexivity.
Defined.

Lemma cluster_wait_bounded_witness :
  exists st', wd_server (step (env ReadNotFound (4700 * Second)) [] created) = st' :: wd_server created /\
    failedWith "ClusterNotFound" st'.
Proof.
  destruct (cluster_wait_bounded quoted formatTime toSecond sameEnv reconciler (env ReadNotFound (4700 * Second))
            created zeroBackupStatus) as [_ Hst]; [..|exact Hst].
  - split_and!; [reflexivity|by exists []|vm_compute; reflexivity..].
  - reflexivity.
  - right. intros i. vm_compute. reflexivity.
Defined.
