(* ===== verification/HABootstrap.v ===== *)
(** * The bootstrap of an HA cluster's first database

    [internal/controller/habootstrap.go]: the database is created once, on the
    member with ordinal 0, and copied to every other member by a seed backup
    of its source and a restore on the member.

    A handler works on the reconciler's copy of the cluster.  The pointer
    [status] into [cluster.Status.Databases] is the name of the entry it points
    at, and the pointer [seeding] is [status.Seeding] itself: it is assigned
    there before the code changes anything through it.  Every call to a member
    is logged with its answer and the entry as it was when the call was sent.
    All calls go to the cluster's namespace. *)
From stdpp Require Import prelude gmap strings pretty list.
From Stdlib Require Import Ascii String.
From S2P Require Import Prelude GoState Api GoStr Engine HARole OpStore ManifestURI ImClient BackupController.

(** ** Constants *)

Definition databasePhasePending : string := "Pending".
Definition databasePhaseCreating : string := "Creating".
Definition databasePhaseCreated : string := "Created".
Definition databasePhaseFailed : string := "Failed".
Definition conditionBootstrapReady : string := "BootstrapReady".
Definition restoreStagingRoot : string := "/var/lib/cubrid/restore-staging".
Definition restoreTargetRoot : string := "/var/lib/cubrid/databases".
Definition reasonEngineVersionMismatch : string := "EngineVersionMismatch".
Definition reasonRecordedOperationMismatch : string := "RecordedOperationMismatch".
Definition reasonSeedSourceContradicted : string := "SeedSourceContradicted".
Definition recoveryOperationMissingWait : Duration := 30 * Minute.
Definition bootstrapOperationMissingWait : Duration := recoveryOperationMissingWait.
Definition maxBootstrapAttempts : Z := 3.
Definition bootstrapRemedy : string :=
  "delete and create the CubridCluster again to bootstrap it anew. Do not clear the "
  +:+ "recorded operation or the seeding record in the status by hand: the step would be started again under "
  +:+ "the same key (ADR-0010)".

(** The value of an int32 after an operation on the integers. *)
Definition wrap32 (x : Z) : Z := (x + 2 ^ 31) mod 2 ^ 32 - 2 ^ 31.

(** ** Status entries *)

Definition set_ds_Phase v (s : DatabaseStatus) := mkDatabaseStatus (ds_Name s) v (ds_PrimaryCreated s) (ds_HAConfigured s)
  (ds_SeededMembers s) (ds_Seeding s) (ds_BootstrapAttempts s) (ds_BootstrapOperationID s) (ds_BootstrapOperationMissingSince s).
Definition set_ds_PrimaryCreated v (s : DatabaseStatus) := mkDatabaseStatus (ds_Name s) (ds_Phase s) v (ds_HAConfigured s)
  (ds_SeededMembers s) (ds_Seeding s) (ds_BootstrapAttempts s) (ds_BootstrapOperationID s) (ds_BootstrapOperationMissingSince s).
Definition set_ds_HAConfigured v (s : DatabaseStatus) := mkDatabaseStatus (ds_Name s) (ds_Phase s) (ds_PrimaryCreated s) v
  (ds_SeededMembers s) (ds_Seeding s) (ds_BootstrapAttempts s) (ds_BootstrapOperationID s) (ds_BootstrapOperationMissingSince s).
Definition set_ds_SeededMembers v (s : DatabaseStatus) := mkDatabaseStatus (ds_Name s) (ds_Phase s) (ds_PrimaryCreated s)
  (ds_HAConfigured s) v (ds_Seeding s) (ds_BootstrapAttempts s) (ds_BootstrapOperationID s) (ds_BootstrapOperationMissingSince s).
Definition set_ds_Seeding v (s : DatabaseStatus) := mkDatabaseStatus (ds_Name s) (ds_Phase s) (ds_PrimaryCreated s)
  (ds_HAConfigured s) (ds_SeededMembers s) v (ds_BootstrapAttempts s) (ds_BootstrapOperationID s) (ds_BootstrapOperationMissingSince s).
Definition set_ds_BootstrapAttempts v (s : DatabaseStatus) := mkDatabaseStatus (ds_Name s) (ds_Phase s) (ds_PrimaryCreated s)
  (ds_HAConfigured s) (ds_SeededMembers s) (ds_Seeding s) v (ds_BootstrapOperationID s) (ds_BootstrapOperationMissingSince s).
Definition set_ds_Operation id since (s : DatabaseStatus) := mkDatabaseStatus (ds_Name s) (ds_Phase s) (ds_PrimaryCreated s)
  (ds_HAConfigured s) (ds_SeededMembers s) (ds_Seeding s) (ds_BootstrapAttempts s) id since.
Definition set_sd_BackupOperationID v (s : DatabaseSeeding) := mkDatabaseSeeding (sd_Member s) (sd_Source s) (sd_Round s)
  (sd_RestoreOperationID s) v (sd_OperationMissingSince s).
Definition set_sd_RestoreOperationID v (s : DatabaseSeeding) := mkDatabaseSeeding (sd_Member s) (sd_Source s) (sd_Round s)
  v (sd_BackupOperationID s) (sd_OperationMissingSince s).
Definition set_sd_OperationMissingSince v (s : DatabaseSeeding) := mkDatabaseSeeding (sd_Member s) (sd_Source s) (sd_Round s)
  (sd_RestoreOperationID s) (sd_BackupOperationID s) v.
Definition map_seeding (f : DatabaseSeeding -> DatabaseSeeding) (s : DatabaseStatus) : DatabaseStatus :=
  set_ds_Seeding (f <$> ds_Seeding s) s.

(** The field a [since **metav1.Time] points at. *)
Inductive SinceField := BootstrapSince | SeedingSince.
Definition get_since (f : SinceField) (s : DatabaseStatus) : option Time :=
  match f with BootstrapSince => ds_BootstrapOperationMissingSince s | SeedingSince => ds_Seeding s ≫= sd_OperationMissingSince end.
Definition set_since (f : SinceField) (t : option Time) (s : DatabaseStatus) : DatabaseStatus :=
  match f with
  | BootstrapSince => set_ds_Operation (ds_BootstrapOperationID s) t s
  | SeedingSince => map_seeding (set_sd_OperationMissingSince t) s
  end.

(** ** Requests and the state of a reconcile *)

Record RestoreRequest := mkRestoreRequest {
  rr_Database : string; rr_Bucket : string; rr_Prefix : string; rr_ExpectedCubridVersion : string;
  rr_StagingDir : string; rr_TargetDir : string; rr_SeedFromMaster : string; rr_ExpectedClusterUID : string }.

Inductive Call :=
| StartsHABootstrap (pod key database : string)
| StartsRestore (pod key : string) (req : RestoreRequest)
| StartsBackup (pod key : string) (req : BackupRequest)
| Polls (pod id : string)
| LooksUp (pod kind key : string).

(** A call, the entry when it was sent, and the operation answered. *)
Record Entry := mkEntry { en_status : DatabaseStatus; en_call : Call; en_answer : option Operation }.

(** The clients a reconciler is configured with. *)
Record BootReconciler := mkBootReconciler {
  br_HABootstrap : bool; br_Backup : bool; br_Restore : bool; br_Prober : bool }.

(** What the members answer to the n-th call, the observation of a member
    after n calls, and the n-th reading of the clock. *)
Record BootEnv := mkBootEnv {
  bn_operation : nat -> Call -> Err + Operation;
  bn_lookup : nat -> Call -> Err + option Operation;
  bn_probe : nat -> string -> RoleObservation;
  bn_clock : nat -> Time }.

Record BW := mkBW {
  bw_cluster : CubridCluster;
  bw_log : list Entry;
  bw_events : list BackupEvent;
  bw_ticks : nat }.
Notation Boot := (St BW).

Definition zeroDatabaseStatus (name : string) : DatabaseStatus :=
  mkDatabaseStatus name databasePhasePending false false [] None 0 "" None.

(** The first entry of a name, as [databaseStatus] finds it. *)
Fixpoint findDatabase (name : string) (l : list DatabaseStatus) : option DatabaseStatus :=
  match l with
  | [] => None
  | s :: l => if ds_Name s == name then Some s else findDatabase name l
  end.
Fixpoint updateDatabase (name : string) (f : DatabaseStatus -> DatabaseStatus) (l : list DatabaseStatus) : list DatabaseStatus :=
  match l with
  | [] => []
  | s :: l => if ds_Name s == name then f s :: l else s :: updateDatabase name f l
  end.

Definition entryOf (name : string) (cluster : CubridCluster) : DatabaseStatus :=
  default (zeroDatabaseStatus name) (findDatabase name (st_Databases (cl_Status cluster))).
Definition set_bw_cluster c (w : BW) : BW := mkBW c (bw_log w) (bw_events w) (bw_ticks w).
Definition theCluster : Boot CubridCluster := fun w => (bw_cluster w, w).
Definition getDB (name : string) : Boot DatabaseStatus := fun w => (entryOf name (bw_cluster w), w).
Definition modDB (name : string) (f : DatabaseStatus -> DatabaseStatus) : Boot unit := fun w =>
  (tt, set_bw_cluster (map_status (fun s => set_st_Databases (updateDatabase name f (st_Databases s)) s) (bw_cluster w)) w).
Definition statusEvent (type : EventType) (reason msg : string) : Boot unit := fun w =>
  (tt, mkBW (bw_cluster w) (bw_log w) (bw_events w ++ [mkBackupEvent type reason msg]) (bw_ticks w)).

(** databaseStatus: the entry is there afterwards. *)
Definition databaseStatus (name : string) : Boot unit := fun w =>
  (tt, match findDatabase name (st_Databases (cl_Status (bw_cluster w))) with
       | Some _ => w
       | None => set_bw_cluster (map_status (fun s => set_st_Databases (st_Databases s ++ [zeroDatabaseStatus name]) s) (bw_cluster w)) w
       end).

(** ** Pure parts *)

Definition bootstrapKey (step : string) (uid : string) (status : DatabaseStatus) (member : string) : string :=
  let key := step +:+ "-" +:+ uid +:+ "-" +:+ ds_Name status +:+ "-a" +:+ pretty (ds_BootstrapAttempts status) in
  if member != "" then key +:+ "-" +:+ member else key.

(** The loop of seedSourceAmong: the masters among the holders, or why the
    loop ended early. *)
Fixpoint seedScan (obs : gmap string RoleObservation) (now : Time) (holders masters : list string) : string + list string :=
  match holders with
  | [] => inr masters
  | m :: rest =>
      match obs !! m with
      | None => inl (m +:+ " did not answer")
      | Some o =>
          if negb (fresh o now) then inl (m +:+ " did not answer")
          else if (o_Role o == RoleMaster) && (negb (o_Conflicting o) || o_MasterNotYetActive o)
          then seedScan obs now rest (masters ++ [m])
          else if (o_Role o == RoleSlave) && negb (o_Conflicting o) then seedScan obs now rest masters
          else inl (m +:+ " reports no role that can be relied on")
      end
  end.

Definition seedSourceAmong (holders : list string) (obs : gmap string RoleObservation) (now : Time) : string * string :=
  match seedScan obs now holders [] with
  | inl why => ("", why)
  | inr [] => ("", "none of " +:+ strJoin ", " holders +:+ " reports itself master")
  | inr [m] => (m, "")
  | inr masters => ("", strJoin " and " masters +:+ " both report themselves master")
  end.

(** [strings.TrimLeft(s, "/")] and [strings.HasSuffix] *)
Fixpoint trimLeftSlash (s : string) : string :=
  match s with String c rest => if c == chSlash then trimLeftSlash rest else s | EmptyString => s end.
Definition HasSuffix (s suffix : string) : bool :=
  non_nil (stripPrefix (rev (list_ascii_of_string suffix)) (rev (list_ascii_of_string s))).

Definition seedLocationDir (artifact : string) : string := if artifact == "" then "seed" else "seed-" +:+ artifact.

Definition seedLocation (storage : CubridObjectStorage) (uid database artifact : string) : string * string :=
  (os_Bucket storage, Join [trimLeftSlash (os_Prefix storage); uid; seedLocationDir artifact; database]).

Definition restoredSeed (op : Operation) (uid artifact database : string) : bool :=
  match (match op_Restored op with Some a => Some a | None => op_Artifact op end) with
  | None => false
  | Some a => HasSuffix (oa_ManifestURI a) ("/" +:+ Join [uid; seedLocationDir artifact; database; ManifestObjectName])
  end.

(** What seedBackup asks the source for. *)
Definition seedBackupRequest (storage : CubridObjectStorage) (cluster : CubridCluster) (database source peer artifact : string) : BackupRequest :=
  let uid := cl_UID cluster in
  let '(bucket, prefix) := seedLocation storage uid database artifact in
  let staging := if artifact != "" then "seed-" +:+ uid +:+ "-" +:+ peer else "seed-" +:+ uid in
  mkBackupRequest database (Join [backupStagingRoot; staging]) 0
    (Some (mkUpload bucket prefix uid (sp_Version (cl_Spec cluster)) source RoleMaster true)).

(** The part of the copy to [peer] that names its place and its keys. *)
Definition artifactOf (peer : string) (seeding : DatabaseSeeding) : string :=
  let artifact := peer +:+ "-from-" +:+ sd_Source seeding in
  if 0 <? sd_Round seeding then artifact +:+ "-r" +:+ pretty (sd_Round seeding) else artifact.

(** ** Handlers

    [formatTime] is [t.UTC().Format(time.RFC3339)], and [hashRequest] the hash
    of the JSON of a request. *)
Section bootstrap.
Context `{O : ConditionOps} (quote : string -> string) (formatTime : Time -> string) (hashRequest : RestoreRequest -> string).
Context (r : BootReconciler) (env : BootEnv).

Definition seedPrefixRefusal (prefix : string) : string :=
  let cleaned := Clean (trimLeftSlash prefix) in
  if (cleaned == "..") || non_nil (CutPrefix "../" cleaned)
  then "spec.objectStorage.prefix " +:+ quote prefix +:+ " leads above the bucket with " +:+ quoted ".."
       +:+ " and names no key for the seed backups"
  else "".

Definition clock : Boot Time := fun w => (bn_clock env (bw_ticks w), mkBW (bw_cluster w) (bw_log w) (bw_events w) (S (bw_ticks w))).

(** Calls, each logged with its answer. *)
Definition logCall (database : string) (c : Call) (answer : option Operation) (w : BW) : BW :=
  mkBW (bw_cluster w) (bw_log w ++ [mkEntry (entryOf database (bw_cluster w)) c answer]) (bw_events w) (bw_ticks w).
Definition asked {A} (x : Err + A) : option A := match x with inl _ => None | inr x => Some x end.
Definition operate (database : string) (c : Call) : Boot (Err + Operation) := fun w =>
  let answer := bn_operation env (List.length (bw_log w)) c in (answer, logCall database c (asked answer) w).
Definition findOperation (database pod kind key : string) : Boot (Err + option Operation) := fun w =>
  let c := LooksUp pod kind key in
  let answer := bn_lookup env (List.length (bw_log w)) c in
  (answer, logCall database c (match answer with inl _ => None | inr op => op end) w).

Definition setBootstrapReady (status : ConditionStatus) (reason msg : string) : Boot unit := fun w =>
  (tt, set_bw_cluster (setCondition (bw_cluster w) conditionBootstrapReady status reason msg) w).
Definition notReady : string -> string -> Boot unit := setBootstrapReady ConditionFalse.

(** operationOfKey (imclient.go), with its lookup on the member. *)
Definition operationUnderKey (database pod kind key : string) (err : Err) : Boot (Err + Operation) :=
  if negb (Is err errStartConflict) || Is err errOperationInProgress || Is err errStagingInUse || Is err errNotAnHAMember
  then mret (operationOfKey quote err kind key (fun _ => inr None))
  else found ← findOperation database pod kind key; mret (operationOfKey quote err kind key (fun _ => found)).

(** A start, and on a conflict the operation its key names. *)
Definition startOrFollow (database pod kind key : string) (c : Call) : Boot ((Err + Operation) * bool) :=
  op ← operate database c;
  match op with
  | inr op => mret (inr op, false)
  | inl err =>
      op ← operationUnderKey database pod kind key err;
      mret (op, match op with inr _ => true | inl _ => false end)
  end.

Definition bootstrapStepFailed (database reason msg : string) : Boot unit :=
  status ← getDB database;
  if wrap32 (ds_BootstrapAttempts status + 1) <? maxBootstrapAttempts then
    let attempts := wrap32 (ds_BootstrapAttempts status + 1) in
    _ ← modDB database (set_ds_BootstrapAttempts attempts);
    let msg := msg +:+ "; starting attempt " +:+ pretty (wrap32 (attempts + 1)) +:+ " of " +:+ pretty maxBootstrapAttempts in
    _ ← notReady (reason +:+ "Retrying") msg;
    statusEvent EventTypeWarning (reason +:+ "Retrying") msg
  else
    _ ← modDB database (set_ds_Phase databasePhaseFailed);
    let msg := msg +:+ "; giving up after " +:+ pretty maxBootstrapAttempts +:+ " attempts" in
    _ ← notReady reason msg;
    statusEvent EventTypeWarning reason msg.

Definition bootstrapStopped (database reason msg : string) : Boot unit :=
  _ ← modDB database (set_ds_Phase databasePhaseFailed);
  let msg := msg +:+ ", and " +:+ bootstrapRemedy in
  _ ← notReady reason msg;
  statusEvent EventTypeWarning reason msg.

Definition stepOperationMissing (database : string) (since : SinceField) (member step id : string) (err : Err)
  (running left : string) : Boot unit :=
  status ← getDB database;
  at_ ← match get_since since status with
        | Some t => mret t
        | None => t ← clock; _ ← modDB database (set_since since (Some t)); mret t
        end;
  t ← clock;
  if bootstrapOperationMissingWait <? Sub t at_ then
    bootstrapStopped database reasonRecordedOperationLost
      (member +:+ " has held no record of the " +:+ step +:+ " operation " +:+ id +:+ " since " +:+ formatTime at_
       +:+ ", for " +:+ printWait30m +:+ " or longer (" +:+ e_text err +:+ "). A missing record does "
       +:+ "not show that the " +:+ step +:+ " ended: " +:+ running +:+ ". The " +:+ step
       +:+ " is not started again; " +:+ left)
  else
    notReady reasonRecordedOperationMissing
      (member +:+ " holds no record of the " +:+ step +:+ " operation " +:+ id +:+ "; waiting for at most "
       +:+ printWait30m +:+ " from " +:+ formatTime at_ +:+ " for it to be read again").

Definition recordedOperationMatches (database : string) (op : Operation) (kind member step : string) : Boot bool :=
  let stop why :=
    _ ← bootstrapStopped database reasonRecordedOperationMismatch
          (member +:+ " answers for the " +:+ step +:+ " operation " +:+ op_ID op +:+ " recorded for database "
           +:+ database +:+ " with " +:+ why +:+ ". It does not show whether the " +:+ step +:+ " "
           +:+ "ran or ended. The " +:+ step +:+ " is not started again; check " +:+ member
           +:+ " before relying on its data");
    mret false in
  if op_Kind op != kind then stop ("a " +:+ op_Kind op +:+ " operation")
  else if (op_Database op != "") && (op_Database op != database) then stop ("an operation on database " +:+ op_Database op)
  else mret true.

(** The poll of a recorded step: what it reads, or [None] when the handler has
    stopped for a missing or contradicting record. *)
Definition pollStep (database : string) (since : SinceField) (member kind step id running left : string)
  : Boot (option (Err + Operation)) :=
  op ← operate database (Polls member id);
  match op with
  | inl err =>
      if Is err errOperationMissing
      then _ ← stepOperationMissing database since member step id err running left; mret None
      else mret (Some (inl err))
  | inr op =>
      matches_ ← recordedOperationMatches database op kind member step;
      if (matches_ : bool) then mret (Some (inr op))
      else _ ← modDB database (set_since since None); mret None
  end.

(** ** Seeding *)

Definition selectSeedSource (database holder : string) : Boot (string * string) :=
  status ← getDB database;
  if bool_decide (ds_SeededMembers status = []) then mret (holder, "")
  else if negb (br_Prober r) then mret ("", "no role prober is configured")
  else
    let holders := holder :: ds_SeededMembers status in
    obs ← (fun w => (list_to_map ((fun m => (m, bn_probe env (List.length (bw_log w)) m)) <$> holders), w));
    t ← clock;
    mret (seedSourceAmong holders (obs : gmap string RoleObservation) t).

(** seedMember, up to the record of the copy: the copy, whether its source was
    in the status already, and its artifact.  [None] when it has to wait. *)
Definition chooseSeeding (database holder peer : string) : Boot (option (DatabaseSeeding * bool * string)) :=
  status ← getDB database;
  let seeding := match ds_Seeding status with
                 | Some s => if sd_Member s != peer then None else Some s
                 | None => None
                 end in
  let restoreStarted := match seeding with Some s => sd_RestoreOperationID s != "" | None => false end in
  if bool_decide (ds_SeededMembers status = []) then
    match seeding with
    | None => mret (Some (mkDatabaseSeeding peer holder 0 "" "" None, true, ""))
    | Some s =>
        if sd_Source s != holder then
          _ ← bootstrapStopped database reasonSeedSourceContradicted
                ("the copy of database " +:+ database +:+ " to " +:+ peer +:+ " is recorded with " +:+ sd_Source s
                 +:+ " as its source, but the first peer is copied only " +:+ "from " +:+ holder
                 +:+ ", which holds the database. " +:+ peer +:+ " is not recorded as seeded, and the copy is not started "
                 +:+ "again; check " +:+ peer +:+ " before relying on its data");
          mret None
        else mret (Some (s, true, ""))
    end
  else match seeding, restoreStarted with
  | Some s, true => mret (Some (s, true, artifactOf peer s))
  | _, _ =>
      found ← selectSeedSource database holder;
      let '(observed, why) := (found : string * string) in
      if observed == "" then
        _ ← notReady "SeedSourceNotResolved" ("waiting to copy database " +:+ database +:+ " to " +:+ peer
              +:+ ": the master among the members that hold it is not known (" +:+ why +:+ ")");
        mret None
      else
        let '(chosen, recorded) := match seeding with
          | None => (mkDatabaseSeeding peer observed 0 "" "" None, false)
          | Some s =>
              if sd_Source s != observed then (mkDatabaseSeeding peer observed (wrap32 (sd_Round s + 1)) "" "" None, false)
              else (s, true)
          end in
        _ ← (if negb recorded && (observed != holder) then
               statusEvent EventTypeNormal "SeedSourceChanged" ("database " +:+ database +:+ " will be copied to " +:+ peer
                 +:+ " from " +:+ observed +:+ ", the master; " +:+ holder +:+ " is no longer the master")
             else mret tt);
        mret (Some (chosen, recorded, artifactOf peer chosen))
  end.

Definition seedBackup (storage : CubridObjectStorage) (database source peer artifact : string) : Boot bool :=
  status ← getDB database;
  cluster ← theCluster;
  let uid := cl_UID cluster in
  let '(bucket, prefix) := seedLocation storage uid database artifact in
  let id := default "" (sd_BackupOperationID <$> ds_Seeding status) in
  backup ← (if id != "" then
      pollStep database SeedingSince source OpBackup "seed backup" id
        ("backupdb may still be running on " +:+ source +:+ " and upload to s3://" +:+ Join [bucket; prefix])
        (peer +:+ " is not recorded as seeded; check " +:+ source +:+ " and that prefix")
    else
      let '(msg, held) := engineSeriesHold cluster source in
      if (held : bool) then _ ← notReady reasonEngineVersionMismatch msg; mret None
      else
        let key := bootstrapKey "seed-backup" uid status artifact in
        started ← startOrFollow database source OpBackup key
          (StartsBackup source key (seedBackupRequest storage cluster database source peer artifact));
        match started.1 with
        | inl err =>
            if Is err errRequestRefused then
              _ ← modDB database (set_ds_Seeding None);
              _ ← bootstrapStepFailed database "SeedBackupFailed" (e_text err);
              mret None
            else mret (Some (inl err))
        | inr op => mret (Some (inr op))
        end);
  match (backup : option (Err + Operation)) with
  | None => mret false
  | Some (inl err) => _ ← notReady (instanceManagerFailureReason err) (e_text err); mret false
  | Some (inr backup) =>
      _ ← modDB database (map_seeding (fun s => set_sd_OperationMissingSince None (set_sd_BackupOperationID (op_ID backup) s)));
      if op_State backup == OpCompleted then mret true
      else if op_State backup == OpFailed then
        _ ← modDB database (set_ds_Seeding None);
        _ ← bootstrapStepFailed database "SeedBackupFailed" ("on " +:+ source +:+ ": " +:+ op_FailureReason backup);
        mret false
      else
        _ ← notReady "SeedBackupInProgress" ("backing up database " +:+ database +:+ " on " +:+ source);
        mret false
  end.

(** The loop of retrySkipsSeedBackup, from the attempt before [attempts]. *)
Fixpoint earlierRestore (database peer keyMember artifact hash uid : string) (attempts : nat) : Boot (Err + bool) :=
  match attempts with
  | 0%nat => mret (inr false)
  | S n =>
      status ← getDB database;
      let key := bootstrapKey "seed-restore" uid (set_ds_BootstrapAttempts (Z.of_nat n) status) keyMember in
      found ← findOperation database peer OpRestore key;
      match found with
      | inl err => mret (inl err)
      | inr None => earlierRestore database peer keyMember artifact hash uid n
      | inr (Some op) =>
          mret (inr ((op_State op == OpFailed) && non_nil (op_Restored op) && (op_RequestHash op == hash)
                     && restoredSeed op uid artifact database))
      end
  end.

Definition retrySkipsSeedBackup (database peer keyMember artifact restoreKey : string) (req : RestoreRequest) : Boot (Err + bool) :=
  status ← getDB database;
  cluster ← theCluster;
  if ds_BootstrapAttempts status == 0 then mret (inr false)
  else
    started ← findOperation database peer OpRestore restoreKey;
    match started with
    | inl err => mret (inl err)
    | inr (Some _) => mret (inr true)
    | inr None =>
        earlierRestore database peer keyMember artifact (hashRequest req) (cl_UID cluster)
          (Z.to_nat (ds_BootstrapAttempts status))
    end.

(** seedMember, where no restore is recorded: the seed backup and the start of
    the restore, with whether the operation was followed.  [None] when the
    handler has ended. *)
Definition startSeedRestore (storage : CubridObjectStorage) (database peer : string) (seeding : DatabaseSeeding)
  (sourceRecorded : bool) (artifact keyMember restoreKey : string) (req : RestoreRequest)
  : Boot (option ((Err + Operation) * bool)) :=
  reused ← retrySkipsSeedBackup database peer keyMember artifact restoreKey req;
  match reused with
  | inl err =>
      _ ← notReady (instanceManagerFailureReason err) ("waiting to copy database " +:+ database +:+ " to " +:+ peer
            +:+ ": a restore of this step could not be looked up: " +:+ e_text err);
      mret None
  | inr reused =>
      backedUp ← (if (reused : bool) then mret true else seedBackup storage database (sd_Source seeding) peer artifact);
      if negb backedUp then mret None
      else if negb sourceRecorded then
        _ ← notReady "SeedSourceSelected" ("database " +:+ database +:+ " will be copied to " +:+ peer +:+ " from "
              +:+ sd_Source seeding +:+ ", the master");
        mret None
      else
        cluster ← theCluster;
        let '(msg, held) := engineSeriesHold cluster peer in
        if (held : bool) then _ ← notReady reasonEngineVersionMismatch msg; mret None
        else
          started ← startOrFollow database peer OpRestore restoreKey (StartsRestore peer restoreKey req);
          match started.1 with
          | inl err =>
              if Is err errRequestRefused then
                _ ← modDB database (set_ds_Seeding None);
                _ ← bootstrapStepFailed database "SeedRestoreFailed" (e_text err);
                mret None
              else mret (Some started)
          | inr _ => mret (Some started)
          end
  end.

(** seedMember, from the restore operation on: whether [peer] holds the
    database now. *)
Definition followSeedRestore (database peer uid artifact restoreKey : string) (restore : option ((Err + Operation) * bool)) : Boot bool :=
  match restore with
  | None => mret false
  | Some (inl err, _) => _ ← notReady (instanceManagerFailureReason err) (e_text err); mret false
  | Some (inr restore, followed) =>
      _ ← modDB database (map_seeding (set_sd_OperationMissingSince None));
      if followed && (op_State restore == OpCompleted) && negb (restoredSeed restore uid artifact database) then
        _ ← notReady "SeedRestoreSourceMismatch" ("the restore operation " +:+ op_ID restore +:+ " under the key "
              +:+ quote restoreKey +:+ " on " +:+ peer +:+ " completed, but it did not restore the backup "
              +:+ "of this step (" +:+ seedLocationDir artifact +:+ "); " +:+ peer
              +:+ " is not recorded as seeded, and the operation is left for a person");
        mret false
      else
        _ ← modDB database (map_seeding (set_sd_RestoreOperationID (op_ID restore)));
        if op_State restore == OpCompleted then
          _ ← modDB database (fun s => set_ds_Seeding None (set_ds_SeededMembers (ds_SeededMembers s ++ [peer]) s));
          mret true
        else if op_State restore == OpFailed then
          _ ← modDB database (set_ds_Seeding None);
          _ ← bootstrapStepFailed database "SeedRestoreFailed" ("on " +:+ peer +:+ ": " +:+ op_FailureReason restore);
          mret false
        else
          _ ← notReady "SeedRestoreInProgress" ("restoring database " +:+ database +:+ " on " +:+ peer);
          mret false
  end.

(** The restore request and key of a copy to [peer]. *)
Definition seedRestoreRequest (storage : CubridObjectStorage) (cluster : CubridCluster) (database source artifact : string) : RestoreRequest :=
  let uid := cl_UID cluster in
  let '(bucket, prefix) := seedLocation storage uid database artifact in
  mkRestoreRequest database bucket prefix (sp_Version (cl_Spec cluster)) (Join [restoreStagingRoot; "seed-" +:+ uid])
    restoreTargetRoot source uid.
Definition seedKeyMember (peer artifact : string) : string := if artifact != "" then artifact else peer.

Definition seedMember (storage : CubridObjectStorage) (database holder peer : string) : Boot bool :=
  choice ← chooseSeeding database holder peer;
  match (choice : option (DatabaseSeeding * bool * string)) with
  | None => mret false
  | Some (seeding, sourceRecorded, artifact) =>
      _ ← modDB database (set_ds_Seeding (Some seeding));
      status ← getDB database;
      cluster ← theCluster;
      let uid := cl_UID cluster in
      let keyMember := seedKeyMember peer artifact in
      let restoreKey := bootstrapKey "seed-restore" uid status keyMember in
      let id := sd_RestoreOperationID seeding in
      restore ← (if id != "" then
          polled ← pollStep database SeedingSince peer OpRestore "seed restore" id
            ("restoredb may still be running on " +:+ peer +:+ ", or have left data there")
            (peer +:+ " is not recorded as seeded; check it before relying on its data");
          mret ((fun op => (op, true)) <$> polled)
        else
          startSeedRestore storage database peer seeding sourceRecorded artifact keyMember restoreKey
            (seedRestoreRequest storage cluster database (sd_Source seeding) artifact));
      followSeedRestore database peer uid artifact restoreKey restore
  end.

(** The loop of reconcileSeeding: whether every member holds the database. *)
Fixpoint seedPeers (storage : CubridObjectStorage) (database holder : string) (peers : list string) : Boot bool :=
  match peers with
  | [] => mret true
  | peer :: rest =>
      status ← getDB database;
      if (peer == holder) || bool_decide (peer ∈ ds_SeededMembers status) then seedPeers storage database holder rest
      else
        seeded ← seedMember storage database holder peer;
        if (seeded : bool) then seedPeers storage database holder rest else mret false
  end.

Definition reconcileSeeding (database holder : string) : Boot unit :=
  cluster ← theCluster;
  let spec := cl_Spec cluster in
  let origin := "database " +:+ database +:+ (if is_nil (sp_Recovery spec) then " was created on " else " was restored on ") +:+ holder in
  if negb (br_Backup r) || negb (br_Restore r) then
    notReady "PeersNotSeeded" (origin +:+ "; no backup and restore clients are configured to seed the other members")
  else match sp_ObjectStorage spec with
  | None =>
      notReady "SeedStorageNotConfigured" (origin +:+ "; spec.objectStorage with a bucket is needed to copy it to the other members")
  | Some storage =>
      if os_Bucket storage == "" then
        notReady "SeedStorageNotConfigured" (origin +:+ "; spec.objectStorage with a bucket is needed to copy it to the other members")
      else
        let why := seedPrefixRefusal (os_Prefix storage) in
        if why != "" then notReady "SeedStoragePrefixInvalid" (origin +:+ "; " +:+ why)
        else
          seeded ← seedPeers storage database holder (memberNames cluster (sp_PromotableMembers spec));
          if negb (seeded : bool) then mret tt
          else
            _ ← modDB database (fun s => set_ds_HAConfigured true (set_ds_Seeding None s));
            _ ← setBootstrapReady ConditionTrue "PeersSeeded" (origin +:+ " and copied to the other members");
            statusEvent EventTypeNormal "PeersSeeded" ("database " +:+ database +:+ " copied to the other members")
  end.

(** ** The creation *)

(** reconcileHABootstrap, from the operation of the creation on. *)
Definition followCreation (database member : string) (op : Operation) : Boot unit :=
  _ ← modDB database (set_ds_Operation (op_ID op) None);
  if op_State op == OpCompleted then
    _ ← modDB database (fun s => set_ds_PrimaryCreated true (set_ds_Phase databasePhaseCreated s));
    _ ← statusEvent EventTypeNormal "DatabaseCreated" ("database " +:+ database +:+ " created on " +:+ member);
    reconcileSeeding database member
  else if op_State op == OpFailed then
    _ ← modDB database (fun s => set_ds_Operation "" (ds_BootstrapOperationMissingSince s) s);
    bootstrapStepFailed database "DatabaseCreationFailed" ("on " +:+ member +:+ ": " +:+ op_FailureReason op)
  else
    _ ← modDB database (set_ds_Phase databasePhaseCreating);
    notReady "DatabaseCreationInProgress" ("creating database " +:+ database +:+ " on " +:+ member).

Definition createDatabase (database member : string) : Boot unit :=
  status ← getDB database;
  cluster ← theCluster;
  let id := ds_BootstrapOperationID status in
  created ← (if id != "" then
      pollStep database BootstrapSince member OpHABootstrap "HA bootstrap" id
        ("createdb may still be running on " +:+ member +:+ ", or have left data there")
        ("the database is not recorded as created; check " +:+ member +:+ " before relying on its data")
    else
      let key := bootstrapKey "ha-bootstrap" (cl_UID cluster) status "" in
      started ← startOrFollow database member OpHABootstrap key (StartsHABootstrap member key database);
      match started.1 with
      | inl err =>
          if Is err errRequestRefused then _ ← bootstrapStepFailed database "DatabaseCreationFailed" (e_text err); mret None
          else mret (Some (inl err))
      | inr op => mret (Some (inr op))
      end);
  match (created : option (Err + Operation)) with
  | None => mret tt
  | Some (inl err) => notReady (instanceManagerFailureReason err) (e_text err)
  | Some (inr op) => followCreation database member op
  end.

Definition reconcileHABootstrap : Boot unit :=
  cluster ← theCluster;
  let spec := cl_Spec cluster in
  match sp_Databases spec with
  | [] => mret tt
  | database :: _ =>
      if negb (br_HABootstrap r) || negb (sp_HAEnabled spec) || non_nil (sp_Recovery spec) then mret tt
      else
        _ ← databaseStatus database;
        status ← getDB database;
        if (ds_Phase status == databasePhaseFailed) || ds_HAConfigured status then mret tt
        else
          let member := memberName (cl_Name cluster) 0 in
          if ds_PrimaryCreated status then reconcileSeeding database member
          else createDatabase database member
  end.
End bootstrap.
