(* ===== verification/Recovery.v ===== *)
(** * Recovery of a cluster from a backup

    [internal/controller/bootstrap.go]: the first database is restored from a
    backup on the member with ordinal 0 and, in an HA cluster, copied to the
    other members as a created one is (HABootstrap.v).  The state and the
    calls are those of HABootstrap.v. *)
From stdpp Require Import prelude gmap strings pretty list.
From S2P Require Import Prelude GoState Api GoStr Engine HARole OpStore ManifestURI ImClient BackupController HABootstrap.

Definition restorePollAfter : Duration := 10 * Second.

Definition set_bs_Phase v (b : BootstrapStatus) := mkBootstrapStatus (bs_Mode b) v (bs_ManifestURI b) (bs_OperationID b)
  (bs_TargetMember b) (bs_Attempts b) (bs_OperationMissingSince b).
Definition set_bs_OperationID v (b : BootstrapStatus) := mkBootstrapStatus (bs_Mode b) (bs_Phase b) (bs_ManifestURI b) v
  (bs_TargetMember b) (bs_Attempts b) (bs_OperationMissingSince b).
Definition set_bs_Attempts v (b : BootstrapStatus) := mkBootstrapStatus (bs_Mode b) (bs_Phase b) (bs_ManifestURI b) (bs_OperationID b)
  (bs_TargetMember b) v (bs_OperationMissingSince b).
Definition set_bs_OperationMissingSince v (b : BootstrapStatus) := mkBootstrapStatus (bs_Mode b) (bs_Phase b) (bs_ManifestURI b)
  (bs_OperationID b) (bs_TargetMember b) (bs_Attempts b) v.

Definition zeroBootstrapStatus : BootstrapStatus := mkBootstrapStatus "" "" "" "" "" 0 None.
Definition bootOf (cluster : CubridCluster) : BootstrapStatus := default zeroBootstrapStatus (st_Bootstrap (cl_Status cluster)).

Definition getBoot : Boot BootstrapStatus := fun w => (bootOf (bw_cluster w), w).
Definition modBoot (f : BootstrapStatus -> BootstrapStatus) : Boot unit := fun w =>
  (tt, set_bw_cluster (map_status (fun s => set_st_Bootstrap (f <$> st_Bootstrap s) s) (bw_cluster w)) w).

(** [status.bootstrap], made when it is absent. *)
Definition beginRecovery (uri target : string) : Boot unit := fun w =>
  (tt, match st_Bootstrap (cl_Status (bw_cluster w)) with
       | Some _ => w
       | None => set_bw_cluster (map_status (set_st_Bootstrap
                   (Some (mkBootstrapStatus "Recovery" BootstrapPreparing uri "" target 0 None))) (bw_cluster w)) w
       end).

Definition restoredOnTarget (cluster : CubridCluster) (database : string) : bool :=
  match findDatabase database (st_Databases (cl_Status cluster)) with Some s => ds_PrimaryCreated s | None => false end.

Definition recoveryStarted (cluster : CubridCluster) (database : string) : bool :=
  let boot := bootOf cluster in
  (bs_OperationID boot != "") || (0 <? bs_Attempts boot) || restoredOnTarget cluster database.

Definition recoveryIdempotencyKey (cluster : CubridCluster) (uri member : string) : string :=
  let key := "restore:" +:+ cl_UID cluster +:+ ":" +:+ uri +:+ ":" +:+ member in
  if 0 <? bs_Attempts (bootOf cluster) then key +:+ ":a" +:+ pretty (bs_Attempts (bootOf cluster)) else key.

Section recovery.
Context `{O : ConditionOps} (quote : string -> string) (formatTime : Time -> string) (hashRequest : RestoreRequest -> string).
Context (r : BootReconciler) (env : BootEnv).

(** ctrl.Result and whether the recovery is still active. *)
Notation Answer := (Duration * bool)%type.

Definition recoveryFailed (reason msg : string) : Boot unit :=
  _ ← modBoot (set_bs_Phase BootstrapFailed);
  notReady reason msg.

Definition restoreAttemptFailed (target why : string) : Boot Answer :=
  boot ← getBoot;
  if wrap32 (bs_Attempts boot + 1) <? maxBootstrapAttempts then
    let attempts := wrap32 (bs_Attempts boot + 1) in
    _ ← modBoot (fun b => set_bs_OperationID "" (set_bs_Attempts attempts b));
    let msg := "on " +:+ target +:+ ": " +:+ why +:+ "; starting attempt " +:+ pretty (wrap32 (attempts + 1))
               +:+ " of " +:+ pretty maxBootstrapAttempts in
    _ ← notReady "RestoreFailedRetrying" msg;
    _ ← statusEvent EventTypeWarning "RestoreFailedRetrying" msg;
    mret (restorePollAfter, true)
  else
    _ ← recoveryFailed "RestoreFailed" ("on " +:+ target +:+ ": " +:+ why +:+ "; giving up after "
          +:+ pretty maxBootstrapAttempts +:+ " attempts");
    mret (0, true).

Definition restoreOperationMissing (target : string) (err : Err) : Boot Answer :=
  boot ← getBoot;
  since ← match bs_OperationMissingSince boot with
          | Some t => mret t
          | None => t ← clock env; _ ← modBoot (set_bs_OperationMissingSince (Some t)); mret t
          end;
  t ← clock env;
  if recoveryOperationMissingWait <? Sub t since then
    _ ← recoveryFailed reasonRecordedOperationLost
          (target +:+ " has held no record of the restore operation " +:+ bs_OperationID boot +:+ " since "
           +:+ formatTime since +:+ ", for " +:+ printWait30m +:+ " or longer (" +:+ e_text err +:+ "). A missing record "
           +:+ "does not show that the restore ended: restoredb may still be running on " +:+ target +:+ ", or have left data "
           +:+ "there. The restore is not started again; check " +:+ target +:+ " before relying on its data, and delete and "
           +:+ "create the CubridCluster again to restore anew (ADR-0008)");
    mret (0, true)
  else
    _ ← notReady reasonRecordedOperationMissing
          (target +:+ " holds no record of the restore operation " +:+ bs_OperationID boot +:+ "; waiting for at most "
           +:+ printWait30m +:+ " from " +:+ formatTime since +:+ " for it to be read again");
    mret (restorePollAfter, true).

Definition setRestoreProgress (state target : string) : Boot unit :=
  let '(phase, doing) :=
    if state == OpRestoring then (BootstrapRestoring, "restoredb is running on ")
    else if state == OpStarting then (BootstrapRestoring, "the restored database is being started on ")
    else (BootstrapPreparing, "the backup is being verified and downloaded on ") in
  _ ← modBoot (set_bs_Phase phase);
  notReady "RestoreInProgress" (doing +:+ target).

Definition reconcileRecoverySeeding (database : string) : Boot Answer :=
  boot ← getBoot;
  _ ← databaseStatus database;
  status ← getDB database;
  _ ← (if negb (ds_PrimaryCreated status) then
         _ ← modDB database (fun s => set_ds_PrimaryCreated true (set_ds_Phase databasePhaseCreated s));
         statusEvent EventTypeNormal "DatabaseRestored" ("database " +:+ database +:+ " restored on " +:+ bs_TargetMember boot
           +:+ "; copying it to the other members")
       else mret tt);
  status ← getDB database;
  _ ← (if ds_Phase status != databasePhaseFailed then
         _ ← modBoot (set_bs_Phase BootstrapSeedingReplicas);
         reconcileSeeding quote formatTime hashRequest r env database (bs_TargetMember boot)
       else mret tt);
  status ← getDB database;
  if ds_HAConfigured status then _ ← modBoot (set_bs_Phase BootstrapComplete); mret (0, false)
  else if ds_Phase status == databasePhaseFailed then _ ← modBoot (set_bs_Phase BootstrapFailed); mret (0, true)
  else mret (restorePollAfter, true).

(** What the member is asked for. *)
Definition recoveryRequest (cluster : CubridCluster) (database bucket prefix : string) : RestoreRequest :=
  mkRestoreRequest database bucket prefix (sp_Version (cl_Spec cluster))
    (Join [restoreStagingRoot; cl_UID cluster]) restoreTargetRoot "" "".

(** reconcileRecovery, where no operation is recorded: the restore is started. *)
Definition startRecovery (database bucket prefix uri target : string) : Boot Answer :=
  cluster ← theCluster;
  let '(msg, held) := engineSeriesHold cluster target in
  if (held : bool) then _ ← notReady reasonEngineVersionMismatch msg; mret (restorePollAfter, true)
  else
    let req := recoveryRequest cluster database bucket prefix in
    let key := recoveryIdempotencyKey cluster uri target in
    started ← startOrFollow quote env database target OpRestore key (StartsRestore target key req);
    match started.1 with
    | inl err =>
        if Is err errRequestRefused then restoreAttemptFailed target (e_text err)
        else
          let reason := instanceManagerFailureReason err in
          _ ← notReady (if reason == reasonInstanceManagerUnavailable then "RestoreStartFailed" else reason) (e_text err);
          mret (restorePollAfter, true)
    | inr op =>
        _ ← modBoot (set_bs_OperationID (op_ID op));
        _ ← setRestoreProgress (op_State op) target;
        mret (restorePollAfter, true)
    end.

(** reconcileRecovery, where an operation is recorded: it is polled. *)
Definition pollRecovery (database target : string) : Boot Answer :=
  cluster ← theCluster;
  op ← operate env database (Polls target (bs_OperationID (bootOf cluster)));
  match op with
  | inl err =>
      if Is err errOperationMissing then restoreOperationMissing target err
      else _ ← notReady (instanceManagerFailureReason err) (e_text err); mret (restorePollAfter, true)
  | inr op =>
      _ ← modBoot (set_bs_OperationMissingSince None);
      if op_State op == OpCompleted then
        if sp_HAEnabled (cl_Spec cluster) then reconcileRecoverySeeding database
        else
          _ ← modBoot (set_bs_Phase BootstrapComplete);
          _ ← setBootstrapReady ConditionTrue "RecoveryComplete" ("restore completed on " +:+ target);
          mret (0, false)
      else if op_State op == OpFailed then restoreAttemptFailed target (op_FailureReason op)
      else _ ← setRestoreProgress (op_State op) target; mret (restorePollAfter, true)
  end.

(** reconcileRecovery; [uri] is [spec.bootstrap.recovery.manifestUri]. *)
Definition reconcileRecovery (uri : string) : Boot Answer :=
  cluster ← theCluster;
  let target := memberName (cl_Name cluster) 0 in
  let database := default "" (head (sp_Databases (cl_Spec cluster))) in
  _ ← beginRecovery uri target;
  cluster ← theCluster;
  if bs_Phase (bootOf cluster) == BootstrapFailed then mret (0, true)
  else
    let location := match parseManifestURI quote uri with
                    | inl err => if recoveryStarted cluster database then startedManifestLocation quote uri else inl err
                    | inr l => inr l
                    end in
    match location with
    | inl err => _ ← recoveryFailed "InvalidManifestURI" err; mret (0, true)
    | inr (bucket, prefix) =>
        if negb (br_Restore r) then
          _ ← notReady "RestoreClientNotConfigured" "no restore client configured on the controller"; mret (0, true)
        else if sp_HAEnabled (cl_Spec cluster) && restoredOnTarget cluster database then reconcileRecoverySeeding database
        else if bs_OperationID (bootOf cluster) == "" then startRecovery database bucket prefix uri target
        else pollRecovery database target
    end.
End recovery.
