(* ===== verification/RequestSafety.v ===== *)
(** * What the checks of a request promise

    The checks of Requests.v accept exactly what their comments describe, keep
    every path of a request inside the manager's own directories, and accept
    every request that the operator makes of a valid object. *)
From stdpp Require Import prelude strings pretty list.
From Stdlib Require Import Ascii String.
From S2P Require Import Prelude GoState Api GoStr Utf8 Engine HARole OpStore BackupTarget ManifestURI ImClient BackupController HABootstrap Recovery Paths Requests.

(** ** Names *)

Lemma runes_normal s c l : runes s = c :: l -> c <> dot -> slash ∉ c :: l -> normal s.
Proof.
  intros Hr Hc Hs. split_and!.
  - by intros ->.
  - intros ->. by injection Hr as <- _.
  - intros ->. by injection Hr as <- _.
  - apply no_slash_str. intros [i Hi]%list_elem_of_lookup. apply list_elem_of_split_length in Hi as (a & b & Hab & _).
    unfold runes in Hr. rewrite Hab, runesOf_ascii in Hr by done. apply Hs. rewrite <- Hr. set_solver.
Qed.

Lemma all_not_in p x (l : list N) : p x = false -> Forall (fun c => p c = true) l -> x ∉ l.
Proof. intros Hx Hl Hin. rewrite Forall_forall in Hl. specialize (Hl x Hin). congruence. Qed.

(** A name of a staging directory. *)
Lemma staging_name_iff s : MatchString stagingNamePattern s = true <->
  exists c l, runes s = c :: l /\ isAlnum c = true /\ Forall (fun c => isStagingChar c = true) l.
Proof.
  unfold MatchString, stagingNamePattern. rewrite matchesAll_lang, lang_cat_inv. setoid_rewrite lang_class_inv.
  setoid_rewrite lang_star_class. split.
  - intros (u & v & -> & (c & -> & Hc) & Hv). by exists c, v.
  - intros (c & l & -> & Hc & Hl). exists [c], l. split; [done|]. split; [by exists c|done].
Qed.

Lemma staging_name_normal s : MatchString stagingNamePattern s = true -> normal s.
Proof.
  intros (c & l & Hr & Hc & Hl)%staging_name_iff. apply (runes_normal s c l Hr); [by intros ->|].
  intros [<-|Hin]%elem_of_cons; [done|]. by apply (all_not_in isStagingChar slash l).
Qed.

Lemma database_name_iff s : MatchString databaseNamePattern s = true <->
  exists c l, runes s = c :: l /\ isUpper c || isLower c = true /\ (List.length l <= 16)%nat /\
    Forall (fun c => isUpper c || isLower c || isDigitRune c || N.eqb c 95 = true) l.
Proof.
  unfold MatchString, databaseNamePattern. rewrite matchesAll_lang, lang_cat_inv. setoid_rewrite lang_class_inv.
  setoid_rewrite lang_upTo. split.
  - intros (u & v & -> & (c & -> & Hc) & Hv). by exists c, v.
  - intros (c & l & -> & Hc & Hl). exists [c], l. split; [done|]. split; [by exists c|done].
Qed.

Lemma database_name_normal s : MatchString databaseNamePattern s = true -> normal s.
Proof.
  intros (c & l & Hr & Hc & _ & Hl)%database_name_iff. apply (runes_normal s c l Hr); [by intros ->|].
  intros [<-|Hin]%elem_of_cons; [done|].
  by apply (all_not_in (fun c => isUpper c || isLower c || isDigitRune c || N.eqb c 95) slash l).
Qed.

Lemma host_label_chars s : MatchString hostLabelPattern s = true ->
  exists c l, runes s = c :: l /\ isLowerDigit c = true /\ Forall (fun c => isLabelInner c = true) l.
Proof.
  unfold MatchString, hostLabelPattern, reOpt. rewrite matchesAll_lang, lang_cat_inv. setoid_rewrite lang_class_inv.
  intros (u & v & -> & (c & -> & Hc) & Hv). exists c, v. split_and!; [done|done|].
  rewrite lang_alt_inv, lang_empty_inv, lang_cat_inv in Hv. destruct Hv as [->|(a & b & -> & Ha & Hb)]; [done|].
  apply lang_upTo in Ha as [_ Ha]. apply lang_class_inv in Hb as (d & -> & Hd). apply Forall_app. split; [done|].
  constructor; [|done]. unfold isLabelInner. by rewrite Hd, orb_true_r.
Qed.

Lemma lower_digit_alnum c : isLowerDigit c = true -> isAlnum c = true.
Proof.
  unfold isLowerDigit, isAlnum, isLower, isDigitRune. rewrite orb_true_iff. intros [-> | ->]; by rewrite ?orb_true_r.
Qed.

Lemma label_staging_char c : isLabelInner c = true -> isStagingChar c = true.
Proof.
  unfold isLabelInner, isStagingChar. rewrite orb_true_iff. intros [->|Hc%lower_digit_alnum]; [by rewrite !orb_true_r|].
  by rewrite Hc.
Qed.

Lemma host_label_staging s : MatchString hostLabelPattern s = true -> MatchString stagingNamePattern s = true.
Proof.
  intros (c & l & Hr & Hc & Hl)%host_label_chars. apply staging_name_iff. exists c, l. split_and!; [done|by apply lower_digit_alnum|].
  eapply Forall_impl; [exact Hl|]. apply label_staging_char.
Qed.

(** ** Paths are confined *)

Lemma usable_root root : unusableRoot root = false <-> exists xs, xs <> [] /\ Forall normal xs /\ root = absPath xs.
Proof.
  unfold unusableRoot, IsAbs. split.
  - intros H. bool_simpl. destruct (clean_absolute root) as [E Hn]; [done|done|]. exists (cleanFront root).
    split_and!; [|done|done]. intros Hf. rewrite Hf in E. done.
  - intros (xs & Hne & Hn & ->). rewrite absPath_Clean by done.
    rewrite (bool_decide_eq_true_2 (absPath xs = absPath xs)) by done. change (isRooted (absPath xs)) with true.
    rewrite !bool_decide_eq_false_2; [done|by intros ?%absPath_root|done].
Qed.

(** One plain directory directly below a directory. *)
Lemma directly_below_iff p xs : xs <> [] -> Forall normal xs ->
  (Dir (Clean p) != absPath xs) || negb (MatchString stagingNamePattern (Base (Clean p))) = false <->
  exists name, MatchString stagingNamePattern name = true /\ Clean p = absPath (xs ++ [name]) /\ Base (Clean p) = name.
Proof.
  intros Hne Hn. split.
  - intros H. bool_simpl. assert (isRooted (Clean p) = true) as Hr by (apply Dir_rooted; by rewrite H).
    destruct (directly_below (Clean p) (absPath xs) Hr (Clean_idem p)) as (ys & y & Hys & Hy & Ep & Er & Eb); [done| |].
    + intros E. rewrite E in H. change (Dir "/") with "/" in H. symmetry in H. by apply absPath_root in H.
    + apply absPath_inj in Er; [|done|done]. subst ys. exists y. split_and!; [congruence|done|done].
  - intros (name & Hm & E & Eb). rewrite E, absPath_Dir, absPath_Base by (done || by apply staging_name_normal).
    by rewrite bool_decide_eq_true_2, Hm by done.
Qed.

Section confined.
Context (quote : string -> string).

Lemma confined_destination destination root p :
  confineBackupDestination quote destination root = inr p <->
  exists xs name, xs <> [] /\ Forall normal xs /\ root = absPath xs /\ MatchString stagingNamePattern name = true /\
    destination <> "" /\ Clean destination = absPath (xs ++ [name]) /\ p = absPath (xs ++ [name]).
Proof.
  unfold confineBackupDestination. split.
  - destruct (unusableRoot root) eqn:Eu; [done|]. apply usable_root in Eu as (xs & Hne & Hn & ->).
    case_bool_decide as Ed; [done|]. destruct (_ || _) eqn:Eb; [done|].
    apply directly_below_iff in Eb as (name & Hm & Ec & Eb); [|done|done]. intros [= <-]. exists xs, name. split_and!; try done.
    rewrite Eb. apply absPath_Join; [done|by apply staging_name_normal].
  - intros (xs & name & Hne & Hn & -> & Hm & Hd & Ec & ->).
    assert (unusableRoot (absPath xs) = false) as -> by (apply usable_root; eauto).
    rewrite bool_decide_eq_false_2 by done. assert (normal name) as Hname by by apply staging_name_normal.
    assert (Base (Clean destination) = name) as Hb by by rewrite Ec, absPath_Base.
    rewrite (proj2 (directly_below_iff destination xs Hne Hn)) by eauto. by rewrite Hb, absPath_Join.
Qed.

(** The staging of a backup is confined.  A destination is accepted exactly
    when the staging root is a clean absolute path other than the root
    directory and the destination, cleaned, is one directory of a plain name
    directly below it; the path used from then on is that one, whatever the
    request spelled. *)
Theorem confineBackupDestination_iff destination root p :
  confineBackupDestination quote destination root = inr p <->
  exists xs name, xs <> [] /\ Forall normal xs /\ root = absPath xs /\ MatchString stagingNamePattern name = true /\
    destination <> "" /\ Clean destination = absPath (xs ++ [name]) /\ p = absPath (xs ++ [name]).
Proof. apply confined_destination. Qed.

(** C22: The directories of a restore are confined.  A request that passes both
    checks restores into the manager's database root itself and stages in one
    directory of a plain name directly below the staging root; neither of the
    two contains the other. *)
Theorem restore_paths_confined first req roots target staging :
  validateRestoreRequest quote first req = None -> confine quote req roots = inr (target, staging) ->
  exists ts ss name, Forall normal ts /\ Forall normal ss /\ MatchString stagingNamePattern name = true /\
    rs_Target roots = absPath ts /\ target = absPath ts /\ rs_Staging roots = absPath ss /\ staging = absPath (ss ++ [name]) /\
    ~ ts `prefix_of` ss ++ [name] /\ ~ ss ++ [name] `prefix_of` ts.
Proof.
  unfold validateRestoreRequest, confine. cbn [find].
  destruct (unusableRoot (rs_Target roots)) eqn:Et; [done|]. destruct (unusableRoot (rs_Staging roots)) eqn:Es; [done|].
  apply usable_root in Et as (ts & Htne & Htn & Et), Es as (ss & Hsne & Hsn & Es). rewrite Et, Es.
  destruct (_ || _); [done|]. destruct (negb _); [done|]. destruct (_ && _); [done|].
  destruct (find _ _) as [d|] eqn:Ef; [done|].
  assert (Clean (rr_TargetDir req) = rr_TargetDir req /\ Clean (rr_StagingDir req) = rr_StagingDir req) as [-> Hs].
  { unfold badDirectory in Ef. destruct first; cbn [find rev app fst snd] in Ef; repeat case_test_in Ef; bool_simpl; done. }
  destruct (within _ _ || within _ _) eqn:Ew; [done|]. intros _. case_bool_decide as Ec; [|done]. cbn [negb].
  destruct ((Dir _ != _) || _) eqn:Eb; [done|]. intros [= <- <-].
  apply directly_below_iff in Eb as (name & Hm & Ec' & Eb); [|done|done].
  exists ts, ss, name. assert (normal name) as Hname by by apply staging_name_normal.
  rewrite Eb, absPath_Join by done. rewrite Hs in Ec'. rewrite Ec, Ec' in Ew.
  assert (Forall normal (ss ++ [name])) as Hall by (apply Forall_app; split; [done|by constructor]).
  apply orb_false_iff in Ew as [Ew1 Ew2]. split_and!; try done; intros Hp%within_iff; try done; congruence.
Qed.
End confined.

(** ** The operator's requests are accepted *)

Lemma staging_char_ascii c : isStagingChar c = true -> (c < 128)%N.
Proof.
  unfold isStagingChar, isAlnum, isUpper, isLower, isDigitRune, in_range, dot.
  rewrite !orb_true_iff, !andb_true_iff, !N.leb_le, !N.eqb_eq. lia.
Qed.

Lemma alnum_staging c : isAlnum c = true -> isStagingChar c = true.
Proof. unfold isStagingChar. by intros ->. Qed.

(** The bytes of a plain name. *)
Lemma staging_name_bytes s : MatchString stagingNamePattern s = true <->
  exists c l, bytesOf s = c :: l /\ isAlnum c = true /\ Forall (fun c => isStagingChar c = true) l.
Proof.
  rewrite staging_name_iff. split; intros (c & l & E & Hc & Hl); exists c, l; split_and!; try done;
    assert (Forall (fun c => (c < 128)%N) (c :: l)) as Ha
      by (constructor; [by apply staging_char_ascii, alnum_staging|eapply Forall_impl; [exact Hl|apply staging_char_ascii]]).
  - rewrite <- E in Ha. unfold runes in *. by rewrite <- E, <- runesOf_ascii_inv.
  - rewrite <- E in Ha |- *. by apply runes_ascii.
Qed.

Definition plainText (s : string) : bool := forallb isStagingChar (bytesOf s).

Lemma staging_name_text s : MatchString stagingNamePattern s = true -> plainText s = true.
Proof.
  intros (c & l & E & Hc & Hl)%staging_name_bytes. unfold plainText. rewrite E. cbn. rewrite alnum_staging by done.
  by apply forallb_Forall_iff.
Qed.

Lemma staging_name_app s t : MatchString stagingNamePattern s = true -> plainText t = true ->
  MatchString stagingNamePattern (s +:+ t) = true.
Proof.
  intros (c & l & E & Hc & Hl)%staging_name_bytes Ht. apply staging_name_bytes. exists c, (l ++ bytesOf t).
  rewrite bytesOf_app, E. split_and!; [done|done|]. apply Forall_app. split; [done|]. by apply forallb_Forall_iff.
Qed.

Lemma plainText_app s t : plainText (s +:+ t) = plainText s && plainText t.
Proof. unfold plainText. by rewrite bytesOf_app, forallb_app. Qed.

Lemma plainText_no_separator s : plainText s = true -> ContainsAny s ["/"; "\"]%char = false.
Proof.
  unfold plainText, ContainsAny, bytesOf. induction (list_ascii_of_string s) as [|c l IH]; [done|]. cbn.
  intros [Hc Hl]%andb_true_iff. rewrite IH by done. rewrite orb_false_r. apply bool_decide_eq_false. intros Hin.
  apply elem_of_cons in Hin as [->|[->|Hin]%elem_of_cons]; [done|done|]. by apply not_elem_of_nil in Hin.
Qed.

Lemma trimLeftSlash_relative s : isRooted (trimLeftSlash s) = false.
Proof. induction s as [|c s IH]; [done|]. cbn [trimLeftSlash]. destruct (c == chSlash) eqn:E; [done|]. cbn. by rewrite E. Qed.

(** The elements of the seed's key prefix, from the last one. *)
Lemma seed_parts front uid seed database : Forall normal front -> Forall normal [uid; seed; database] ->
  let parts := Split chSlash (strJoin "/" (front ++ [uid; seed; database])) in
  (List.length parts <? 3)%nat = false /\ rev parts !! 2%nat = Some uid /\ rev parts !! 1%nat = Some seed /\ rev parts !! 0%nat = Some database.
Proof.
  intros Hf Hn. cbv zeta. rewrite Split_join; [|by destruct front|by apply Forall_app].
  rewrite rev_app_distr, length_app. cbn [rev app List.length]. split; [apply Nat.ltb_ge; lia|done].
Qed.

Section accepted.
Context (quote : string -> string).

(** The names that an object of the operator carries. *)
Definition namesOf (uid database member : string) : Prop :=
  MatchString stagingNamePattern uid = true /\ MatchString databaseNamePattern database = true /\
  MatchString hostLabelPattern member = true.

Lemma admitted_prefix store backup cluster : bp_ObjectStorage (bk_Spec backup) = Some store ->
  backupDestinationRefusal quote backup cluster = "" ->
  let p := backupArtifactPrefix store backup cluster in isRooted p = false /\ Forall normal (cleanFront p) /\ od_Bucket store <> "".
Proof.
  intros Hst Href. cbv zeta. destruct (refusal_none quote backup cluster store Hst Href) as [[[b pre] Ep] _].
  apply parse_accepted in Ep as (segs & Hne & Hb & Hs & _ & Hu & _). rewrite preflight_attempt, artifactKey_eq in Hu.
  destruct (attempt_good (replicate 16 0%N)) as (Hg & _ & _); [by vm_compute|].
  revert Hu Hg. generalize ("attempt-" +:+ EncodeToString (replicate 16 0%N)). intros x Hu Hg.
  pose proof (artifact_elements (od_Bucket store) (backupArtifactPrefix store backup cluster) x (goodPart_normal x Hg)) as He.
  rewrite Hu, manifestURI_elements in He by done. 
  unfold uriHead in He. rewrite <- !(app_assoc ["s3:"; ""]) in He.
  change (["s3:"; ""; b] ++ ?l) with (["s3:"; ""] ++ b :: l) in He. apply app_inv_head in He.
  destruct (Split chSlash (od_Bucket store)) as [|b0 bs] eqn:Eb; [by apply Split_not_nil in Eb|].
  assert (b0 = b) as -> by (apply (f_equal head) in He; cbn [app head] in He; by injection He).
  apply (f_equal tail) in He. cbn [app tail] in He. change [x; ManifestObjectName] with ([x] ++ [ManifestObjectName]) in He.
  rewrite !app_assoc in He. apply app_inj_2 in He as [He _]; [|done]. rewrite <- !app_assoc in He.
  assert (Forall normal segs) as Hn by (eapply Forall_impl; [exact Hs|apply goodPart_normal]). rewrite He in Hn.
  apply Forall_app in Hn as [_ Hn]. apply Forall_app in Hn as [Hr Hn]. apply Forall_app in Hn as [Hn _]. split_and!.
  - destruct (isRooted _); [|done]. apply Forall_cons in Hr as [[? _] _]. done.
  - done.
  - intros E. rewrite E in Eb. injection Eb as <- <-. destruct Hb as [[Hl _] _]. cbn in Hl. lia.
Qed.
(** What is left to check of an upload whose prefix consists of plain
    elements. *)
Lemma plain_upload req up xs key : br_Upload req = Some up -> MatchString databaseNamePattern (br_Database req) = true ->
  br_Destination req <> "" -> br_Level req = 0 -> xs <> [] -> Forall normal xs -> bu_Prefix up = strJoin "/" xs ->
  bu_ClusterUID up <> "" -> bu_CubridVersion up <> "" -> MatchString hostLabelPattern (bu_SourceInstance up) = true ->
  bu_SourceRole up ∈ [""; RoleMaster; RoleSlave; RoleReplica; RoleUnknown] ->
  (bu_Seed up = true -> validateSeedUpload (bu_Prefix up) (bu_ClusterUID up) (br_Database req) (bu_SourceRole up) = None) ->
  key = Join [if bu_Seed up then bu_Prefix up else BackupAttemptPrefix (bu_Prefix up) (Repeat "0" BackupAttemptIDLength); ManifestObjectName] ->
  validateBackupRequest quote req = None <-> bu_Bucket up <> "" /\ (String.length key <= 1024)%nat.
Proof.
  intros Hup Hdb Hdest Hlvl Hne Hn Hp Huid Hver Hsi Hrole Hseed Hkey. destruct (plain_prefix xs Hne Hn) as (Hr & Hc & Hj & Hdd & Hpre).
  assert (br_Database req <> "") as Hdb0 by (intros E; by rewrite E in Hdb).
  assert (bu_SourceInstance up <> "") as Hsi0 by (intros E; by rewrite E in Hsi).
  unfold validateBackupRequest. rewrite Hup, Hdb, Hlvl, Hsi, Hp, Hc.
  rewrite (bool_decide_eq_false_2 _ Hdb0), (bool_decide_eq_false_2 _ Hdest), (bool_decide_eq_false_2 _ Huid),
    (bool_decide_eq_false_2 _ Hver), (bool_decide_eq_false_2 _ Hsi0), (bool_decide_eq_false_2 _ Hj), (bool_decide_eq_false_2 _ Hdd), Hpre.
  unfold IsAbs. rewrite Hr. rewrite (bool_decide_eq_true_2 (strJoin "/" xs = strJoin "/" xs)), (bool_decide_eq_true_2 (0 = 0)),
    (bool_decide_eq_true_2 _ Hrole) by done. cbn [negb orb].
  assert ((if bu_Seed up then validateSeedUpload (strJoin "/" xs) (bu_ClusterUID up) (br_Database req) (bu_SourceRole up) else None) = None) as ->.
  { rewrite <- Hp. destruct (bu_Seed up); [by apply Hseed|done]. }
  case_bool_decide as Eb; [by split; [|intros [? _]]|]. cbn [orb]. rewrite <- Nat.ltb_ge.
  rewrite Hp in Hkey. rewrite <- Hkey. generalize (1024 <? String.length key)%nat. intros []; split; try done. by intros [_ ?].
Qed.

(** The elements of a prefix that is joined of a path and plain elements. *)
Lemma joined_prefix p xs : xs <> [] -> Forall normal xs -> isRooted (Join (p :: xs)) = false ->
  Join (p :: xs) = strJoin "/" (cleanFront p ++ xs) /\ cleanFront (Join (p :: xs)) = cleanFront p ++ xs.
Proof.
  intros Hne Hn Hr. rewrite Join_normals in * by done. destruct (isRooted p); [done|]. cbn [String.append] in *.
  split; [done|]. destruct (front_kept p) as (k & ns & -> & Hns). rewrite <- app_assoc.
  apply relative_front; [by apply Forall_app|]. by destruct k, ns.
Qed.

Definition stagingElements : list string := ["var"; "lib"; "cubrid"; "backup-staging"].

Lemma staging_confined name : MatchString stagingNamePattern name = true ->
  Join [backupStagingRoot; name] <> "" /\
  confineBackupDestination quote (Join [backupStagingRoot; name]) backupStagingRoot = inr (Join [backupStagingRoot; name]).
Proof.
  intros Hm. assert (normal name) as Hn by by apply staging_name_normal.
  change backupStagingRoot with (absPath stagingElements).
  assert (Forall normal stagingElements) as Hroot by (repeat constructor; done). rewrite absPath_Join by done. split; [done|].
  apply confined_destination. exists stagingElements, name.
  rewrite absPath_Clean by (apply Forall_app; split; [done|by constructor]). done.
Qed.

(** The manager accepts every backup that the operator asks for.  When the
    controller does not refuse a CubridBackup's destination, the request it
    builds passes the manager's checks, and its staging is a directory directly
    below the manager's staging root; so a backup that the operator admitted is
    not refused by the member. *)
Theorem operator_backup_accepted backup cluster sel store :
  bp_ObjectStorage (bk_Spec backup) = Some store -> backupDestinationRefusal quote backup cluster = "" ->
  namesOf (cl_UID cluster) (bp_Database (bk_Spec backup)) (ts_Instance sel) ->
  MatchString stagingNamePattern (bk_UID backup) = true -> sp_Version (cl_Spec cluster) <> "" ->
  ts_Role sel ∈ [RoleMaster; RoleSlave; RoleReplica; RoleUnknown] ->
  let req := buildBackupRequest backup cluster sel in
  validateBackupRequest quote req = None /\
  confineBackupDestination quote (br_Destination req) backupStagingRoot = inr (Join [backupStagingRoot; bk_UID backup]).
Proof.
  intros Hst Href (Huid & Hdb & Hinst) Hbuid Hver Hrole. cbv zeta.
  destruct (admitted_prefix store backup cluster Hst Href) as (Hr & Hn & Hbk).
  destruct (refusal_none quote backup cluster store Hst Href) as [_ Hlen%Nat.ltb_ge]. set (key := artifactKey _ _) in Hlen.
  destruct (staging_confined (bk_UID backup) Hbuid) as [Hd0 Hd].
  unfold buildBackupRequest. rewrite Hst. cbn [br_Destination]. split; [|exact Hd].
  set (xs := [cl_UID cluster; bp_Database (bk_Spec backup); bk_UID backup]).
  assert (Forall normal xs) as Hxs by (by repeat apply Forall_cons_2; [apply staging_name_normal|apply database_name_normal|apply staging_name_normal|]).
  destruct (joined_prefix (od_Prefix store) xs) as [Ep Ef]; [done|done|exact Hr|].
  unfold backupArtifactPrefix in Hn. change [od_Prefix store; _; _; _] with (od_Prefix store :: xs) in Hn. rewrite Ef in Hn.
  assert (cl_UID cluster <> "") as Huid0 by (intros E; by rewrite E in Huid).
  eapply (plain_upload (mkBackupRequest _ _ _ _) (mkUpload _ _ _ _ _ _ _) (cleanFront (od_Prefix store) ++ xs) key eq_refl);
    cbn [br_Database br_Destination br_Level bu_Bucket bu_Prefix bu_ClusterUID bu_CubridVersion bu_SourceInstance bu_SourceRole bu_Seed];
    [exact Hdb|exact Hd0|reflexivity|by destruct (cleanFront (od_Prefix store))|exact Hn|exact Ep|exact Huid0|exact Hver|exact Hinst| |discriminate|reflexivity|].
  - apply elem_of_cons. by right.
  - exact (conj Hbk Hlen).
Qed.
Lemma seed_dir_name artifact : (artifact = "" \/ MatchString stagingNamePattern artifact = true) ->
  MatchString stagingNamePattern (seedLocationDir artifact) = true /\
  (seedLocationDir artifact != "seed") &&
    (negb (HasPrefix (seedLocationDir artifact) "seed-") || (String.length (seedLocationDir artifact) =? String.length "seed-")%nat) = false.
Proof.
  unfold seedLocationDir. intros [->|Ha]; [by rewrite bool_decide_eq_true_2|].
  rewrite bool_decide_eq_false_2 by (intros ->; done). split; [apply staging_name_app; [done|by apply staging_name_text]|].
  apply andb_false_iff. right. apply orb_false_iff. split.
  - apply negb_false_iff, HasPrefix_iff. by eexists.
  - apply Nat.eqb_neq. destruct artifact as [|c a]; [done|]. rewrite str_length_app. cbn [String.length]. lia.
Qed.

Section seed.
Context (storage : CubridObjectStorage) (cluster : CubridCluster) (database source peer artifact : string).
Context (Hnames : namesOf (cl_UID cluster) database source) (Hver : sp_Version (cl_Spec cluster) <> "").
Context (Hartifact : artifact = "" \/ MatchString stagingNamePattern artifact = true).

Let xs := [cl_UID cluster; seedLocationDir artifact; database].
Let p := trimLeftSlash (os_Prefix storage).

Lemma seed_elements : Forall normal xs.
Proof using Hnames Hartifact.
  destruct Hnames as (Hu & Hd & _). repeat apply Forall_cons_2; [by apply staging_name_normal| |by apply database_name_normal|constructor].
  by apply staging_name_normal, seed_dir_name.
Qed.

Lemma seed_prefix : Join (p :: xs) = strJoin "/" (cleanFront p ++ xs).
Proof using Hnames Hartifact.
  rewrite Join_normals by (done || apply seed_elements). unfold p. by rewrite trimLeftSlash_relative.
Qed.

Lemma seed_validated : Forall normal (cleanFront p) ->
  validateSeedUpload (strJoin "/" (cleanFront p ++ xs)) (cl_UID cluster) database RoleMaster = None.
Proof using Hnames Hartifact.
  intros Hp. pose proof seed_elements as Hxs. destruct Hnames as (Hu & Hd & _).
  assert (Forall normal (cleanFront p ++ xs)) as Hall by by apply Forall_app.
  destruct (plain_prefix (cleanFront p ++ xs)) as (Hr & Hc & _ & _ & Hpre); [by destruct (cleanFront p)|done|].
  destruct (seed_parts (cleanFront p) (cl_UID cluster) (seedLocationDir artifact) database Hp Hxs) as (Hl & H2 & H1 & H0).
  destruct (seed_dir_name artifact Hartifact) as [_ Hs]. destruct (staging_name_normal _ Hu) as (Hu0 & Hu1 & Hu2 & _).
  unfold validateSeedUpload, IsAbs. cbv zeta. rewrite Hr, Hc, Hpre. subst xs. rewrite Hl, H2, H1, H0, Hd. unfold default, id. cbn [from_option].
  rewrite (bool_decide_eq_false_2 _ Hu0), (bool_decide_eq_false_2 _ Hu1), (bool_decide_eq_false_2 _ Hu2).
  rewrite !bool_decide_eq_true_2 by done. rewrite plainText_no_separator by by apply staging_name_text. cbn [negb orb].
  by rewrite Hs.
Qed.

(** A prefix that leads out of the bucket is refused. *)
Lemma seed_outside : ~ Forall normal (cleanFront p) -> validateBackupRequest quote (seedBackupRequest storage cluster database source peer artifact) <> None.
Proof using Hnames Hartifact.
  intros Hn. unfold seedBackupRequest, seedLocation. fold p. change [p; _; _; _] with (p :: xs). rewrite seed_prefix.
  assert (HasPrefix (strJoin "/" (cleanFront p ++ xs)) "../" = true) as Hpre.
  { destruct (front_kept p) as (k & ns & Hf & Hns). destruct k as [|k]; [by rewrite Hf in Hn|]. rewrite Hf. cbn [replicate app].
    apply HasPrefix_iff. rewrite strJoin_cons by by destruct (replicate k ".."), ns. by eexists. }
  unfold validateBackupRequest. cbn [br_Database br_Destination br_Level br_Upload bu_Prefix]. rewrite Hpre, !orb_true_r.
  repeat case_test; done.
Qed.

(** What the manager accepts of a seed backup.  The request with which a
    database is copied to a member is accepted exactly when the cluster's
    storage names a bucket, its prefix does not lead out of that bucket, and
    the manifest's key keeps to the 1024 bytes of an object store; its staging
    is always accepted. *)
Theorem operator_seed_accepted_iff : MatchString stagingNamePattern peer = true ->
  let req := seedBackupRequest storage cluster database source peer artifact in
  (validateBackupRequest quote req = None <->
    os_Bucket storage <> "" /\ Forall normal (cleanFront (trimLeftSlash (os_Prefix storage))) /\
    (String.length (Join [(seedLocation storage (cl_UID cluster) database artifact).2; ManifestObjectName]) <= 1024)%nat) /\
  confineBackupDestination quote (br_Destination req) backupStagingRoot = inr (br_Destination req).
Proof using Hnames Hver Hartifact.
  intros Hpeer. cbv zeta. destruct Hnames as (Hu & Hd & Hs).
  set (staging := if artifact != "" then "seed-" +:+ cl_UID cluster +:+ "-" +:+ peer else "seed-" +:+ cl_UID cluster).
  assert (MatchString stagingNamePattern staging = true) as Hst.
  { subst staging. destruct (artifact != ""); apply staging_name_app; try done; [|by apply staging_name_text].
    rewrite !plainText_app, (staging_name_text _ Hu), (staging_name_text _ Hpeer). done. }
  destruct (staging_confined staging Hst) as [Hd0 Hd1].
  split; [|exact Hd1]. destruct (decide (Forall normal (cleanFront p))) as [Hp|Hp].
  2:{ split; [by intros ?%seed_outside|by intros (_ & ? & _)]. }
  trans (os_Bucket storage <> "" /\ (String.length (Join [(seedLocation storage (cl_UID cluster) database artifact).2; ManifestObjectName]) <= 1024)%nat).
  2:{ subst p. tauto. }
  set (key := Join [_; ManifestObjectName]).
  assert (cl_UID cluster <> "") as Hu0 by (intros E; by rewrite E in Hu).
  assert ((seedLocation storage (cl_UID cluster) database artifact).2 = strJoin "/" (cleanFront p ++ xs)) as Ep by apply seed_prefix.
  eapply (plain_upload (mkBackupRequest _ _ _ _) (mkUpload _ _ _ _ _ _ _) (cleanFront p ++ xs) key eq_refl);
    cbn [br_Database br_Destination br_Level bu_Bucket bu_Prefix bu_ClusterUID bu_CubridVersion bu_SourceInstance bu_SourceRole bu_Seed];
    [exact Hd|exact Hd0|reflexivity|by destruct (cleanFront p)|by apply Forall_app; split; [|apply seed_elements]|exact Ep|exact Hu0
    |exact Hver|exact Hs|set_solver| |reflexivity].
  intros _. etrans; [|exact (seed_validated Hp)]. f_equal. exact Ep.
Qed.
End seed.
(** The directories of the manager as the operator configures them. *)
Definition operatorRoots : RestoreRoots := mkRestoreRoots restoreTargetRoot restoreStagingRoot.
Definition restoreStagingElements : list string := ["var"; "lib"; "cubrid"; "restore-staging"].
Definition restoreTargetElements : list string := ["var"; "lib"; "cubrid"; "databases"].

Lemma operator_restore first req name : MatchString databaseNamePattern (rr_Database req) = true ->
  rr_Bucket req <> "" -> rr_Prefix req <> "" -> (rr_SeedFromMaster req = "" \/ MatchString hostLabelPattern (rr_SeedFromMaster req) = true) ->
  MatchString stagingNamePattern name = true -> rr_StagingDir req = Join [restoreStagingRoot; name] -> rr_TargetDir req = restoreTargetRoot ->
  validateRestoreRequest quote first req = None /\
  confine quote req operatorRoots = inr (restoreTargetRoot, Join [restoreStagingRoot; name]).
Proof.
  intros Hdb Hb Hp Hm Hname Hs Ht. assert (normal name) as Hn by by apply staging_name_normal.
  assert (Forall normal restoreStagingElements) as Hrs by (repeat constructor; done).
  assert (Forall normal restoreTargetElements) as Hrt by (repeat constructor; done).
  change restoreStagingRoot with (absPath restoreStagingElements) in *. rewrite absPath_Join in * by done.
  change restoreTargetRoot with (absPath restoreTargetElements) in *.
  assert (Forall normal (restoreStagingElements ++ [name])) as Hall by (apply Forall_app; split; [done|by constructor]).
  assert (Clean (rr_StagingDir req) = rr_StagingDir req /\ Clean (rr_TargetDir req) = rr_TargetDir req) as [Cs Ct].
  { rewrite Hs, Ht. by rewrite !absPath_Clean. }
  split.
  - assert (rr_Database req <> "") as Hdb0 by (intros E; by rewrite E in Hdb).
    assert ((rr_SeedFromMaster req != "") && negb (MatchString hostLabelPattern (rr_SeedFromMaster req)) = false) as Hm'.
    { destruct Hm as [->| ->]; [done|by rewrite andb_false_r]. }
    assert (within (rr_StagingDir req) (rr_TargetDir req) || within (rr_TargetDir req) (rr_StagingDir req) = false) as Hw.
    { rewrite Hs, Ht. apply orb_false_iff. split; apply not_true_iff_false; intros [k Hk]%within_iff; done. }
    unfold validateRestoreRequest. rewrite Hdb, Hm', Hw, (bool_decide_eq_false_2 _ Hdb0), (bool_decide_eq_false_2 _ Hb), (bool_decide_eq_false_2 _ Hp).
    rewrite Hs, Ht. assert (badDirectory (absPath (restoreStagingElements ++ [name])) = false) as Hbs.
    { unfold badDirectory. rewrite absPath_Clean by done. by rewrite (bool_decide_eq_true_2 (absPath (restoreStagingElements ++ [name]) = _)). }
    destruct first; cbn [find rev app fst snd]; by rewrite Hbs.
  - unfold confine. change (find _ [rs_Target operatorRoots; rs_Staging operatorRoots]) with (@None string).
    cbn [rs_Target rs_Staging operatorRoots]. rewrite Ct, Ht. rewrite bool_decide_eq_true_2 by done. cbn [negb].
    change restoreStagingRoot with (absPath restoreStagingElements).
    assert (Base (Clean (rr_StagingDir req)) = name) as Hbase by by rewrite Cs, Hs, absPath_Base.
    rewrite (proj2 (directly_below_iff (rr_StagingDir req) restoreStagingElements ltac:(done) Hrs)); [by rewrite Hbase, absPath_Join|].
    exists name. by rewrite Hbase, Cs, Hs.
Qed.

(** Where a recovery's restore reads: a location of the accepted form, or one
    that an earlier release started a restore for. *)
Definition recoveryLocation (uri bucket prefix : string) : Prop :=
  parseManifestURI quote uri = inr (bucket, prefix) \/ startedManifestLocation quote uri = inr (bucket, prefix).

Lemma and_with_none (P Q : Prop) : P /\ Q -> P /\ @None string = None /\ Q.
Proof. tauto. Qed.

Lemma Clean_not_empty q : Clean q <> "".
Proof. unfold Clean. destruct (isRooted q); [done|]. by case_bool_decide. Qed.

Lemma location_not_empty uri bucket prefix : recoveryLocation uri bucket prefix -> bucket <> "" /\ prefix <> "".
Proof.
  intros [(segs & Hne & Hb & Hs & -> & _ & _)%parse_accepted|Hst].
  - split.
    + intros E. rewrite E in Hb. destruct Hb as [[Hl _] _]. cbn in Hl. lia.
    + assert (Forall normal segs) as Hn by (eapply Forall_impl; [exact Hs|apply goodPart_normal]). intros E. by apply strJoin_empty in E.
  - unfold startedManifestLocation in Hst. destruct (default _ (Cut _ _)) as [b key]. destruct (_ || (key == "")) eqn:E; [done|].
    destruct (existsb _ _); [done|]. destruct (_ != _); [done|]. injection Hst as <- <-. bool_simpl. split; [done|apply Clean_not_empty].
Qed.

(** C25: The manager accepts every restore that the operator asks for: the one
    with which a recovery begins, of the location its manifest URI names
    (by the form accepted now or, for a restore that an earlier release
    started, by that release's reading), and the ones that copy a database to
    a member.  Both pass the check of the request and that of the database, on
    an HA member and on a standalone one configured for the database, and
    Restore's own check of the directories; both restore into the database
    root and stage below the staging root that the operator configures.  The
    storage of a seed has to name a bucket. *)
Theorem operator_restores_accepted first standaloneDB cluster database uri bucket prefix storage source artifact :
  namesOf (cl_UID cluster) database source -> recoveryLocation uri bucket prefix -> os_Bucket storage <> "" ->
  (artifact = "" \/ MatchString stagingNamePattern artifact = true) -> (standaloneDB = "" \/ standaloneDB = database) ->
  let recovery := recoveryRequest cluster database bucket prefix in
  let seed := seedRestoreRequest storage cluster database source artifact in
  (validateRestoreRequest quote first recovery = None /\ validateRestoreDatabase quote standaloneDB (rr_Database recovery) = None /\
   confine quote recovery operatorRoots = inr (restoreTargetRoot, Join [restoreStagingRoot; cl_UID cluster])) /\
  (validateRestoreRequest quote first seed = None /\ validateRestoreDatabase quote standaloneDB (rr_Database seed) = None /\
   confine quote seed operatorRoots = inr (restoreTargetRoot, Join [restoreStagingRoot; "seed-" +:+ cl_UID cluster])).
Proof.
  intros Hnames [Hb Hp]%location_not_empty Hbucket Ha Hdb. destruct Hnames as (Hu & Hd & Hsrc) eqn:E. clear E. cbv zeta.
  assert (forall req, rr_Database req = database -> validateRestoreDatabase quote standaloneDB (rr_Database req) = None) as Hsame.
  { intros req ->. unfold validateRestoreDatabase. destruct Hdb as [-> | ->]; [done|]. by rewrite (bool_decide_eq_true_2 (database = database)), andb_false_r. }
  rewrite !Hsame by done. split; (apply and_with_none, operator_restore; cbn; try done; auto).
  - rewrite (seed_prefix storage cluster database source artifact Hnames Ha).
    destruct (cleanFront (trimLeftSlash (os_Prefix storage))) as [|y ys]; cbn [app]; rewrite strJoin_cons by (done || by destruct ys).
    + by destruct (cl_UID cluster).
    + by destruct y.
  - apply staging_name_app; [done|by apply staging_name_text].
Qed.
End accepted.

(** ** Examples *)

Module RequestExample.
Definition cluster : CubridCluster := ArtifactExample.cluster.
Definition storage : CubridObjectStorage := mkObjectStorage "s3.local" "" false "seeds" "/ha/" "s3".
Definition sel : TargetSelection := selected "c-1" RoleSlave false "standby".
Lemma names : namesOf (cl_UID cluster) "db" "c-1".
Proof. repeat split; vm_compute; reflexivity. Defined.
End RequestExample.

Lemma restore_paths_confined_witness :
  let req := seedRestoreRequest RequestExample.storage RequestExample.cluster "db" "c-1" "" in
  validateRestoreRequest quoted true req = None /\
  exists ts ss name, rs_Target operatorRoots = absPath ts /\ rs_Staging operatorRoots = absPath ss /\
    ~ ts `prefix_of` ss ++ [name] /\ ~ ss ++ [name] `prefix_of` ts.
Proof.
  cbv zeta. split; [vm_compute; reflexivity|].
  destruct (restore_paths_confined quoted true (seedRestoreRequest RequestExample.storage RequestExample.cluster "db" "c-1" "")
    operatorRoots restoreTargetRoot "/var/lib/cubrid/restore-staging/seed-u1") as (ts & ss & name & _ & _ & _ & H1 & _ & H2 & _ & H3 & H4);
    [vm_compute; reflexivity..|].
  exists ts, ss, name. exact (conj H1 (conj H2 (conj H3 H4))).
Defined.

Lemma operator_backup_accepted_witness :
  validateBackupRequest quoted (buildBackupRequest ArtifactExample.backup RequestExample.cluster RequestExample.sel) = None.
Proof.
  apply (operator_backup_accepted quoted ArtifactExample.backup RequestExample.cluster RequestExample.sel ArtifactExample.store);
    [vm_compute; reflexivity|vm_compute; reflexivity|exact RequestExample.names|vm_compute; reflexivity|discriminate|].
  right. left.
Defined.

Lemma operator_seed_accepted_iff_witness :
  validateBackupRequest quoted (seedBackupRequest RequestExample.storage RequestExample.cluster "db" "c-1" "c-2" "c-2-from-c-1") = None.
Proof.
  destruct (operator_seed_accepted_iff quoted RequestExample.storage RequestExample.cluster "db" "c-1" "c-2" "c-2-from-c-1" RequestExample.names
    ltac:(discriminate) ltac:(right; vm_compute; reflexivity)) as [[_ H] _]; [vm_compute; reflexivity|].
  apply H. split; [discriminate|]. split; [|apply Nat.leb_le; vm_compute; reflexivity].
  change (cleanFront (trimLeftSlash (os_Prefix RequestExample.storage))) with ["ha"]. repeat constructor; discriminate.
Defined.

Lemma operator_restores_accepted_witness :
  validateRestoreRequest quoted false (recoveryRequest RequestExample.cluster "db" "backups" "daily/u1") = None /\
  validateRestoreRequest quoted false (recoveryRequest RequestExample.cluster "db" "My_Backups" ".") = None.
Proof.
  split.
  - apply (operator_restores_accepted quoted false "db" RequestExample.cluster "db" "s3://backups/daily/u1/manifest.json" "backups" "daily/u1"
      RequestExample.storage "c-1" "" RequestExample.names); [left; vm_compute; reflexivity|discriminate|left; reflexivity|right; reflexivity].
  - apply (operator_restores_accepted quoted false "" RequestExample.cluster "db" "s3://My_Backups/manifest.json" "My_Backups" "."
      RequestExample.storage "c-1" "" RequestExample.names); [right; vm_compute; reflexivity|discriminate|left; reflexivity|left; reflexivity].
Defined.
