(* ===== verification/DatabasesTxt.v ===== *)
(** * databases.txt

    CUBRID's file of database locations, one line per database: the lines a
    [bufio.Scanner] gives, the first field of a line, and how a restore
    registers a database and takes the registration back (restore.go,
    ownership.go).  The file operations around them are in Ownership.v. *)
From stdpp Require Import prelude strings list.
From Stdlib Require Import Ascii String Lia.
From S2P Require Import Prelude GoStr Utf8 ManifestURI Paths Requests RequestSafety.

Definition chNewline : ascii := "010".
Definition chReturn : ascii := "013".
Definition chTab : ascii := "009".
Definition newline : string := String chNewline "".
Definition tab : string := String chTab "".

(** ** Lines

    [bufio.ScanLines]: what lies between line feeds, the last line without one
    included when it is not empty, each without one trailing carriage return.
    A line that does not fit the scanner's buffer of 64 KiB ends the scan with
    an error. *)
Fixpoint rawLines (s : string) : list string :=
  match s with
  | "" => []
  | String c s' =>
      if c == chNewline then "" :: rawLines s'
      else match rawLines s' with
           | [] => [String c ""]
           | line :: rest => String c line :: rest
           end
  end.

Fixpoint dropReturn (line : string) : string :=
  match line with
  | "" => ""
  | String c "" => if c == chReturn then "" else line
  | String c rest => String c (dropReturn rest)
  end.

Definition maxToken : Z := 64 * 1024.
Definition tooLong (raw : string) : bool := maxToken <=? Z.of_nat (String.length raw).

(** ** The first field of a line: [strings.Fields(line)[0]]. *)
Fixpoint takeField (s : list ascii) : list ascii :=
  match s with
  | [] => []
  | c :: s' => match stripOne spaceRunes s with Some _ => [] | None => c :: takeField s' end
  end.
Definition firstField (line : string) : option string :=
  let l := list_ascii_of_string line in
  match takeField (trimFront (List.length l) spaceRunes l) with
  | [] => None
  | field => Some (string_of_list_ascii field)
  end.

(** ** Reading a registration

    The loop of registeredInDatabasesTxt: [None] when the scan fails before the
    database is found. *)
Fixpoint registeredAmong (database : string) (raws : list string) : option bool :=
  match raws with
  | [] => Some false
  | raw :: rest =>
      if tooLong raw then None
      else
        let line := TrimSpace (dropReturn raw) in
        if (line == "") || HasPrefix line "#" then registeredAmong database rest
        else if firstField line == Some database then Some true
        else registeredAmong database rest
  end.
Definition registeredInDatabasesTxt (content : option string) (database : string) : option bool :=
  match content with
  | None => Some false
  | Some content => registeredAmong database (rawLines content)
  end.

(** ** Registering *)

Definition databaseEntry (database host dbDir : string) : string :=
  database +:+ tab +:+ tab +:+ dbDir +:+ tab +:+ host +:+ tab +:+ dbDir +:+ tab +:+ "file:" +:+ Join [dbDir; "lob"].
Definition endsLine (content : string) : bool := lastChar content == Some chNewline.
Definition registerLine (before database host dbDir : string) : string :=
  (if (before != "") && negb (endsLine before) then before +:+ newline else before)
  +:+ databaseEntry database host dbDir +:+ newline.

(** ** Taking a registration back

    The loop of unregisterDatabaseLocked: what is kept, and whether a line was
    left out; [None] when the scan fails. *)
Fixpoint keptLines (database : string) (raws : list string) : option (string * bool) :=
  match raws with
  | [] => Some ("", false)
  | raw :: rest =>
      if tooLong raw then None
      else
        let line := dropReturn raw in
        match keptLines database rest with
        | None => None
        | Some (kept, removed) =>
            if firstField line == Some database then Some (kept, true)
            else Some (line +:+ newline +:+ kept, removed)
        end
  end.

(** What becomes of the file. *)
Inductive TxtChange := TxtUnreadable | TxtLeave | TxtRemove | TxtReplace (content : string).
Definition unregisterLine (content database : string) (removeEmpty : bool) : TxtChange :=
  match keptLines database (rawLines content) with
  | None => TxtUnreadable
  | Some (kept, removed) =>
      if removeEmpty && (TrimSpace kept == "") then TxtRemove
      else if negb removed then TxtLeave
      else TxtReplace kept
  end.
Definition changed (content : string) (c : TxtChange) : option string :=
  match c with TxtRemove => None | TxtReplace content' => Some content' | _ => Some content end.


(** ** White space

    A byte that is not a later byte of a white space rune can only begin one:
    what follows it is read by itself, whatever stands before. *)
Definition startByte (c : ascii) : bool := forallb (fun r => bool_decide (c ∉ tail r)) spaceRunes.
Definition begins (s : list ascii) : Prop := match s with [] => True | c :: _ => startByte c = true end.

Lemma heads_start : forallb (fun r => match r with [] => false | c :: _ => startByte c end) spaceRunes = true.
Proof. reflexivity. Qed.

Lemma stripPrefix_split p x sp : (match sp with [] => True | c :: _ => c ∉ p end) ->
  stripPrefix p (x ++ sp) = (fun t => t ++ sp)%list <$> stripPrefix p x.
Proof.
  revert x. induction p as [|a p IH]; intros x Hc; [done|]. destruct x as [|b x].
  - destruct sp as [|c sp]; [done|]. cbn. rewrite bool_decide_eq_false_2; [done|]. intros ->. apply Hc. by left.
  - cbn. case_bool_decide; [|done]. apply IH. destruct sp; [done|]. intros ?. apply Hc. by right.
Qed.

Lemma stripOne_split c x sp : begins sp ->
  stripOne spaceRunes ((c :: x) ++ sp) = (fun t => t ++ sp)%list <$> stripOne spaceRunes (c :: x).
Proof.
  intros Hs. assert (Forall (fun r => match sp with [] => True | d :: _ => d ∉ tail r end) spaceRunes) as Ht.
  { destruct sp as [|d sp]; [by apply Forall_true|]. unfold begins, startByte in Hs. rewrite forallb_Forall_iff in Hs.
    eapply Forall_impl; [exact Hs|]. by intros r ?%bool_decide_eq_true. }
  assert (forallb (fun r => bool_decide (r <> [])) spaceRunes = true) as Hne by reflexivity.
  rewrite forallb_Forall_iff in Hne. induction spaceRunes as [|r runes IH]; [done|].
  apply Forall_cons in Ht as [Hr Ht], Hne as [Hn Hne]. apply bool_decide_eq_true in Hn. cbn [stripOne].
  assert (stripPrefix r ((c :: x) ++ sp) = (fun t => t ++ sp)%list <$> stripPrefix r (c :: x)) as ->.
  { destruct r as [|a r]; [done|]. cbn. case_bool_decide; [|done]. by apply stripPrefix_split. }
  destruct (stripPrefix r (c :: x)); [done|]. by apply IH.
Qed.

Lemma stripOne_begins s t : stripOne spaceRunes s = Some t -> begins s.
Proof.
  pose proof heads_start as Hh. rewrite forallb_Forall_iff in Hh. induction spaceRunes as [|r runes IH]; [done|].
  apply Forall_cons in Hh as [Hr Hh]. cbn [stripOne]. destruct (stripPrefix r s) as [u|] eqn:E; [|by auto].
  intros _. apply stripPrefix_Some in E as ->. by destruct r.
Qed.

Lemma stripOne_shorter s t : stripOne spaceRunes s = Some t -> (List.length t < List.length s)%nat.
Proof.
  assert (forallb (fun r => bool_decide (r <> [])) spaceRunes = true) as Hne by reflexivity.
  rewrite forallb_Forall_iff in Hne. induction spaceRunes as [|r runes IH]; [done|]. apply Forall_cons in Hne as [Hr Hne].
  apply bool_decide_eq_true in Hr. cbn [stripOne]. destruct (stripPrefix r s) as [u|] eqn:E; [|by auto].
  intros [= <-]. apply stripPrefix_Some in E as ->. rewrite length_app. destruct r; [done|]. cbn. lia.
Qed.

(** [trimmed s] is [s] without leading white space. *)
Definition trimmed (s : list ascii) : list ascii := trimFront (List.length s) spaceRunes s.

Lemma trimFront_enough n s : (List.length s <= n)%nat -> trimFront n spaceRunes s = trimmed s.
Proof.
  unfold trimmed. remember (List.length s) as m eqn:Em. assert (List.length s <= m)%nat as Hm by lia. clear Em. revert s n Hm.
  induction m as [|m IH]; intros s n Hm Hn.
  - destruct s; [|cbn in Hm; lia]. by destruct n.
  - destruct n as [|n]; [lia|]. cbn [trimFront]. destruct (stripOne spaceRunes s) as [t|] eqn:E; [|done].
    pose proof (stripOne_shorter _ _ E). apply IH; lia.
Qed.

Lemma trimmed_step s : trimmed s = match stripOne spaceRunes s with Some t => trimmed t | None => s end.
Proof.
  unfold trimmed at 1. destruct s as [|c s]; [by cbn|]. cbn [List.length trimFront].
  destruct (stripOne spaceRunes (c :: s)) as [t|] eqn:E; [|done]. apply trimFront_enough.
  apply stripOne_shorter in E. cbn in E. lia.
Qed.

(** Reasoning along the passes of the trimming. *)
Lemma trim_ind (P : list ascii -> Prop) :
  (forall s, stripOne spaceRunes s = None -> P s) -> (forall s t, stripOne spaceRunes s = Some t -> P t -> P s) -> forall s, P s.
Proof.
  intros Hn Hs s. remember (List.length s) as n eqn:E. revert s E. induction n as [n IH] using lt_wf_ind. intros s ->.
  destruct (stripOne spaceRunes s) as [t|] eqn:E; [|by apply Hn].
  apply (Hs s t E), (IH (List.length t)); [by apply stripOne_shorter|done].
Qed.

Lemma trimmed_None s : stripOne spaceRunes (trimmed s) = None.
Proof.
  induction s as [s E|s t E IH] using trim_ind; rewrite trimmed_step, E; done.
Qed.
Lemma trimmed_id s : stripOne spaceRunes s = None -> trimmed s = s.
Proof. intros E. by rewrite trimmed_step, E. Qed.

Lemma trimmed_split x sp : begins sp -> trimmed x = [] -> trimmed (x ++ sp) = trimmed sp.
Proof.
  intros Hb. induction x as [x E|x t E IH] using trim_ind.
  - by rewrite trimmed_id by done; intros ->.
  - rewrite trimmed_step, E. intros Ht. destruct x as [|c x]; [done|]. rewrite trimmed_step, stripOne_split, E by done. cbn [fmap option_fmap option_map]. auto.
Qed.

Lemma trimmed_split_ne x sp : begins sp -> trimmed x <> [] -> trimmed (x ++ sp) = (trimmed x ++ sp)%list.
Proof.
  intros Hb. induction x as [x E|x t E IH] using trim_ind.
  - rewrite trimmed_id by done. intros Hne. destruct x as [|c x]; [done|]. rewrite trimmed_step, stripOne_split, E by done. done.
  - intros Ht. rewrite trimmed_step, E in Ht. destruct x as [|c x]; [done|].
    rewrite trimmed_step, stripOne_split, E by done. cbn [fmap option_fmap option_map]. rewrite IH by done. by rewrite (trimmed_step (c :: x)), E.
Qed.

Lemma takeField_split x sp : sp = [] \/ is_Some (stripOne spaceRunes sp) -> takeField (x ++ sp) = takeField x.
Proof.
  intros Hsp. assert (begins sp) as Hb by (destruct Hsp as [->|[t ?%stripOne_begins]]; done). induction x as [|c x IH].
  - destruct Hsp as [->|[t E]]; [done|]. destruct sp; [done|]. cbn [takeField app]. by rewrite E.
  - cbn [app takeField]. rewrite app_comm_cons, stripOne_split by done. destruct (stripOne spaceRunes (c :: x)); [done|]. cbn.
    by rewrite IH.
Qed.

(** What the trimming at the end takes off is white space. *)
Lemma trimBack_split n s : exists sp, s = (rev (trimFront n (@rev ascii <$> spaceRunes) (rev s)) ++ sp)%list /\
  (sp = [] \/ is_Some (stripOne spaceRunes sp)).
Proof.
  revert s. induction n as [|n IH]; intros s; cbn [trimFront].
  { exists []. rewrite rev_involutive, app_nil_r. auto. }
  destruct (stripOne _ (rev s)) as [t|] eqn:E; [|exists []; rewrite rev_involutive, app_nil_r; auto].
  assert (exists r, r ∈ spaceRunes /\ rev s = (rev r ++ t)%list) as (r & Hr & Hs).
  { clear IH. revert E. induction spaceRunes as [|r runes IHr]; [done|]. rewrite fmap_cons. cbn [stripOne].
    destruct (stripPrefix (rev r) (rev s)) as [u|] eqn:Eu.
    - intros [= <-]. exists r. split; [by left|by apply stripPrefix_Some].
    - intros (r' & Hr' & Hs)%IHr. exists r'. split; [by right|done]. }
  apply (f_equal (@rev ascii)) in Hs. rewrite rev_involutive, rev_app_distr, rev_involutive in Hs.
  destruct (IH (rev t)) as (sp & Ht & Hsp). rewrite rev_involutive in Ht. exists (sp ++ r)%list.
  split; [by rewrite app_assoc, <- Ht|]. right. destruct Hsp as [->|[u Hu]].
  - cbn [app]. clear -Hr. assert (forallb (fun r => bool_decide (is_Some (stripOne spaceRunes r))) spaceRunes = true) as H by reflexivity.
    rewrite forallb_Forall_iff, Forall_forall in H. apply H, bool_decide_eq_true in Hr. done.
  - destruct sp as [|c sp]; [done|]. rewrite stripOne_split; [rewrite Hu; by eexists|].
    clear -Hr. pose proof heads_start as H. rewrite forallb_Forall_iff, Forall_forall in H. apply H in Hr. by destruct r.
Qed.

Lemma firstField_trimmed line : firstField line =
  match takeField (trimmed (list_ascii_of_string line)) with [] => None | field => Some (string_of_list_ascii field) end.
Proof. done. Qed.

Lemma firstField_TrimSpace line : firstField (TrimSpace line) = firstField line.
Proof.
  rewrite !firstField_trimmed. unfold TrimSpace. fold (trimmed (list_ascii_of_string line)). rewrite list_ascii_of_string_of_list_ascii.
  set (s := trimmed (list_ascii_of_string line)). destruct (trimBack_split (List.length s) s) as (sp & Hs & Hsp). revert Hs. generalize (rev (trimFront (List.length s) (@rev ascii <$> spaceRunes) (rev s))).
  intros x Hs. assert (stripOne spaceRunes s = None) as Hn by apply trimmed_None.
  assert (begins sp) as Hb by (destruct Hsp as [->|[t ?%stripOne_begins]]; done).
  assert (trimmed x = x) as ->.
  { destruct x as [|c x]; [done|]. apply trimmed_id. rewrite Hs, stripOne_split in Hn by done. by destruct (stripOne spaceRunes (c :: x)). }
  by rewrite Hs, takeField_split.
Qed.

(** ** Database names *)

Definition wordByte (c : ascii) : bool := isAlnum (N_of_ascii c) || N.eqb (N_of_ascii c) 95.

Lemma name_bytes d : MatchString databaseNamePattern d = true ->
  d <> "" /\ Forall (fun c => wordByte c = true) (list_ascii_of_string d).
Proof.
  intros (c & l & E & Hc & _ & Hl)%database_name_iff.
  assert (Forall (fun x => isAlnum x || N.eqb x 95 = true) (runes d)) as Hw.
  { rewrite E. constructor.
    - unfold isAlnum. destruct (isUpper c), (isLower c); done.
    - eapply Forall_impl; [exact Hl|]. unfold isAlnum. intros x. by destruct (isUpper x), (isLower x), (isDigitRune x). }
  assert (bytesOf d = runes d) as Hb.
  { apply runesOf_ascii_inv. eapply Forall_impl; [exact Hw|]. intros x Hx. unfold isAlnum, isUpper, isLower, isDigitRune, in_range in Hx.
    repeat (apply orb_true_iff in Hx as [Hx|Hx]); [..|by apply N.eqb_eq in Hx as ->];
      apply andb_true_iff in Hx as [_ Hx%N.leb_le]; lia. }
  split; [by intros ->|]. rewrite <- Hb in Hw. unfold bytesOf in Hw. by apply Forall_fmap in Hw.
Qed.

Lemma word_not_space c s : wordByte c = true -> stripOne spaceRunes (c :: s) = None.
Proof.
  intros Hc. apply stripOne_head.
  assert (forallb (fun r => match r with [] => false | a :: _ => negb (wordByte a) end) spaceRunes = true) as H by reflexivity.
  rewrite forallb_Forall_iff in H. eapply Forall_impl; [exact H|]. intros [|a r] Hr; [done|]. intros ->. by rewrite Hc in Hr.
Qed.

Lemma takeField_words s : Forall (fun c => wordByte c = true) s -> takeField s = s.
Proof. induction 1 as [|c s Hc _ IH]; [done|]. cbn [takeField]. by rewrite word_not_space, IH. Qed.

Lemma firstField_name d rest : MatchString databaseNamePattern d = true -> firstField (d +:+ tab +:+ rest) = Some d.
Proof.
  intros [Hne Hw]%name_bytes. rewrite firstField_trimmed, list_ascii_app. change (tab +:+ rest) with (String chTab rest).
  cbn [list_ascii_of_string]. rewrite <- (string_of_list_ascii_of_string d) at 2. destruct (list_ascii_of_string d) as [|c l] eqn:E; [by destruct d|].
  rewrite trimmed_id. 2:{ apply Forall_cons in Hw as [Hc _]. by apply word_not_space. }
  rewrite takeField_split by (right; by eexists). by rewrite takeField_words.
Qed.

(** A comment registers nothing, so it does not matter that it is skipped. *)
Lemma firstField_comment line d : MatchString databaseNamePattern d = true -> HasPrefix line "#" = true -> firstField line <> Some d.
Proof.
  intros [Hne Hw]%name_bytes Hp. destruct line as [|c line]; [done|].
  assert (c = "#"%char) as -> by (revert Hp; unfold HasPrefix; cbn; by case_bool_decide).
  rewrite firstField_trimmed. cbn [list_ascii_of_string]. rewrite trimmed_id by reflexivity. cbn [takeField].
  change (stripOne spaceRunes ("#"%char :: _)) with (@None (list ascii)). cbn [takeField]. intros [= <-].
  cbn [string_of_list_ascii list_ascii_of_string] in Hw. apply Forall_cons in Hw as [Hc _]. done.
Qed.

Lemma firstField_blank line : TrimSpace line = "" -> firstField line = None.
Proof. intros E. by rewrite <- firstField_TrimSpace, E. Qed.

(** ** Lines *)

Definition oneLine (s : string) : bool := str_forall (fun c => c != chNewline) s.
Definition fits (content : string) : Prop := Forall (fun raw => tooLong raw = false) (rawLines content).

Lemma rawLines_line line rest : oneLine line = true -> rawLines (line +:+ newline +:+ rest) = line :: rawLines rest.
Proof.
  induction line as [|c line IH]; [done|]. intros [Hc Hl]%andb_true_iff. bool_simpl.
  change (String c line +:+ newline +:+ rest) with (String c (line +:+ newline +:+ rest)). cbn [rawLines].
  rewrite bool_decide_eq_false_2 by done. by rewrite IH.
Qed.

Lemma rawLines_oneLine s : Forall (fun raw => oneLine raw = true) (rawLines s).
Proof.
  induction s as [|c s IH]; cbn [rawLines]; [constructor|]. case_bool_decide; [by constructor|].
  destruct (rawLines s) as [|l r]; [|apply Forall_cons in IH as [Hl Hr]]; (constructor; [|done]); unfold oneLine in *; cbn [str_forall];
    by rewrite bool_decide_eq_false_2.
Qed.

Lemma rawLines_nil s : rawLines s = [] -> s = "".
Proof. destruct s as [|c s]; [done|]. cbn [rawLines]. case_bool_decide; [done|]. by destruct (rawLines s). Qed.

(** A text is added after whole lines. *)
Lemma rawLines_app s t : s = "" \/ endsLine s = true -> rawLines (s +:+ t) = rawLines s ++ rawLines t.
Proof.
  induction s as [|c s IH]; [done|]. intros [?|He]; [done|]. destruct s as [|c' s].
  - unfold endsLine, lastChar in He. cbn in He. bool_simpl. injection He as ->. done.
  - change (rawLines (String c (String c' s) +:+ t)) with
      (if c == chNewline then "" :: rawLines (String c' s +:+ t) else match rawLines (String c' s +:+ t) with [] => [String c ""] | l :: r => String c l :: r end).
    change (rawLines (String c (String c' s))) with
      (if c == chNewline then "" :: rawLines (String c' s) else match rawLines (String c' s) with [] => [String c ""] | l :: r => String c l :: r end).
    rewrite IH by (right; exact He). case_bool_decide; [done|].
    destruct (rawLines (String c' s)) as [|l r] eqn:E; [by apply rawLines_nil in E|done].
Qed.

Lemma rawLines_ended s : s <> "" -> endsLine s = false -> rawLines (s +:+ newline) = rawLines s.
Proof.
  induction s as [|c s IH]; [done|]. intros _ He. destruct s as [|c' s].
  - unfold endsLine, lastChar in He. cbn [list_ascii_of_string last] in He. apply bool_decide_eq_false in He.
    change (String c "" +:+ newline) with (String c newline). cbn [rawLines newline]. by rewrite bool_decide_eq_false_2 by congruence.
  - change (String c (String c' s) +:+ newline) with (String c (String c' s +:+ newline)). cbn [rawLines].
    by rewrite IH.
Qed.

Lemma dropReturn_cons c c' line : dropReturn (String c (String c' line)) = String c (dropReturn (String c' line)).
Proof. done. Qed.

Lemma firstField_return line : firstField (dropReturn line) = firstField line.
Proof.
  assert (line = dropReturn line \/ line = dropReturn line +:+ String chReturn "") as [<-|E]; [|done|].
  { induction line as [|c line IH]; [by left|]. destruct line as [|c' line].
    - cbn. case_bool_decide as E; [subst; by right|by left].
    - rewrite dropReturn_cons. destruct IH as [E|E]; [left; by rewrite <- E|right; by rewrite E at 1]. }
  rewrite E at 2. rewrite !firstField_trimmed, list_ascii_app. set (x := list_ascii_of_string (dropReturn line)).
  change (list_ascii_of_string (String chReturn "")) with [chReturn]. destruct (decide (trimmed x = [])) as [Hx|Hx].
  - by rewrite Hx, trimmed_split by done.
  - rewrite trimmed_split_ne by done. by rewrite takeField_split by (right; by eexists).
Qed.

(** ** What a text registers *)

Definition listed (d : string) (raws : list string) : bool := existsb (fun raw => firstField raw == Some d) raws.

Lemma registeredAmong_listed d raws : MatchString databaseNamePattern d = true -> Forall (fun raw => tooLong raw = false) raws ->
  registeredAmong d raws = Some (listed d raws).
Proof.
  intros Hd. induction 1 as [|raw raws Hr _ IH]; [done|]. cbn [registeredAmong listed existsb]. rewrite Hr.
  rewrite firstField_TrimSpace, firstField_return. fold (listed d raws). destruct (_ || _) eqn:Eskip.
  - rewrite IH, bool_decide_eq_false_2; [done|]. apply orb_true_iff in Eskip as [E|E].
    + apply bool_decide_eq_true in E. rewrite <- firstField_return, firstField_blank by done. done.
    + rewrite <- firstField_return, <- firstField_TrimSpace. by apply firstField_comment.
  - rewrite IH. by destruct (bool_decide (firstField raw = Some d)).
Qed.

Fixpoint keptText (d : string) (raws : list string) : string :=
  match raws with
  | [] => ""
  | raw :: rest => if firstField raw == Some d then keptText d rest else dropReturn raw +:+ newline +:+ keptText d rest
  end.

Lemma keptLines_text d raws : Forall (fun raw => tooLong raw = false) raws ->
  keptLines d raws = Some (keptText d raws, listed d raws).
Proof.
  induction 1 as [|raw raws Hr _ IH]; [done|]. cbn [keptLines keptText listed existsb]. rewrite Hr, IH, firstField_return.
  fold (listed d raws). by case_bool_decide.
Qed.

Lemma dropReturn_oneLine line : oneLine line = true -> oneLine (dropReturn line) = true.
Proof.
  induction line as [|c line IH]; [done|]. destruct line as [|c' line]; intros H.
  - cbn [dropReturn]. by case_bool_decide.
  - rewrite dropReturn_cons. unfold oneLine in *. cbn [str_forall] in H |- *. apply andb_true_iff in H as [-> H]. by apply IH.
Qed.

Lemma dropReturn_length line : (String.length (dropReturn line) <= String.length line)%nat.
Proof.
  induction line as [|c line IH]; [done|]. destruct line as [|c' line]; [cbn [dropReturn]; case_bool_decide; cbn; lia|].
  rewrite dropReturn_cons. cbn [String.length] in *. lia.
Qed.

Definition keeps (d raw : string) : Prop := firstField raw <> Some d.
Lemma kept_rawLines d raws : Forall (fun raw => oneLine raw = true) raws ->
  rawLines (keptText d raws) = dropReturn <$> filter (keeps d) raws.
Proof.
  induction 1 as [|raw raws Hr _ IH]; [done|]. cbn [keptText]. case_bool_decide as E.
  - by rewrite filter_cons_False by (unfold keeps; tauto).
  - rewrite filter_cons_True by done. rewrite rawLines_line by by apply dropReturn_oneLine. by rewrite IH.
Qed.

Lemma listed_kept d d' raws : listed d' (dropReturn <$> filter (keeps d) raws) = listed d' raws && (d' != d).
Proof.
  induction raws as [|raw raws IH]; [done|]. cbn [listed existsb]. fold (listed d' raws). destruct (decide (keeps d raw)) as [Hk|Hk].
  - rewrite filter_cons_True, fmap_cons by done. cbn [listed existsb]. fold (listed d' (dropReturn <$> filter (keeps d) raws)).
    rewrite IH, firstField_return. destruct (bool_decide (firstField raw = Some d')) eqn:E1; [|done].
    cbn [orb andb]. apply bool_decide_eq_true in E1. rewrite (bool_decide_eq_false_2 (d' = d)); [done|]. intros ->. by apply Hk.
  - rewrite filter_cons_False, IH by done. apply dec_stable in Hk. rewrite Hk.
    destruct (decide (d' = d)) as [->|Hne]; [by rewrite (bool_decide_eq_true_2 (d = d)), !andb_false_r by done|].
    by rewrite (bool_decide_eq_false_2 (Some d = Some d')) by congruence.
Qed.

Lemma kept_fits d raws : Forall (fun raw => tooLong raw = false) raws ->
  Forall (fun raw => tooLong raw = false) (dropReturn <$> filter (keeps d) raws).
Proof.
  intros H. apply Forall_fmap, Forall_forall. intros raw [_ Hin]%list_elem_of_filter.
  pose proof (proj1 (Forall_forall _ _) H raw Hin) as Hr. cbn. unfold tooLong in *. bool_simpl. apply Z.leb_gt.
  pose proof (dropReturn_length raw). lia.
Qed.

(** A kept text of white space registers nothing. *)
Lemma kept_blank d raws : trimmed (list_ascii_of_string (keptText d raws)) = [] ->
  Forall (fun raw => keeps d raw -> firstField raw = None) raws.
Proof.
  induction raws as [|raw raws IH]; [constructor|]. cbn [keptText]. case_bool_decide as E.
  - intros H. constructor; [by intros []|by apply IH].
  - rewrite list_ascii_app. change (newline +:+ keptText d raws) with (String chNewline (keptText d raws)). cbn [list_ascii_of_string].
    destruct (decide (trimmed (list_ascii_of_string (dropReturn raw)) = [])) as [Hx|Hx].
    + rewrite trimmed_split by done. rewrite trimmed_step. change (stripOne spaceRunes (chNewline :: ?s)) with (Some s). cbn iota.
      intros H. constructor; [|by apply IH]. intros _. by rewrite <- firstField_return, firstField_trimmed, Hx.
    + rewrite trimmed_split_ne by done. by intros [? _]%app_nil.
Qed.

Lemma TrimSpace_blank s : TrimSpace s = "" -> trimmed (list_ascii_of_string s) = [].
Proof.
  unfold TrimSpace. fold (trimmed (list_ascii_of_string s)). set (l := trimmed (list_ascii_of_string s)).
  destruct (trimBack_split (List.length l) l) as (sp & Hs & Hsp). revert Hs.
  generalize (rev (trimFront (List.length l) (@rev ascii <$> spaceRunes) (rev l))). intros x Hs Hx. assert (x = []) as -> by by destruct x.
  pose proof (trimmed_None (list_ascii_of_string s)) as Hn. fold l in Hn. destruct Hsp as [->|[t Ht]]; [by rewrite Hs|].
  cbn [app] in Hs. by rewrite Hs, Ht in Hn.
Qed.

Lemma blank_unlisted d d' raws : trimmed (list_ascii_of_string (keptText d raws)) = [] -> listed d' raws && (d' != d) = false.
Proof.
  intros H%kept_blank. destruct (decide (d' = d)) as [->|Hne]; [by rewrite (bool_decide_eq_true_2 (d = d)), andb_false_r by done|].
  induction H as [|raw raws Hr _ IH]; [done|]. cbn [listed existsb]. fold (listed d' raws).
  rewrite bool_decide_eq_false_2; [exact IH|]. intros E. rewrite Hr in E by (unfold keeps; congruence). done.
Qed.

(** Taking a registration back is exact.  Of a databases.txt whose lines can
    be read, the one database is not registered afterwards and every other one
    is registered exactly if it was before, also when the whole file was
    removed because it registers nothing else. *)
Theorem unregister_exact content database removeEmpty d : MatchString databaseNamePattern d = true -> fits content ->
  registeredInDatabasesTxt (changed content (unregisterLine content database removeEmpty)) d =
    option_map (fun was => was && (d != database)) (registeredInDatabasesTxt (Some content) d).
Proof.
  intros Hd Hf. unfold unregisterLine. rewrite keptLines_text by done. cbn [registeredInDatabasesTxt].
  rewrite (registeredAmong_listed d (rawLines content)) by done. cbn [option_map]. destruct (removeEmpty && _) eqn:Er.
  - apply andb_true_iff in Er as [_ Er]. apply bool_decide_eq_true, TrimSpace_blank in Er. cbn [changed registeredInDatabasesTxt].
    by rewrite (blank_unlisted database d).
  - destruct (listed database (rawLines content)) eqn:El; cbn [negb changed registeredInDatabasesTxt].
    + rewrite kept_rawLines by apply rawLines_oneLine. rewrite registeredAmong_listed by (done || by apply kept_fits).
      by rewrite listed_kept.
    + rewrite registeredAmong_listed by done. destruct (decide (d = database)) as [->|Hne]; [by rewrite El|].
      by rewrite (bool_decide_eq_false_2 (d = database)), andb_true_r by done.
Qed.

Lemma register_lines before database host dbDir : oneLine (databaseEntry database host dbDir) = true ->
  rawLines (registerLine before database host dbDir) = rawLines before ++ [databaseEntry database host dbDir].
Proof.
  intros Ho. unfold registerLine. rewrite rawLines_app.
  - f_equal; [|by rewrite <- (str_app_nil_r newline), rawLines_line].
    destruct (decide (before = "")) as [->|Hne]; [done|]. rewrite (bool_decide_eq_false_2 (before = "")) by done.
    destruct (endsLine before) eqn:E; [done|]. by apply rawLines_ended.
  - destruct (decide (before = "")) as [->|Hne]; [by left|]. right. rewrite (bool_decide_eq_false_2 (before = "")) by done.
    destruct (endsLine before) eqn:E; [done|]. cbn [negb andb]. unfold endsLine. by rewrite (lastChar_app _ _ chNewline), bool_decide_eq_true_2.
Qed.

Lemma firstField_entry database host dbDir : MatchString databaseNamePattern database = true ->
  firstField (databaseEntry database host dbDir) = Some database.
Proof. apply firstField_name. Qed.

(** Registering is exact: afterwards the one database is registered, and every
    other one exactly if it was before. *)
Theorem register_exact before database host dbDir d : MatchString databaseNamePattern database = true ->
  MatchString databaseNamePattern d = true -> oneLine (databaseEntry database host dbDir) = true ->
  tooLong (databaseEntry database host dbDir) = false -> fits before ->
  registeredInDatabasesTxt (Some (registerLine before database host dbDir)) d =
    option_map (fun was => was || (d == database)) (registeredInDatabasesTxt (Some before) d).
Proof.
  intros Hdb Hd Ho Hl Hf. cbn [registeredInDatabasesTxt]. rewrite register_lines by done.
  rewrite !registeredAmong_listed by (done || (apply Forall_app; split; [done|by constructor])). cbn [option_map]. f_equal.
  unfold listed. rewrite existsb_app. cbn [existsb]. rewrite firstField_entry, orb_false_r by done. f_equal.
  apply bool_decide_ext. split; congruence.
Qed.

(** The lines of a text, each ended by a newline alone: what a reader of lines
    writes back. *)
Definition lineFed (text : string) : string := foldr (fun raw rest => dropReturn raw +:+ newline +:+ rest) "" (rawLines text).

(** A text with its last line ended. *)
Definition lastLineEnded (text : string) : string := if (text == "") || endsLine text then text else text +:+ newline.

(** Without returns before the newlines only the end of the last line can be
    missing. *)
Lemma lineFed_ended text : Forall (fun raw => dropReturn raw = raw) (rawLines text) -> lineFed text = lastLineEnded text.
Proof.
  intros H. unfold lineFed. assert (foldr (fun raw rest => dropReturn raw +:+ newline +:+ rest) "" (rawLines text) =
    foldr (fun raw rest => raw +:+ newline +:+ rest) "" (rawLines text)) as ->.
  { induction H as [|raw raws Hr _ IH]; [done|]. cbn [foldr]. by rewrite Hr, IH. }
  clear H. induction text as [|c text IH]; [done|]. cbn [rawLines]. destruct (decide (text = "")) as [->|Hne].
  { unfold lastLineEnded. rewrite (bool_decide_eq_false_2 (String c "" = "")) by done. unfold endsLine. cbn [orb lastChar].
    change (lastChar (String c "")) with (Some c). destruct (decide (c = chNewline)) as [->|Hc].
    - by rewrite !bool_decide_eq_true_2 by done.
    - by rewrite !bool_decide_eq_false_2 by congruence. }
  assert (lastLineEnded (String c text) = String c (lastLineEnded text)) as ->.
  { unfold lastLineEnded. rewrite (bool_decide_eq_false_2 (text = "")), (bool_decide_eq_false_2 (String c text = "")) by done. cbn [orb]. unfold endsLine.
    destruct text as [|c' text]; [done|]. cbn [lastChar]. by destruct (_ == _). }
  rewrite <- IH. case_bool_decide as Ec; [by subst|]. by destruct (rawLines text) as [|l r] eqn:El; [apply rawLines_nil in El|].
Qed.

Lemma kept_registered database host dbDir raws : MatchString databaseNamePattern database = true -> listed database raws = false ->
  keptText database (raws ++ [databaseEntry database host dbDir]) = foldr (fun raw rest => dropReturn raw +:+ newline +:+ rest) "" raws.
Proof.
  intros Hdb. induction raws as [|raw raws IH]; cbn [listed existsb app keptText foldr]; intros Hr.
  - by rewrite firstField_entry, bool_decide_eq_true_2.
  - apply orb_false_iff in Hr as [-> Hrs]. by rewrite IH.
Qed.

(** C15: What the undo of a failed restore gives back.  Of any readable file
    that does not register the database, the lines are the same again after
    the database was registered and taken back, each ended by a newline alone;
    without returns before the newlines that is the file itself with its last
    line ended, so nothing at all is changed in a file of whole lines.  A file
    that did not exist is gone again. *)
Theorem register_unregister before database host dbDir : MatchString databaseNamePattern database = true ->
  oneLine (databaseEntry database host dbDir) = true -> tooLong (databaseEntry database host dbDir) = false -> fits before ->
  listed database (rawLines before) = false ->
  unregisterLine (registerLine before database host dbDir) database false = TxtReplace (lineFed before) /\
  (Forall (fun raw => dropReturn raw = raw) (rawLines before) -> lineFed before = lastLineEnded before) /\
  unregisterLine (registerLine "" database host dbDir) database true = TxtRemove.
Proof.
  intros Hdb Ho Hl Hf Hn. unfold unregisterLine. rewrite !register_lines by done.
  rewrite !keptLines_text by (done || (apply Forall_app; split; [done|by constructor])).
  rewrite !kept_registered by done. split_and!; [|apply lineFed_ended|done].
  cbn [andb]. unfold listed. rewrite existsb_app. cbn [existsb]. by rewrite firstField_entry, bool_decide_eq_true_2, orb_true_r by done.
Qed.

(** ** A file of two databases *)
Module Registered.
Definition content : string :=
  "# databases" +:+ newline +:+ databaseEntry "other" "h" "/data/other" +:+ newline +:+ databaseEntry "db" "h" "/data/db" +:+ newline.
Definition one : string := databaseEntry "other" "h" "/data/other" +:+ newline.

Lemma content_fits : fits content.
Proof. vm_compute. by repeat constructor. Qed.
Lemma one_fits : fits one.
Proof. vm_compute. by repeat constructor. Qed.

Lemma unregister_exact_witness :
  registeredInDatabasesTxt (changed content (unregisterLine content "db" true)) "other" = Some true.
Proof. rewrite (unregister_exact content "db" true "other"); [reflexivity|reflexivity|apply content_fits]. Defined.

Lemma register_exact_witness : registeredInDatabasesTxt (Some (registerLine one "db" "h0:h1" "/data/db")) "db" = Some true.
Proof. rewrite (register_exact one "db" "h0:h1" "/data/db" "db"); try reflexivity. apply one_fits. Defined.

(** A last line without its end, and lines ended by a return and a newline. *)
Definition unended : string := "# databases" +:+ newline +:+ databaseEntry "other" "h" "/data/other".
Definition returned : string := databaseEntry "other" "h" "/data/other" +:+ String chReturn newline.
Lemma unended_fits : fits unended.
Proof. vm_compute. by repeat constructor. Qed.
Lemma returned_fits : fits returned.
Proof. vm_compute. by repeat constructor. Qed.

Lemma register_unregister_witness : unregisterLine (registerLine one "db" "h0:h1" "/data/db") "db" false = TxtReplace one /\
  unregisterLine (registerLine unended "db" "h0:h1" "/data/db") "db" false = TxtReplace (unended +:+ newline) /\
  unregisterLine (registerLine returned "db" "h0:h1" "/data/db") "db" false = TxtReplace one.
Proof.
  split_and!.
  - apply (register_unregister one "db" "h0:h1" "/data/db"); try reflexivity. apply one_fits.
  - apply (register_unregister unended "db" "h0:h1" "/data/db"); try reflexivity. apply unended_fits.
  - apply (register_unregister returned "db" "h0:h1" "/data/db"); try reflexivity. apply returned_fits.
Defined.
End Registered.
