(* ===== verification/Artifact.v ===== *)
(** * Writing, checking and reading a backup artifact

    [objectstore.go], [upload.go], [verify.go] and the staging of [restore.go]
    of the Instance Manager.  The object store is the interface of the code; a
    reader is the bytes it gives and whether it then fails.  The bytes of a
    file or an object are a string.

    What a call meets that is not in the code is a parameter: [sha256] is the
    hex digest, [Marshal] and [Unmarshal] are JSON of a manifest. *)
From stdpp Require Import prelude gmap strings pretty list sorting.
From Stdlib Require Import Ascii String.
From S2P Require Import Prelude GoErr GoStr Utf8 Api Engine HARole OpStore ManifestURI Paths Manifest BackupController HABootstrap Requests.

(** ** The object store *)

Record Reader := mkReader { rd_bytes : string; rd_failure : option string }.
Definition sizeOf (s : string) : Z := Z.of_nat (String.length s).

(** ObjectStore, over the state [W] of what it reaches. *)
Class ObjectStore (W : Type) := {
  Put : string -> string -> Reader -> Z -> W -> (string + Z) * W;
  StatSize : string -> string -> W -> (string + Z) * W;
  Get : string -> string -> W -> (string + Reader) * W }.

(** What the code relies on of an S3 bucket: a write replaces one object by a
    beginning of what the reader gave, or changes nothing and fails; a reader
    that gives exactly the announced bytes is stored whole.  Of a reader that
    gives another number of bytes nothing is known but that, so it is the
    caller's part to ask for the size afterwards.  A size or a content that is
    read without an error is that of the stored object, and reading changes
    nothing. *)
Class BucketLaws (W : Type) `{!ObjectStore W} := {
  contents : W -> gmap (string * string) string;
  put_law bucket key r size w res w' : Put bucket key r size w = (res, w') ->
    (exists c t, rd_bytes r = c +:+ t /\ (rd_failure r = None -> sizeOf (rd_bytes r) = size -> t = "") /\
       contents w' = <[(bucket, key) := c]> (contents w)) \/
    (exists e, res = inl e) /\ contents w' = contents w;
  stat_law bucket key w res w' : StatSize bucket key w = (res, w') -> contents w' = contents w /\
    forall n, res = inr n -> exists c, contents w !! (bucket, key) = Some c /\ sizeOf c = n;
  get_law bucket key w res w' : Get bucket key w = (res, w') -> contents w' = contents w /\
    forall r, res = inr r -> rd_failure r = None -> contents w !! (bucket, key) = Some (rd_bytes r) }.

(** ** Upload *)

Record UploadSpec := mkUploadSpec {
  us_StagingDir : string; us_Bucket : string; us_Prefix : string; us_Manifest : BackupManifest; us_Seed : bool }.
Record UploadResult := mkUploadResult { ur_ManifestURI : string; ur_ManifestDigest : string; ur_SizeBytes : Z }.

Inductive FileType := SymbolicLink | NamedPipe | DeviceFile | SocketFile | OtherFile.
Definition describeFileType (ty : FileType) : string :=
  match ty with
  | SymbolicLink => "symbolic link"
  | NamedPipe => "named pipe"
  | DeviceFile => "device"
  | SocketFile => "socket"
  | OtherFile => "special file"
  end.

(** What a walk over the staging directory finds. *)
Inductive FileTree :=
| RegularFile
| NotAFile (ty : FileType)
| Directory (entries : list (string * FileTree))
| Unlisted (err : string).

Definition relPath (elements : list string) : string := match elements with [] => "." | _ => strJoin "/" elements end.

Fixpoint walkDir (rel : list string) (node : FileTree) : string + list string :=
  match node with
  | RegularFile => inr [relPath rel]
  | NotAFile ty => inl (relPath rel +:+ " is not a regular file (" +:+ describeFileType ty +:+ "); a backup uploads regular files only")
  | Unlisted err => inl err
  | Directory entries =>
      (fix each (entries : list (string * FileTree)) : string + list string :=
         match entries with
         | [] => inr []
         | (name, node) :: rest =>
             match walkDir (rel ++ [name]) node with
             | inl err => inl err
             | inr files => match each rest with inl err => inl err | inr more => inr (files ++ more) end
             end
         end) entries
  end.

Definition stagedFiles (dir : FileTree) : string + list string :=
  match walkDir [] dir with
  | inl err => inl ("scan staging dir: " +:+ err)
  | inr files => inr (merge_sort String.le files)
  end.

(** What opening a staged file finds then. *)
Inductive Opened := OpenFails (err : string) | OpenedOther | OpenedFile (r : Reader).

Section artifact.
Context {W : Type} `{!ObjectStore W}.
Context (quote : string -> string) (sha256 : string -> string).
Context (Marshal : BackupManifest -> option string) (Unmarshal : string -> option BackupManifest).

(** The staged files are opened twice each; [opened n] is what the n-th
    opening finds. *)
Record Uploading := mkUploading { up_store : W; up_opens : nat }.
Definition UploadM := EM Uploading string.

Definition ofStore {A} (f : W -> A * W) : UploadM A :=
  run (fun u => let '(x, w) := f (up_store u) in (x, mkUploading w (up_opens u))).

Section upload.
Context (opened : nat -> string -> Opened).

Definition openStaged (rel : string) : UploadM Reader := fun u =>
  (match opened (up_opens u) rel with
   | OpenFails err => inl ("open " +:+ rel +:+ ": " +:+ err)
   | OpenedOther => inl (rel +:+ " is not a regular file; a backup uploads regular files only")
   | OpenedFile r => inr r
   end, mkUploading (up_store u) (S (up_opens u))).

Definition hashFile (rel : string) : UploadM (string * Z) :=
  r ← openStaged rel;
  match rd_failure r with
  | Some err => fails ("hash " +:+ rel +:+ ": " +:+ err)
  | None => mret (sha256 (rd_bytes r), sizeOf (rd_bytes r))
  end.

Definition putFile (bucket key rel : string) (size : Z) : UploadM unit :=
  r ← openStaged rel;
  put ← ofStore (Put bucket key r size);
  match put with inl err => fails err | inr _ => mret tt end.

(** One file of the loop of UploadBackup. *)
Definition uploadFile (bucket prefix rel : string) : UploadM ManifestObject :=
  hashed ← hashFile rel;
  let '(sum, size) := hashed in
  let key := Join [prefix; "backup"; rel] in
  _ ← putFile bucket key rel size;
  stat ← ofStore (StatSize bucket key);
  let failed got err := fails ("upload verification failed for " +:+ key +:+ " (size got=" +:+ pretty got +:+ " want=" +:+ pretty size
                               +:+ " err=" +:+ err +:+ ")") in
  match stat with
  | inl err => failed (0 : Z) err
  | inr got => if got != size then failed got "<nil>" else mret (mkObject (Join ["backup"; rel]) size sum)
  end.

(** [random] are the bytes [rand.Read] gives, [dir] the staging directory, and
    [rootOpens] whether a handle on it can be had. *)
Definition uploadPrefix (random : option (list N)) (spec : UploadSpec) : string + string :=
  if us_Seed spec then
    match validateSeedUpload (us_Prefix spec) (mf_ClusterUID (us_Manifest spec)) (mf_Database (us_Manifest spec))
            (mf_SourceRole (us_Manifest spec)) with
    | Some err => inl err
    | None => inr (us_Prefix spec)
    end
  else match random with
  | None => inl "generate upload identity"
  | Some id => inr (BackupAttemptPrefix (us_Prefix spec) (EncodeToString id))
  end.

Definition UploadBackup (random : option (list N)) (dir : FileTree) (rootOpens : bool) (spec : UploadSpec) : UploadM UploadResult :=
  match uploadPrefix random spec with
  | inl err => fails err
  | inr prefix =>
      match stagedFiles dir with
      | inl err => fails err
      | inr files =>
          if bool_decide (files = []) then fails ("no backup files staged in " +:+ us_StagingDir spec)
          else if negb rootOpens then fails "open the staging directory"
          else
            objects ← forEach (uploadFile (us_Bucket spec) prefix) files;
            let manifest := withObjects objects (us_Manifest spec) in
            match Marshal manifest with
            | None => fails "encode manifest"
            | Some data =>
                let manifestKey := Join [prefix; ManifestObjectName] in
                put ← ofStore (Put (us_Bucket spec) manifestKey (mkReader data None) (sizeOf data));
                match put with
                | inl err => fails ("upload manifest: " +:+ err)
                | inr _ => mret (mkUploadResult (artifactURI (us_Bucket spec) manifestKey) (sha256 data) (TotalSize manifest))
                end
            end
      end
  end.
End upload.

(** ** Verification *)

Definition readObject (bucket key : string) : EM W string string :=
  got ← run (Get bucket key);
  match got with
  | inl err => fails err
  | inr r => match rd_failure r with Some err => fails err | None => mret (rd_bytes r) end
  end.

Definition hashObject (bucket key : string) : EM W string (string * Z) :=
  got ← run (Get bucket key);
  match got with
  | inl err => fails err
  | inr r => match rd_failure r with Some err => fails err | None => mret (sha256 (rd_bytes r), sizeOf (rd_bytes r)) end
  end.

Definition ofError {S E A} (wrap : E -> E) (m : EM S E A) : EM S E A := fun w =>
  let '(res, w') := m w in (match res with inl e => inl (wrap e) | inr x => inr x end, w').

(** The manifest of an artifact, read and checked: the common beginning of
    VerifyArtifact and stageArtifact. *)
Definition readManifest (bucket prefix : string) (exp : ManifestExpectation) : EM W string BackupManifest :=
  data ← ofError (fun e => "read manifest: " +:+ e) (readObject bucket (Join [prefix; ManifestObjectName]));
  match ParseManifest (Unmarshal data) with
  | inl err => fails err
  | inr m =>
      match Verify quote m exp with
      | Some err => fails err
      | None => match ValidateObjectKeys quote m with Some err => fails err | None => mret m end
      end
  end.

Definition verifyObject (bucket prefix : string) (obj : ManifestObject) : EM W string unit :=
  hashed ← ofError (fun e => "verify object " +:+ mo_Key obj +:+ ": " +:+ e) (hashObject bucket (Join [prefix; mo_Key obj]));
  let '(sum, size) := hashed in
  if size != mo_SizeBytes obj
  then fails ("object " +:+ mo_Key obj +:+ " size " +:+ pretty size +:+ " does not match manifest " +:+ pretty (mo_SizeBytes obj))
  else if sum != mo_SHA256 obj then fails ("object " +:+ mo_Key obj +:+ " checksum mismatch")
  else mret tt.

Definition VerifyArtifact (bucket prefix : string) (exp : ManifestExpectation) : EM W string BackupManifest :=
  m ← readManifest bucket prefix exp;
  _ ← forEach (verifyObject bucket prefix) (mf_Objects m);
  mret m.

(** ** Staging *)

Definition restoreExpectation (req : RestoreRequest) (engine : string) : ManifestExpectation :=
  if rr_SeedFromMaster req != ""
  then mkExpectation (rr_Database req) engine (Some 0) RoleMaster (rr_SeedFromMaster req) (rr_ExpectedClusterUID req)
  else mkExpectation (rr_Database req) engine (Some 0) "" "" "".

(** How the disk treats one staged file: whether its directory and the file
    can be created, how many bytes can be written, and whether it can be
    removed again. *)
Record DiskFate := mkFate { df_mkdir : bool; df_create : bool; df_write : option nat; df_remove : bool }.

(** The store, and the files of the staging directory by their name in it. *)
Record Staging := mkStaging { sg_store : W; sg_files : gmap string string }.
Definition StageM := EM Staging string.

Definition inStaging {A} (m : EM W string A) : StageM A := fun s =>
  let '(res, w) := m (sg_store s) in (res, mkStaging w (sg_files s)).
Definition writeFile (name data : string) : StageM unit := fun s => (inr tt, mkStaging (sg_store s) (<[name := data]> (sg_files s))).
(** The deferred removal of a file that was not staged as it should be. *)
Definition discard {A} (removed : bool) (name err : string) : StageM A := fun s =>
  (inl err, mkStaging (sg_store s) (if removed then delete name (sg_files s) else sg_files s)).

Section stage.
Context (disk : string -> DiskFate).

Definition stageObject (bucket prefix : string) (obj : ManifestObject) : StageM unit :=
  let name := mo_Key obj in
  let fate := disk name in
  if negb (df_mkdir fate) then fails ("stage directory for " +:+ name)
  else
    got ← inStaging (run (Get bucket (Join [prefix; mo_Key obj])));
    match got with
    | inl err => fails ("download " +:+ name +:+ ": " +:+ err)
    | inr r =>
        if negb (df_create fate) then fails ("create staged " +:+ name)
        else
          let room := default (String.length (rd_bytes r)) (df_write fate) in
          let written := String.substring 0 room (rd_bytes r) in
          _ ← writeFile name written;
          if (String.length written <? String.length (rd_bytes r))%nat || non_nil (rd_failure r)
          then discard (df_remove fate) name ("write staged " +:+ name)
          else if sizeOf written != mo_SizeBytes obj
          then discard (df_remove fate) name ("object " +:+ name +:+ " size " +:+ pretty (sizeOf written) +:+ " does not match manifest "
                 +:+ pretty (mo_SizeBytes obj))
          else if sha256 written != mo_SHA256 obj then discard (df_remove fate) name ("object " +:+ name +:+ " checksum mismatch")
          else mret tt
    end.

(** [dirOpens]: whether the staging directory can be created and opened. *)
Definition stageArtifact (dirOpens : bool) (bucket prefix : string) (exp : ManifestExpectation) : StageM BackupManifest :=
  manifest ← inStaging (readManifest bucket prefix exp);
  if negb dirOpens then fails "create or open the staging directory"
  else
    _ ← forEach (stageObject bucket prefix) (mf_Objects manifest);
    mret manifest.
End stage.
End artifact.
