(* ===== verification/ArtifactSafety.v ===== *)
(** * What an artifact promises

    Theorems about Artifact.v: the manifest is published last, an attempt
    writes only below its own prefix, what is staged is what the manifest
    says, and what was uploaded can be staged again.  They hold for every
    object store that keeps the laws of a bucket. *)
From stdpp Require Import prelude gmap strings pretty list sorting.
From Stdlib Require Import Ascii String.
From S2P Require Import Prelude GoErr GoStr Utf8 Api Engine HARole OpStore ManifestURI Paths Manifest BackupController HABootstrap Requests Artifact.

(** ** The files of a directory *)

Fixpoint FileTree_nested_ind (P : FileTree -> Prop) (HR : P RegularFile) (HN : forall ty, P (NotAFile ty))
  (HD : forall entries, Forall (fun e => P e.2) entries -> P (Directory entries)) (HU : forall err, P (Unlisted err)) (t : FileTree) : P t :=
  match t with
  | RegularFile => HR
  | NotAFile ty => HN ty
  | Directory entries => HD entries ((fix all (l : list (string * FileTree)) : Forall (fun e => P e.2) l :=
      match l with [] => Forall_nil_2 _ | e :: l => Forall_cons_2 _ _ _ (FileTree_nested_ind P HR HN HD HU e.2) (all l) end) entries)
  | Unlisted err => HU err
  end.

(** Whether there is a regular file at a path. *)
Fixpoint fileAt (node : FileTree) (path : list string) {struct path} : bool :=
  match path, node with
  | [], RegularFile => true
  | name :: rest, Directory entries =>
      match find (fun e : string * FileTree => e.1 == name) entries with Some e => fileAt e.2 rest | None => false end
  | _, _ => false
  end.

(** The names of a directory are distinct and plain. *)
Inductive wfTree : FileTree -> Prop :=
| wf_regular : wfTree RegularFile
| wf_other ty : wfTree (NotAFile ty)
| wf_unlisted err : wfTree (Unlisted err)
| wf_directory entries : NoDup entries.*1 -> Forall normal entries.*1 -> Forall (fun e => wfTree e.2) entries -> wfTree (Directory entries).

Lemma relPath_join rel xs : rel ++ xs <> [] -> relPath (rel ++ xs) = strJoin "/" (rel ++ xs).
Proof. by destruct (rel ++ xs). Qed.

(** What a walk finds below [rel]: the regular files, each once. *)
Definition walked (rel : list string) (node : FileTree) (files : list string) : Prop :=
  exists paths, files = (fun xs => relPath (rel ++ xs)) <$> paths /\ NoDup paths /\
    (forall xs, xs ∈ paths <-> fileAt node xs = true) /\ Forall (Forall normal) paths.

Lemma fileAt_named entries name rest : fileAt (Directory entries) (name :: rest) = true -> name ∈ entries.*1.
Proof.
  cbn. destruct (find _ entries) as [e|] eqn:Ef; [|done]. intros _. apply find_some in Ef as [He Hb]. bool_simpl.
  rewrite <- Hb. apply list_elem_of_fmap. exists e. by rewrite list_elem_of_In.
Qed.

Lemma walkDir_walked node : forall rel files, wfTree node -> walkDir rel node = inr files -> walked rel node files.
Proof.
  induction node as [|ty|entries IH|err] using FileTree_nested_ind; intros rel files Hwf; cbn [walkDir]; try done.
  - intros [= <-]. exists [[]]. split_and!; [cbn; by rewrite app_nil_r|apply NoDup_singleton| |by repeat constructor].
    intros [|x xs]; cbn; set_solver.
  - inversion Hwf as [| | |? Hnd Hn Hsub]; subst. clear Hwf. revert files. induction entries as [|[name node] entries IHe]; intros files.
    + intros [= <-]. exists []. split_and!; [done|constructor| |constructor]. intros [|x xs]; cbn; set_solver.
    + cbn in Hnd, Hn. apply NoDup_cons in Hnd as [Hfresh Hnd]. apply Forall_cons in Hn as [Hname Hn].
      apply Forall_cons in Hsub as [Hnode Hsub]. apply Forall_cons in IH as [IHn IH]. cbn in IHn, Hnode.
      destruct (walkDir (rel ++ [name]) node) as [|fs] eqn:E1; [done|].
      match goal with |- match ?each with _ => _ end = _ -> _ => destruct each as [|more] eqn:E2; [done|] end. intros [= <-].
      destruct (IHn _ _ Hnode E1) as (ps & -> & Hps & Hin & Hpn). destruct (IHe IH Hnd Hn Hsub _ eq_refl) as (qs & -> & Hqs & Hqin & Hqn).
      exists ((cons name <$> ps) ++ qs). split_and!.
      * rewrite fmap_app, <- list_fmap_compose. f_equal. apply list_fmap_ext. intros _ x _. cbn. by rewrite <- app_assoc.
      * apply NoDup_app. split_and!; [by apply NoDup_fmap_2; [intros ?? [=]|]| |done].
        intros xs (ys & -> & Hys)%list_elem_of_fmap Hq%Hqin%fileAt_named. done.
      * intros xs. rewrite elem_of_app, list_elem_of_fmap. destruct xs as [|x xs].
        { split; [intros [(ys & ? & _)|Hq%Hqin]; done|done]. }
        cbn [fileAt find fst snd]. case_bool_decide as Ex.
        { subst x. rewrite <- Hin. split; [|eauto]. intros [(ys & [= ->] & ?)|Hq]; [done|].
          by apply Hqin, fileAt_named in Hq. }
        { rewrite Hqin. cbn [fileAt]. split; [|auto]. intros [(ys & [= ->] & _)|?]; [congruence|done]. }
      * apply Forall_app. split; [|done]. apply Forall_fmap. eapply Forall_impl; [exact Hpn|]. intros xs Hxs. by constructor.
Qed.

(** What is uploaded: the regular files of the staging directory, each once. *)
Lemma stagedFiles_paths dir files : wfTree dir -> fileAt dir [] = false -> stagedFiles dir = inr files ->
  exists paths, files = relPath <$> paths /\ NoDup paths /\ (forall xs, xs ∈ paths <-> fileAt dir xs = true) /\
    Forall (fun xs => xs <> [] /\ Forall normal xs) paths.
Proof.
  unfold stagedFiles. intros Hwf Hroot. destruct (walkDir [] dir) as [|fs] eqn:E; [done|]. intros [= <-].
  destruct (walkDir_walked dir [] fs Hwf E) as (ps & -> & Hnd & Hin & Hn). cbn [app].
  pose proof (merge_sort_Permutation String.le (relPath <$> ps)) as Hp.
  destruct (Permutation_map_inv relPath ps Hp) as (qs & Eq & Hq). exists qs. split_and!.
  - exact Eq.
  - by rewrite <- Hq.
  - intros xs. by rewrite <- Hq.
  - apply Forall_forall. intros xs Hxs. rewrite <- Hq in Hxs. split; [|by apply (proj1 (Forall_forall _ _) Hn)].
    intros ->. apply Hin in Hxs. congruence.
Qed.

(** ** Keys *)

(** The key of plain elements below a prefix. *)
Definition keyBelow (prefix : string) (xs : list string) : string :=
  (if isRooted prefix then "/" else "") +:+ strJoin "/" (cleanFront prefix ++ xs).

Lemma keyBelow_inj prefix xs ys : xs <> [] -> ys <> [] -> Forall normal xs -> Forall normal ys ->
  keyBelow prefix xs = keyBelow prefix ys -> xs = ys.
Proof.
  intros Hx Hy Hnx Hny E. unfold keyBelow in E.
  assert (strJoin "/" (cleanFront prefix ++ xs) = strJoin "/" (cleanFront prefix ++ ys)) as Ej.
  { destruct (isRooted prefix); [|done]. by injection E. }
  apply (f_equal (Split chSlash)) in Ej. rewrite !Split_join_plain in Ej.
  - by apply app_inv_head in Ej.
  - by destruct (cleanFront prefix).
  - apply Forall_app. split; [apply cleanFront_plain|]. eapply Forall_impl; [exact Hny|apply normal_plain].
  - by destruct (cleanFront prefix).
  - apply Forall_app. split; [apply cleanFront_plain|]. eapply Forall_impl; [exact Hnx|apply normal_plain].
Qed.

(** Joining a path joins its elements. *)
Lemma joinStep_path buf xs : xs <> [] -> Forall normal xs -> joinStep buf (strJoin "/" xs) = fold_left joinStep xs buf.
Proof.
  intros Hne Hn. unfold joinStep at 1. destruct (decide (buf = "")) as [->|Hb].
  - assert (strJoin "/" xs <> "") as Hj by (intros E; by apply strJoin_empty in E).
    rewrite (bool_decide_eq_true_2 ("" = "")), (bool_decide_eq_false_2 _ Hj) by done. cbn [negb orb].
    destruct Hn as [|x xs Hx Hn]; [done|]. cbn [fold_left]. assert (joinStep "" x = x) as ->.
    { unfold joinStep. by rewrite bool_decide_eq_true_2, bool_decide_eq_false_2 by (done || apply Hx). }
    by rewrite joinSteps by (done || apply Hx).
  - rewrite !(bool_decide_eq_false_2 _ Hb), joinSteps by done. cbn [negb orb]. by rewrite strJoin_cons.
Qed.

Lemma Join_path front xs : xs <> [] -> Forall normal xs -> Join (front ++ [strJoin "/" xs]) = Join (front ++ xs).
Proof. intros Hne Hn. unfold Join. rewrite !fold_left_app. cbn [fold_left]. by rewrite joinStep_path. Qed.

Lemma dataKey_normal xs : Forall normal xs -> Forall normal ("backup" :: xs).
Proof. intros Hn. constructor; [by split_and!|done]. Qed.

Lemma relPath_eq xs : xs <> [] -> relPath xs = strJoin "/" xs.
Proof. by destruct xs. Qed.

Lemma dataKey_eq prefix xs : xs <> [] -> Forall normal xs -> Join [prefix; "backup"; relPath xs] = keyBelow prefix ("backup" :: xs).
Proof.
  intros Hne Hn. rewrite relPath_eq by done. etrans; [by apply (Join_path [prefix; "backup"])|].
  cbn [app]. apply Join_normals; [done|by apply dataKey_normal].
Qed.

Lemma manifestKey_eq prefix : Join [prefix; ManifestObjectName] = keyBelow prefix [ManifestObjectName].
Proof. apply Join_normal, manifest_normal. Qed.

Lemma objectKey_eq xs : xs <> [] -> Forall normal xs -> Join ["backup"; relPath xs] = objectKey xs.
Proof.
  intros Hne Hn. rewrite relPath_eq by done. etrans; [by apply (Join_path ["backup"])|]. cbn [app]. by rewrite Join_normals.
Qed.

Lemma dataKey_not_manifest prefix xs : xs <> [] -> Forall normal xs -> keyBelow prefix ("backup" :: xs) <> keyBelow prefix [ManifestObjectName].
Proof.
  intros Hne Hn E. apply keyBelow_inj in E; [by destruct xs|done|done|by apply dataKey_normal|].
  constructor; [apply manifest_normal|constructor].
Qed.

(** The key of an object of the manifest is the key it was uploaded under. *)
Lemma objectKey_below prefix xs : Forall normal xs -> Join [prefix; objectKey xs] = keyBelow prefix ("backup" :: xs).
Proof.
  intros Hn. unfold objectKey. etrans; [by apply (Join_path [prefix]); [|apply dataKey_normal]|]. cbn [app].
  apply Join_normals; [done|by apply dataKey_normal].
Qed.

Lemma keyBelow_join prefix x ys : normal x -> keyBelow (Join [prefix; x]) ys = keyBelow prefix (x :: ys).
Proof.
  intros Hx. unfold keyBelow. rewrite (Join_normal prefix x Hx). destruct (cleanFront_again prefix x Hx) as [-> ->].
  by rewrite <- app_assoc.
Qed.

Lemma hexDigit_inj a b : (a < 16)%N -> (b < 16)%N -> hexDigit a = hexDigit b -> a = b.
Proof.
  intros Ha Hb E. unfold hexDigit in E. apply (f_equal N_of_ascii) in E.
  destruct (N.ltb_spec a 10), (N.ltb_spec b 10); rewrite !N_ascii_embedding in E; lia.
Qed.

Lemma EncodeToString_inj id id' : Forall (fun b => (b < 256)%N) id -> Forall (fun b => (b < 256)%N) id' ->
  EncodeToString id = EncodeToString id' -> id = id'.
Proof.
  intros H. revert id'. induction H as [|b id Hb _ IH]; intros [|b' id'] H' E; [done|done|done|]. apply Forall_cons in H' as [Hb' H'].
  unfold EncodeToString in E. cbn in E. injection E as E1 E2 E3.
  assert (forall n, (n < 256)%N -> (N.div n 16 < 16)%N /\ (N.modulo n 16 < 16)%N) as Hd.
  { intros n Hn. split; [apply N.Div0.div_lt_upper_bound; lia|by apply N.mod_lt]. }
  destruct (Hd b Hb), (Hd b' Hb'). apply hexDigit_inj in E1, E2; [|done..].
  f_equal; [|by apply IH]. rewrite (N.div_mod b 16), (N.div_mod b' 16) by done. congruence.
Qed.

Lemma attempt_bytes id : isAttemptBytes id = true -> Forall (fun b => (b < 256)%N) id.
Proof.
  unfold isAttemptBytes. intros [_ Hb]%andb_true_iff. rewrite forallb_forall in Hb.
  apply Forall_forall. intros b Hin%list_elem_of_In. by apply N.ltb_lt, Hb.
Qed.

(** ** Uploads *)

Section uploads.
Context {W : Type} `{!ObjectStore W, !BucketLaws W}.
Context (sha256 : string -> string) (Marshal : BackupManifest -> option string).
Context (opened : nat -> string -> Opened) (bucket prefix : string).

Notation stored u := (contents (up_store u)).
Notation dataKey rel := (Join [prefix; "backup"; rel]).

(** What a file's upload leaves in the bucket, when it succeeds. *)
Definition uploaded (rel : string) (o : ManifestObject) (c : string) : Prop :=
  mo_Key o = Join ["backup"; rel] /\ sizeOf c = mo_SizeBytes o /\
  exists n r r' t, opened n rel = OpenedFile r /\ rd_failure r = None /\ mo_SizeBytes o = sizeOf (rd_bytes r) /\ mo_SHA256 o = sha256 (rd_bytes r) /\
    opened (S n) rel = OpenedFile r' /\ rd_bytes r' = c +:+ t.

Lemma uploadFile_spec rel u res u' : uploadFile sha256 opened bucket prefix rel u = (res, u') ->
  (exists o c, res = inr o /\ uploaded rel o c /\ stored u' = <[(bucket, dataKey rel) := c]> (stored u)) \/
  (exists e, res = inl e) /\ (stored u' = stored u \/ exists c, stored u' = <[(bucket, dataKey rel) := c]> (stored u)).
Proof.
  unfold uploadFile, hashFile, putFile, ofStore, run, openStaged. unfold mbind, EM_bind, mret, EM_ret, fails.
  destruct (opened (up_opens u) rel) as [err| |r] eqn:E1; [intros [= <- <-]; cbn; eauto 6..|].
  destruct (rd_failure r) as [err|] eqn:Ef; [intros [= <- <-]; cbn; eauto 6|]. cbn [up_opens up_store].
  destruct (opened (S (up_opens u)) rel) as [err| |r'] eqn:E2; [intros [= <- <-]; cbn; eauto 6..|]. cbn [up_store up_opens].
  destruct (Put bucket (dataKey rel) r' (sizeOf (rd_bytes r)) (up_store u)) as [put w1] eqn:Ep.
  apply put_law in Ep as Hp. destruct put as [err|n].
  { intros [= <- <-]. right. split; [eauto|]. destruct Hp as [(c & t & _ & _ & Hc)|[_ Hc]]; eauto. }
  destruct Hp as [(c & t & Ht & _ & Hc)|[(e & ?) _]]; [|done]. cbn [up_store up_opens].
  destruct (StatSize bucket (dataKey rel) w1) as [stat w2] eqn:Es. apply stat_law in Es as [Hsame Hn].
  destruct stat as [err|got].
  { intros [= <- <-]. right. split; [eauto|]. right. exists c. cbn. congruence. }
  case_bool_decide as Eg; cbn [negb].
  - intros [= <- <-]. left. destruct (Hn _ eq_refl) as (c' & Hc' & Hs). rewrite Hc, lookup_insert_eq in Hc'. injection Hc' as <-.
    eexists _, c. split_and!; [done| |cbn; congruence]. split_and!; [done|cbn; congruence|]. by exists (up_opens u), r, r', t.
  - intros [= <- <-]. right. split; [eauto|]. right. exists c. cbn. congruence.
Qed.

(** The loop changes only the keys of its files. *)
Lemma uploads_keys files u k : (forall rel, rel ∈ files -> k <> (bucket, dataKey rel)) ->
  stored (forEach (uploadFile sha256 opened bucket prefix) files u).2 !! k = stored u !! k.
Proof.
  revert u. induction files as [|rel files IH]; intros u Hk; [done|]. cbn [forEach]. rewrite EM_bind_run.
  destruct (uploadFile _ _ _ _ rel u) as [res u1] eqn:E.
  assert (stored u1 !! k = stored u !! k) as Hu.
  { assert (k <> (bucket, dataKey rel)) as Hne by (apply Hk; set_solver).
    destruct (uploadFile_spec _ _ _ _ E) as [(o & c & _ & _ & ->)|[_ [->|(c & ->)]]]; by rewrite ?lookup_insert_ne. }
  destruct res as [e|o]; [done|]. rewrite EM_bind_run. rewrite <- Hu, <- (IH u1) by set_solver.
  by destruct (forEach _ files u1) as [[e|os] u2].
Qed.

Lemma uploads_ok files u objects u' : NoDup ((fun rel => dataKey rel) <$> files) ->
  forEach (uploadFile sha256 opened bucket prefix) files u = (inr objects, u') ->
  Forall2 (fun rel o => exists c, uploaded rel o c /\ stored u' !! (bucket, dataKey rel) = Some c) files objects.
Proof.
  revert u objects. induction files as [|rel files IH]; intros u objects Hnd; cbn [forEach].
  - by intros [= <- <-].
  - cbn in Hnd. apply NoDup_cons in Hnd as [Hfresh Hnd]. rewrite EM_bind_run.
    destruct (uploadFile _ _ _ _ rel u) as [[e|o] u1] eqn:E; [done|]. rewrite EM_bind_run.
    destruct (forEach _ files u1) as [[e|os] u2] eqn:Ef; [done|]. intros [= <- <-]. constructor; [|by apply (IH u1)].
    destruct (uploadFile_spec _ _ _ _ E) as [(o' & c & [= <-] & Hup & Hc)|[[e ?] _]]; [|done]. exists c. split; [done|].
    pose proof (uploads_keys files u1 (bucket, dataKey rel)) as Hk. rewrite Ef in Hk. cbn [snd] in Hk. rewrite Hk.
    + by rewrite Hc, lookup_insert_eq.
    + intros rel' Hr [= E']. apply Hfresh. apply list_elem_of_fmap. by exists rel'.
Qed.
End uploads.

(** *** The whole upload *)

Section publication.
Context {W : Type} `{!ObjectStore W, !BucketLaws W}.
Context (sha256 : string -> string) (Marshal : BackupManifest -> option string) (opened : nat -> string -> Opened).
Context (random : option (list N)) (dir : FileTree) (rootOpens : bool) (spec : UploadSpec).
Context (Hdir : wfTree dir) (Hroot : fileAt dir [] = false).

Notation stored u := (contents (up_store u)).
Notation bucket := (us_Bucket spec).
Notation upload := (UploadBackup sha256 Marshal opened random dir rootOpens spec).

(** The files to be uploaded and where they go. *)
Record Planned (prefix : string) (paths : list (list string)) : Prop := {
  pl_prefix : uploadPrefix random spec = inr prefix;
  pl_distinct : NoDup paths;
  pl_files xs : xs ∈ paths <-> fileAt dir xs = true;
  pl_normal : Forall (fun xs => xs <> [] /\ Forall normal xs) paths }.

Definition onlyData (prefix : string) (paths : list (list string)) (u u' : Uploading (W := W)) : Prop :=
  forall k, (forall xs, xs ∈ paths -> k <> (bucket, keyBelow prefix ("backup" :: xs))) -> stored u' !! k = stored u !! k.

Definition stored_as (prefix : string) (u : Uploading (W := W)) (xs : list string) (o : ManifestObject) : Prop :=
  exists c, uploaded sha256 opened (relPath xs) o c /\ stored u !! (bucket, keyBelow prefix ("backup" :: xs)) = Some c.

Lemma planned_keys prefix paths : Planned prefix paths ->
  (fun rel => Join [prefix; "backup"; rel]) <$> (relPath <$> paths) = (fun xs => keyBelow prefix ("backup" :: xs)) <$> paths.
Proof.
  intros P. rewrite <- list_fmap_compose. apply list_fmap_ext. intros i xs Hx%list_elem_of_lookup_2.
  apply (proj1 (Forall_forall _ _) (pl_normal _ _ P)) in Hx as [H0 Hx]. by apply dataKey_eq.
Qed.

Lemma planned_distinct prefix paths : Planned prefix paths -> NoDup ((fun rel => Join [prefix; "backup"; rel]) <$> (relPath <$> paths)).
Proof.
  intros P. rewrite (planned_keys _ _ P). apply NoDup_fmap_2_strong; [|apply P]. intros xs ys Hx Hy E.
  apply (proj1 (Forall_forall _ _) (pl_normal _ _ P)) in Hx as [? ?], Hy as [? ?].
  apply keyBelow_inj in E; [by simplify_eq|done|done|by apply dataKey_normal..].
Qed.

Lemma uploads_data prefix paths u : Planned prefix paths ->
  onlyData prefix paths u (forEach (uploadFile sha256 opened bucket prefix) (relPath <$> paths) u).2.
Proof.
  intros P k Hk. apply uploads_keys. intros rel Hr.
  assert (Join [prefix; "backup"; rel] ∈ (fun rel => Join [prefix; "backup"; rel]) <$> (relPath <$> paths)) as Hin
    by (apply list_elem_of_fmap; by exists rel).
  rewrite (planned_keys _ _ P) in Hin. apply list_elem_of_fmap in Hin as (xs & -> & Hxs). by apply Hk.
Qed.

Lemma Forall2_impl_in {A B} (P R : A -> B -> Prop) (Q : A -> Prop) l k :
  Forall2 P l k -> Forall Q l -> (forall x y, Q x -> P x y -> R x y) -> Forall2 R l k.
Proof. intros H HQ Hi. induction H; [constructor|]. apply Forall_cons in HQ as [? ?]. constructor; auto. Qed.

Lemma uploads_stored prefix paths u objects u' : Planned prefix paths ->
  forEach (uploadFile sha256 opened bucket prefix) (relPath <$> paths) u = (inr objects, u') ->
  Forall2 (stored_as prefix u') paths objects.
Proof.
  intros P Hok. apply uploads_ok in Hok; [|by apply planned_distinct]. rewrite Forall2_fmap_l in Hok.
  eapply Forall2_impl_in; [exact Hok|exact (pl_normal _ _ P)|]. intros xs o [H0 Hx] (c & Hc & Hs). exists c.
  by rewrite <- dataKey_eq.
Qed.

(** What an upload did, as far as it got. *)
Inductive Uploads (u : Uploading) : (string + UploadResult) * Uploading (W := W) -> Prop :=
| NothingWritten e : Uploads u (inl e, u)
| FilesWritten prefix paths e u' : Planned prefix paths -> onlyData prefix paths u u' -> Uploads u (inl e, u')
| ManifestWritten prefix paths objects data u1 u' res : Planned prefix paths -> paths <> [] -> onlyData prefix paths u u1 ->
    Forall2 (stored_as prefix u1) paths objects -> Marshal (withObjects objects (us_Manifest spec)) = Some data ->
    stored u' = <[(bucket, keyBelow prefix [ManifestObjectName]) := data]> (stored u1) \/ (exists e, res = inl e) /\ stored u' = stored u1 ->
    (forall r, res = inr r -> ur_ManifestURI r = artifactURI bucket (Join [prefix; ManifestObjectName])) ->
    Uploads u (res, u').

Lemma manifest_put prefix data w res w' :
  Put bucket (Join [prefix; ManifestObjectName]) (mkReader data None) (sizeOf data) w = (res, w') ->
  contents w' = <[(bucket, keyBelow prefix [ManifestObjectName]) := data]> (contents w) \/ (exists e, res = inl e) /\ contents w' = contents w.
Proof.
  intros [(c & t & Ht & Hs & Hc)|[He Hc]]%put_law; [left|by right]. rewrite Hc, manifestKey_eq.
  do 2 f_equal. rewrite Hs in Ht by done. by rewrite str_app_nil_r in Ht.
Qed.

Lemma upload_cases u : Uploads u (upload u).
Proof using Hdir Hroot.
  unfold UploadBackup. destruct (uploadPrefix random spec) as [err|prefix] eqn:Epre; [constructor|].
  destruct (stagedFiles dir) as [err|files] eqn:Ef; [constructor|].
  destruct (stagedFiles_paths dir files Hdir Hroot Ef) as (paths & -> & Hnd & Hin & Hn). assert (Planned prefix paths) as P by done.
  case_bool_decide as Ene; [constructor|]. destruct rootOpens; [|constructor]. cbn [negb].
  rewrite EM_bind_run. pose proof (uploads_data prefix paths u P) as Hd.
  destruct (forEach _ (relPath <$> paths) u) as [[err|objects] u1] eqn:Efe; [by eapply FilesWritten|].
  destruct (Marshal _) as [data|] eqn:Em; [|by eapply FilesWritten]. rewrite EM_bind_run. unfold ofStore, run.
  destruct (Put _ _ _ _ _) as [put w2] eqn:Ep. apply manifest_put in Ep.
  destruct put; (eapply ManifestWritten; [exact P| |exact Hd|by apply (uploads_stored prefix paths u)|exact Em| |]).
  all: try (intros ->; done).
  - destruct Ep as [?|[_ ?]]; [by left|right; eauto].
  - done.
  - destruct Ep as [?|[[? ?] _]]; [by left|done].
  - by intros r [= <-].
Qed.
Lemma stored_object prefix paths u1 objects o : Planned prefix paths -> Forall2 (stored_as prefix u1) paths objects -> o ∈ objects ->
  exists xs c, xs ∈ paths /\ mo_Key o = objectKey xs /\ sizeOf c = mo_SizeBytes o /\ Join [prefix; mo_Key o] = keyBelow prefix ("backup" :: xs) /\
    stored u1 !! (bucket, keyBelow prefix ("backup" :: xs)) = Some c.
Proof.
  intros P H [i Hi]%list_elem_of_lookup. destruct (Forall2_lookup_r _ _ _ _ _ H Hi) as (xs & Hxs & c & (Hkey & Hs & _) & Hc).
  apply list_elem_of_lookup_2 in Hxs as Hin. destruct (proj1 (Forall_forall _ _) (pl_normal _ _ P) xs Hin) as [H0 Hn].
  exists xs, c. rewrite Hkey, objectKey_eq by done. by rewrite objectKey_below.
Qed.

(** C11: The manifest is the completion marker of an artifact.  Whatever an
    upload's result is and wherever it stopped, if the manifest's key holds
    something else than before, it holds a manifest that lists every regular
    file of the staging directory, and every object it lists is in the bucket
    at its key and of the listed size.  So a partial upload is never taken for
    a complete one. *)
Theorem manifest_published_last u res u' prefix : upload u = (res, u') -> uploadPrefix random spec = inr prefix ->
  stored u' !! (bucket, Join [prefix; ManifestObjectName]) <> stored u !! (bucket, Join [prefix; ManifestObjectName]) ->
  exists m data, Marshal m = Some data /\ stored u' !! (bucket, Join [prefix; ManifestObjectName]) = Some data /\
    (forall xs, fileAt dir xs = true -> exists o, o ∈ mf_Objects m /\ mo_Key o = objectKey xs) /\
    (forall o, o ∈ mf_Objects m -> exists c, stored u' !! (bucket, Join [prefix; mo_Key o]) = Some c /\ sizeOf c = mo_SizeBytes o).
Proof using Hdir Hroot.
  intros Hu Hpre Hne. pose proof (upload_cases u) as H. rewrite Hu in H. rewrite manifestKey_eq in *.
  assert (forall paths u1, Planned prefix paths -> onlyData prefix paths u u1 ->
    stored u1 !! (bucket, keyBelow prefix [ManifestObjectName]) = stored u !! (bucket, keyBelow prefix [ManifestObjectName])) as Hold.
  { intros paths u1 P Hd. apply Hd. intros xs Hx [= E]. destruct (proj1 (Forall_forall _ _) (pl_normal _ _ P) xs Hx) as [? ?].
    by eapply dataKey_not_manifest. }
  inversion H as [e|pre paths e u1 P Hd|pre paths objects data u1 u2 r P Hp Hd Hs Hm Hput _]; subst; [done|..];
    (assert (pre = prefix) as -> by (pose proof (pl_prefix _ _ P); congruence)); [by rewrite (Hold paths) in Hne|].
  destruct Hput as [Hput|[_ Hput]]; [|by rewrite Hput, (Hold paths) in Hne].
  eexists _, data. rewrite Hput, lookup_insert_eq. split_and!; [exact Hm|done| |]; cbn [mf_Objects withObjects].
  - intros xs Hx. apply (pl_files _ _ P) in Hx. apply list_elem_of_lookup in Hx as [i Hi].
    destruct (Forall2_lookup_l _ _ _ _ _ Hs Hi) as (o & Ho & c & (Hkey & _) & _). exists o. split; [by eapply list_elem_of_lookup_2|].
    apply list_elem_of_lookup_2 in Hi. destruct (proj1 (Forall_forall _ _) (pl_normal _ _ P) xs Hi). by rewrite Hkey, objectKey_eq.
  - intros o Ho. destruct (stored_object prefix paths u1 objects o P Hs Ho) as (xs & c & Hxs & _ & Hc & -> & Hst). exists c. split; [|done].
    rewrite lookup_insert_ne; [done|]. intros [= E]. destruct (proj1 (Forall_forall _ _) (pl_normal _ _ P) xs Hxs).
    by apply (dataKey_not_manifest prefix xs).
Qed.

(** The keys that an upload writes. *)
Lemma upload_below u res u' prefix b k : upload u = (res, u') -> uploadPrefix random spec = inr prefix ->
  stored u' !! (b, k) <> stored u !! (b, k) -> b = bucket /\ exists xs, xs <> [] /\ Forall normal xs /\ k = keyBelow prefix xs.
Proof using Hdir Hroot.
  intros Hu Hpre Hne. pose proof (upload_cases u) as H. rewrite Hu in H.
  assert (forall paths u1, Planned prefix paths -> onlyData prefix paths u u1 -> stored u1 !! (b, k) <> stored u !! (b, k) ->
    b = bucket /\ exists xs, xs <> [] /\ Forall normal xs /\ k = keyBelow prefix xs) as Hdata.
  { intros paths u1 P Hd Hk. destruct (decide (Exists (fun xs => (b, k) = (bucket, keyBelow prefix ("backup" :: xs))) paths))
      as [(xs & Hx & [= -> ->])%Exists_exists|Hno].
    - split; [done|]. exists ("backup" :: xs). destruct (proj1 (Forall_forall _ _) (pl_normal _ _ P) xs Hx). split_and!; [done|by apply dataKey_normal|done].
    - exfalso. apply Hk, Hd. intros xs Hx E. apply Hno, Exists_exists. eauto. }
  inversion H as [e|pre paths e u1 P Hd|pre paths objects data u1 u2 r P Hp Hd Hs Hm Hput _]; subst; [done|..];
    (assert (pre = prefix) as -> by (pose proof (pl_prefix _ _ P); congruence)); [by eapply Hdata|].
  destruct Hput as [Hput|[_ Hput]]; rewrite Hput in Hne; [|by eapply Hdata].
  destruct (decide ((bucket, keyBelow prefix [ManifestObjectName]) = (b, k))) as [[= <- <-]|Hk].
  - split; [done|]. exists [ManifestObjectName]. split_and!; [done|by constructor; [apply manifest_normal|]|done].
  - rewrite lookup_insert_ne in Hne by done. by eapply Hdata.
Qed.

(** Attempts do not touch each other.  An ordinary upload that drew the
    identity [id] leaves every object below the location of another identity
    as it is, in whatever bucket, whether it succeeds or fails: an artifact
    that was completed is never changed by a later attempt of the same
    backup. *)
Theorem attempts_isolated u res u' id id' b xs : us_Seed spec = false -> random = Some id ->
  isAttemptBytes id = true -> isAttemptBytes id' = true -> id <> id' -> upload u = (res, u') -> xs <> [] -> Forall normal xs ->
  let key := keyBelow (BackupAttemptPrefix (us_Prefix spec) (EncodeToString id')) xs in
  stored u' !! (b, key) = stored u !! (b, key).
Proof using Hdir Hroot.
  intros Hseed Hr Hid Hid' Hne Hu Hx Hn. cbv zeta. set (key := keyBelow _ xs).
  destruct (decide (stored u' !! (b, key) = stored u !! (b, key))) as [|Hk]; [done|exfalso].
  assert (uploadPrefix random spec = inr (BackupAttemptPrefix (us_Prefix spec) (EncodeToString id))) as Hpre
    by (unfold uploadPrefix; by rewrite Hseed, Hr).
  destruct (upload_below u res u' _ b key Hu Hpre Hk) as (_ & ys & Hy & Hny & E). subst key. unfold BackupAttemptPrefix in E.
  destruct (attempt_good id Hid) as (Hg%goodPart_normal & _), (attempt_good id' Hid') as (Hg'%goodPart_normal & _).
  rewrite !keyBelow_join in E by done. apply keyBelow_inj in E; [|done|done|by constructor|by constructor].
  injection E as E _. apply Hne. symmetry. by apply EncodeToString_inj; [apply attempt_bytes..|].
Qed.
End publication.

(** ** Staging *)

Lemma substring_whole n s : (String.length s <= n)%nat -> String.substring 0 n s = s.
Proof. revert n. induction s as [|c s IH]; intros [|n] H; cbn in *; [done|done|lia|]. f_equal. apply IH. lia. Qed.

Lemma substring_length n s : String.length (String.substring 0 n s) = Nat.min n (String.length s).
Proof. revert n. induction s as [|c s IH]; intros [|n]; cbn; [done|done|done|]. by rewrite IH. Qed.

Lemma substring_complete n s : (String.length (String.substring 0 n s) <? String.length s)%nat = false -> String.substring 0 n s = s.
Proof. rewrite substring_length. intros H%Nat.ltb_ge. apply substring_whole. lia. Qed.

Section staging.
Context {W : Type} `{!ObjectStore W, !BucketLaws W}.
Context (quote sha256 : string -> string) (Unmarshal : string -> option BackupManifest) (bucket prefix : string).

Notation stored s := (contents (sg_store s)).

(** An object of the bucket is the one a manifest lists. *)
Definition listedAs (o : ManifestObject) (c : string) : Prop := sizeOf c = mo_SizeBytes o /\ sha256 c = mo_SHA256 o.

Lemma stageObject_spec disk o s res s' : stageObject sha256 disk bucket prefix o s = (res, s') -> stored s' = stored s /\
  ((exists c, res = inr tt /\ listedAs o c /\ stored s !! (bucket, Join [prefix; mo_Key o]) = Some c /\ sg_files s' = <[mo_Key o := c]> (sg_files s)) \/
   (exists e, res = inl e) /\ forall k, k <> mo_Key o -> sg_files s' !! k = sg_files s !! k).
Proof.
  unfold stageObject, inStaging, run, writeFile, discard. unfold mbind, EM_bind, mret, EM_ret, fails.
  destruct (negb (df_mkdir (disk (mo_Key o)))); [intros [= <- <-]; split; [done|right; split; eauto]|].
  destruct (Get bucket _ (sg_store s)) as [got w] eqn:Eg. apply get_law in Eg as [Hsame Hgot]. destruct got as [err|r].
  { intros [= <- <-]. split; [done|]. right. split; eauto. }
  destruct (negb (df_create (disk (mo_Key o)))); [intros [= <- <-]; split; [done|]; right; split; eauto|]. cbn [sg_store sg_files].
  set (written := String.substring 0 _ _).
  assert (forall (removed : bool) k, k <> mo_Key o ->
    (if removed then delete (mo_Key o) (<[mo_Key o := written]> (sg_files s)) else <[mo_Key o := written]> (sg_files s)) !! k = sg_files s !! k) as Hrest.
  { intros removed k Hk. destruct removed; by rewrite ?lookup_delete_ne, lookup_insert_ne by congruence. }
  destruct (_ || _) eqn:Ew; [intros [= <- <-]; split; [done|right; split; [eauto|apply Hrest]]|].
  case_bool_decide as Es; cbn [negb]; [|intros [= <- <-]; split; [done|right; split; [eauto|apply Hrest]]].
  case_bool_decide as Eh; cbn [negb]; [|intros [= <- <-]; split; [done|right; split; [eauto|apply Hrest]]].
  intros [= <- <-]. split; [done|]. left. exists written. split_and!; [done|done| |done].
  apply orb_false_iff in Ew as [Ew Ef]. assert (written = rd_bytes r) as -> by by apply substring_complete.
  apply Hgot; [done|]. by destruct (rd_failure r).
Qed.

(** The loop over the objects. *)
Lemma stages_spec disk objects s res s' : NoDup (mo_Key <$> objects) ->
  forEach (stageObject sha256 disk bucket prefix) objects s = (res, s') -> stored s' = stored s /\
  (forall k, k ∉ mo_Key <$> objects -> sg_files s' !! k = sg_files s !! k) /\
  (forall l, res = inr l -> Forall (fun o => exists c, listedAs o c /\ stored s !! (bucket, Join [prefix; mo_Key o]) = Some c /\
     sg_files s' !! mo_Key o = Some c) objects).
Proof.
  revert s res s'. induction objects as [|o objects IH]; intros s res s' Hnd; cbn [forEach]; [intros [= <- <-]; by split_and!|].
  cbn in Hnd. apply NoDup_cons in Hnd as [Hfresh Hnd]. rewrite EM_bind_run.
  destruct (stageObject _ _ _ _ o s) as [r1 s1] eqn:E1. apply stageObject_spec in E1 as [Hs1 Hc].
  assert (forall k, k <> mo_Key o -> sg_files s1 !! k = sg_files s !! k) as Hk1.
  { intros k Hk. destruct Hc as [(c & _ & _ & _ & ->)|[_ Hr]]; [by rewrite lookup_insert_ne|by apply Hr]. }
  destruct r1 as [e|[]].
  { intros [= <- <-]. split_and!; [done|intros k Hk; apply Hk1; set_solver|done]. }
  destruct Hc as [(c & _ & Hl & Hst & Hf)|[[? ?] _]]; [|done]. rewrite EM_bind_run.
  destruct (forEach _ objects s1) as [r2 s2] eqn:E2. destruct (IH _ _ _ Hnd E2) as (Hs2 & Hk2 & Hl2).
  assert (sg_files s2 !! mo_Key o = Some c) as Hfo by (rewrite Hk2 by done; by rewrite Hf, lookup_insert_eq).
  destruct r2 as [e|l]; intros [= <- <-]; (split_and!; [congruence|intros k Hk; rewrite Hk2, Hk1 by set_solver; done|]); [done|].
  intros l' _. constructor; [by exists c|]. specialize (Hl2 l eq_refl). rewrite Hs1 in Hl2. exact Hl2.
Qed.

Lemma readManifest_ok exp w m w' : readManifest quote Unmarshal bucket prefix exp w = (inr m, w') ->
  contents w' = contents w /\ Verify quote m exp = None /\ ValidateObjectKeys quote m = None /\
  exists data, contents w !! (bucket, Join [prefix; ManifestObjectName]) = Some data /\ Unmarshal data = Some m.
Proof.
  unfold readManifest, ofError, readObject, run. unfold mbind, EM_bind, mret, EM_ret, fails.
  destruct (Get bucket _ w) as [got w1] eqn:Eg. apply get_law in Eg as [Hsame Hgot]. destruct got as [err|r]; [done|].
  destruct (rd_failure r) eqn:Ef; [done|]. unfold ParseManifest. destruct (Unmarshal (rd_bytes r)) as [m'|] eqn:Eu; [|done].
  destruct (_ != ManifestVersion); [done|]. destruct (Verify quote m' exp) eqn:Ev; [done|].
  destruct (ValidateObjectKeys quote m') eqn:Ek; [done|]. intros [= <- <-]. split_and!; try done.
  exists (rd_bytes r). split; [by apply Hgot|done].
Qed.

(** C14: What is staged is what the manifest says.  When the staging of an
    artifact returns, the manifest is the one in the bucket and meets what the
    restore requires, and every object it lists is in the staging directory at
    its key, with the listed size and digest and the bytes that are in the
    bucket.  Whether it returns or fails, every file of the directory that
    changed is named by the key of an object that the manifest in the bucket
    lists, and that key is a clean one below backup/. *)
Theorem staged_matches_manifest disk dirOpens exp s res s' :
  stageArtifact quote sha256 Unmarshal disk dirOpens bucket prefix exp s = (res, s') ->
  (forall m, res = inr m -> meets m exp /\
    (exists data, stored s !! (bucket, Join [prefix; ManifestObjectName]) = Some data /\ Unmarshal data = Some m) /\
    Forall (fun o => exists c, listedAs o c /\ stored s !! (bucket, Join [prefix; mo_Key o]) = Some c /\ sg_files s' !! mo_Key o = Some c)
      (mf_Objects m)) /\
  (forall name, sg_files s' !! name <> sg_files s !! name ->
    exists data m o elements, stored s !! (bucket, Join [prefix; ManifestObjectName]) = Some data /\ Unmarshal data = Some m /\
      o ∈ mf_Objects m /\ name = mo_Key o /\ elements <> [] /\ Forall plainElement elements /\ name = objectKey elements).
Proof.
  unfold stageArtifact, inStaging. rewrite EM_bind_run. destruct (readManifest _ _ _ _ _ _) as [[e|m] w1] eqn:Er.
  { by intros [= <- <-]. }
  apply readManifest_ok in Er as (Hsame & Hv & Hk & Hdata). apply validated_keys in Hk as [Hnd Hkeys].
  destruct (negb dirOpens); [by intros [= <- <-]|]. rewrite EM_bind_run.
  destruct (forEach _ (mf_Objects m) _) as [r2 s2] eqn:Ef. apply stages_spec in Ef as (Hs & Hfiles & Hl); [|done].
  match goal with |- _ -> _ /\ ?names => assert (sg_files s' = sg_files s2 -> names) as Hnames end.
  { intros -> name Hne. destruct (decide (name ∈ mo_Key <$> mf_Objects m)) as [Hin|Hno]; [|by rewrite Hfiles in Hne].
    apply list_elem_of_fmap in Hin as (o & -> & Ho). destruct (proj1 (Forall_forall _ _) Hkeys o Ho) as (elements & ? & ? & ?).
    destruct Hdata as (data & ? & ?). by exists data, m, o, elements. }
  destruct r2 as [e|l]; intros [= <- <-]; (split; [|by apply Hnames]); [done|]. intros m' [= <-].
  apply Verify_None in Hv as (_ & Hm & _). specialize (Hl l eq_refl). cbn [sg_store] in Hl. rewrite Hsame in Hl. done.
Qed.
End staging.

(** ** Verification *)

(** The disk takes a file whole. *)
Definition takes (fate : DiskFate) : Prop := df_mkdir fate = true /\ df_create fate = true /\ df_write fate = None.

(** A disk that takes every file. *)
Definition soundDisk (disk : string -> DiskFate) : Prop := forall name, takes (disk name).

Definition succeeded {E A} (r : E + A) : bool := match r with inr _ => true | inl _ => false end.

Section verification.
Context {W : Type} `{!ObjectStore W}.
Context (quote sha256 : string -> string) (Unmarshal : string -> option BackupManifest) (bucket prefix : string).
Context (disk : string -> DiskFate).

(** An object is staged only when it is verified, with the same calls of the
    store; where the disk takes it, it is staged exactly then. *)
Definition agreeing {A B} (sound : Prop) (staged : (string + A) * Staging (W := W)) (verified : (string + B) * W) : Prop :=
  (succeeded staged.1 = true -> succeeded verified.1 = true /\ verified.2 = sg_store staged.2) /\
  (sound -> succeeded verified.1 = true -> succeeded staged.1 = true).

Lemma stage_verifies o s : agreeing (takes (disk (mo_Key o))) (stageObject sha256 disk bucket prefix o s)
  (verifyObject sha256 bucket prefix o (sg_store s)).
Proof.
  unfold agreeing, stageObject, verifyObject, hashObject, ofError, inStaging, run, writeFile, discard.
  unfold mbind, EM_bind, mret, EM_ret, fails. unfold takes. destruct (disk (mo_Key o)) as [mk cr wr rm]. cbn [df_mkdir df_create df_write].
  destruct mk; cbn [negb]; [|split; [done|by intros (? & _)]].
  destruct (Get bucket _ (sg_store s)) as [[err|r] w]; [done|]. destruct cr; cbn [negb]; [|split; [done|by intros (_ & ? & _)]].
  set (written := String.substring 0 _ _). assert (wr = None -> written = rd_bytes r) as Hw by (intros ->; by apply substring_whole).
  destruct (String.length written <? String.length (rd_bytes r))%nat eqn:Elen; cbn [orb sg_store].
  { split; [done|]. intros (_ & _ & E). rewrite (Hw E), Nat.ltb_irrefl in Elen. done. }
  apply substring_complete in Elen as Ewr. fold written in Ewr. rewrite Ewr.
  destruct (rd_failure r); cbn [non_nil is_nil negb]; [done|].
  destruct (sizeOf _ != _); [done|]. by destruct (sha256 _ != _).
Qed.

Lemma stages_verify objects s : agreeing (Forall (fun o => takes (disk (mo_Key o))) objects)
  (forEach (stageObject sha256 disk bucket prefix) objects s) (forEach (verifyObject sha256 bucket prefix) objects (sg_store s)).
Proof.
  revert s. induction objects as [|o objects IH]; intros s; [done|]. cbn [forEach]. rewrite !EM_bind_run.
  destruct (stage_verifies o s) as [Ho Hb]. destruct (stageObject _ _ _ _ o s) as [[e1|x1] s1], (verifyObject _ _ _ o _) as [[e2|x2] w2]; cbn in Ho, Hb.
  - done.
  - split; [done|]. intros [Ht _]%Forall_cons _. by specialize (Hb Ht eq_refl).
  - by destruct (Ho eq_refl).
  - destruct (Ho eq_refl) as [_ ->]. rewrite !EM_bind_run. destruct (IH s1) as [H1 H2].
    destruct (forEach _ objects s1) as [[] s2], (forEach _ objects (sg_store s1)) as [[] w3]; split; cbn in *; try done.
    intros [_ Ht]%Forall_cons. by apply H2.
Qed.

(** C23: Verification and staging agree, whatever the object store answers.
    What stageArtifact stages, with whatever the disk does, VerifyArtifact
    accepts with the same manifest; and what VerifyArtifact accepts is staged
    with the same manifest when the directory opens and the disk takes each
    file the manifest lists.  So verification is neither stricter nor weaker
    than the check a restore makes while it reads; only the disk can make a
    restore fail after it, as it does when one listed key lies below
    another. *)
Theorem verify_agrees_with_stage exp w files m :
  (forall dirOpens s', stageArtifact quote sha256 Unmarshal disk dirOpens bucket prefix exp (mkStaging w files) = (inr m, s') ->
     VerifyArtifact quote sha256 Unmarshal bucket prefix exp w = (inr m, sg_store s')) /\
  (forall w', VerifyArtifact quote sha256 Unmarshal bucket prefix exp w = (inr m, w') ->
     (forall o, o ∈ mf_Objects m -> takes (disk (mo_Key o))) ->
     exists files', stageArtifact quote sha256 Unmarshal disk true bucket prefix exp (mkStaging w files) = (inr m, mkStaging w' files')).
Proof.
  unfold VerifyArtifact, stageArtifact, inStaging. split; [intros dirOpens s'|intros w']; rewrite !EM_bind_run; cbn [sg_store sg_files].
  all: destruct (readManifest _ _ _ _ _ w) as [[e|m1] w1]; [done|].
  all: destruct (stages_verify (mf_Objects m1) (mkStaging w1 files)) as [H1 H2]; cbn [sg_store] in H1, H2.
  - destruct dirOpens; cbn [negb]; [|done]. rewrite !EM_bind_run.
    destruct (forEach _ _ (mkStaging w1 files)) as [[e1|l1] s1]; [done|]. intros [= <- <-]. destruct (H1 eq_refl) as [Hok Hw]. cbn in Hw. rewrite <- Hw.
    by destruct (forEach _ _ w1) as [[e2|l2] w2].
  - cbn [negb]. rewrite !EM_bind_run. destruct (forEach (verifyObject _ _ _) _ w1) as [[e2|l2] w2]; [done|]. intros [= <- <-] Ht.
    destruct (forEach _ _ (mkStaging w1 files)) as [[e1|l1] s1].
    + assert (false = true) by (apply H2; [by apply Forall_forall|done]). done.
    + destruct (H1 eq_refl) as [_ Hw]. cbn in Hw. subst w2. exists (sg_files s1). by destruct s1.
Qed.
End verification.

(** ** What was uploaded can be restored *)

Definition isUTF8 (s : string) : Prop := stringOfRunes (runes s) = s.

(** A manifest that JSON can carry. *)
Definition utf8Manifest (m : BackupManifest) : Prop :=
  Forall isUTF8 [mf_Database m; mf_ClusterUID m; mf_CubridVersion m; mf_SourceInstance m; mf_SourceRole m; mf_CreatedAt m; mf_OperationID m] /\
  Forall (fun o => isUTF8 (mo_Key o) /\ isUTF8 (mo_SHA256 o)) (mf_Objects m).

Lemma isUTF8_below s : isUTF8 s -> isUTF8 ("backup/" +:+ s).
Proof.
  unfold isUTF8. intros H. rewrite runes_app_ascii_l by (by repeat constructor). unfold stringOfRunes, encodeRunes in *.
  rewrite bind_app, stringOfBytes_app, H. done.
Qed.

Section roundtrip.
Context {W : Type} `{!ObjectStore W, !BucketLaws W}.
Context (quote sha256 : string -> string) (Marshal : BackupManifest -> option string) (Unmarshal : string -> option BackupManifest).
(** JSON decodes what it encoded; the store answers reads of what it has. *)
Context (Hjson : forall m data, utf8Manifest m -> Marshal m = Some data -> Unmarshal data = Some m).
Context (Hget : forall bucket key w c, contents w !! (bucket, key) = Some c -> exists w', Get bucket key w = (inr (mkReader c None), w')).
Context (opened : nat -> string -> Opened) (random : option (list N)) (dir : FileTree) (rootOpens : bool) (spec : UploadSpec).
Context (Hdir : wfTree dir) (Hroot : fileAt dir [] = false).
(** The staged files do not change while they are uploaded, and their names
    are usable as keys. *)
Context (content : list string -> string).
Context (Hopen : forall n xs, fileAt dir xs = true -> opened n (relPath xs) = OpenedFile (mkReader (content xs) None)).
Context (Hnames : forall xs, fileAt dir xs = true -> Forall plainElement xs /\ isUTF8 (relPath xs)).
Context (Hutf8 : utf8Manifest (withObjects [] (us_Manifest spec))) (Hsha : forall c, isUTF8 (sha256 c)).
Context (disk : string -> DiskFate) (Hdisk : soundDisk disk).

Notation bucket := (us_Bucket spec).

Lemma stageObject_succeeds prefix o s c : contents (sg_store s) !! (bucket, Join [prefix; mo_Key o]) = Some c -> listedAs sha256 o c ->
  succeeded (stageObject sha256 disk bucket prefix o s).1 = true.
Proof using Hget Hdisk.
  intros Hc [Hs Hh]. destruct (stage_verifies sha256 bucket prefix disk o s) as [_ Hv]. apply Hv; [apply Hdisk|].
  unfold verifyObject, hashObject, ofError, run. unfold mbind, EM_bind, mret, EM_ret, fails.
  destruct (Hget _ _ _ _ Hc) as [w' ->]. cbn [rd_failure rd_bytes]. by rewrite Hs, Hh, !bool_decide_eq_true_2 by done.
Qed.

Lemma stages_succeed prefix objects s :
  Forall (fun o => exists c, contents (sg_store s) !! (bucket, Join [prefix; mo_Key o]) = Some c /\ listedAs sha256 o c) objects ->
  succeeded (forEach (stageObject sha256 disk bucket prefix) objects s).1 = true.
Proof using Hget Hdisk.
  revert s. induction objects as [|o objects IH]; intros s H; [done|]. apply Forall_cons in H as [(c & Hc & Hl) H]. cbn [forEach].
  rewrite EM_bind_run. pose proof (stageObject_succeeds prefix o s c Hc Hl) as Ho.
  destruct (stageObject _ _ _ _ o s) as [[e|x] s1] eqn:E1; [done|]. apply stageObject_spec in E1 as [Hsame _]. rewrite EM_bind_run.
  specialize (IH s1). rewrite Hsame in IH. specialize (IH H). by destruct (forEach _ objects s1) as [[] s2].
Qed.

(** An uploaded file is its content. *)
Lemma uploaded_content xs o c : fileAt dir xs = true -> uploaded sha256 opened (relPath xs) o c ->
  c = content xs /\ mo_SizeBytes o = sizeOf (content xs) /\ mo_SHA256 o = sha256 (content xs).
Proof using Hopen.
  intros Hf (_ & Hs & n & r & r' & t & H1 & _ & Hsz & Hh & H2 & Hb). rewrite Hopen in H1, H2 by done. simplify_eq. cbn [rd_bytes] in *.
  split_and!; [|done|done]. rewrite Hsz in Hs. unfold sizeOf in Hs. apply (f_equal String.length) in Hb as Hl. rewrite str_length_app in Hl.
  assert (String.length t = 0%nat) as Ht by lia. destruct t; [|done]. by rewrite str_app_nil_r in Hb.
Qed.

(** The manifest that an upload publishes is accepted. *)
Lemma published_accepted prefix paths objects u exp : Planned random dir spec prefix paths -> paths <> [] ->
  Forall2 (stored_as sha256 opened spec prefix u) paths objects -> meets (us_Manifest spec) exp ->
  let m := withObjects objects (us_Manifest spec) in
  utf8Manifest m /\ Verify quote m exp = None /\ ValidateObjectKeys quote m = None.
Proof using Hnames Hutf8 Hsha.
  intros P Hp Hs Hm. cbv zeta.
  assert (Forall (fun xs => fileAt dir xs = true) paths) as Hfiles by (apply Forall_forall; intros xs Hx; by apply (pl_files _ _ _ _ _ P)).
  assert (mo_Key <$> objects = objectKey <$> paths) as Hkeys.
  { symmetry. apply list_eq_Forall2, Forall2_fmap. eapply Forall2_impl_in; [exact Hs|exact (pl_normal _ _ _ _ _ P)|].
    intros xs o [H0 Hn] (c & (Hk & _) & _). cbn. by rewrite Hk, objectKey_eq. }
  split_and!.
  - destruct Hutf8 as [Hu _]. split; [exact Hu|]. apply Forall_forall. intros o Ho. cbn [withObjects mf_Objects] in Ho.
    apply list_elem_of_lookup in Ho as [i Hi]. destruct (Forall2_lookup_r _ _ _ _ _ Hs Hi) as (xs & Hxs & c & Hup & _).
    apply list_elem_of_lookup_2 in Hxs. destruct (proj1 (Forall_forall _ _) (pl_normal _ _ _ _ _ P) xs Hxs) as [H0 Hn].
    destruct (Hnames xs) as [_ Hutf]; [by apply (pl_files _ _ _ _ _ P)|].
    destruct Hup as (Hk & _ & n & r & r' & t & _ & _ & _ & Hh & _). rewrite Hh. split; [|apply Hsha].
    rewrite Hk, objectKey_eq by done. unfold objectKey. rewrite strJoin_cons, <- relPath_eq by done. by apply (isUTF8_below (relPath xs)).
  - apply Verify_None. split_and!; [done|exact Hm|]. cbn. intros ->. inversion Hs. by subst.
  - apply validated_keys. cbn [withObjects mf_Objects]. split.
    + rewrite Hkeys. apply NoDup_fmap_2_strong; [|apply P]. intros xs ys Hx Hy E. unfold objectKey in E.
      apply (proj1 (Forall_forall _ _) (pl_normal _ _ _ _ _ P)) in Hx as [? ?], Hy as [? ?].
      apply (f_equal (Split chSlash)) in E. rewrite !Split_join in E by (done || by apply dataKey_normal). by injection E.
    + apply Forall_forall. intros o Ho. assert (mo_Key o ∈ objectKey <$> paths) as (xs & Hk & Hx)%list_elem_of_fmap
        by (rewrite <- Hkeys; apply list_elem_of_fmap; by exists o).
      exists xs. destruct (proj1 (Forall_forall _ _) (pl_normal _ _ _ _ _ P) xs Hx). split_and!; [done| |done].
      apply Hnames. by apply (pl_files _ _ _ _ _ P).
Qed.
(** A file of the directory as an object of the bucket. *)
Definition published (prefix : string) (w : W) (xs : list string) (o : ManifestObject) : Prop :=
  mo_Key o = objectKey xs /\ contents w !! (bucket, Join [prefix; mo_Key o]) = Some (content xs) /\ listedAs sha256 o (content xs).

Lemma stored_published prefix paths objects u1 w data : Planned random dir spec prefix paths ->
  Forall2 (stored_as sha256 opened spec prefix u1) paths objects ->
  contents w = <[(bucket, keyBelow prefix [ManifestObjectName]) := data]> (contents (up_store u1)) ->
  Forall2 (published prefix w) paths objects.
Proof using Hopen.
  intros P Hs Hw. apply Forall2_same_length_lookup. split; [by eapply Forall2_length|]. intros j xs o Hj Ho.
  destruct (Forall2_lookup_lr _ _ _ _ _ _ Hs Hj Ho) as (c & Hup & Hc). apply list_elem_of_lookup_2 in Hj.
  destruct (proj1 (Forall_forall _ _) (pl_normal _ _ _ _ _ P) xs Hj) as [H0 Hn]. apply (pl_files _ _ _ _ _ P) in Hj as Hf.
  destruct (uploaded_content xs o c Hf Hup) as (-> & Hsz & Hh). destruct Hup as (Hkey & _). unfold published.
  rewrite Hkey, objectKey_eq, objectKey_below, Hw, lookup_insert_ne by (done || intros [= E]; symmetry in E; by apply dataKey_not_manifest in E).
  done.
Qed.

(** A published artifact is staged. *)
Lemma stage_published prefix paths m data exp w files : Forall2 (published prefix w) paths (mf_Objects m) ->
  contents w !! (bucket, Join [prefix; ManifestObjectName]) = Some data -> Unmarshal data = Some m ->
  mf_ManifestVersion m = ManifestVersion -> Verify quote m exp = None -> ValidateObjectKeys quote m = None ->
  exists s', stageArtifact quote sha256 Unmarshal disk true bucket prefix exp (mkStaging w files) = (inr m, s') /\
    forall xs, xs ∈ paths -> sg_files s' !! objectKey xs = Some (content xs).
Proof using Hget Hdisk.
  intros Hp Hdata Hun Hver Hv Hk. unfold stageArtifact, inStaging. rewrite EM_bind_run. cbn [sg_store sg_files negb].
  destruct (Hget bucket (Join [prefix; ManifestObjectName]) w data Hdata) as [w1 Hw1].
  assert (readManifest quote Unmarshal bucket prefix exp w = (inr m, w1)) as ->.
  { unfold readManifest, ofError, readObject, run. unfold mbind, EM_bind, mret, EM_ret, fails. rewrite Hw1. cbn [rd_failure rd_bytes].
    rewrite Hun. unfold ParseManifest. rewrite bool_decide_eq_true_2 by done. cbn [negb]. by rewrite Hv, Hk. }
  apply get_law in Hw1 as [Hsame _]. rewrite EM_bind_run.
  pose proof (stages_succeed prefix (mf_Objects m) (mkStaging w1 files)) as Hgo. cbn [sg_store] in Hgo. rewrite Hsame in Hgo.
  destruct (forEach _ (mf_Objects m) _) as [[e|l] s2] eqn:Ef.
  { discriminate Hgo. apply Forall_forall. intros o [j Hj]%list_elem_of_lookup.
    destruct (Forall2_lookup_r _ _ _ _ _ Hp Hj) as (xs & _ & _ & ? & ?). eauto. }
  exists s2. split; [done|]. apply validated_keys in Hk as [Hnd _]. apply (stages_spec quote _ Unmarshal) in Ef as (_ & _ & Hl); [|done].
  intros xs [j Hj]%list_elem_of_lookup. destruct (Forall2_lookup_l _ _ _ _ _ Hp Hj) as (o & Ho & Hkey & Hc & _).
  apply list_elem_of_lookup_2 in Ho. specialize (Hl l eq_refl). rewrite Forall_forall in Hl. destruct (Hl o Ho) as (c & _ & Hc' & Hst).
  cbn [sg_store] in Hc'. rewrite Hsame in Hc'. rewrite <- Hkey, Hst. congruence.
Qed.

(** C12: What was uploaded can be restored.  When an upload of files that do not
    change meanwhile has returned, and the bucket still has what it had then,
    the staging of the prefix its URI names succeeds for every expectation the
    artifact meets, and each file of the backup is in the staging directory
    with exactly its bytes.  This needs names that are usable as keys: an upload
    takes a name with a backslash, which the staging then refuses. *)
Theorem upload_then_stage u result u' exp w files :
  UploadBackup sha256 Marshal opened random dir rootOpens spec u = (inr result, u') -> meets (us_Manifest spec) exp ->
  contents w = contents (up_store u') ->
  exists prefix m s', uploadPrefix random spec = inr prefix /\ ur_ManifestURI result = artifactURI bucket (Join [prefix; ManifestObjectName]) /\
    stageArtifact quote sha256 Unmarshal disk true bucket prefix exp (mkStaging w files) = (inr m, s') /\
    forall xs, fileAt dir xs = true -> sg_files s' !! objectKey xs = Some (content xs).
Proof using All.
  intros Hu Hm Hw. pose proof (upload_cases sha256 Marshal opened random dir rootOpens spec Hdir Hroot u) as H. rewrite Hu in H.
  inversion H as [| |prefix paths objects data u1 u2 r P Hp Hd Hs Hma Hput Huri]; subst.
  destruct Hput as [Hput|[[? ?] _]]; [|done]. destruct (published_accepted prefix paths objects u1 exp P Hp Hs Hm) as (Hutf & Hv & Hk).
  exists prefix, (withObjects objects (us_Manifest spec)). rewrite <- Hw in Hput.
  destruct (stage_published prefix paths (withObjects objects (us_Manifest spec)) data exp w files) as (s' & Hst & Hf); try done.
  - by eapply stored_published.
  - by rewrite Hput, manifestKey_eq, lookup_insert_eq.
  - by apply Hjson.
  - exists s'. split_and!; [apply P|by apply Huri|done|]. intros xs Hx. apply Hf. by apply (pl_files _ _ _ _ _ P).
Qed.
End roundtrip.

(** ** Examples: a bucket in memory *)

Lemma substring_prefix n s : exists t, s = String.substring 0 n s +:+ t.
Proof.
  revert n. induction s as [|c s IH]; intros [|n]; [by exists ""|by exists ""|by exists (String.String c s)|].
  destruct (IH n) as [t Ht]. exists t. exact (f_equal (String.String c) Ht).
Qed.

Notation Bucket := (gmap (string * string) string).

#[local] Instance bucket_store : ObjectStore Bucket := {
  Put b k r n w := (inr (sizeOf (rd_bytes r)), <[(b, k) := String.substring 0 (Z.to_nat n) (rd_bytes r)]> w);
  StatSize b k w := (match w !! (b, k) with Some c => inr (sizeOf c) | None => inl "no such key" end, w);
  Get b k w := (match w !! (b, k) with Some c => inr (mkReader c None) | None => inl "no such key" end, w) }.

#[local, refine] Instance bucket_laws : BucketLaws Bucket := { contents w := w }.
Proof.
  - intros b k r n w res w' [= <- <-]. left.
    destruct (substring_prefix (Z.to_nat n) (rd_bytes r)) as [t Ht]. eexists _, t. split_and!; [exact Ht| |done]. intros _ Hn.
    apply (f_equal String.length) in Ht. rewrite str_length_app, substring_length in Ht. unfold sizeOf in Hn.
    assert (String.length t = 0%nat) as H0 by lia. by destruct t.
  - intros b k w res w' [= <- <-]. split; [done|]. intros n. cbn. destruct (w !! (b, k)) as [c|] eqn:Ew; [|done]. intros [= <-]. by exists c.
  - intros b k w res w' [= <- <-]. split; [done|]. intros r. cbn. destruct (w !! (b, k)) as [c|] eqn:Ew; [|done]. by intros [= <-].
Defined.

Module BucketExample.
Definition dir : FileTree := Directory [("db_bk0v000", RegularFile); ("lob", Directory [("ces_1", RegularFile)])].
Definition content (xs : list string) : string := "bytes of " +:+ relPath xs.
Definition opened (n : nat) (rel : string) : Opened := OpenedFile (mkReader ("bytes of " +:+ rel) None).
Definition digest (c : string) : string := if c == content ["db_bk0v000"] then "d1" else "d2".
Definition base : BackupManifest := mkManifest 0 "db" "u1" "11.4.0.1" 0 "c-1" "master" "2024-05-01T00:00:00Z" "op-1" [].
Definition manifest : BackupManifest :=
  withObjects [mkObject "backup/db_bk0v000" 19 "d1"; mkObject "backup/lob/ces_1" 18 "d2"] base.
Definition Marshal (m : BackupManifest) : option string := if m == manifest then Some "the manifest" else None.
Definition Unmarshal (data : string) : option BackupManifest := if data == "the manifest" then Some manifest else None.
Definition spec : UploadSpec := mkUploadSpec "/staging" "backups" "daily" base false.
Definition id : list N := N.of_nat <$> seq 3 16.
Definition id' : list N := N.of_nat <$> seq 4 16.
Definition start : Uploading (W := Bucket) := mkUploading ∅ 0.
Definition upload := UploadBackup digest Marshal opened (Some id) dir true spec.
Definition prefix : string := BackupAttemptPrefix "daily" (EncodeToString id).
Definition exp : ManifestExpectation := mkExpectation "db" "11.4" (Some 0) "master" "c-1" "u1".
Definition disk (_ : string) : DiskFate := mkFate true true None true.

Lemma dir_wf : wfTree dir.
Proof.
  constructor; [apply NoDup_cons; split; [|apply NoDup_singleton]; by intros ?%list_elem_of_singleton|by repeat constructor|].
  constructor; [constructor|]. constructor; [|constructor]. constructor; [apply NoDup_singleton|by repeat constructor|].
  constructor; constructor.
Qed.

Lemma dir_files xs : fileAt dir xs = true -> xs = ["db_bk0v000"] \/ xs = ["lob"; "ces_1"].
Proof.
  destruct xs as [|x xs]; [done|]. cbn. repeat case_bool_decide; subst; try done.
  - destruct xs; [auto|done].
  - destruct xs as [|y xs]; [done|]. cbn. case_bool_decide; subst; [|done]. destruct xs; [auto|done].
Qed.

Lemma dir_names xs : fileAt dir xs = true -> Forall plainElement xs /\ isUTF8 (relPath xs).
Proof. intros [-> | ->]%dir_files; (split; [repeat constructor; done|by vm_compute]). Qed.

Lemma base_utf8 : utf8Manifest (withObjects [] base).
Proof. split; [repeat constructor; by vm_compute|constructor]. Qed.

Lemma digest_utf8 c : isUTF8 (digest c).
Proof. unfold digest. by destruct (c == _); vm_compute. Qed.

Lemma json_ok m data : utf8Manifest m -> Marshal m = Some data -> Unmarshal data = Some m.
Proof. intros _. unfold Marshal, Unmarshal. case_bool_decide as E; [|done]. intros [= <-]. by rewrite bool_decide_eq_true_2, E. Qed.

Lemma get_ok (b k : string) (w : Bucket) (c : string) : contents w !! (b, k) = Some c -> exists w', Get b k w = (inr (mkReader c None), w').
Proof. cbv [Get bucket_store contents bucket_laws]. intros H. exists w. by rewrite H. Qed.

Lemma disk_sound : soundDisk disk.
Proof. by intros name. Qed.

Lemma base_meets : meets base exp.
Proof. repeat split; try (by right); try (right; split; by vm_compute). by intros level [= <-]. Qed.
End BucketExample.

Lemma paired {A B} (x : A) (p : A * B) : p.1 = x -> p = (x, p.2).
Proof. destruct p. by intros <-. Qed.

Lemma manifest_published_last_witness :
  exists m data, BucketExample.Marshal m = Some data /\
    contents (up_store (BucketExample.upload BucketExample.start).2) !! ("backups", Join [BucketExample.prefix; ManifestObjectName]) = Some data.
Proof.
  destruct (manifest_published_last BucketExample.digest BucketExample.Marshal BucketExample.opened (Some BucketExample.id) BucketExample.dir true
    BucketExample.spec BucketExample.dir_wf eq_refl BucketExample.start (BucketExample.upload BucketExample.start).1
    (BucketExample.upload BucketExample.start).2 BucketExample.prefix) as (m & data & H1 & H2 & _);
    [exact (surjective_pairing (BucketExample.upload BucketExample.start))|reflexivity|vm_compute; discriminate|].
  exists m, data. exact (conj H1 H2).
Defined.

Lemma attempts_isolated_witness :
  let key := keyBelow (BackupAttemptPrefix "daily" (EncodeToString BucketExample.id')) [ManifestObjectName] in
  let u := mkUploading (W := Bucket) {[("backups", key) := "another"]} 0 in
  contents (up_store (BucketExample.upload u).2) !! ("backups", key) = contents (up_store u) !! ("backups", key).
Proof.
  intros key u. apply (attempts_isolated BucketExample.digest BucketExample.Marshal BucketExample.opened (Some BucketExample.id) BucketExample.dir true
    BucketExample.spec BucketExample.dir_wf eq_refl u (BucketExample.upload u).1 (BucketExample.upload u).2 BucketExample.id BucketExample.id'
    "backups" [ManifestObjectName]).
  - reflexivity.
  - reflexivity.
  - vm_compute; reflexivity.
  - vm_compute; reflexivity.
  - discriminate.
  - exact (surjective_pairing (BucketExample.upload u)).
  - discriminate.
  - constructor; [exact manifest_normal|constructor].
Defined.

Lemma upload_then_stage_witness : exists m s',
  stageArtifact quoted BucketExample.digest BucketExample.Unmarshal BucketExample.disk true "backups" BucketExample.prefix BucketExample.exp
    (mkStaging (up_store (BucketExample.upload BucketExample.start).2) ∅) = (inr m, s') /\
  sg_files s' !! "backup/lob/ces_1" = Some "bytes of lob/ces_1".
Proof.
  destruct (upload_then_stage quoted BucketExample.digest BucketExample.Marshal BucketExample.Unmarshal BucketExample.json_ok BucketExample.get_ok
    BucketExample.opened (Some BucketExample.id) BucketExample.dir true BucketExample.spec BucketExample.dir_wf eq_refl BucketExample.content
    (fun _ _ _ => eq_refl) BucketExample.dir_names BucketExample.base_utf8 BucketExample.digest_utf8 BucketExample.disk BucketExample.disk_sound
    BucketExample.start (mkUploadResult "s3://backups/daily/attempt-030405060708090a0b0c0d0e0f101112/manifest.json" "d2" 37)
    (BucketExample.upload BucketExample.start).2 BucketExample.exp (up_store (BucketExample.upload BucketExample.start).2) ∅)
    as (prefix & m & s' & Hp & _ & Hs & Hf); [apply (paired _ (BucketExample.upload BucketExample.start)); vm_compute; reflexivity|exact BucketExample.base_meets|reflexivity|].
  injection Hp as <-. exists m, s'. split; [exact Hs|]. exact (Hf ["lob"; "ces_1"] eq_refl).
Defined.

Lemma staged_matches_manifest_witness :
  exists m s', stageArtifact quoted BucketExample.digest BucketExample.Unmarshal BucketExample.disk true "backups" BucketExample.prefix
    BucketExample.exp (mkStaging (up_store (BucketExample.upload BucketExample.start).2) ∅) = (inr m, s') /\ meets m BucketExample.exp.
Proof.
  set (run := stageArtifact quoted BucketExample.digest BucketExample.Unmarshal BucketExample.disk true "backups" BucketExample.prefix
    BucketExample.exp (mkStaging (up_store (BucketExample.upload BucketExample.start).2) ∅)).
  exists BucketExample.manifest, run.2. assert (run = (inr BucketExample.manifest, run.2)) as E by (apply paired; vm_compute; reflexivity). split; [exact E|].
  exact (proj1 (proj1 (staged_matches_manifest quoted BucketExample.digest BucketExample.Unmarshal "backups" BucketExample.prefix BucketExample.disk
    true BucketExample.exp _ _ _ E) BucketExample.manifest eq_refl)).
Defined.

Lemma verify_agrees_with_stage_witness :
  let w := up_store (BucketExample.upload BucketExample.start).2 in
  exists files', stageArtifact quoted BucketExample.digest BucketExample.Unmarshal BucketExample.disk true "backups" BucketExample.prefix
    BucketExample.exp (mkStaging w ∅) = (inr BucketExample.manifest, mkStaging w files').
Proof.
  intros w. apply (verify_agrees_with_stage quoted BucketExample.digest BucketExample.Unmarshal "backups" BucketExample.prefix BucketExample.disk
    BucketExample.exp w ∅).
  - apply (paired (B := Bucket)). vm_compute. reflexivity.
  - intros o _. exact (BucketExample.disk_sound (mo_Key o)).
Defined.
