(* ===== verification/BootstrapSafety.v ===== *)
(** * What the bootstrap promises

    Theorems about the bootstrap of a database (HABootstrap.v): who is copied
    from whom, what makes a member count as seeded, which keys name which
    operation, and what every sequence of reconciles keeps. *)
From stdpp Require Import prelude gmap strings pretty list.
From Stdlib Require Import Ascii String.
From S2P Require Import Prelude GoState Api GoStr Utf8 Engine HARole OpStore ManifestURI ImClient BackupController HABootstrap Recovery.

(** ** Entries of the status *)

Lemma find_update name f l :
  (forall s, ds_Name (f s) = ds_Name s) ->
  findDatabase name (updateDatabase name f l) = f <$> findDatabase name l.
Proof.
  intros Hf. induction l as [|s l IH]; [done|]. cbn [findDatabase updateDatabase].
  destruct (bool_decide (ds_Name s = name)) eqn:E; cbn [findDatabase]; rewrite ?Hf, E; [done|apply IH].
Qed.

Lemma find_name name l s : findDatabase name l = Some s -> ds_Name s = name.
Proof. induction l as [|s' l IH]; [done|]. cbn [findDatabase]. case_bool_decide; [naive_solver|apply IH]. Qed.

Lemma find_snoc name l s : findDatabase name l = None -> findDatabase name (l ++ [s]) = if ds_Name s == name then Some s else None.
Proof.
  induction l as [|s' l IH]; cbn [findDatabase app]; [done|].
  destruct (bool_decide (ds_Name s' = name)); [done|apply IH].
Qed.

(** What no handler of the bootstrap changes. *)
Record SameCluster (c c' : CubridCluster) : Prop := {
  same_name : cl_Name c' = cl_Name c;
  same_uid : cl_UID c' = cl_UID c;
  same_spec : cl_Spec c' = cl_Spec c;
  same_instances : st_Instances (cl_Status c') = st_Instances (cl_Status c) }.

#[global] Instance SameCluster_preorder : PreOrder SameCluster.
Proof. split; [done|]. intros c1 c2 c3 [] []. split; congruence. Qed.

Section entries.
Context (database : string).

Definition found (w : BW) : option DatabaseStatus := findDatabase database (st_Databases (cl_Status (bw_cluster w))).
Definition entry (w : BW) : DatabaseStatus := entryOf database (bw_cluster w).

(** A relation on the entry of the database that a change of the state keeps:
    the entry stays when there is one, and is related to what it was. *)
Definition on_entry (Q : DatabaseStatus -> DatabaseStatus -> Prop) (w w' : BW) : Prop :=
  SameCluster (bw_cluster w) (bw_cluster w') /\
  forall s, found w = Some s -> exists s', found w' = Some s' /\ Q s s'.

#[global] Instance on_entry_preorder Q : PreOrder Q -> PreOrder (on_entry Q).
Proof.
  intros HQ. split.
  - intros w. split; [done|]. intros s Hs. exists s. by split.
  - intros w1 w2 w3 [H1 K1] [H2 K2]. split; [by transitivity (bw_cluster w2)|]. intros s Hs.
    destruct (K1 s Hs) as (s2 & Hs2 & Q2). destruct (K2 s2 Hs2) as (s3 & Hs3 & Q3). exists s3. split; [done|].
    by transitivity s2.
Qed.

Lemma entry_found w s : found w = Some s -> entry w = s.
Proof. unfold entry, entryOf, found. by intros ->. Qed.

Section steps.
Context `{O : ConditionOps} (Q : DatabaseStatus -> DatabaseStatus -> Prop) `{!PreOrder Q}.

Lemma entry_mod f : (forall s, ds_Name (f s) = ds_Name s) -> (forall s, Q s (f s)) -> keeps (on_entry Q) (modDB database f).
Proof.
  intros Hn Hf w. split; [done|]. intros s Hs. exists (f s). split; [|done].
  unfold found in *. cbn. by rewrite find_update, Hs.
Qed.

Lemma entry_event t reason msg : keeps (on_entry Q) (statusEvent t reason msg).
Proof. intros w. split; [done|]. intros s Hs. by exists s. Qed.
Lemma entry_condition st reason msg : keeps (on_entry Q) (setBootstrapReady st reason msg).
Proof. intros w. split; [done|]. intros s Hs. by exists s. Qed.
Lemma entry_notReady reason msg : keeps (on_entry Q) (notReady reason msg).
Proof. apply entry_condition. Qed.
Lemma entry_clock env : keeps (on_entry Q) (clock env).
Proof. intros w. split; [done|]. intros s Hs. by exists s. Qed.
Lemma entry_operate env c : keeps (on_entry Q) (operate env database c).
Proof. intros w. split; [done|]. intros s Hs. by exists s. Qed.
Lemma entry_find env p k key : keeps (on_entry Q) (findOperation env database p k key).
Proof. intros w. split; [done|]. intros s Hs. by exists s. Qed.
Lemma entry_get : keeps (on_entry Q) (getDB database).
Proof. apply keeps_read, _. Qed.
Lemma entry_cluster : keeps (on_entry Q) theCluster.
Proof. apply keeps_read, _. Qed.
Lemma entry_boot f : keeps (on_entry Q) (modBoot f).
Proof. intros w. split; [done|]. intros s Hs. by exists s. Qed.
End steps.
End entries.

(** The object besides its status. *)
Definition objectOf (c : CubridCluster) : string * string * string * Z * CubridClusterSpec :=
  (cl_Name c, cl_Namespace c, cl_UID c, cl_Generation c, cl_Spec c).
Definition bootstrapOf (w : BW) : option BootstrapStatus := st_Bootstrap (cl_Status (bw_cluster w)).

Lemma databaseStatus_found database w : found database (databaseStatus database w).2 = Some (entry database w) /\
  bw_log (databaseStatus database w).2 = bw_log w /\ bootstrapOf (databaseStatus database w).2 = bootstrapOf w /\
  SameCluster (bw_cluster w) (bw_cluster (databaseStatus database w).2).
Proof.
  unfold databaseStatus, found, entry, entryOf. cbn [snd].
  destruct (findDatabase database (st_Databases (cl_Status (bw_cluster w)))) as [s|] eqn:E; [by rewrite E|].
  cbn. by rewrite find_snoc, bool_decide_eq_true_2.
Qed.

Lemma databaseStatus_object database w : objectOf (bw_cluster (databaseStatus database w).2) = objectOf (bw_cluster w).
Proof. unfold databaseStatus. cbn [snd]. by destruct (findDatabase _ _). Qed.

Lemma entry_stepFailed `{O : ConditionOps} database Q `{!PreOrder Q} reason msg :
  (forall a s, Q s (set_ds_BootstrapAttempts a s)) -> (forall s, Q s (set_ds_Phase databasePhaseFailed s)) ->
  keeps (on_entry database Q) (bootstrapStepFailed database reason msg).
Proof.
  intros Ha Hp. unfold bootstrapStepFailed. apply (keeps_bind _); [apply entry_get, _|intros s].
  destruct (_ <? _); repeat (apply (keeps_bind _); [|intros ?]);
    first [by apply entry_mod|apply entry_notReady, _|apply entry_event, _].
Qed.

#[export] Hint Resolve entry_event entry_condition entry_notReady entry_clock entry_operate entry_find entry_get entry_cluster
  entry_boot : keeps.

(** ** Parts of the handlers

    A relation on entries that allows a failed attempt, a stop, a missing
    record and a change of the record of a copy is kept by every part of the
    seeding of a member but its last. *)
Section parts.
Context `{O : ConditionOps} (quote : string -> string) (formatTime : Time -> string) (hashRequest : RestoreRequest -> string).
Context (r : BootReconciler) (env : BootEnv) (database : string).
Context (Q : DatabaseStatus -> DatabaseStatus -> Prop) `{!PreOrder Q}.
Notation kept m := (keeps (on_entry database Q) m).
Context (Qstep : forall reason msg, kept (bootstrapStepFailed database reason msg)).
Context (Qstop : forall s, Q s (set_ds_Phase databasePhaseFailed s)).
Context (Qsince : forall f t s, Q s (set_since f t s)).
Context (Qseeding : forall v s, Q s (set_ds_Seeding v s)).

Lemma kept_stop : kept (modDB database (set_ds_Phase databasePhaseFailed)).
Proof. by apply entry_mod. Qed.
Lemma kept_since f t : kept (modDB database (set_since f t)).
Proof. apply entry_mod; [by destruct f|done]. Qed.
Lemma kept_seeding v : kept (modDB database (set_ds_Seeding v)).
Proof. by apply entry_mod. Qed.
Lemma kept_map f : kept (modDB database (map_seeding f)).
Proof. apply entry_mod; [done|]. intros s. apply Qseeding. Qed.
Hint Resolve Qstep kept_stop kept_since kept_seeding kept_map : keeps.

Lemma kept_stopped reason msg : kept (bootstrapStopped database reason msg).
Proof. unfold bootstrapStopped. keeps_solve. Qed.
Hint Resolve kept_stopped : keeps.
Lemma kept_missing since member step id err running left :
  kept (stepOperationMissing formatTime env database since member step id err running left).
Proof. unfold stepOperationMissing. keeps_solve. Qed.
Lemma kept_matches op kind member step : kept (recordedOperationMatches database op kind member step).
Proof. unfold recordedOperationMatches. keeps_solve. Qed.
Hint Resolve kept_missing kept_matches : keeps.
Lemma kept_poll since member kind step id running left :
  kept (pollStep formatTime env database since member kind step id running left).
Proof. unfold pollStep. keeps_solve. Qed.
Lemma kept_follow pod kind key c : kept (startOrFollow quote env database pod kind key c).
Proof. unfold startOrFollow, operationUnderKey. keeps_solve. Qed.
Lemma kept_source holder : kept (selectSeedSource r env database holder).
Proof. unfold selectSeedSource. keeps_solve. Qed.
Hint Resolve kept_poll kept_follow kept_source : keeps.
Lemma kept_choose holder peer : kept (chooseSeeding r env database holder peer).
Proof. unfold chooseSeeding. keeps_solve. Qed.
Lemma kept_backup storage source peer artifact :
  kept (seedBackup quote formatTime env storage database source peer artifact).
Proof. unfold seedBackup. keeps_solve. Qed.
Lemma kept_earlier peer keyMember artifact hash uid n : kept (earlierRestore env database peer keyMember artifact hash uid n).
Proof. induction n as [|n IH]; cbn [earlierRestore]; keeps_solve. Qed.
Hint Resolve kept_choose kept_backup kept_earlier : keeps.
Lemma kept_retry peer keyMember artifact key req : kept (retrySkipsSeedBackup hashRequest env database peer keyMember artifact key req).
Proof. unfold retrySkipsSeedBackup. keeps_solve. Qed.
Hint Resolve kept_retry : keeps.
Lemma kept_start storage peer seeding recorded artifact keyMember key req :
  kept (startSeedRestore quote formatTime hashRequest env storage database peer seeding recorded artifact keyMember key req).
Proof. unfold startSeedRestore. keeps_solve. Qed.
Hint Resolve kept_start : keeps.

(** A relation that allows the record of a seeded member, too, is kept by the
    seeding as a whole. *)
Context (Qseeded : forall peer s, Q s (set_ds_Seeding None (set_ds_SeededMembers (ds_SeededMembers s ++ [peer]) s))).
Context (Qconfigured : forall s, Q s (set_ds_HAConfigured true (set_ds_Seeding None s))).

Lemma kept_append peer :
  kept (modDB database (fun s => set_ds_Seeding None (set_ds_SeededMembers (ds_SeededMembers s ++ [peer]) s))).
Proof. by apply entry_mod. Qed.
Lemma kept_configured : kept (modDB database (fun s => set_ds_HAConfigured true (set_ds_Seeding None s))).
Proof. by apply entry_mod. Qed.
Hint Resolve kept_append kept_configured : keeps.
Lemma kept_restored peer uid artifact key restore : kept (followSeedRestore quote database peer uid artifact key restore).
Proof. unfold followSeedRestore. keeps_solve. Qed.
Hint Resolve kept_restored : keeps.
Lemma kept_member storage holder peer : kept (seedMember quote formatTime hashRequest r env storage database holder peer).
Proof. unfold seedMember. keeps_solve. Qed.
Hint Resolve kept_member : keeps.
Lemma kept_peers storage holder peers : kept (seedPeers quote formatTime hashRequest r env storage database holder peers).
Proof. induction peers as [|p peers IH]; cbn [seedPeers]; keeps_solve. Qed.
Hint Resolve kept_peers : keeps.
Lemma kept_reconcileSeeding holder : kept (reconcileSeeding quote formatTime hashRequest r env database holder).
Proof. unfold reconcileSeeding. keeps_solve. Qed.
End parts.

(** ** The restores a reconcile starts *)

Definition restores (l : list Entry) : list (DatabaseStatus * string * string * RestoreRequest) :=
  omap (fun e => match en_call e with StartsRestore p k q => Some (en_status e, p, k, q) | _ => None end) l.

Lemma restores_app a b : restores (a ++ b) = restores a ++ restores b.
Proof. apply omap_app. Qed.

(** No restore is started. *)
Definition noRestore (w w' : BW) : Prop := restores (bw_log w') = restores (bw_log w).
#[global] Instance noRestore_preorder : PreOrder noRestore.
Proof. split; unfold noRestore; [done|intros ???; congruence]. Qed.

(** The log only grows. *)
Definition grown (w w' : BW) : Prop := bw_log w `prefix_of` bw_log w'.
#[global] Instance grown_preorder : PreOrder grown.
Proof. split; unfold grown; [intros ?; done|intros ???; by transitivity (bw_log y)]. Qed.

Section logs.
Context `{O : ConditionOps} (quote : string -> string) (formatTime : Time -> string) (hashRequest : RestoreRequest -> string).
Context (r : BootReconciler) (env : BootEnv) (database : string).

Section grows.
Context (R : BW -> BW -> Prop) `{!PreOrder R} (Rlog : forall w w', bw_log w' = bw_log w ->
  bootstrapOf w' = bootstrapOf w -> objectOf (bw_cluster w') = objectOf (bw_cluster w) -> R w w').
Context (Rfind : forall p k key, keeps R (findOperation env database p k key)).

Lemma log_mod f : keeps R (modDB database f).
Proof. intros w. by apply Rlog. Qed.
Lemma log_event t reason msg : keeps R (statusEvent t reason msg).
Proof. intros w. by apply Rlog. Qed.
Lemma log_condition st reason msg : keeps R (setBootstrapReady st reason msg).
Proof. intros w. by apply Rlog. Qed.
Lemma log_notReady reason msg : keeps R (notReady reason msg).
Proof. apply log_condition. Qed.
Lemma log_clock : keeps R (clock env).
Proof. intros w. by apply Rlog. Qed.
Lemma log_get : keeps R (getDB database).
Proof. apply keeps_read, _. Qed.
Lemma log_cluster : keeps R theCluster.
Proof. apply keeps_read, _. Qed.
Hint Resolve log_mod log_event log_condition log_notReady log_clock log_get log_cluster Rfind : keeps.

Lemma log_stepFailed reason msg : keeps R (bootstrapStepFailed database reason msg).
Proof. unfold bootstrapStepFailed. keeps_solve. Qed.
Lemma log_stopped reason msg : keeps R (bootstrapStopped database reason msg).
Proof. unfold bootstrapStopped. keeps_solve. Qed.
Hint Resolve log_stepFailed log_stopped : keeps.
Lemma log_missing since member step id err running left :
  keeps R (stepOperationMissing formatTime env database since member step id err running left).
Proof. unfold stepOperationMissing. keeps_solve. Qed.
Lemma log_matches op kind member step : keeps R (recordedOperationMatches database op kind member step).
Proof. unfold recordedOperationMatches. keeps_solve. Qed.
Hint Resolve log_missing log_matches : keeps.
Lemma log_poll since member kind step id running left : keeps R (operate env database (Polls member id)) ->
  keeps R (pollStep formatTime env database since member kind step id running left).
Proof. intros H. unfold pollStep. keeps_solve. Qed.
Lemma log_follow pod kind key c : keeps R (operate env database c) -> keeps R (startOrFollow quote env database pod kind key c).
Proof. intros H. unfold startOrFollow, operationUnderKey. keeps_solve. Qed.
Lemma log_source holder : keeps R (selectSeedSource r env database holder).
Proof. unfold selectSeedSource. keeps_solve. Qed.
Hint Resolve log_source : keeps.
Lemma log_choose holder peer : keeps R (chooseSeeding r env database holder peer).
Proof. unfold chooseSeeding. keeps_solve. Qed.
Hint Resolve log_choose : keeps.
Lemma log_earlier peer keyMember artifact hash uid n : keeps R (earlierRestore env database peer keyMember artifact hash uid n).
Proof. induction n as [|n IH]; cbn [earlierRestore]; keeps_solve. Qed.
Hint Resolve log_earlier : keeps.
Lemma log_retry peer keyMember artifact key req : keeps R (retrySkipsSeedBackup hashRequest env database peer keyMember artifact key req).
Proof. unfold retrySkipsSeedBackup. keeps_solve. Qed.
Hint Resolve log_retry : keeps.

Context (Rpoll : forall p id, keeps R (operate env database (Polls p id))).
Context (Rbackup : forall p k q, keeps R (operate env database (StartsBackup p k q))).
Hint Resolve Rpoll Rbackup log_poll log_follow : keeps.
Lemma log_backup storage source peer artifact : keeps R (seedBackup quote formatTime env storage database source peer artifact).
Proof. unfold seedBackup. keeps_solve. Qed.
Hint Resolve log_backup : keeps.

Context (Rrestore : forall p k q, keeps R (operate env database (StartsRestore p k q))).
Hint Resolve Rrestore : keeps.
Lemma log_start storage peer seeding recorded artifact keyMember key req :
  keeps R (startSeedRestore quote formatTime hashRequest env storage database peer seeding recorded artifact keyMember key req).
Proof. unfold startSeedRestore. keeps_solve. Qed.
Hint Resolve log_start : keeps.
Lemma log_restored peer uid artifact key restore : keeps R (followSeedRestore quote database peer uid artifact key restore).
Proof. unfold followSeedRestore. keeps_solve. Qed.
Hint Resolve log_restored : keeps.
Lemma log_member storage holder peer : keeps R (seedMember quote formatTime hashRequest r env storage database holder peer).
Proof. unfold seedMember. keeps_solve. Qed.
Hint Resolve log_member : keeps.
Lemma log_peers storage holder peers : keeps R (seedPeers quote formatTime hashRequest r env storage database holder peers).
Proof. induction peers as [|p peers IH]; cbn [seedPeers]; keeps_solve. Qed.
Hint Resolve log_peers : keeps.
Lemma log_reconcileSeeding holder : keeps R (reconcileSeeding quote formatTime hashRequest r env database holder).
Proof. unfold reconcileSeeding. keeps_solve. Qed.
Hint Resolve log_reconcileSeeding : keeps.
Lemma log_create member : (forall p k d, keeps R (operate env database (StartsHABootstrap p k d))) ->
  keeps R (createDatabase quote formatTime hashRequest r env database member).
Proof. intros H. unfold createDatabase, followCreation. keeps_solve. Qed.
End grows.

Lemma grown_log w w' : bw_log w' = bw_log w -> bootstrapOf w' = bootstrapOf w ->
  objectOf (bw_cluster w') = objectOf (bw_cluster w) -> grown w w'.
Proof. intros H _ _. unfold grown. by rewrite H. Qed.
Lemma grown_operate c : keeps grown (operate env database c).
Proof. intros w. unfold grown. by eexists. Qed.
Lemma grown_find p k key : keeps grown (findOperation env database p k key).
Proof. intros w. unfold grown. by eexists. Qed.

Lemma noRestore_log w w' : bw_log w' = bw_log w -> bootstrapOf w' = bootstrapOf w ->
  objectOf (bw_cluster w') = objectOf (bw_cluster w) -> noRestore w w'.
Proof. intros H _ _. unfold noRestore. by rewrite H. Qed.
Lemma noRestore_operate c : (forall p k q, c <> StartsRestore p k q) -> keeps noRestore (operate env database c).
Proof.
  intros H w. unfold noRestore. cbn [operate snd logCall bw_log]. rewrite restores_app.
  destruct c; cbn; [|by destruct (H pod key req)|..]; apply app_nil_r.
Qed.
Lemma noRestore_find p k key : keeps noRestore (findOperation env database p k key).
Proof. intros w. unfold noRestore. cbn [findOperation snd logCall bw_log]. rewrite restores_app. apply app_nil_r. Qed.
End logs.

(** ** The source of a copy *)

(** A holder that freshly reports itself master, and one that freshly reports
    itself a slave. *)
Definition reportsMaster (obs : gmap string RoleObservation) (now : Time) (m : string) : Prop :=
  exists o, obs !! m = Some o /\ fresh o now = true /\ o_Role o = RoleMaster /\
    (o_Conflicting o = false \/ o_MasterNotYetActive o = true).
Definition reportsSlave (obs : gmap string RoleObservation) (now : Time) (m : string) : Prop :=
  exists o, obs !! m = Some o /\ fresh o now = true /\ o_Role o = RoleSlave /\ o_Conflicting o = false.

(** [src] is the one master among the holders, and every other is a slave. *)
Definition onlyMaster (holders : list string) (obs : gmap string RoleObservation) (now : Time) (src : string) : Prop :=
  exists a b, holders = a ++ src :: b /\ reportsMaster obs now src /\
    Forall (reportsSlave obs now) a /\ Forall (reportsSlave obs now) b.

Section sources.
Context (obs : gmap string RoleObservation) (now : Time).
Notation master := (reportsMaster obs now).
Notation slave := (reportsSlave obs now).

Lemma seedScan_cons m rest masters :
  (master m /\ seedScan obs now (m :: rest) masters = seedScan obs now rest (masters ++ [m])) \/
  (slave m /\ seedScan obs now (m :: rest) masters = seedScan obs now rest masters) \/
  (~ master m /\ ~ slave m /\ exists why, seedScan obs now (m :: rest) masters = inl why).
Proof.
  cbn [seedScan]. destruct (obs !! m) as [o|] eqn:Eo.
  2:{ right; right. split_and!; [intros (o' & Ho' & _)|intros (o' & Ho' & _)|]; [congruence..|eauto]. }
  destruct (fresh o now) eqn:Ef; cbn [negb].
  2:{ right; right. split_and!; [intros (o' & Ho' & Hf & _)|intros (o' & Ho' & Hf & _)|]; [congruence..|eauto]. }
  destruct ((o_Role o == RoleMaster) && (negb (o_Conflicting o) || o_MasterNotYetActive o)) eqn:Em.
  - left. split; [|done]. apply andb_true_iff in Em as [Hr%bool_decide_eq_true [Hc%negb_true_iff|Hm]%orb_true_iff];
      exists o; naive_solver.
  - destruct ((o_Role o == RoleSlave) && negb (o_Conflicting o)) eqn:Es.
    + right; left. split; [|done]. bool_simpl. exists o. naive_solver.
    + right; right. split_and!; [| |eauto].
      * intros (o' & Ho' & _ & Hr & Hc). simplify_eq. rewrite Hr, bool_decide_eq_true_2 in Em by done. cbn in Em.
        destruct Hc as [Hc|Hc]; rewrite Hc in Em; [done|by rewrite orb_true_r in Em].
      * intros (o' & Ho' & _ & Hr & Hc). simplify_eq. by rewrite Hr, Hc, bool_decide_eq_true_2 in Es.
Qed.

Lemma slave_not_master m : slave m -> ~ master m.
Proof. intros (o & Ho & _ & Hr & _) (o' & Ho' & _ & Hr' & _). simplify_eq. by rewrite Hr in Hr'. Qed.

(** The scan ends with the masters, when every holder reports a role. *)
Lemma seedScan_inr holders masters ms : seedScan obs now holders masters = inr ms ->
  exists l, ms = masters ++ l /\ l `sublist_of` holders /\ Forall master l /\
    forall a m b, holders = a ++ m :: b -> master m \/ slave m.
Proof.
  revert masters. induction holders as [|m rest IH]; intros masters Hs.
  { cbn in Hs. simplify_eq. exists []. rewrite app_nil_r. split_and!; [done|done|done|]. intros [|??]; naive_solver. }
  destruct (seedScan_cons m rest masters) as [[Hm He]|[[Hm He]|(_ & _ & why & He)]]; rewrite He in Hs; [..|done];
    apply IH in Hs as (l & -> & Hsub & Hall & Hrep).
  - exists (m :: l). rewrite <- app_assoc. split_and!; [done|by constructor|by constructor|].
    intros [|x a] m' b He'; simplify_eq/=; eauto.
  - exists l. split_and!; [done|by constructor|done|]. intros [|x a] m' b He'; simplify_eq/=; eauto.
Qed.

Lemma seedScan_slaves hs masters : Forall slave hs -> seedScan obs now hs masters = inr masters.
Proof.
  induction 1 as [|m hs Hm _ IH]; [done|]. destruct (seedScan_cons m hs masters) as [[H _]|[[_ ->]|(_ & H & _)]]; [|done|done].
  by destruct (slave_not_master m Hm).
Qed.

Lemma seedScan_app a b masters ms : seedScan obs now a masters = inr ms -> seedScan obs now (a ++ b) masters = seedScan obs now b ms.
Proof.
  revert masters. induction a as [|m a IH]; intros masters Ha; [cbn in Ha; by simplify_eq|].
  cbn [app]. cbn [seedScan] in *. repeat (case_match; try done); by apply IH.
Qed.

Lemma seedScan_one hs masters m : seedScan obs now hs masters = inr (masters ++ [m]) ->
  exists a b, hs = a ++ m :: b /\ master m /\ Forall slave a /\ Forall slave b.
Proof.
  revert masters. induction hs as [|x hs IH]; intros masters Hs.
  { cbn in Hs. simplify_eq. apply (f_equal List.length) in Hs. rewrite length_app in Hs. cbn in Hs. lia. }
  destruct (seedScan_cons x hs masters) as [[Hm He]|[[Hm He]|(_ & _ & why & He)]]; rewrite He in Hs; [| |done].
  - pose proof Hs as Hs'. apply seedScan_inr in Hs as (l & Hl & Hsub & _ & Hrep). rewrite <- app_assoc in Hl.
    apply app_inv_head in Hl. cbn in Hl. simplify_eq. exists [], hs. split_and!; [done|done|done|].
    clear -Hs' . revert Hs'. generalize (masters ++ [x]). induction hs as [|y hs IH]; intros ms Hs; [done|].
    destruct (seedScan_cons y hs ms) as [[Hm He]|[[Hm He]|(_ & _ & why & He)]]; rewrite He in Hs; [| |done].
    + apply seedScan_inr in Hs as (l & Hl & _). apply (f_equal List.length) in Hl. rewrite !length_app in Hl. cbn in Hl. lia.
    + constructor; [done|by apply (IH ms)].
  - apply IH in Hs as (a & b & -> & Hmm & Ha & Hb). exists (x :: a), b. by split_and!; [| |constructor|].
Qed.

Lemma source_onlyMaster holders src why : src <> "" -> seedSourceAmong holders obs now = (src, why) ->
  onlyMaster holders obs now src.
Proof.
  unfold seedSourceAmong. intros Hne H. destruct (seedScan obs now holders []) as [why'|[|m [|m' ms]]] eqn:Es;
    simplify_eq; try done. by apply (seedScan_one holders []).
Qed.

Lemma onlyMaster_source holders src : onlyMaster holders obs now src -> seedSourceAmong holders obs now = (src, "").
Proof.
  intros (a & b & -> & Hm & Ha & Hb). unfold seedSourceAmong.
  rewrite (seedScan_app a (src :: b) [] []) by by apply seedScan_slaves.
  destruct (seedScan_cons src b []) as [[_ ->]|[[H _]|(H & _)]]; [|by destruct (slave_not_master src H)|done].
  by rewrite seedScan_slaves.
Qed.
End sources.

(** What the members of a list are observed as, after [n] calls. *)
Definition observedBy (env : BootEnv) (n : nat) (ms : list string) : gmap string RoleObservation :=
  list_to_map ((fun m => (m, bn_probe env n m)) <$> ms).

Section seeding.
Context `{O : ConditionOps} (quote : string -> string) (formatTime : Time -> string) (hashRequest : RestoreRequest -> string).
Context (r : BootReconciler) (env : BootEnv) (database : string).

(** The members that hold the database stay recorded. *)
Definition sameSeeded (s s' : DatabaseStatus) : Prop := ds_SeededMembers s' = ds_SeededMembers s.
#[local] Instance sameSeeded_preorder : PreOrder sameSeeded.
Proof. split; unfold sameSeeded; [done|intros ???; congruence]. Qed.

Lemma seeded_stepFailed reason msg : keeps (on_entry database sameSeeded) (bootstrapStepFailed database reason msg).
Proof. by apply entry_stepFailed; [apply _|..]. Qed.

Lemma seeded_since f t s : sameSeeded s (set_since f t s).
Proof. by destruct f. Qed.

Lemma selectSeedSource_spec holder w st src why w' :
  found database w = Some st -> ds_SeededMembers st <> [] -> src <> "" ->
  selectSeedSource r env database holder w = ((src, why), w') ->
  found database w' = found database w /\
  exists n t, onlyMaster (holder :: ds_SeededMembers st) (observedBy env n (holder :: ds_SeededMembers st)) t src.
Proof.
  intros Hf Hs Hsrc. unfold selectSeedSource. rewrite run_bind. cbn [getDB fst snd].
  fold (entry database w). rewrite (entry_found database w st Hf), bool_decide_eq_false_2 by done.
  destruct (br_Prober r); cbn [negb]; [|by intros [= <- _ _]].
  rewrite !run_bind. cbn [fst snd clock mret St_ret]. intros [= Hsel <-]. split; [done|].
  eexists _, _. exact (source_onlyMaster _ _ _ _ _ Hsrc Hsel).
Qed.

(** What the choice of a copy to [peer] rests on. *)
Record Chosen (holder peer : string) (st : DatabaseStatus) (sd : DatabaseSeeding) (recorded : bool) (artifact : string) : Prop := {
  chosen_member : sd_Member sd = peer;
  chosen_source :
    (ds_SeededMembers st = [] /\ sd_Source sd = holder /\ artifact = "") \/
    (ds_SeededMembers st <> [] /\ artifact = artifactOf peer sd /\
     ((sd_RestoreOperationID sd <> "" /\ ds_Seeding st = Some sd) \/
      ((exists n t, onlyMaster (holder :: ds_SeededMembers st) (observedBy env n (holder :: ds_SeededMembers st)) t (sd_Source sd)) /\
       (recorded = true -> ds_Seeding st = Some sd)))) }.

Lemma chooseSeeding_spec holder peer w st sd recorded artifact w' :
  found database w = Some st ->
  chooseSeeding r env database holder peer w = (Some (sd, recorded, artifact), w') ->
  found database w' = found database w /\ Chosen holder peer st sd recorded artifact.
Proof.
  intros Hf. unfold chooseSeeding. rewrite run_bind. cbn [getDB fst snd].
  fold (entry database w). rewrite (entry_found database w st Hf).
  set (seeding := match ds_Seeding st with Some s => if sd_Member s != peer then None else Some s | None => None end).
  assert (forall s, seeding = Some s -> ds_Seeding st = Some s /\ sd_Member s = peer) as Hseed.
  { intros s. unfold seeding. destruct (ds_Seeding st) as [s'|]; [|done]. case_bool_decide; cbn [negb]; [|done].
    intros [= <-]. done. }
  clearbody seeding. destruct (bool_decide (ds_SeededMembers st = [])) eqn:Es; bool_simpl.
  - destruct seeding as [s|].
    + destruct (bool_decide (sd_Source s = holder)) eqn:Eh; bool_simpl; cbn [negb].
      * intros [= <- <- <- <-]. destruct (Hseed s eq_refl). split; [done|]. split; [done|]. left. done.
      * by rewrite run_bind.
    + intros [= <- <- <- <-]. split; [done|]. split; [done|]. left. done.
  - destruct seeding as [s|]; [destruct (Hseed s eq_refl) as [Hs Hm]; destruct (bool_decide (sd_RestoreOperationID s = "")) eqn:Er; cbn [negb]|].
    + rewrite run_bind. destruct (selectSeedSource r env database holder w) as [[src why] w1] eqn:Esel. cbn [fst snd].
      destruct (bool_decide (src = "")) eqn:E0; bool_simpl; [by rewrite run_bind|].
      destruct (selectSeedSource_spec _ _ _ _ _ _ Hf Es E0 Esel) as [Hf1 Hobs].
      destruct (bool_decide (sd_Source s = src)) eqn:Eq; bool_simpl; cbn [negb andb]; rewrite run_bind.
      * cbn. intros [= <- <- <- <-]. split; [done|]. split; [done|]. right. split_and!; [done|done|].
        right. by rewrite Eq.
      * destruct (bool_decide (src = holder)); cbn; intros [= <- <- <- <-]; (split; [done|]; split; [done|]); right;
          (split_and!; [done|done|]); right; by split.
    + intros [= <- <- <- <-]. bool_simpl. split; [done|]. split; [done|]. right. split_and!; [done|done|]. by left.
    + rewrite run_bind. destruct (selectSeedSource r env database holder w) as [[src why] w1] eqn:Esel. cbn [fst snd].
      destruct (bool_decide (src = "")) eqn:E0; bool_simpl; [by rewrite run_bind|].
      destruct (selectSeedSource_spec _ _ _ _ _ _ Hf Es E0 Esel) as [Hf1 Hobs]. rewrite run_bind.
      destruct (bool_decide (src = holder)); cbn; intros [= <- <- <- <-]; (split; [done|]; split; [done|]); right;
        (split_and!; [done|done|]); right; by split.
Qed.

Notation seededKept m := (keeps (on_entry database sameSeeded) m).
Lemma seeded_backup storage source peer artifact : seededKept (seedBackup quote formatTime env storage database source peer artifact).
Proof. apply kept_backup; [apply _|apply seeded_stepFailed|done|apply seeded_since|done]. Qed.
Lemma seeded_retry peer keyMember artifact key req :
  seededKept (retrySkipsSeedBackup hashRequest env database peer keyMember artifact key req).
Proof. apply kept_retry, _. Qed.

Lemma seeded_choose holder peer : seededKept (chooseSeeding r env database holder peer).
Proof. apply kept_choose; [apply _|done]. Qed.

(** No restore is started before the last step of startSeedRestore. *)
Lemma noRestore_backup storage source peer artifact : keeps noRestore (seedBackup quote formatTime env storage database source peer artifact).
Proof.
  apply log_backup; [apply _|apply noRestore_log|apply noRestore_find|..]; intros; by apply noRestore_operate.
Qed.
Lemma noRestore_retry peer keyMember artifact key req :
  keeps noRestore (retrySkipsSeedBackup hashRequest env database peer keyMember artifact key req).
Proof. apply log_retry; [apply _|apply noRestore_find]. Qed.
Lemma noRestore_poll since member kind step id running left :
  keeps noRestore (pollStep formatTime env database since member kind step id running left).
Proof. apply log_poll; [apply _|apply noRestore_log|by apply noRestore_operate]. Qed.
Lemma noRestore_stepFailed reason msg : keeps noRestore (bootstrapStepFailed database reason msg).
Proof. apply log_stepFailed; [apply _|apply noRestore_log]. Qed.

(** One start of a restore on [peer], or none. *)
Definition oneRestore (st : DatabaseStatus) (peer key : string) (req : RestoreRequest) (w w' : BW) : Prop :=
  noRestore w w' \/
  exists st', ds_SeededMembers st' = ds_SeededMembers st /\ restores (bw_log w') = restores (bw_log w) ++ [(st', peer, key, req)].

Lemma startOrFollow_starts w peer key req :
  restores (bw_log (startOrFollow quote env database peer OpRestore key (StartsRestore peer key req) w).2) =
  restores (bw_log w) ++ [(entry database w, peer, key, req)].
Proof.
  unfold startOrFollow. rewrite run_bind. cbn [operate fst snd]. set (w1 := logCall _ _ _ w).
  assert (restores (bw_log w1) = restores (bw_log w) ++ [(entry database w, peer, key, req)]) as Hw1.
  { unfold w1, logCall. cbn [bw_log]. by rewrite restores_app. }
  rewrite <- Hw1. destruct (bn_operation env _ _) as [err|op]; [|done].
  rewrite run_bind. cbn [mret St_ret snd]. unfold operationUnderKey. destruct (_ || _); [done|].
  rewrite run_bind. apply noRestore_find.
Qed.

Lemma startOrFollow_restores w st peer key req : found database w = Some st ->
  oneRestore st peer key req w (startOrFollow quote env database peer OpRestore key (StartsRestore peer key req) w).2.
Proof.
  intros Hf. right. exists st. split; [done|]. rewrite startOrFollow_starts. by rewrite (entry_found database w st Hf).
Qed.

Lemma oneRestore_l st peer key req w w1 w' : noRestore w w1 -> oneRestore st peer key req w1 w' -> oneRestore st peer key req w w'.
Proof.
  intros H [H'|(st' & Hs & H')]; [left; by transitivity w1|right]. exists st'. split; [done|]. by rewrite H', H.
Qed.
Lemma oneRestore_r st peer key req w w1 w' : oneRestore st peer key req w w1 -> noRestore w1 w' -> oneRestore st peer key req w w'.
Proof.
  intros [H'|(st' & Hs & H')] H; [left; by transitivity w1|right]. exists st'. split; [done|]. by rewrite <- H', <- H.
Qed.

Lemma startSeedRestore_restores storage peer sd recorded artifact keyMember key req w st : found database w = Some st ->
  let out := startSeedRestore quote formatTime hashRequest env storage database peer sd recorded artifact keyMember key req w in
  oneRestore st peer key req w out.2 /\ (recorded = false -> noRestore w out.2).
Proof.
  intros Hf. cbv zeta. unfold startSeedRestore. rewrite run_bind.
  pose proof (noRestore_retry peer keyMember artifact key req w) as H1.
  destruct (proj2 (seeded_retry peer keyMember artifact key req w) st Hf) as (st1 & Hf1 & Hs1).
  set (w1 := (retrySkipsSeedBackup _ _ _ _ _ _ _ _ w).2) in *.
  assert (forall w', noRestore w1 w' -> oneRestore st peer key req w w' /\ (recorded = false -> noRestore w w')) as Hnone.
  { intros w' H'. split; [left|intros _]; by transitivity w1. }
  destruct ((retrySkipsSeedBackup _ _ _ _ _ _ _ _ w).1) as [err|reused]; [apply Hnone; by rewrite run_bind|].
  rewrite run_bind. set (m := if reused then mret true else _).
  assert (keeps noRestore m) as Hn by (unfold m; destruct reused; [apply keeps_ret, _|apply noRestore_backup]).
  assert (seededKept m) as Hk by (unfold m; destruct reused; [apply keeps_ret, _|apply seeded_backup]).
  pose proof (Hn w1) as H2. destruct (proj2 (Hk w1) st1 Hf1) as (st2 & Hf2 & Hs2). set (w2 := (m w1).2) in *.
  destruct (m w1).1; cbn [negb]; [|by apply Hnone]. destruct recorded; cbn [negb]; [|apply Hnone; by rewrite run_bind].
  split; [|done]. rewrite run_bind. cbn [theCluster fst snd]. destruct (engineSeriesHold (bw_cluster w2) peer) as [msg [|]].
  { left. rewrite run_bind. by transitivity w1. }
  rewrite run_bind. pose proof (startOrFollow_restores w2 st2 peer key req Hf2) as H3.
  set (out := startOrFollow _ _ _ _ _ _ _ w2) in *. apply (oneRestore_l _ _ _ _ _ w2); [by transitivity w1|].
  apply (oneRestore_r _ _ _ _ _ out.2).
  - destruct H3 as [H3|(st' & Hs' & H3)]; [by left|right]. exists st'. split; [|done]. unfold sameSeeded in *. congruence.
  - destruct out.1.1 as [err|op]; [|done]. destruct (Is err errRequestRefused); [|done]. rewrite !run_bind.
    transitivity (modDB database (set_ds_Seeding None) out.2).2; [done|]. apply noRestore_stepFailed.
Qed.

(** ** Who is restored from whom *)

(** A restore that is started on [p] while the entry is [st], where the
    reconcile read [st0]. *)
Record GoodRestore (storage : CubridObjectStorage) (uid holder : string) (members : list string) (st0 : DatabaseStatus)
  (x : DatabaseStatus * string * string * RestoreRequest) : Prop := {
  good_target : let '(st, p, key, req) := x in p ∈ members /\ p <> holder /\ p ∉ ds_SeededMembers st;
  good_source : let '(st, p, key, req) := x in
    (ds_SeededMembers st = [] /\ rr_SeedFromMaster req = holder) \/
    ((exists n t, onlyMaster (holder :: ds_SeededMembers st) (observedBy env n (holder :: ds_SeededMembers st)) t (rr_SeedFromMaster req)) /\
     exists sd, ds_Seeding st0 = Some sd /\ sd_Member sd = p /\ sd_Source sd = rr_SeedFromMaster req);
  good_request : let '(st, p, key, req) := x in exists sd a,
    let first := bool_decide (ds_SeededMembers st = []) in
    let artifact := if first then "" else artifactOf p sd in
    sd_Source sd = rr_SeedFromMaster req /\ rr_Database req = database /\ rr_ExpectedClusterUID req = uid /\
    (rr_Bucket req, rr_Prefix req) = seedLocation storage uid database artifact /\
    key = bootstrapKey "seed-restore" uid (set_ds_BootstrapAttempts a (zeroDatabaseStatus database)) (if first then p else artifact) }.

Definition mayRestore (P : DatabaseStatus * string * string * RestoreRequest -> Prop) (w w' : BW) : Prop :=
  exists l, restores (bw_log w') = restores (bw_log w) ++ l /\ Forall P l.
#[global] Instance mayRestore_preorder P : PreOrder (mayRestore P).
Proof.
  split.
  - intros w. exists []. by rewrite app_nil_r.
  - intros w1 w2 w3 (l1 & H1 & P1) (l2 & H2 & P2). exists (l1 ++ l2). rewrite H2, H1, app_assoc. split; [done|].
    by apply Forall_app.
Qed.

Lemma may_none P w w' : noRestore w w' -> mayRestore P w w'.
Proof. intros H. exists []. by rewrite app_nil_r. Qed.

Lemma artifactOf_not_empty p sd : artifactOf p sd <> "".
Proof. unfold artifactOf. destruct p; case_match; done. Qed.

Lemma bootstrapKey_status step uid s s' member : ds_Name s' = ds_Name s -> ds_BootstrapAttempts s' = ds_BootstrapAttempts s ->
  bootstrapKey step uid s' member = bootstrapKey step uid s member.
Proof. unfold bootstrapKey. by intros -> ->. Qed.

Lemma seedMember_restores storage holder peer w st st0 members : found database w = Some st ->
  peer ∈ members -> peer <> holder -> peer ∉ ds_SeededMembers st -> (ds_Seeding st = ds_Seeding st0 \/ ds_Seeding st = None) ->
  mayRestore (GoodRestore storage (cl_UID (bw_cluster w)) holder members st0) w
    (seedMember quote formatTime hashRequest r env storage database holder peer w).2.
Proof.
  intros Hf Hpm Hph Hps Hsd. unfold seedMember. rewrite run_bind.
  pose proof (log_choose r env database noRestore noRestore_log holder peer w) as Hnc.
  pose proof (chooseSeeding_spec holder peer w st) as Hspec.
  destruct (chooseSeeding r env database holder peer w) as [choice w1] eqn:Ec. cbn [fst snd] in *.
  destruct choice as [[[sd recorded] artifact]|]; [|by apply may_none].
  destruct (Hspec sd recorded artifact w1 Hf eq_refl) as [Hf1 [Hmem Hsrc]]. rewrite Hf in Hf1.
  pose proof (seeded_choose holder peer w) as [Hsame _]. rewrite Ec in Hsame. cbn [snd] in Hsame.
  rewrite !run_bind. set (w2 := (modDB database (set_ds_Seeding (Some sd)) w1).2).
  assert (found database w2 = Some (set_ds_Seeding (Some sd) st)) as Hf2.
  { unfold found, w2 in *. cbn. by rewrite find_update, Hf1. }
  cbn [getDB theCluster fst snd]. fold (entry database w2). rewrite (entry_found database w2 _ Hf2).
  assert (cl_UID (bw_cluster w2) = cl_UID (bw_cluster w)) as Huid by apply Hsame. rewrite !Huid.
  set (key := bootstrapKey _ _ _ _). set (req := seedRestoreRequest _ _ _ _ _).
  set (m := if sd_RestoreOperationID sd != "" then _ else _).
  transitivity (m w2).2; [|by apply may_none, (log_restored quote database noRestore noRestore_log)].
  transitivity w2; [by apply may_none|]. unfold m.
  destruct (bool_decide (sd_RestoreOperationID sd = "")) eqn:Eid; bool_simpl; cbn [negb].
  2:{ apply may_none. rewrite run_bind. apply noRestore_poll. }
  destruct (startSeedRestore_restores storage peer sd recorded artifact (seedKeyMember peer artifact) key req w2 _ Hf2) as [H1 H2].
  destruct H1 as [H1|(st' & Hst' & H1)]; [by apply may_none|]. destruct recorded; [|by apply may_none, H2].
  eexists. split; [exact H1|]. apply Forall_singleton.
  change (ds_SeededMembers st' = ds_SeededMembers st) in Hst'.
  assert (key = bootstrapKey "seed-restore" (cl_UID (bw_cluster w))
    (set_ds_BootstrapAttempts (ds_BootstrapAttempts st) (zeroDatabaseStatus database)) (seedKeyMember peer artifact)) as Hkey.
  { apply bootstrapKey_status; [|done]. exact (find_name _ _ _ Hf). }
  assert (sd_Source sd = rr_SeedFromMaster req /\ rr_Database req = database /\ rr_ExpectedClusterUID req = cl_UID (bw_cluster w) /\
    (rr_Bucket req, rr_Prefix req) = seedLocation storage (cl_UID (bw_cluster w)) database artifact) as Hreq.
  { unfold req, seedRestoreRequest. rewrite Huid. by destruct (seedLocation _ _ _ _). }
  destruct Hreq as (Hrs & Hrd & Hru & Hrl).
  destruct Hsrc as [(Hnil & Hh & Ha)|(Hne & Ha & [[Hid _]|[Hobs Hrec]])]; [..|done|].
  - split; rewrite Hst'; [done|left; split; congruence|]. exists sd, (ds_BootstrapAttempts st). rewrite bool_decide_eq_true_2 by done.
    cbv zeta. rewrite Ha in Hkey, Hrl. by split_and!.
  - split; rewrite Hst'; [done| |].
    + right. rewrite <- Hrs. split; [done|]. exists sd. specialize (Hrec eq_refl). destruct Hsd as [Hsd|Hsd]; rewrite Hsd in Hrec; [|done].
      by split_and!.
    + exists sd, (ds_BootstrapAttempts st). rewrite bool_decide_eq_false_2 by done. cbv zeta.
      rewrite Ha in Hkey, Hrl. unfold seedKeyMember in Hkey. rewrite bool_decide_eq_false_2 in Hkey by apply artifactOf_not_empty.
      by split_and!.
Qed.

(** ** What makes a member count as seeded *)

(** The entry is as it was. *)
Definition steady (w w' : BW) : Prop := found database w' = found database w.
#[local] Instance steady_preorder : PreOrder steady.
Proof. split; unfold steady; [done|intros ???; congruence]. Qed.

Lemma steady_follow pod kind key c : keeps steady (startOrFollow quote env database pod kind key c).
Proof.
  intros w. unfold startOrFollow. rewrite run_bind. destruct (operate env database c w) as [[err|op] w1] eqn:E; cbn [fst snd].
  - transitivity w1; [unfold operate in E; by simplify_eq|]. rewrite run_bind. cbn [mret St_ret snd].
    unfold operationUnderKey. destruct (_ || _); [done|]. by rewrite run_bind.
  - unfold operate in E. by simplify_eq.
Qed.

Lemma steady_earlier peer keyMember artifact hash uid n : keeps steady (earlierRestore env database peer keyMember artifact hash uid n).
Proof.
  induction n as [|n IH]; [done|]. intros w. cbn [earlierRestore]. rewrite !run_bind. cbn [getDB fst snd].
  set (out := findOperation _ _ _ _ _ w). assert (steady w out.2) as Hs by done.
  destruct out.1 as [err|[op|]]; [done|done|]. transitivity out.2; [done|apply IH].
Qed.

Lemma steady_retry peer keyMember artifact key req : keeps steady (retrySkipsSeedBackup hashRequest env database peer keyMember artifact key req).
Proof.
  intros w. unfold retrySkipsSeedBackup. rewrite !run_bind. cbn [getDB theCluster fst snd]. destruct (_ == 0); [done|].
  rewrite run_bind. set (out := findOperation _ _ _ _ _ w). assert (steady w out.2) as Hs by done.
  destruct out.1 as [err|[op|]]; [done|done|]. transitivity out.2; [done|apply steady_earlier].
Qed.

Lemma matches_true w op kind member step :
  (recordedOperationMatches database op kind member step w).1 = true ->
  (recordedOperationMatches database op kind member step w).2 = w /\ op_Kind op = kind.
Proof.
  unfold recordedOperationMatches. destruct (bool_decide (op_Kind op = kind)) eqn:E; cbn [negb]; [|by rewrite run_bind].
  bool_simpl. destruct (_ && _); [by rewrite run_bind|done].
Qed.

(** A poll that reads the operation logs it and leaves the entry. *)
Lemma pollStep_some since member kind step id running left w x :
  (pollStep formatTime env database since member kind step id running left w).1 = Some x ->
  let w' := (pollStep formatTime env database since member kind step id running left w).2 in
  steady w w' /\
  forall op, x = inr op -> op_Kind op = kind /\ bw_log w' = bw_log w ++ [mkEntry (entry database w) (Polls member id) (Some op)].
Proof.
  cbv zeta. unfold pollStep. rewrite run_bind. unfold operate. cbn [fst snd].
  destruct (bn_operation env _ _) as [err|op] eqn:E; cbn [asked].
  - destruct (Is err errOperationMissing); [by rewrite run_bind|]. cbn. intros [= <-]. by split.
  - rewrite run_bind. set (w1 := logCall _ _ _ w). destruct (recordedOperationMatches database op kind member step w1).1 eqn:Em.
    + apply matches_true in Em as [-> Hk]. cbn. intros [= <-]. split; [done|]. intros op' [= <-]. done.
    + by rewrite run_bind.
Qed.

Lemma mod_found f w s : (forall s, ds_Name (f s) = ds_Name s) -> found database w = Some s ->
  found database (modDB database f w).2 = Some (f s).
Proof. intros Hn Hf. unfold found in *. cbn. by rewrite find_update, Hf. Qed.

(** The copy that a record of a copy is of. *)
Definition sameCopy (sd sd' : DatabaseSeeding) : Prop :=
  sd_Member sd' = sd_Member sd /\ sd_Source sd' = sd_Source sd /\ sd_Round sd' = sd_Round sd.

(** A seed backup that has completed leaves the copy it was taken for. *)
Lemma seedBackup_true storage source peer artifact w s sd : found database w = Some s -> ds_Seeding s = Some sd ->
  (seedBackup quote formatTime env storage database source peer artifact w).1 = true ->
  exists s' sd', found database (seedBackup quote formatTime env storage database source peer artifact w).2 = Some s' /\
    ds_Seeding s' = Some sd' /\ sameCopy sd sd' /\ ds_SeededMembers s' = ds_SeededMembers s /\
    ds_BootstrapAttempts s' = ds_BootstrapAttempts s.
Proof.
  intros Hf Hsd. unfold seedBackup. rewrite run_bind. cbn [getDB fst snd]. fold (entry database w).
  rewrite (entry_found database w s Hf), run_bind. cbn [theCluster fst snd].
  destruct (seedLocation _ _ _ _) as [bucket prefix]. rewrite run_bind. set (m := if _ != "" then _ else _).
  assert (forall x, (m w).1 = Some x -> steady w (m w).2) as Hm.
  { intros x. unfold m. destruct (negb _); [intros Hx; by apply pollStep_some in Hx as [? _]|].
    destruct (engineSeriesHold _ _) as [msg [|]]; [by rewrite run_bind|]. rewrite run_bind.
    set (out := startOrFollow _ _ _ _ _ _ _ w). assert (steady w out.2) as Hs by apply steady_follow.
    destruct out.1.1 as [err|op]; [|done]. destruct (Is err errRequestRefused); [by rewrite !run_bind|done]. }
  destruct (m w).1 as [[err|op]|]; [by rewrite run_bind| |done]. specialize (Hm _ eq_refl). set (w1 := (m w).2) in *.
  rewrite run_bind. destruct (bool_decide (op_State op = OpCompleted)).
  - intros _. cbn [mret St_ret snd]. unfold steady in Hm. rewrite Hf in Hm. eexists _, _.
    split; [apply mod_found; [done|exact Hm]|]. cbn. rewrite Hsd. by split_and!.
  - destruct (bool_decide (op_State op = OpFailed)); by rewrite !run_bind.
Qed.

Lemma followSeedRestore_true peer uid artifact key restore w s : found database w = Some s ->
  (followSeedRestore quote database peer uid artifact key restore w).1 = true ->
  (exists s', found database (followSeedRestore quote database peer uid artifact key restore w).2 = Some s' /\
     ds_Seeding s' = None /\ ds_SeededMembers s' = ds_SeededMembers s ++ [peer]) /\
  exists op followed, restore = Some (inr op, followed) /\ op_State op = OpCompleted /\
    (followed = true -> restoredSeed op uid artifact database = true).
Proof.
  intros Hf. unfold followSeedRestore. destruct restore as [[[err|op] followed]|]; [by rewrite run_bind| |done].
  rewrite run_bind. destruct (followed && _ && _) eqn:Et; [by rewrite run_bind|]. rewrite run_bind.
  destruct (bool_decide (op_State op = OpCompleted)) eqn:Ec;
    [|destruct (bool_decide (op_State op = OpFailed)); by rewrite !run_bind].
  intros _. bool_simpl. rewrite run_bind. split.
  - eexists. cbn [mret St_ret snd]. split; [do 3 (apply mod_found; [done|]); exact Hf|]. done.
  - exists op, followed. split_and!; [done|done|]. intros ->. cbn in Et. by apply negb_false_iff in Et.
Qed.

Lemma startOrFollow_log pod kind key c w op followed :
  (startOrFollow quote env database pod kind key c w).1 = (inr op, followed) ->
  exists l, bw_log (startOrFollow quote env database pod kind key c w).2 = bw_log w ++ l /\
    mkEntry (entry database w) (if followed then LooksUp pod kind key else c) (Some op) ∈ l.
Proof.
  unfold startOrFollow. rewrite run_bind. unfold operate. cbn [fst snd].
  destruct (bn_operation env _ _) as [err|op'] eqn:E; cbn [asked].
  - rewrite run_bind. cbn [mret St_ret fst snd]. unfold operationUnderKey. set (w1 := logCall _ _ _ w).
    unfold operationOfKey. destruct (_ || _ || _ || _); [done|].
    rewrite run_bind. unfold findOperation. cbn [mret St_ret fst snd].
    destruct (bn_lookup env _ _) as [lookupErr|[op'|]]; [done| |done]. intros [= <- <-].
    eexists. split; [unfold w1, logCall; cbn [bw_log]; by rewrite <- app_assoc|]. set_solver.
  - cbn. intros [= <- <-]. eexists. split; [done|]. set_solver.
Qed.

Definition sameLog (w w' : BW) : Prop := bw_log w' = bw_log w.
#[local] Instance sameLog_preorder : PreOrder sameLog.
Proof. split; unfold sameLog; [done|intros ???; congruence]. Qed.

Lemma followSeedRestore_log peer uid artifact key restore w :
  bw_log (followSeedRestore quote database peer uid artifact key restore w).2 = bw_log w.
Proof.
  pose proof (log_restored quote database sameLog (fun _ _ H _ _ => H) peer uid artifact key restore w) as H. exact H.
Qed.

(** The artifact of the copy to [p] that an entry records. *)
Definition stepArtifact (p : string) (st : DatabaseStatus) : string :=
  if bool_decide (ds_SeededMembers st = []) then "" else from_option (artifactOf p) "" (ds_Seeding st).

(** A logged call that shows that [p] was restored: the start of this step's
    restore, answered as completed, or a restore that is followed or polled
    and that restored the seed backup of this step. *)
Definition restoredBy (uid p : string) (e : Entry) : Prop :=
  exists op, en_answer e = Some op /\ op_State op = OpCompleted /\
    match en_call e with
    | StartsRestore p' _ req => p' = p /\ rr_ExpectedClusterUID req = uid
    | Polls p' _ => p' = p /\ op_Kind op = OpRestore /\ restoredSeed op uid (stepArtifact p (en_status e)) database = true
    | LooksUp p' kind _ => p' = p /\ kind = OpRestore /\ restoredSeed op uid (stepArtifact p (en_status e)) database = true
    | _ => False
    end.

Lemma stepArtifact_chosen holder peer st s sd sd' recorded artifact : Chosen holder peer st sd recorded artifact ->
  ds_SeededMembers s = ds_SeededMembers st -> ds_Seeding s = Some sd' -> sameCopy sd sd' -> stepArtifact peer s = artifact.
Proof.
  intros [_ Hs] Hm Hsd (_ & Hsrc & Hr). unfold stepArtifact. rewrite Hm, Hsd.
  destruct Hs as [(-> & _ & ->)|(Hne & -> & _)]; [done|]. rewrite bool_decide_eq_false_2 by done. cbn.
  unfold artifactOf. by rewrite Hsrc, Hr.
Qed.

(** A restore that startSeedRestore answers was logged, on a record of the
    same copy. *)
Lemma startSeedRestore_log storage peer sd recorded artifact keyMember key req w s op followed :
  found database w = Some s -> ds_Seeding s = Some sd ->
  (startSeedRestore quote formatTime hashRequest env storage database peer sd recorded artifact keyMember key req w).1 = Some (inr op, followed) ->
  let w' := (startSeedRestore quote formatTime hashRequest env storage database peer sd recorded artifact keyMember key req w).2 in
  exists l s' sd', bw_log w' = bw_log w ++ l /\ found database w' = Some s' /\
    mkEntry s' (if followed then LooksUp peer OpRestore key else StartsRestore peer key req) (Some op) ∈ l /\
    ds_Seeding s' = Some sd' /\ sameCopy sd sd' /\ ds_SeededMembers s' = ds_SeededMembers s.
Proof.
  intros Hf Hsd. cbv zeta. unfold startSeedRestore. rewrite run_bind.
  pose proof (log_retry hashRequest env database grown (grown_find env database) peer keyMember artifact key req w) as [l1 Hl1].
  pose proof (steady_retry peer keyMember artifact key req w) as Hst1.
  set (out1 := retrySkipsSeedBackup _ _ _ _ _ _ _ _ w) in *. destruct out1.1 as [err|reused]; [by rewrite run_bind|].
  unfold steady in Hst1. rewrite Hf in Hst1. rewrite run_bind. set (m := if reused then mret true else _).
  assert (keeps grown m) as Hg.
  { unfold m. destruct reused; [apply keeps_ret, _|].
    apply log_backup; [apply _|apply grown_log|apply grown_find|..]; intros; apply grown_operate. }
  destruct (Hg out1.2) as [l2 Hl2].
  assert ((m out1.2).1 = true -> exists s2 sd2, found database (m out1.2).2 = Some s2 /\ ds_Seeding s2 = Some sd2 /\
    sameCopy sd sd2 /\ ds_SeededMembers s2 = ds_SeededMembers s) as Hm.
  { unfold m. destruct reused; [intros _; by exists s, sd|].
    intros (s2 & sd2 & ? & ? & ? & ? & _)%(seedBackup_true _ _ _ _ _ _ _ Hst1 Hsd). by exists s2, sd2. }
  destruct (m out1.2).1; cbn [negb]; [|done]. specialize (Hm eq_refl) as (s2 & sd2 & Hf2 & Hsd2 & Hcopy & Hmem).
  destruct recorded; cbn [negb]; [|by rewrite run_bind]. rewrite run_bind. cbn [theCluster fst snd].
  destruct (engineSeriesHold _ _) as [msg [|]]; [by rewrite run_bind|]. rewrite run_bind.
  pose proof (startOrFollow_log peer OpRestore key (StartsRestore peer key req) (m out1.2).2) as Hlog.
  pose proof (steady_follow peer OpRestore key (StartsRestore peer key req) (m out1.2).2) as Hst3.
  set (out3 := startOrFollow _ _ _ _ _ _ _ _) in *. destruct out3.1 as [[err|op'] fl]; cbn [fst].
  { destruct (Is err errRequestRefused); [by rewrite !run_bind|done]. }
  cbn [mret St_ret fst snd]. intros [= -> ->]. destruct (Hlog op followed eq_refl) as (l3 & Hl3 & Hin).
  rewrite (entry_found database _ s2 Hf2) in Hin. unfold steady in Hst3. rewrite Hf2 in Hst3.
  exists (l1 ++ l2 ++ l3), s2, sd2. split_and!; [|done|set_solver|done|done|done].
  by rewrite Hl3, Hl2, Hl1, !app_assoc.
Qed.

Notation seed storage holder peer := (seedMember quote formatTime hashRequest r env storage database holder peer).
Notation seedAll storage holder peers := (seedPeers quote formatTime hashRequest r env storage database holder peers).

Lemma member_grown storage holder peer : keeps grown (seed storage holder peer).
Proof. apply log_member; [apply _|apply grown_log|apply grown_find|..]; intros; apply grown_operate. Qed.

(** A member that counts as seeded was restored by a call of this run. *)
Lemma seedMember_true storage holder peer w st : found database w = Some st ->
  (seed storage holder peer w).1 = true ->
  exists l e st', bw_log (seed storage holder peer w).2 = bw_log w ++ l /\ e ∈ l /\ restoredBy (cl_UID (bw_cluster w)) peer e /\
    ds_SeededMembers (en_status e) = ds_SeededMembers st /\
    found database (seed storage holder peer w).2 = Some st' /\ ds_Seeding st' = None /\
    ds_SeededMembers st' = ds_SeededMembers st ++ [peer].
Proof.
  intros Hf. unfold seedMember. rewrite run_bind.
  pose proof (log_choose r env database grown grown_log holder peer w) as [l1 Hl1].
  pose proof (chooseSeeding_spec holder peer w st) as Hspec.
  pose proof (seeded_choose holder peer w) as [Hsame _].
  destruct (chooseSeeding r env database holder peer w) as [choice w1] eqn:Ec. cbn [fst snd] in *.
  destruct choice as [[[sd recorded] artifact]|]; [|done].
  destruct (Hspec sd recorded artifact w1 Hf eq_refl) as [Hf1 Hch]. rewrite Hf in Hf1.
  rewrite !run_bind. set (w2 := (modDB database (set_ds_Seeding (Some sd)) w1).2).
  assert (found database w2 = Some (set_ds_Seeding (Some sd) st)) as Hf2 by by apply mod_found.
  cbn [getDB theCluster fst snd]. fold (entry database w2). rewrite (entry_found database w2 _ Hf2).
  assert (cl_UID (bw_cluster w2) = cl_UID (bw_cluster w)) as Huid by apply Hsame. rewrite !Huid.
  set (uid := cl_UID (bw_cluster w)). set (key := bootstrapKey _ _ _ _). set (m := if sd_RestoreOperationID sd != "" then _ else _).
  assert (forall op fl, (m w2).1 = Some (inr op, fl) ->
    exists l e s', bw_log (m w2).2 = bw_log w2 ++ l /\ e ∈ l /\ found database (m w2).2 = Some s' /\
      ds_SeededMembers s' = ds_SeededMembers st /\ ds_SeededMembers (en_status e) = ds_SeededMembers st /\ en_answer e = Some op /\
      ((fl = false /\ exists k q, en_call e = StartsRestore peer k q /\ rr_ExpectedClusterUID q = uid) \/
       (fl = true /\ stepArtifact peer (en_status e) = artifact /\
        ((exists id, en_call e = Polls peer id /\ op_Kind op = OpRestore) \/ exists k, en_call e = LooksUp peer OpRestore k)))) as Hm.
  { intros op fl. unfold m. destruct (negb _).
    - rewrite run_bind. intros Hx. cbn [mret St_ret fst] in Hx. apply fmap_Some in Hx as (x & Hx & [= <- ->]).
      apply pollStep_some in Hx as [Hst Hx]. destruct (Hx op eq_refl) as [Hk Hl].
      eexists _, _, _. split; [exact Hl|]. split; [by apply list_elem_of_singleton|]. split; [unfold steady in Hst; by rewrite Hf2 in Hst|].
      rewrite (entry_found database w2 _ Hf2). split_and!; [done|done|done|]. right. split_and!; [done| |by left; eauto].
      by apply (stepArtifact_chosen holder peer st _ sd sd recorded artifact).
    - intros Hx. apply startSeedRestore_log with (s := set_ds_Seeding (Some sd) st) in Hx as (l & s' & sd' & Hl & Hs' & Hin & Hsd' & Hcopy & Hmem);
        [|done|done]. eexists l, _, s'. split_and!; [exact Hl|exact Hin|done|done|done|done|].
      destruct fl; [right|left; split; [done|]].
      + split_and!; [done| |right; eauto]. by apply (stepArtifact_chosen holder peer st _ sd sd' recorded artifact).
      + eexists _, _. split; [done|]. unfold seedRestoreRequest. rewrite Huid. by destruct (seedLocation _ _ _ _). }
  intros Hr. assert (exists s, found database (m w2).2 = Some s) as [s Hs].
  { assert (seededKept m) as Hk.
    { unfold m. destruct (negb _); [|apply kept_start; [apply _|apply seeded_stepFailed|done|apply seeded_since|done]].
      apply (keeps_bind _); [apply kept_poll; [apply _|done|apply seeded_since]|intros ?; apply keeps_ret, _]. }
    destruct (proj2 (Hk w2) _ Hf2) as (s & Hs & _). eauto. }
  destruct (followSeedRestore_true peer uid artifact key (m w2).1 (m w2).2 s Hs Hr)
    as [(s' & Hf' & Hnone & Hmem') (op & fl & Hop & Hcomp & Hrs)].
  destruct (Hm op fl Hop) as (l & e & s2 & Hl & Hin & Hs2 & Hmem & Hen & Hans & Hcall). rewrite Hs in Hs2. simplify_eq.
  exists (l1 ++ l), e, s'. split_and!; [|set_solver| |done|done|done|congruence].
  - rewrite (followSeedRestore_log peer uid artifact key (m w2).1 (m w2).2), Hl. change (bw_log w2) with (bw_log w1).
    by rewrite Hl1, app_assoc.
  - exists op. split_and!; [done|done|]. destruct Hcall as [(-> & k & q & -> & Hu)|(-> & Ha & [(id & -> & Hk)|(k & ->)])]; [done| |];
      rewrite Ha; auto.
Qed.

Lemma followSeedRestore_false peer uid artifact key restore w s : found database w = Some s ->
  (followSeedRestore quote database peer uid artifact key restore w).1 = false ->
  exists s', found database (followSeedRestore quote database peer uid artifact key restore w).2 = Some s' /\ sameSeeded s s'.
Proof.
  intros Hf. unfold followSeedRestore.
  assert (forall {A} (m : Boot A), seededKept m -> exists s', found database (m w).2 = Some s' /\ sameSeeded s s') as Hk.
  { intros A m Hm. by apply (proj2 (Hm w)). }
  destruct restore as [[[err|op] followed]|]; [intros _; apply Hk; keeps_solve| |intros _; by exists s].
  rewrite run_bind. set (w1 := (modDB _ _ w).2).
  assert (found database w1 = Some (map_seeding (set_sd_OperationMissingSince None) s)) as Hf1 by by apply mod_found.
  assert (forall {A} (m : Boot A), seededKept m -> exists s', found database (m w1).2 = Some s' /\ sameSeeded s s') as Hk1.
  { intros A m Hm. destruct (proj2 (Hm w1) _ Hf1) as (s' & Hs' & Hq). by exists s'. }
  destruct (followed && _ && _); [intros _; apply Hk1; keeps_solve|].
  destruct (bool_decide (op_State op = OpCompleted)); [by rewrite !run_bind|].
  intros _. apply Hk1. assert (forall f, seededKept (modDB database (map_seeding f))) as Hmap by (intros f; by apply entry_mod).
  assert (seededKept (modDB database (set_ds_Seeding None))) as Hnone by by apply entry_mod.
  pose proof seeded_stepFailed. keeps_solve.
Qed.

Definition anyEntry (s s' : DatabaseStatus) : Prop := True.
#[global] Instance anyEntry_preorder : PreOrder anyEntry.
Proof. by split. Qed.
Lemma kept_member_same storage holder peer w : SameCluster (bw_cluster w) (bw_cluster (seed storage holder peer w).2).
Proof.
  apply (kept_member quote formatTime hashRequest r env database anyEntry); try done.
  intros reason msg. by apply entry_stepFailed; [apply _|..].
Qed.

Lemma seedMember_false storage holder peer w st : found database w = Some st ->
  (seed storage holder peer w).1 = false ->
  exists s', found database (seed storage holder peer w).2 = Some s' /\ sameSeeded st s'.
Proof.
  intros Hf. unfold seedMember. rewrite run_bind. destruct (proj2 (seeded_choose holder peer w) st Hf) as (s1 & Hf1 & Hs1).
  set (out := chooseSeeding _ _ _ _ _ w) in *. destruct out.1 as [[[sd recorded] artifact]|]; [|intros _; by exists s1].
  rewrite !run_bind. set (w2 := (modDB database (set_ds_Seeding (Some sd)) out.2).2).
  assert (found database w2 = Some (set_ds_Seeding (Some sd) s1)) as Hf2 by by apply mod_found.
  cbn [getDB theCluster fst snd]. set (m := if sd_RestoreOperationID sd != "" then _ else _).
  assert (seededKept m) as Hk.
  { unfold m. destruct (negb _); [|apply kept_start; [apply _|apply seeded_stepFailed|done|apply seeded_since|done]].
    apply (keeps_bind _); [apply kept_poll; [apply _|done|apply seeded_since]|intros ?; apply keeps_ret, _]. }
  destruct (proj2 (Hk w2) _ Hf2) as (s3 & Hf3 & Hs3). intros Hr.
  destruct (followSeedRestore_false _ _ _ _ _ _ s3 Hf3 Hr) as (s4 & Hf4 & Hs4). exists s4. split; [exact Hf4|].
  unfold sameSeeded in *. cbn in *. congruence.
Qed.

(** One run of the loop over the members: the members it records as seeded,
    each restored by a call of the run. *)
Record SeedRun (uid holder : string) (peers : list string) (w : BW) (st : DatabaseStatus) (done : bool) (w' : BW) (new : list string) : Prop := {
  run_sublist : new `sublist_of` peers;
  run_entry : exists st', found database w' = Some st' /\ ds_SeededMembers st' = ds_SeededMembers st ++ new /\
    (done = true -> forall p, p ∈ peers -> p = holder \/ p ∈ ds_SeededMembers st');
  run_restored : exists l, bw_log w' = bw_log w ++ l /\
    Forall (fun p => p <> holder /\ (p ∉ ds_SeededMembers st) /\ exists e, e ∈ l /\ restoredBy uid p e) new }.

Lemma seedPeers_run storage holder peers w st : found database w = Some st ->
  exists new, SeedRun (cl_UID (bw_cluster w)) holder peers w st (seedAll storage holder peers w).1 (seedAll storage holder peers w).2 new.
Proof.
  revert w st. induction peers as [|p peers IH]; intros w st Hf.
  { exists []. split; [done| |]. exists st. split_and!; [done|by rewrite app_nil_r|set_solver].
    exists []. by rewrite app_nil_r. }
  cbn [seedPeers]. rewrite run_bind. cbn [getDB fst snd]. fold (entry database w). rewrite (entry_found database w st Hf).
  destruct ((bool_decide (p = holder)) || bool_decide (p ∈ ds_SeededMembers st)) eqn:Ep.
  - destruct (IH w st Hf) as (new & [Hsub (st' & Hf' & Hm & Hall) Hl]). exists new.
    split; [by constructor| |done]. exists st'. split_and!; [done|done|]. intros Hd q [->|Hq]%elem_of_cons; [|by apply Hall].
    apply orb_true_iff in Ep as [Ep|Ep]; bool_simpl; [by left|]. right. rewrite Hm. set_solver.
  - bool_simpl. rewrite run_bind.
    pose proof (seedMember_true storage holder p w st Hf) as Htrue.
    pose proof (seedMember_false storage holder p w st Hf) as Hfalse.
    pose proof (member_grown storage holder p w) as [l0 Hl0]. pose proof (kept_member_same storage holder p w) as Hsame.
    destruct (seedMember _ _ _ _ _ _ _ _ _ w) as [[|] w1]; cbn [fst snd] in *.
    + destruct (Htrue eq_refl) as (l & e & st1 & Hl & Hin & Hby & _ & Hf1 & _ & Hm1).
      destruct (IH w1 st1 Hf1) as (new & [Hsub (st' & Hf' & Hm & Hall) (l2 & Hl2 & Hnew)]). rewrite (same_uid _ _ Hsame) in Hnew.
      exists (p :: new). split; [by constructor| |].
      * exists st'. split_and!; [done|by rewrite Hm, Hm1, <- app_assoc|]. intros Hd q [->|Hq]%elem_of_cons; [|by apply Hall].
        right. rewrite Hm, Hm1. set_solver.
      * exists (l ++ l2). split; [by rewrite Hl2, Hl, app_assoc|]. constructor.
        { split_and!; [done|done|]. exists e. split; [set_solver|done]. }
        eapply Forall_impl; [exact Hnew|]. intros q (Hq1 & Hq2 & e' & He' & Hb'). rewrite Hm1 in Hq2. split_and!; [done|set_solver|].
        exists e'. split; [set_solver|done].
    + destruct (Hfalse eq_refl) as (st1 & Hf1 & Hm1). exists []. cbn [mret St_ret fst snd]. split; [apply sublist_nil_l| |].
      * exists st1. rewrite app_nil_r. by split_and!.
      * exists l0. by split.
Qed.

Lemma seedPeers_restores storage holder members peers w st st0 : found database w = Some st ->
  (forall p, p ∈ peers -> p ∈ members) -> (ds_Seeding st = ds_Seeding st0 \/ ds_Seeding st = None) ->
  mayRestore (GoodRestore storage (cl_UID (bw_cluster w)) holder members st0) w (seedAll storage holder peers w).2.
Proof.
  revert w st. induction peers as [|p peers IH]; intros w st Hf Hsub Hsd; [reflexivity|].
  cbn [seedPeers]. rewrite run_bind. cbn [getDB fst snd]. fold (entry database w). rewrite (entry_found database w st Hf).
  destruct ((bool_decide (p = holder)) || bool_decide (p ∈ ds_SeededMembers st)) eqn:Ep.
  { apply (IH w st); [done|set_solver|done]. }
  bool_simpl. rewrite run_bind.
  pose proof (seedMember_restores storage holder p w st st0 members Hf ltac:(set_solver) ltac:(done) ltac:(done) Hsd) as Hr.
  pose proof (seedMember_true storage holder p w st Hf) as Htrue. pose proof (kept_member_same storage holder p w) as Hsame.
  destruct (seedMember _ _ _ _ _ _ _ _ _ w) as [[|] w1]; cbn [fst snd] in *; [|exact Hr].
  destruct (Htrue eq_refl) as (_ & _ & st1 & _ & _ & _ & _ & Hf1 & Hn1 & _). transitivity w1; [exact Hr|].
  rewrite <- (same_uid _ _ Hsame). apply (IH w1 st1); [done|set_solver|by right].
Qed.

Definition sameConfigured (s s' : DatabaseStatus) : Prop := ds_HAConfigured s' = ds_HAConfigured s.
#[local] Instance sameConfigured_preorder : PreOrder sameConfigured.
Proof. split; unfold sameConfigured; [done|intros ???; congruence]. Qed.
Lemma seedPeers_configured storage holder peers w st st' : found database w = Some st ->
  found database (seedAll storage holder peers w).2 = Some st' -> ds_HAConfigured st' = ds_HAConfigured st.
Proof.
  intros Hf Hf'. assert (keeps (on_entry database sameConfigured) (seedAll storage holder peers)) as Hk.
  { apply kept_peers; try done; [apply _|by intros; apply entry_stepFailed; [apply _|..]|by intros []]. }
  destruct (proj2 (Hk w) st Hf) as (st2 & Hf2 & Hc). rewrite Hf' in Hf2. by simplify_eq.
Qed.

(** What reconcileSeeding does once its settings are complete. *)
Lemma reconcileSeeding_cases holder w :
  let w' := (reconcileSeeding quote formatTime hashRequest r env database holder w).2 in
  (sameLog w w' /\ steady w w') \/
  exists storage, sp_ObjectStorage (cl_Spec (bw_cluster w)) = Some storage /\
    let peers := memberNames (bw_cluster w) (sp_PromotableMembers (cl_Spec (bw_cluster w))) in
    let out := seedAll storage holder peers w in
    sameLog out.2 w' /\
    if out.1 then forall st, found database out.2 = Some st -> found database w' = Some (set_ds_HAConfigured true (set_ds_Seeding None st))
    else steady out.2 w'.
Proof.
  cbv zeta. unfold reconcileSeeding. rewrite run_bind. cbn [theCluster fst snd]. destruct (_ || _); [by left|].
  destruct (sp_ObjectStorage (cl_Spec (bw_cluster w))) as [storage|]; [|by left]. destruct (bool_decide _); [by left|].
  destruct (negb _); [by left|]. right. exists storage. split; [done|]. rewrite run_bind.
  destruct (seedPeers _ _ _ _ _ _ _ _ _ w) as [[|] w1]; cbn [fst snd negb]; [|done]. rewrite !run_bind. split; [done|].
  intros st Hst. exact (mod_found (fun s => set_ds_HAConfigured true (set_ds_Seeding None s)) w1 st (fun _ => eq_refl) Hst).
Qed.

(** The restores of one reconcile. *)
Lemma reconcileSeeding_restores holder w st0 : found database w = Some st0 ->
  exists storage l, (l <> [] -> sp_ObjectStorage (cl_Spec (bw_cluster w)) = Some storage) /\
    restores (bw_log (reconcileSeeding quote formatTime hashRequest r env database holder w).2) = restores (bw_log w) ++ l /\
    Forall (GoodRestore storage (cl_UID (bw_cluster w)) holder
      (memberNames (bw_cluster w) (sp_PromotableMembers (cl_Spec (bw_cluster w)))) st0) l.
Proof.
  intros Hf. destruct (reconcileSeeding_cases holder w) as [[Hlog _]|(storage & Hst & Hlog & _)].
  - exists (mkObjectStorage "" "" false "" "" ""), []. rewrite app_nil_r. by rewrite Hlog.
  - destruct (seedPeers_restores storage holder _ (memberNames (bw_cluster w) (sp_PromotableMembers (cl_Spec (bw_cluster w)))) w st0 st0 Hf
      (fun _ H => H) (or_introl eq_refl)) as (l & Hl & Hgood).
    exists storage, l. split_and!; [done| |exact Hgood]. by rewrite Hlog.
Qed.

(** C27: A member is restored only from the master.  Every restore that a
    reconcile starts while it copies the database goes to a member that is
    neither the one the database was created on nor recorded as holding it.
    The copy for the first peer is taken from the member that holds the
    database.  For every later member it is taken from the member that all
    members that hold the database were freshly observed to have as their
    only master, and only when the status the reconcile read already names
    that source for this copy; the request, its place in the object storage
    and its key are those of this source. *)
Theorem seed_restore_from_master holder w st0 : found database w = Some st0 ->
  exists storage l, (l <> [] -> sp_ObjectStorage (cl_Spec (bw_cluster w)) = Some storage) /\
    restores (bw_log (reconcileSeeding quote formatTime hashRequest r env database holder w).2) = restores (bw_log w) ++ l /\
    Forall (GoodRestore storage (cl_UID (bw_cluster w)) holder
      (memberNames (bw_cluster w) (sp_PromotableMembers (cl_Spec (bw_cluster w)))) st0) l.
Proof. apply reconcileSeeding_restores. Qed.

(** One reconcile of the seeding. *)
Lemma reconcileSeeding_run holder w st : found database w = Some st ->
  let w' := (reconcileSeeding quote formatTime hashRequest r env database holder w).2 in
  exists new l st', found database w' = Some st' /\ bw_log w' = bw_log w ++ l /\
    ds_SeededMembers st' = ds_SeededMembers st ++ new /\ NoDup new /\
    Forall (fun p => p <> holder /\ (p ∉ ds_SeededMembers st) /\ exists e, e ∈ l /\ restoredBy (cl_UID (bw_cluster w)) p e) new /\
    (ds_HAConfigured st' = true -> ds_HAConfigured st = true \/
      forall p, p ∈ memberNames (bw_cluster w) (sp_PromotableMembers (cl_Spec (bw_cluster w))) -> p = holder \/ p ∈ ds_SeededMembers st').
Proof.
  intros Hf. cbv zeta. destruct (reconcileSeeding_cases holder w) as [[Hlog Hst]|(storage & _ & Hlog & Hend)].
  { exists [], [], st. unfold steady in Hst. rewrite Hlog, Hst, !app_nil_r. split_and!; [done|done|done|constructor|done|]. by left. }
  cbv zeta in *. destruct (seedPeers_run storage holder (memberNames (bw_cluster w) (sp_PromotableMembers (cl_Spec (bw_cluster w)))) w st Hf)
    as (new & [Hsub (st1 & Hf1 & Hm & Hall) (l & Hl & Hnew)]).
  assert (NoDup new) as Hnd by (eapply sublist_NoDup; [apply memberNames_NoDup|exact Hsub]).
  pose proof (seedPeers_configured storage holder (memberNames (bw_cluster w) (sp_PromotableMembers (cl_Spec (bw_cluster w)))) w st st1 Hf Hf1) as Hha.
  set (w' := (reconcileSeeding _ _ _ _ _ _ _ w).2) in *. destruct (seedPeers _ _ _ _ _ _ _ _ _ w) as [[|] w1]; cbn [fst snd] in *.
  - exists new, l, (set_ds_HAConfigured true (set_ds_Seeding None st1)). split_and!; [by apply Hend|by rewrite Hlog|done|done|done|].
    intros _. right. by apply Hall.
  - exists new, l, st1. unfold steady in Hend. rewrite Hend, Hf1, Hlog, Hha. split_and!; try done. by left.
Qed.

(** C28: A member counts as holding the database only after a restore on it
    completed.  The members that a reconcile adds to the recorded ones are
    distinct, new and not the holder, and each was restored by a call of this
    reconcile: a restore started for this step that was answered as completed,
    or one that was polled or followed under the step's key and that restored
    the seed backup of this step.  The bootstrap is recorded as configured
    only when every member of the cluster holds the database. *)
Theorem seeded_members_restored holder w st : found database w = Some st ->
  let w' := (reconcileSeeding quote formatTime hashRequest r env database holder w).2 in
  exists new l st', found database w' = Some st' /\ bw_log w' = bw_log w ++ l /\
    ds_SeededMembers st' = ds_SeededMembers st ++ new /\ NoDup new /\
    Forall (fun p => p <> holder /\ (p ∉ ds_SeededMembers st) /\ exists e, e ∈ l /\ restoredBy (cl_UID (bw_cluster w)) p e) new /\
    (ds_HAConfigured st' = true -> ds_HAConfigured st = true \/
      forall p, p ∈ memberNames (bw_cluster w) (sp_PromotableMembers (cl_Spec (bw_cluster w))) -> p = holder \/ p ∈ ds_SeededMembers st').
Proof. apply reconcileSeeding_run. Qed.
End seeding.
