(* ===== verification/BootstrapRuns.v ===== *)
(** * Sequences of reconciles of a bootstrap

    The keys under which a bootstrap asks its members for operations, and what
    holds of the stored status and of the calls over every sequence of
    reconciles, with stale reads and lost status writes. *)
From stdpp Require Import prelude gmap strings pretty list.
From Stdlib Require Import Ascii String.
From S2P Require Import Prelude GoState Api GoStr Utf8 Engine HARole OpStore ManifestURI ImClient BackupController HABootstrap Recovery BootstrapSafety.

(** ** Keys *)

Lemma pretty_nonneg z : 0 <= z -> pretty z = pretty (Z.to_N z).
Proof. by destruct z. Qed.

Lemma pretty_no_hyphen (n : N) : str_forall (fun c => c != "-"%char) (pretty n) = true.
Proof. apply digits_no_hyphen, pretty_digits. Qed.

Lemma pretty_Z_no_hyphen z : 0 <= z -> str_forall (fun c => c != "-"%char) (pretty z) = true.
Proof. intros Hz. rewrite pretty_nonneg by done. apply pretty_no_hyphen. Qed.

(** A number without a hyphen is read off the front of a name. *)
Lemma hyphen_inj d d' x x' :
  str_forall (fun c => c != "-"%char) d = true -> str_forall (fun c => c != "-"%char) d' = true ->
  d +:+ "-" +:+ x = d' +:+ "-" +:+ x' -> d = d' /\ x = x'.
Proof.
  intros Hd Hd' H. pose proof (Cut_app "-" d x Hd) as H1. pose proof (Cut_app "-" d' x' Hd') as H2.
  change (String "-" "" +:+ x) with ("-" +:+ x) in H1. change (String "-" "" +:+ x') with ("-" +:+ x') in H2.
  rewrite H, H2 in H1. by simplify_eq.
Qed.

Lemma hyphen_none d d' x :
  str_forall (fun c => c != "-"%char) d = true -> str_forall (fun c => c != "-"%char) d' = true -> d +:+ "-" +:+ x <> d'.
Proof.
  intros Hd Hd' H. pose proof (Cut_app "-" d x Hd) as H1. pose proof (Cut_None "-" d' Hd') as H2.
  change (String "-" "" +:+ x) with ("-" +:+ x) in H1. rewrite H, H2 in H1. done.
Qed.

(** A copy of the database to a member: the first one, or a later one from a
    source in a round. *)
Inductive SeedCopy := FirstCopy (peer : N) | LaterCopy (peer source : N) (round : Z).

Definition copyMember (name : string) (c : SeedCopy) : string :=
  match c with
  | FirstCopy i => seedKeyMember (memberName name i) ""
  | LaterCopy i j round =>
      let p := memberName name i in seedKeyMember p (artifactOf p (mkDatabaseSeeding p (memberName name j) round "" "" None))
  end.
Definition copyOk (c : SeedCopy) : Prop := match c with FirstCopy _ => True | LaterCopy _ _ round => 0 <= round end.

(** What follows the name of the cluster in the name of a copy. *)
Definition copyTail (name : string) (c : SeedCopy) : string :=
  match c with
  | FirstCopy i => pretty i
  | LaterCopy i j round =>
      pretty i +:+ "-" +:+ "from-" +:+ name +:+ "-" +:+ pretty j +:+ (if 0 <? round then "-" +:+ "r" +:+ pretty round else "")
  end.

Lemma copyMember_tail name c : copyMember name c = name +:+ "-" +:+ copyTail name c.
Proof.
  destruct c as [i|i j round]; unfold copyMember, seedKeyMember, memberName, copyTail.
  - by rewrite bool_decide_eq_true_2.
  - rewrite bool_decide_eq_false_2 by apply artifactOf_not_empty. cbn [negb]. unfold artifactOf. cbn [sd_Source sd_Round].
    destruct (0 <? round); rewrite ?str_app_assoc, ?str_app_nil_r; done.
Qed.

Lemma copyMember_inj name c c' : copyOk c -> copyOk c' -> copyMember name c = copyMember name c' -> c = c'.
Proof.
  intros Hc Hc'. rewrite !copyMember_tail. intros H. apply (inj (String.app name)), (inj (String.app "-")) in H.
  destruct c as [i|i j round], c' as [i'|i' j' round']; cbn [copyTail copyOk] in *.
  - apply (inj pretty) in H. by subst.
  - by apply symmetry, hyphen_none in H; [|apply pretty_no_hyphen..].
  - by apply hyphen_none in H; [|apply pretty_no_hyphen..].
  - apply hyphen_inj in H as [Hi H]; [|apply pretty_no_hyphen..]. apply (inj pretty) in Hi as ->.
    apply (inj (String.app "from-")), (inj (String.app name)), (inj (String.app "-")) in H.
    destruct (Z.ltb_spec 0 round), (Z.ltb_spec 0 round').
    + apply hyphen_inj in H as [Hj H]; [|apply pretty_no_hyphen..]. apply (inj pretty) in Hj as ->.
      apply (inj (String.app "r")), (inj pretty) in H as ->. done.
    + rewrite str_app_nil_r in H. by apply hyphen_none in H; [|apply pretty_no_hyphen..].
    + rewrite str_app_nil_r in H. by apply symmetry, hyphen_none in H; [|apply pretty_no_hyphen..].
    + rewrite !str_app_nil_r in H. apply (inj pretty) in H as ->. f_equal. lia.
Qed.

(** The entry of [database] in an attempt. *)
Definition attempt (database : string) (a : Z) : DatabaseStatus := set_ds_BootstrapAttempts a (zeroDatabaseStatus database).

(** The key of a seed restore names one attempt, one member and, for a
    later member, one source and round: two restores of a database's
    bootstrap have the same key only if they are the same attempt of the same
    copy.  So a restore that runs under a key is never taken for a copy from
    another source. *)
Theorem seed_restore_key_identifies name uid database a a' c c' :
  0 <= a -> 0 <= a' -> copyOk c -> copyOk c' ->
  bootstrapKey "seed-restore" uid (attempt database a) (copyMember name c) =
  bootstrapKey "seed-restore" uid (attempt database a') (copyMember name c') ->
  a = a' /\ c = c'.
Proof.
  intros Ha Ha' Hc Hc'. unfold bootstrapKey. assert (forall c, copyMember name c <> "") as Hne.
  { intros x Hx. rewrite copyMember_tail in Hx. by destruct name. }
  rewrite !bool_decide_eq_false_2 by apply Hne. cbn [negb attempt ds_Name ds_BootstrapAttempts set_ds_BootstrapAttempts zeroDatabaseStatus].
  rewrite !str_app_assoc. intros H. do 6 apply (inj (String.app _)) in H.
  apply hyphen_inj in H as [H1 H2]; [|by apply pretty_Z_no_hyphen..]. apply (inj pretty) in H1. by apply copyMember_inj in H2.
Qed.

(** ** One reconcile *)

(** How an entry changes: the attempts never go back and stay below the
    limit, and what is recorded as created or configured stays so. *)
Record Evolves (s s' : DatabaseStatus) : Prop := {
  ev_attempts : 0 <= ds_BootstrapAttempts s < maxBootstrapAttempts ->
    ds_BootstrapAttempts s <= ds_BootstrapAttempts s' < maxBootstrapAttempts;
  ev_created : ds_PrimaryCreated s = true -> ds_PrimaryCreated s' = true;
  ev_configured : ds_HAConfigured s = true -> ds_HAConfigured s' = true }.
#[global] Instance Evolves_preorder : PreOrder Evolves.
Proof.
  split; [intros s; split; [lia|done|done]|]. intros s1 s2 s3 [A1 C1 H1] [A2 C2 H2]. split; [|auto|auto].
  intros Ha. specialize (A1 Ha). lia.
Qed.

(** The entry also keeps the members that hold the database, and whether the
    bootstrap is configured. *)
Record Mild (s s' : DatabaseStatus) : Prop := {
  mild_evolves : Evolves s s';
  mild_seeded : ds_SeededMembers s' = ds_SeededMembers s;
  mild_configured : ds_HAConfigured s' = ds_HAConfigured s }.
#[global] Instance Mild_preorder : PreOrder Mild.
Proof.
  split; [intros s; by split|]. intros s1 s2 s3 [E1 S1 C1] [E2 S2 C2]. split; [by transitivity s2|congruence|congruence].
Qed.

Section reconcile.
Context `{O : ConditionOps} (quote : string -> string) (formatTime : Time -> string) (hashRequest : RestoreRequest -> string).
Context (r : BootReconciler) (env : BootEnv) (database : string).

(** A change of the entry that touches none of it. *)
Lemma mild_refl s s' : ds_BootstrapAttempts s' = ds_BootstrapAttempts s -> (ds_PrimaryCreated s = true -> ds_PrimaryCreated s' = true) ->
  ds_HAConfigured s' = ds_HAConfigured s -> ds_SeededMembers s' = ds_SeededMembers s -> Mild s s'.
Proof. intros Ha Hc Hh Hs. split; [split; [rewrite Ha; lia|done|by rewrite Hh]|done|done]. Qed.

Lemma mild_mod f : (forall s, ds_Name (f s) = ds_Name s) -> (forall s, Mild s (f s)) -> keeps (on_entry database Mild) (modDB database f).
Proof. apply entry_mod. Qed.

Lemma mild_stepFailed reason msg : keeps (on_entry database Mild) (bootstrapStepFailed database reason msg).
Proof.
  intros w. unfold bootstrapStepFailed. rewrite run_bind. cbn [getDB fst snd]. fold (entry database w).
  assert (forall f (m : Boot unit), (forall s, ds_Name (f s) = ds_Name s) -> (forall s, found database w = Some s -> Mild s (f s)) ->
    keeps (on_entry database Mild) m -> on_entry database Mild w (m (modDB database f w).2).2) as Hgo.
  { intros f m Hn Hf Hm. destruct (Hm (modDB database f w).2) as [Hsame Hentry]. split; [by transitivity (bw_cluster (modDB database f w).2)|].
    intros s Hs. destruct (Hentry (f s)) as (s' & Hs' & Hq); [by apply mod_found|]. exists s'. split; [done|].
    transitivity (f s); [by apply Hf|done]. }
  destruct (wrap32 _ <? maxBootstrapAttempts) eqn:Ea; bool_simpl; rewrite run_bind; apply Hgo; try done.
  - intros s Hs. rewrite (entry_found database w s Hs) in Ea |- *. split; [split; [|done|done]|done|done]. cbn. intros Ha.
    unfold wrap32, maxBootstrapAttempts in *. rewrite Z.mod_small in * by lia. lia.
  - keeps_solve.
  - intros s _. by apply mild_refl.
  - keeps_solve.
Qed.

Lemma mild_since f t s : Mild s (set_since f t s).
Proof. by apply mild_refl; destruct f. Qed.
Lemma mild_seeding v s : Mild s (set_ds_Seeding v s).
Proof. by apply mild_refl. Qed.
Lemma mild_phase v s : Mild s (set_ds_Phase v s).
Proof. by apply mild_refl. Qed.
Lemma mild_operation id since s : Mild s (set_ds_Operation id since s).
Proof. by apply mild_refl. Qed.

Lemma evolves_seeding holder : keeps (on_entry database Evolves) (reconcileSeeding quote formatTime hashRequest r env database holder).
Proof.
  apply kept_reconcileSeeding; [apply _|..].
  - intros reason msg w. destruct (mild_stepFailed reason msg w) as [Hs He]. split; [done|].
    intros s Hf. destruct (He s Hf) as (s' & Hf' & [Hq _ _]). eauto.
  - intros s. apply mild_phase.
  - intros f t s. apply mild_since.
  - intros v s. apply mild_seeding.
  - intros p s. by split; [cbn; lia|..].
  - intros s. by split; [cbn; lia|..].
Qed.

(** The creation ends in a change that records no member as holding the
    database, or in the seeding of a database recorded as created. *)
Lemma createDatabase_cases member w s : found database w = Some s ->
  let w' := (createDatabase quote formatTime hashRequest r env database member w).2 in
  (on_entry database Mild w w') \/
  exists w1 s1, on_entry database Mild w w1 /\ found database w1 = Some s1 /\ ds_PrimaryCreated s1 = true /\ grown w w1 /\
    w' = (reconcileSeeding quote formatTime hashRequest r env database member w1).2.
Proof.
  intros Hf. cbv zeta. unfold createDatabase. rewrite !run_bind. cbn [getDB theCluster fst snd]. set (m := if negb _ then _ else _).
  assert (keeps (on_entry database Mild) m) as Hm.
  { pose proof mild_stepFailed. unfold m. destruct (negb _).
    - apply kept_poll; [apply _|intros; apply mild_phase|apply mild_since].
    - assert (forall p k key c, keeps (on_entry database Mild) (startOrFollow quote env database p k key c)) as Hfo by (intros; apply kept_follow, _).
      keeps_solve. }
  assert (keeps grown m) as Hg.
  { unfold m. destruct (negb _); [apply log_poll; [apply _|apply grown_log|apply grown_operate]|].
    assert (forall p k key c, keeps grown (startOrFollow quote env database p k key c)) as Hfo
      by (intros; apply log_follow; [apply _|apply grown_find|apply grown_operate]).
    assert (forall reason msg, keeps grown (bootstrapStepFailed database reason msg)) as Hst
      by (intros; apply log_stepFailed; [apply _|apply grown_log]). keeps_solve. }
  pose proof (Hm w) as Hw1. pose proof (Hg w) as Hl1. destruct (m w) as [res w1]. cbn [fst snd] in *.
  destruct res as [[err|op]|]; [left; etransitivity; [exact Hw1|apply (entry_notReady database Mild)]| |by left].
  unfold followCreation. rewrite run_bind. set (w2 := (modDB _ _ w1).2).
  assert (on_entry database Mild w w2) as Hw2.
  { transitivity w1; [done|]. apply mild_mod; [done|]. intros; apply mild_operation. }
  destruct (bool_decide (op_State op = OpCompleted)).
  - right. destruct (proj2 Hw2 s Hf) as (s2 & Hf2 & _). rewrite !run_bind.
    set (f := fun s => set_ds_PrimaryCreated true (set_ds_Phase databasePhaseCreated s)). set (w3 := (modDB database f w2).2).
    exists (statusEvent EventTypeNormal "DatabaseCreated" ("database " +:+ database +:+ " created on " +:+ member) w3).2, (f s2).
    split_and!; [|by apply mod_found|done|done|done].
    transitivity w2; [done|]. apply (mild_mod f); [done|]. intros s'. by apply mild_refl.
  - left. transitivity w2; [done|]. pose proof mild_stepFailed.
    assert (forall f, (forall s, ds_Name (f s) = ds_Name s) -> (forall s, Mild s (f s)) -> keeps (on_entry database Mild) (modDB database f)) as Hmod
      by apply mild_mod.
    destruct (bool_decide (op_State op = OpFailed)); rewrite run_bind.
    + etransitivity; [apply (Hmod (fun s => set_ds_Operation "" (ds_BootstrapOperationMissingSince s) s)); [done|by intros; apply mild_operation]|].
      apply mild_stepFailed.
    + etransitivity; [apply (Hmod (set_ds_Phase databasePhaseCreating)); [done|by intros; apply mild_phase]|].
      apply (entry_notReady database Mild).
Qed.

(** ** The calls that create the database *)

Definition logs (P : Entry -> Prop) (w w' : BW) : Prop := exists l, bw_log w' = bw_log w ++ l /\ Forall P l.
#[global] Instance logs_preorder P : PreOrder (logs P).
Proof.
  split; [intros w; exists []; by rewrite app_nil_r|]. intros w1 w2 w3 (l1 & H1 & P1) (l2 & H2 & P2).
  exists (l1 ++ l2). rewrite H2, H1, app_assoc. split; [done|by apply Forall_app].
Qed.
Lemma logs_same P w w' : bw_log w' = bw_log w -> bootstrapOf w' = bootstrapOf w -> objectOf (bw_cluster w') = objectOf (bw_cluster w) -> logs P w w'.
Proof. intros H _ _. exists []. by rewrite app_nil_r. Qed.
Lemma logs_operate P c : (forall s a, P (mkEntry s c a)) -> keeps (logs P) (operate env database c).
Proof. intros HP w. eexists. split; [done|]. by apply Forall_singleton. Qed.
Lemma logs_find P p k key : (forall s a, P (mkEntry s (LooksUp p k key) a)) -> keeps (logs P) (findOperation env database p k key).
Proof. intros HP w. eexists. split; [done|]. by apply Forall_singleton. Qed.

(** A creation goes to [member], under the key of an attempt. *)
Definition CreateOk (uid member : string) (e : Entry) : Prop :=
  match en_call e with
  | StartsHABootstrap p k d => p = member /\ d = database /\
      exists a, 0 <= a < maxBootstrapAttempts /\ k = bootstrapKey "ha-bootstrap" uid (attempt database a) ""
  | _ => True
  end.

Lemma create_logs member w s : found database w = Some s -> 0 <= ds_BootstrapAttempts s < maxBootstrapAttempts ->
  logs (CreateOk (cl_UID (bw_cluster w)) member) w (createDatabase quote formatTime hashRequest r env database member w).2.
Proof.
  intros Hf Ha. unfold createDatabase. rewrite !run_bind. cbn [getDB theCluster fst snd].
  fold (entry database w). rewrite (entry_found database w s Hf). set (P := CreateOk (cl_UID (bw_cluster w)) member).
  assert (forall p k key, keeps (logs P) (findOperation env database p k key)) as Hfind by (intros; by apply logs_find).
  assert (forall p id, keeps (logs P) (operate env database (Polls p id))) as Hpoll by (intros; by apply logs_operate).
  assert (forall p k q, keeps (logs P) (operate env database (StartsBackup p k q))) as Hb by (intros; by apply logs_operate).
  assert (forall p k q, keeps (logs P) (operate env database (StartsRestore p k q))) as Hre by (intros; by apply logs_operate).
  set (key := bootstrapKey _ _ _ _).
  assert (keeps (logs P) (operate env database (StartsHABootstrap member key database))) as Hc.
  { apply logs_operate. intros st a. cbn. split_and!; [done|done|]. exists (ds_BootstrapAttempts s). split; [done|].
    apply bootstrapKey_status; [|done]. exact (find_name _ _ _ Hf). }
  pose proof (logs_same P) as Hlog.
  pose proof (fun f => log_mod database (logs P) Hlog f) as H1. pose proof (fun t a b => log_event (logs P) Hlog t a b) as H2.
  pose proof (fun a b => log_notReady (logs P) Hlog a b) as H3.
  pose proof (fun a b => log_stepFailed database (logs P) Hlog a b) as H4.
  pose proof (fun a b c d e f g => log_poll formatTime env database (logs P) Hlog a b c d e f g (Hpoll b e)) as H5.
  pose proof (log_follow quote env database (logs P) Hfind member OpHABootstrap key _ Hc) as H6.
  pose proof (fun h => log_reconcileSeeding quote formatTime hashRequest r env database (logs P) Hlog Hfind Hpoll Hb Hre h) as H7.
  match goal with |- context [(if negb ?b then ?m1 else ?m2) w] =>
    set (m := if negb b then m1 else m2); assert (keeps (logs P) m) as Hm by (unfold m; destruct (negb b); keeps_solve) end.
  transitivity (m w).2; [apply Hm|]. destruct (m w) as [res w1]. cbn [fst snd]. destruct res as [[err|op]|]; [apply H3| |done].
  apply (fun H : keeps (logs P) (followCreation quote formatTime hashRequest r env database member op) => H _).
  unfold followCreation. keeps_solve.
Qed.

(** ** The invariant of an entry *)

Record EntryOk (holder : string) (s : DatabaseStatus) : Prop := {
  ok_attempts : 0 <= ds_BootstrapAttempts s < maxBootstrapAttempts;
  ok_seeded : NoDup (ds_SeededMembers s);
  ok_holder : holder ∉ ds_SeededMembers s;
  ok_created : ds_SeededMembers s <> [] \/ ds_HAConfigured s = true -> ds_PrimaryCreated s = true }.

Lemma EntryOk_mild holder s s' : EntryOk holder s -> Mild s s' -> EntryOk holder s'.
Proof.
  intros [Ha Hn Hh Hc] [[Ea Ec _] Hs Hf]. split; [specialize (Ea Ha); lia|by rewrite Hs|by rewrite Hs|].
  rewrite Hs, Hf. auto.
Qed.

(** How an entry [s] may be followed by [s']. *)
Record Next (holder : string) (s s' : DatabaseStatus) : Prop := {
  next_ok : EntryOk holder s';
  next_evolves : Evolves s s';
  next_seeded : ds_SeededMembers s `prefix_of` ds_SeededMembers s';
  next_final : ds_Phase s = databasePhaseFailed \/ ds_HAConfigured s = true -> s' = s }.

Lemma seeding_next holder w s : found database w = Some s -> EntryOk holder s -> ds_PrimaryCreated s = true ->
  exists s', found database (reconcileSeeding quote formatTime hashRequest r env database holder w).2 = Some s' /\
    EntryOk holder s' /\ Evolves s s' /\ ds_SeededMembers s `prefix_of` ds_SeededMembers s'.
Proof.
  intros Hf [Ha Hn Hh Hc] Hp.
  destruct (reconcileSeeding_run quote formatTime hashRequest r env database holder w s Hf) as (new & l & s' & Hf' & _ & Hs & Hnd & Hnew & _).
  destruct (proj2 (evolves_seeding holder w) s Hf) as (s2 & Hf2 & He). rewrite Hf' in Hf2. simplify_eq.
  exists s2. split_and!; [done| |done|rewrite Hs; by eexists]. rewrite Forall_forall in Hnew. split.
  - pose proof (ev_attempts _ _ He Ha). lia.
  - rewrite Hs. apply NoDup_app. split_and!; [done| |done]. intros p Hp1 Hp2. by destruct (Hnew p Hp2) as (_ & Hp3 & _).
  - rewrite Hs, elem_of_app. intros [H|H]; [done|]. by destruct (Hnew holder H) as [H' _].
  - intros _. by apply (ev_created _ _ He).
Qed.
End reconcile.

(** One reconcile of the bootstrap, from a copy of the cluster. *)
Section one_reconcile.
Context `{O : ConditionOps} (quote : string -> string) (formatTime : Time -> string) (hashRequest : RestoreRequest -> string).
Context (r : BootReconciler) (env : BootEnv) (database : string).
Notation run := (reconcileHABootstrap quote formatTime hashRequest r env).

Lemma reconcileHABootstrap_next w : head (sp_Databases (cl_Spec (bw_cluster w))) = Some database ->
  let holder := memberName (cl_Name (bw_cluster w)) 0 in
  EntryOk holder (entry database w) ->
  Next holder (entry database w) (entry database (run w).2) /\
  logs (CreateOk database (cl_UID (bw_cluster w)) holder) w (run w).2.
Proof.
  intros Hdb holder Hok. assert (Next holder (entry database w) (entry database w)) as Hrefl by (split; [done|done|done|done]).
  unfold reconcileHABootstrap. rewrite run_bind. cbn [theCluster fst snd].
  destruct (sp_Databases (cl_Spec (bw_cluster w))) as [|d ds]; [done|]. cbn in Hdb. injection Hdb as ->.
  destruct (_ || _); [done|]. rewrite !run_bind. destruct (databaseStatus_found database w) as (Hf & Hlog & Hboot & Hsame).
  pose proof (databaseStatus_object database w) as Hobj.
  set (w1 := (databaseStatus database w).2) in *. cbn [getDB fst snd]. fold (entry database w1).
  rewrite (entry_found database w1 _ Hf). set (s := entry database w) in *.
  destruct ((bool_decide (ds_Phase s = databasePhaseFailed)) || ds_HAConfigured s) eqn:Ee.
  { cbn [mret St_ret snd]. rewrite (entry_found database w1 s Hf). split; [done|by apply logs_same]. }
  apply orb_false_iff in Ee as [Ep Ec]. bool_simpl. fold holder.
  assert (forall s' w', found database w' = Some s' -> EntryOk holder s' -> Evolves s s' ->
    ds_SeededMembers s `prefix_of` ds_SeededMembers s' -> Next holder s (entry database w')) as Hnext.
  { intros s' w' Hf' Hok' He Hpre. rewrite (entry_found database w' s' Hf'). split; [done|done|done|]. intros [?|?]; congruence. }
  set (P := CreateOk database (cl_UID (bw_cluster w)) holder).
  assert (CreateOk database (cl_UID (bw_cluster w1)) holder = P) as HP by (unfold P; by rewrite (same_uid _ _ Hsame)).
  destruct (ds_PrimaryCreated s) eqn:Ecr.
  - destruct (seeding_next quote formatTime hashRequest r env database holder w1 s Hf Hok Ecr) as (s' & Hf' & Hok' & He & Hpre).
    split; [by apply (Hnext s')|]. transitivity w1; [by apply logs_same|].
    apply log_reconcileSeeding; [apply _|apply logs_same|..]; intros; (by apply logs_find) || by apply logs_operate.
  - split; [|transitivity w1; [by apply logs_same|]; rewrite <- HP; by apply (create_logs _ _ _ _ _ _ _ _ s); [|apply Hok]].
    destruct (createDatabase_cases quote formatTime hashRequest r env database holder w1 s Hf) as [[_ Hm]|(w2 & s2 & [_ Hm] & Hf2 & Hcr2 & _ & ->)].
    + destruct (Hm s Hf) as (s' & Hf' & Hmild). apply (Hnext s'); [done|by apply (EntryOk_mild _ s)|apply Hmild|].
      by rewrite (mild_seeded _ _ Hmild).
    + destruct (Hm s Hf) as (s2' & Hf2' & Hmild). rewrite Hf2 in Hf2'. simplify_eq.
      destruct (seeding_next quote formatTime hashRequest r env database holder w2 s2' Hf2) as (s' & Hf' & Hok' & He & Hpre);
        [by apply (EntryOk_mild _ s)|done|].
      apply (Hnext s'); [done|done|by transitivity s2'; [apply Hmild|]|]. by rewrite <- (mild_seeded _ _ Hmild).
Qed.
End one_reconcile.

(** ** Sequences of reconciles

    The API server holds the versions of [status.databases] that were stored,
    newest first.  A reconcile reads one of them, the newest or an older one
    from a cache, and works on a cluster with the same name, UID and first
    database.  Its status is stored only on top of the version it read; the
    write may also fail or be lost, in which case what it sent to the members
    stays sent.  [asStored] is a time as the API server stores it. *)
Section runs.
Context `{O : ConditionOps} (quote : string -> string) (formatTime : Time -> string) (hashRequest : RestoreRequest -> string).
Context (asStored : Time -> Time) (name uid database : string).

Definition storedSeeding (s : DatabaseSeeding) : DatabaseSeeding :=
  mkDatabaseSeeding (sd_Member s) (sd_Source s) (sd_Round s) (sd_RestoreOperationID s) (sd_BackupOperationID s)
    (asStored <$> sd_OperationMissingSince s).
Definition storedDatabase (s : DatabaseStatus) : DatabaseStatus :=
  mkDatabaseStatus (ds_Name s) (ds_Phase s) (ds_PrimaryCreated s) (ds_HAConfigured s) (ds_SeededMembers s)
    (storedSeeding <$> ds_Seeding s) (ds_BootstrapAttempts s) (ds_BootstrapOperationID s)
    (asStored <$> ds_BootstrapOperationMissingSince s).

Inductive reached : list (list DatabaseStatus) -> list Entry -> Prop :=
| reached_new : reached [[]] []
| reached_step versions log k dbs r env cluster (stored : bool) :
    reached versions log -> versions !! k = Some dbs ->
    cl_Name cluster = name -> cl_UID cluster = uid -> head (sp_Databases (cl_Spec cluster)) = Some database ->
    st_Databases (cl_Status cluster) = dbs -> (stored = true -> k = 0%nat) ->
    let w' := (reconcileHABootstrap quote formatTime hashRequest r env (mkBW cluster [] [] 0)).2 in
    reached (if stored then (storedDatabase <$> st_Databases (cl_Status (bw_cluster w'))) :: versions else versions)
      (log ++ bw_log w').

Notation holder := (memberName name 0).
Definition entryIn (dbs : list DatabaseStatus) : DatabaseStatus := default (zeroDatabaseStatus database) (findDatabase database dbs).

Lemma find_stored l : findDatabase database (storedDatabase <$> l) = storedDatabase <$> findDatabase database l.
Proof.
  induction l as [|s l IH]; [done|]. cbn [fmap list_fmap findDatabase]. change (ds_Name (storedDatabase s)) with (ds_Name s).
  by destruct (bool_decide (ds_Name s = database)).
Qed.

Lemma entryIn_stored l : entryIn (storedDatabase <$> l) = storedDatabase (entryIn l).
Proof. unfold entryIn. rewrite find_stored. by destruct (findDatabase database l). Qed.

Lemma EntryOk_stored s : EntryOk holder s -> EntryOk holder (storedDatabase s).
Proof. intros []. by split. Qed.

Lemma reached_inv versions log : reached versions log ->
  Forall (fun dbs => EntryOk holder (entryIn dbs)) versions /\ Forall (CreateOk database uid holder) log /\
  (forall i new old, versions !! i = Some new -> versions !! S i = Some old ->
     exists s, entryIn new = storedDatabase s /\ Next holder (entryIn old) s).
Proof.
  induction 1 as [|versions log k dbs r env cluster stored Hreach (Hok & Hlog & Hnext) Hk Hn Hu Hd Hs Hst].
  { split_and!; [|constructor|by intros [|i]]. repeat constructor; cbn; [lia|set_solver|naive_solver]. }
  set (w := mkBW cluster [] [] 0) in *.
  assert (EntryOk holder (entry database w)) as Hw.
  { unfold entry, entryOf, w. cbn. rewrite Hs. by apply (proj1 (Forall_lookup _ _) Hok k). }
  destruct (reconcileHABootstrap_next quote formatTime hashRequest r env database w Hd) as [Hnx (l & Hl & Hc)];
    [by rewrite <- Hn in Hw|]. change (bw_log w) with (@nil Entry) in Hl. cbn [app] in Hl. fold w' in Hl, Hnx.
  change (cl_Name (bw_cluster w)) with (cl_Name cluster) in *. change (cl_UID (bw_cluster w)) with (cl_UID cluster) in *.
  rewrite Hn in Hnx, Hc. rewrite Hu in Hc. rewrite Hl. split_and!.
  - destruct stored; [|done]. constructor; [|done]. rewrite entryIn_stored. apply EntryOk_stored. exact (next_ok _ _ _ Hnx).
  - by apply Forall_app.
  - destruct stored; [|done]. intros [|i] new old Hi Ho; [|by apply (Hnext i)]. cbn in Hi. simplify_eq.
    change (versions !! 0%nat = Some old) in Ho. rewrite (Hst eq_refl) in Hk. rewrite Hk in Ho. simplify_eq.
    exists (entry database w'). split; [apply entryIn_stored|]. exact Hnx.
Qed.

(** C29: The record of a bootstrap stays sound over every sequence of
    reconciles.  In every stored version the attempts are below the limit of
    three, the members recorded as holding the database are distinct and not
    the one it was created on, and none is recorded, nor the bootstrap as
    configured, before the creation is.  From one version to the next no
    attempt is taken back, no member is taken off the record, and a database
    that is Failed or configured stays exactly as it is. *)
Theorem bootstrap_record_sound versions log : reached versions log ->
  Forall (fun dbs => EntryOk holder (entryIn dbs)) versions /\
  forall i new old, versions !! i = Some new -> versions !! S i = Some old ->
    Evolves (entryIn old) (entryIn new) /\ ds_SeededMembers (entryIn old) `prefix_of` ds_SeededMembers (entryIn new) /\
    (ds_Phase (entryIn old) = databasePhaseFailed \/ ds_HAConfigured (entryIn old) = true ->
     entryIn new = storedDatabase (entryIn old)).
Proof.
  intros (Hok & _ & Hnext)%reached_inv. split; [done|]. intros i new old Hi Ho.
  destruct (Hnext i new old Hi Ho) as (s & Hs & [_ [Ea Ec Eh] Hp Hf]). rewrite Hs. split_and!; [by split|done|].
  intros H. by rewrite (Hf H).
Qed.

(** C30: The database is created on one member, in at most three attempts.
    Whatever sequence of reconciles runs, every request to create it goes to
    the member with ordinal 0 and carries one of the three keys of its
    attempts, so that a member that keeps its operations by key runs at most
    three of them. *)
Theorem database_created_on_one_member versions log e p k d : reached versions log ->
  e ∈ log -> en_call e = StartsHABootstrap p k d ->
  p = holder /\ d = database /\
  k ∈ [bootstrapKey "ha-bootstrap" uid (attempt database 0) ""; bootstrapKey "ha-bootstrap" uid (attempt database 1) "";
       bootstrapKey "ha-bootstrap" uid (attempt database 2) ""].
Proof.
  intros (_ & Hlog & _)%reached_inv He Hc. rewrite Forall_forall in Hlog. specialize (Hlog e He). unfold CreateOk in Hlog.
  rewrite Hc in Hlog. destruct Hlog as (-> & -> & a & Ha & ->). split_and!; [done|done|]. unfold maxBootstrapAttempts in Ha.
  assert (a = 0 \/ a = 1 \/ a = 2) as [->|[->| ->]] by lia; set_solver.
Qed.
End runs.
