(* ===== verification/RecoverySafety.v ===== *)
(** * What a recovery promises

    A cluster that is recovered from a backup (Recovery.v) is reported as no
    longer recovering exactly when its recovery is recorded as complete, and it
    restores the object its manifest URI names.  RecoveryRuns.v follows it over
    sequences of reconciles. *)
From stdpp Require Import prelude gmap strings pretty list.
From Stdlib Require Import Ascii String.
From S2P Require Import Prelude GoState Api GoStr Utf8 Engine HARole OpStore ManifestURI ImClient BackupController HABootstrap.
From S2P Require Import Recovery BootstrapSafety.

Section recovery.
Context `{O : ConditionOps} (quote : string -> string) (formatTime : Time -> string) (hashRequest : RestoreRequest -> string).
Context (r : BootReconciler) (env : BootEnv).

(** ** The recorded phase *)

Definition sameBoot (w w' : BW) : Prop := bootstrapOf w' = bootstrapOf w.
#[local] Instance sameBoot_preorder : PreOrder sameBoot.
Proof. split; unfold sameBoot; [done|intros ???; congruence]. Qed.

Lemma sameBoot_operate database c : keeps sameBoot (operate env database c).
Proof. intros w. reflexivity. Qed.
Lemma sameBoot_find database p k key : keeps sameBoot (findOperation env database p k key).
Proof. intros w. reflexivity. Qed.
Lemma sameBoot_log (w w' : BW) : bw_log w' = bw_log w -> bootstrapOf w' = bootstrapOf w ->
  objectOf (bw_cluster w') = objectOf (bw_cluster w) -> sameBoot w w'.
Proof. intros _ H _. exact H. Qed.

Lemma sameBoot_seeding database holder : keeps sameBoot (reconcileSeeding quote formatTime hashRequest r env database holder).
Proof. apply log_reconcileSeeding; [apply _|apply sameBoot_log|apply sameBoot_find|..]; intros; apply sameBoot_operate. Qed.
Lemma sameBoot_follow database pod kind key c : keeps sameBoot (startOrFollow quote env database pod kind key c).
Proof. apply log_follow; [apply _|apply sameBoot_find|apply sameBoot_operate]. Qed.

(** The recovery stays recorded, and is not recorded as complete. *)
Definition open (w : BW) : Prop := exists b, bootstrapOf w = Some b /\ bs_Phase b <> BootstrapComplete.
Definition staysOpen (w w' : BW) : Prop := open w -> open w'.
#[local] Instance staysOpen_preorder : PreOrder staysOpen.
Proof. split; [by intros w Hw|intros x y z Hxy Hyz Hx; auto]. Qed.

Lemma open_same w w' : sameBoot w w' -> staysOpen w w'.
Proof. intros H (b & Hb & Hp). exists b. by rewrite H. Qed.

Lemma open_mod f : (forall b, bs_Phase b <> BootstrapComplete -> bs_Phase (f b) <> BootstrapComplete) -> keeps staysOpen (modBoot f).
Proof. intros Hf w (b & Hb & Hp). exists (f b). split; [|by apply Hf]. unfold bootstrapOf in *. cbn. by rewrite Hb. Qed.
Lemma open_notReady reason msg : keeps staysOpen (notReady reason msg).
Proof. intros w. by apply open_same. Qed.
Lemma open_event t reason msg : keeps staysOpen (statusEvent t reason msg).
Proof. intros w. by apply open_same. Qed.
Lemma open_clock : keeps staysOpen (clock env).
Proof. intros w. by apply open_same. Qed.
Lemma open_get : keeps staysOpen getBoot.
Proof. apply keeps_read, _. Qed.
Lemma open_cluster : keeps staysOpen theCluster.
Proof. apply keeps_read, _. Qed.
Lemma open_follow database pod kind key c : keeps staysOpen (startOrFollow quote env database pod kind key c).
Proof. intros w. apply open_same, sameBoot_follow. Qed.
Lemma open_failed reason msg : keeps staysOpen (recoveryFailed reason msg).
Proof. unfold recoveryFailed. apply (keeps_bind _); [by apply open_mod|intros _; apply open_notReady]. Qed.
Hint Resolve open_notReady open_event open_clock open_get open_cluster open_follow open_failed : keeps.

(** A handler after which the recovery is still active. *)
Definition staysActive (m : Boot (Duration * bool)) : Prop := keeps staysOpen m /\ forall w, (m w).1.2 = true.

Lemma active_bind {A} (m : Boot A) k : keeps staysOpen m -> (forall x, staysActive (k x)) -> staysActive (m ≫= k).
Proof. intros Hm Hk. split; [apply (keeps_bind _); [done|apply Hk]|]. intros w. rewrite run_bind. apply Hk. Qed.
Lemma active_ret d : staysActive (mret (d, true)).
Proof. split; [apply keeps_ret, _|done]. Qed.

Ltac active := repeat match goal with
  | |- staysActive (mbind _ _) => apply active_bind; [solve [eauto with keeps]|intros ?]
  | |- staysActive (mret _) => apply active_ret
  | |- staysActive (if ?b then _ else _) => destruct b
  | |- staysActive (match ?x with _ => _ end) => destruct x
  end.

Lemma open_attempt a : keeps staysOpen (modBoot (fun b => set_bs_OperationID "" (set_bs_Attempts a b))).
Proof. by apply open_mod. Qed.
Lemma open_since t : keeps staysOpen (modBoot (set_bs_OperationMissingSince t)).
Proof. by apply open_mod. Qed.
Lemma open_operation id : keeps staysOpen (modBoot (set_bs_OperationID id)).
Proof. by apply open_mod. Qed.
Hint Resolve open_attempt open_since open_operation : keeps.

Lemma attemptFailed_active target why : staysActive (restoreAttemptFailed target why).
Proof. unfold restoreAttemptFailed. active. Qed.
Lemma missing_active target err : staysActive (restoreOperationMissing formatTime env target err).
Proof. unfold restoreOperationMissing. apply active_bind; [eauto with keeps|intros boot]. apply active_bind; [keeps_solve|intros since]. active. Qed.
Lemma open_progress state target : keeps staysOpen (setRestoreProgress state target).
Proof.
  unfold setRestoreProgress. destruct (_ == OpRestoring); [|destruct (_ == OpStarting)];
    (apply (keeps_bind _); [by apply open_mod|intros _; apply open_notReady]).
Qed.
Hint Resolve open_progress : keeps.
Lemma start_active database bucket prefix uri target :
  staysActive (startRecovery quote env database bucket prefix uri target).
Proof. pose proof attemptFailed_active. unfold startRecovery. active; auto. Qed.

(** ** The end of a recovery *)

(** What a handler leaves: an active recovery, or one recorded as complete. *)
Definition recoveryEnd (out : (Duration * bool) * BW) : Prop :=
  (out.1.2 = true /\ open out.2) \/
  (out.1.2 = false /\ exists b, bootstrapOf out.2 = Some b /\ bs_Phase b = BootstrapComplete).
Definition ends (m : Boot (Duration * bool)) : Prop := forall w, open w -> recoveryEnd (m w).

Lemma ends_bind {A} (m : Boot A) k : keeps staysOpen m -> (forall x, ends (k x)) -> ends (m ≫= k).
Proof. intros Hm Hk w Hw. rewrite run_bind. apply Hk. by apply Hm. Qed.

Lemma open_modDB database f : keeps staysOpen (modDB database f).
Proof. intros w. by apply open_same. Qed.
Lemma open_getDB database : keeps staysOpen (getDB database).
Proof. apply keeps_read, _. Qed.
Lemma open_databaseStatus database : keeps staysOpen (databaseStatus database).
Proof. intros w. apply open_same. unfold databaseStatus, sameBoot. cbn [snd]. by destruct (findDatabase _ _). Qed.
Lemma open_seeding database holder : keeps staysOpen (reconcileSeeding quote formatTime hashRequest r env database holder).
Proof. intros w. apply open_same, sameBoot_seeding. Qed.
Lemma open_operate database c : keeps staysOpen (operate env database c).
Proof. intros w. by apply open_same. Qed.
Lemma open_phase p : p <> BootstrapComplete -> keeps staysOpen (modBoot (set_bs_Phase p)).
Proof. intros Hp. by apply open_mod. Qed.
Hint Resolve open_modDB open_getDB open_databaseStatus open_seeding open_operate : keeps.

Lemma mod_bootstrap f w b : bootstrapOf w = Some b -> bootstrapOf (modBoot f w).2 = Some (f b).
Proof. unfold bootstrapOf. cbn. by intros ->. Qed.

Lemma recoverySeeding_ends database : ends (reconcileRecoverySeeding quote formatTime hashRequest r env database).
Proof.
  assert (keeps staysOpen (modBoot (set_bs_Phase BootstrapSeedingReplicas))) as H1 by by apply open_phase.
  assert (keeps staysOpen (modBoot (set_bs_Phase BootstrapFailed))) as H2 by by apply open_phase.
  unfold reconcileRecoverySeeding. apply ends_bind; [keeps_solve|intros boot]. apply ends_bind; [keeps_solve|intros _].
  apply ends_bind; [keeps_solve|intros s1]. apply ends_bind; [keeps_solve|intros _]. apply ends_bind; [keeps_solve|intros s2].
  apply ends_bind; [keeps_solve|intros _]. intros w (b & Hb & Hp). rewrite run_bind. cbn [getDB fst snd]. fold (entry database w).
  destruct (ds_HAConfigured (entry database w)) eqn:Eh.
  - right. rewrite run_bind. split; [done|]. exists (set_bs_Phase BootstrapComplete b). by split; [apply mod_bootstrap|].
  - left. destruct (bool_decide _); [|by split; [|exists b]]. rewrite run_bind. split; [done|]. apply H2. by exists b.
Qed.

Lemma poll_ends database target : ends (pollRecovery quote formatTime hashRequest r env database target).
Proof.
  intros w Hw. unfold recoveryEnd, pollRecovery. rewrite run_bind. cbn [theCluster fst snd]. rewrite run_bind. unfold operate. cbn [fst snd].
  set (id := bs_OperationID _). set (w1 := logCall _ _ _ w).
  assert (open w1) as Hw1 by exact Hw. destruct (bn_operation env _ _) as [err|op] eqn:Eop; cbn [asked].
  - destruct (Is err errOperationMissing); [left; split; [apply missing_active|by apply missing_active]|]. rewrite run_bind. left. split; [done|].
    by apply open_notReady.
  - rewrite run_bind. set (w2 := (modBoot _ w1).2). assert (open w2) as Hw2 by by apply open_since.
    destruct (bool_decide (op_State op = OpCompleted)) eqn:Ec; bool_simpl.
    + destruct (sp_HAEnabled _); [by apply recoverySeeding_ends|]. right. rewrite !run_bind. split; [done|].
      destruct Hw2 as (b & Hb & _). exists (set_bs_Phase BootstrapComplete b). by split; [apply mod_bootstrap|].
    + destruct (bool_decide (op_State op = OpFailed)); [left; split; [apply attemptFailed_active|by apply attemptFailed_active]|].
      rewrite run_bind. left. split; [done|]. by apply open_progress.
Qed.

(** ** The object that is restored *)

(** A restore of the recovery itself: on the member with ordinal 0, under the
    key of the cluster's manifest, of the object the manifest URI names. *)
Definition RecoveryRestore (uri target uid : string) (x : DatabaseStatus * string * string * RestoreRequest) : Prop :=
  let '(_, p, key, req) := x in
  p = target /\ uri = artifactURI (rr_Bucket req) (Join [rr_Prefix req; ManifestObjectName]) /\
  rr_SeedFromMaster req = "" /\ exists tail, key = "restore:" +:+ uid +:+ ":" +:+ uri +:+ ":" +:+ target +:+ tail.

(** A copy to another member, of the database that was restored. *)
Definition SeedRestore (uid holder : string) (x : DatabaseStatus * string * string * RestoreRequest) : Prop :=
  let '(st, p, _, req) := x in p <> holder /\ (p ∉ ds_SeededMembers st) /\ rr_ExpectedClusterUID req = uid.

Lemma quiet_mod f : keeps noRestore (modBoot f).
Proof. done. Qed.
Lemma quiet_notReady reason msg : keeps noRestore (notReady reason msg).
Proof. done. Qed.
Lemma quiet_event t reason msg : keeps noRestore (statusEvent t reason msg).
Proof. done. Qed.
Lemma quiet_get : keeps noRestore getBoot.
Proof. done. Qed.
Lemma quiet_clock : keeps noRestore (clock env).
Proof. done. Qed.
Hint Resolve quiet_mod quiet_notReady quiet_event quiet_get quiet_clock : keeps.
Lemma quiet_attemptFailed target why : keeps noRestore (restoreAttemptFailed target why).
Proof. unfold restoreAttemptFailed, recoveryFailed. keeps_solve. Qed.
Lemma quiet_missing target err : keeps noRestore (restoreOperationMissing formatTime env target err).
Proof. unfold restoreOperationMissing, recoveryFailed. keeps_solve. Qed.
Lemma quiet_progress state target : keeps noRestore (setRestoreProgress state target).
Proof. unfold setRestoreProgress. keeps_solve. Qed.

Lemma start_restores database bucket prefix uri target w :
  uri = artifactURI bucket (Join [prefix; ManifestObjectName]) ->
  mayRestore (RecoveryRestore uri target (cl_UID (bw_cluster w))) w (startRecovery quote env database bucket prefix uri target w).2.
Proof.
  intros Huri. unfold startRecovery. rewrite run_bind. cbn [theCluster fst snd].
  destruct (engineSeriesHold _ _) as [msg [|]]; [apply may_none; by rewrite run_bind|]. rewrite run_bind.
  set (key := recoveryIdempotencyKey _ _ _). set (req := recoveryRequest _ _ _ _).
  assert (mayRestore (RecoveryRestore uri target (cl_UID (bw_cluster w))) w
    (startOrFollow quote env database target OpRestore key (StartsRestore target key req) w).2) as Hs.
  { assert (RecoveryRestore uri target (cl_UID (bw_cluster w)) (entry database w, target, key, req)) as Hgood.
    { split_and!; [done|done|done|]. unfold key, recoveryIdempotencyKey.
      destruct (0 <? _); [|exists ""; by rewrite str_app_nil_r]. eexists. by rewrite !str_app_assoc. }
    eexists. split; [apply (startOrFollow_starts quote env database w target key req)|]. by apply Forall_singleton. }
  set (out := startOrFollow _ _ _ _ _ _ _ w) in *. transitivity out.2; [exact Hs|]. apply may_none.
  destruct out.1.1 as [err|op].
  - destruct (Is err errRequestRefused); [apply quiet_attemptFailed|by rewrite run_bind].
  - rewrite !run_bind. apply (quiet_progress (op_State op) target (modBoot (set_bs_OperationID (op_ID op)) out.2).2).
Qed.

Lemma GoodRestore_seed database storage uid holder members st0 x :
  GoodRestore env database storage uid holder members st0 x -> SeedRestore uid holder x.
Proof. destruct x as [[[st p] key] req]. intros [(_ & H1 & H2) _ (sd & a & _ & _ & H3 & _)]. by split_and!. Qed.

Lemma seeding_restores database holder w s : found database w = Some s ->
  mayRestore (SeedRestore (cl_UID (bw_cluster w)) holder) w (reconcileSeeding quote formatTime hashRequest r env database holder w).2.
Proof.
  intros Hf. destruct (reconcileSeeding_restores quote formatTime hashRequest r env database holder w s Hf) as (storage & l & _ & Hl & Hg).
  exists l. split; [done|]. eapply Forall_impl; [exact Hg|]. intros x. apply GoodRestore_seed.
Qed.

Lemma recoverySeeding_restores database w b : bootstrapOf w = Some b ->
  mayRestore (SeedRestore (cl_UID (bw_cluster w)) (bs_TargetMember b)) w
    (reconcileRecoverySeeding quote formatTime hashRequest r env database w).2.
Proof.
  intros Hb. unfold reconcileRecoverySeeding. rewrite !run_bind. cbn [getBoot getDB fst snd].
  assert (bootOf (bw_cluster w) = b) as -> by (unfold bootOf, bootstrapOf in *; by rewrite Hb).
  destruct (databaseStatus_found database w) as (Hf1 & Hl1 & _ & Hs1). set (w1 := (databaseStatus database w).2) in *.
  set (m1 := if negb (ds_PrimaryCreated _) then _ else _).
  assert (keeps (on_entry database anyEntry) m1 /\ keeps noRestore m1) as [Hk1 Hn1].
  { unfold m1. destruct (negb _); [|by split; [apply keeps_ret, _|apply keeps_ret, _]]. split; [|done].
    apply (keeps_bind _); [by apply entry_mod|intros _; apply (entry_event database anyEntry)]. }
  destruct (Hk1 w1) as [Hs2 He2]. destruct (He2 _ Hf1) as (s2 & Hf2 & _). pose proof (Hn1 w1) as Hl2. set (w2 := (m1 w1).2) in *.
  assert (noRestore w w2) as Hq by (transitivity w1; [unfold noRestore; by rewrite Hl1|done]).
  transitivity w2; [by apply may_none|]. set (m2 := if negb _ then _ else _).
  assert (mayRestore (SeedRestore (cl_UID (bw_cluster w)) (bs_TargetMember b)) w2 (m2 w2).2) as Hm2.
  { unfold m2. destruct (ds_Phase (entryOf database (bw_cluster w2)) != databasePhaseFailed); [|apply may_none, (keeps_ret noRestore)]. rewrite run_bind.
    pose proof (seeding_restores database (bs_TargetMember b) (modBoot (set_bs_Phase BootstrapSeedingReplicas) w2).2 s2 Hf2) as Hr.
    cbn in Hr. by rewrite (same_uid _ _ Hs2), (same_uid _ _ Hs1) in Hr. }
  transitivity (m2 w2).2; [done|]. apply may_none. rewrite ?run_bind. cbn [getDB fst snd].
  set (s3 := entryOf database _). destruct (ds_HAConfigured s3); [by rewrite run_bind|].
  destruct (bool_decide (ds_Phase s3 = _)); [by rewrite run_bind|done].
Qed.

Lemma poll_restores database target w b : bootstrapOf w = Some b ->
  mayRestore (SeedRestore (cl_UID (bw_cluster w)) (bs_TargetMember b)) w
    (pollRecovery quote formatTime hashRequest r env database target w).2.
Proof.
  intros Hb. unfold pollRecovery. rewrite run_bind. cbn [theCluster fst snd]. rewrite run_bind.
  set (m := operate _ _ _). assert (noRestore w (m w).2) as Hq by by apply noRestore_operate.
  transitivity (m w).2; [by apply may_none|]. destruct (m w).1 as [err|op].
  { apply may_none. destruct (Is err errOperationMissing); [apply quiet_missing|by rewrite run_bind]. }
  rewrite run_bind. set (w2 := (modBoot _ (m w).2).2). transitivity w2; [by apply may_none|].
  destruct (bool_decide (op_State op = OpCompleted)).
  - destruct (sp_HAEnabled _); [|apply may_none; by rewrite !run_bind].
    apply (recoverySeeding_restores database w2 (set_bs_OperationMissingSince None b)). by apply mod_bootstrap.
  - apply may_none. destruct (bool_decide (op_State op = OpFailed)); [apply quiet_attemptFailed|].
    rewrite run_bind. apply (quiet_progress (op_State op) target).
Qed.

(** ** One reconcile of a recovery *)

(** What beginRecovery leaves. *)
Lemma begin_bootstrap uri target w : exists b, bootstrapOf (beginRecovery uri target w).2 = Some b /\
  SameCluster (bw_cluster w) (bw_cluster (beginRecovery uri target w).2) /\ bw_log (beginRecovery uri target w).2 = bw_log w /\
  match bootstrapOf w with
  | Some b0 => b = b0
  | None => bs_Phase b = BootstrapPreparing /\ bs_TargetMember b = target
  end.
Proof.
  unfold beginRecovery, bootstrapOf. destruct (st_Bootstrap (cl_Status (bw_cluster w))) as [b|] eqn:E.
  - exists b. done.
  - eexists. cbn. by split_and!.
Qed.

Notation databaseOf w := (default "" (head (sp_Databases (cl_Spec (bw_cluster w))))).
Notation run uri := (reconcileRecovery quote formatTime hashRequest r env uri).

(** A reconcile of a recovery that is not complete reports it as active, or
    leaves it recorded as complete. *)
Lemma recovery_ends uri w : recoveryActive (bw_cluster w) = true -> recoveryEnd (run uri w).
Proof.
  intros Hact. unfold recoveryEnd. set (target := memberName (cl_Name (bw_cluster w)) 0).
  unfold reconcileRecovery. rewrite !run_bind. cbn [theCluster fst snd]. fold target.
  destruct (begin_bootstrap uri target w) as (b & Hb & Hsame & Hlog & Hb0). set (w1 := (beginRecovery uri target w).2) in *.
  assert (open w1) as Hopen.
  { exists b. split; [done|]. unfold recoveryActive, bootstrapOf in *. destruct (sp_Recovery _); [|done].
    destruct (st_Bootstrap (cl_Status (bw_cluster w))) as [b0|]; [|by destruct Hb0 as [-> _]]. subst. by bool_simpl. }
  destruct (bool_decide (bs_Phase _ = BootstrapFailed)); [by left|].
  destruct (match parseManifestURI quote uri with inl _ => _ | inr _ => _ end) as [err|[bucket prefix]].
  { rewrite run_bind. left. split; [done|]. by apply open_failed. }
  destruct (negb (br_Restore r)); [rewrite run_bind; left; split; [done|by apply open_notReady]|].
  destruct (_ && restoredOnTarget _ _); [by apply recoverySeeding_ends|].
  destruct (bool_decide (bs_OperationID _ = "")).
  - left. split; [apply start_active|by apply start_active].
  - by apply poll_ends.
Qed.

(** A recovery restores the object its manifest URI names.  Every restore
    that a reconcile of a recovery starts is either the recovery's own: on
    the member with ordinal 0, under a key that names the cluster and the
    manifest URI, and reading exactly the object the URI names; or a copy of
    the restored database to another member that does not hold it yet. *)
Theorem recovery_restores_named_object uri w :
  let target := memberName (cl_Name (bw_cluster w)) 0 in
  let uid := cl_UID (bw_cluster w) in
  let holder := from_option bs_TargetMember target (bootstrapOf w) in
  mayRestore (fun x => RecoveryRestore uri target uid x \/ SeedRestore uid holder x) w (run uri w).2.
Proof.
  cbv zeta. set (target := memberName _ 0). set (uid := cl_UID (bw_cluster w)). set (holder := from_option _ _ _).
  set (P := fun x => _ \/ _). unfold reconcileRecovery. rewrite !run_bind. cbn [theCluster fst snd]. fold target.
  destruct (begin_bootstrap uri target w) as (b & Hb & Hsame & Hlog & Hb0). set (w1 := (beginRecovery uri target w).2) in *.
  assert (bs_TargetMember b = holder) as Hh.
  { unfold holder. destruct (bootstrapOf w) as [b0|]; [by subst|by destruct Hb0]. }
  assert (cl_UID (bw_cluster w1) = uid) as Huid by apply Hsame.
  assert (noRestore w w1) as Hq by (unfold noRestore; by rewrite Hlog). transitivity w1; [by apply may_none|].
  assert (forall w2 w3, mayRestore (SeedRestore uid holder) w2 w3 -> mayRestore P w2 w3) as Hseed.
  { intros w2 w3 (l & Hl & Hf). exists l. split; [done|]. eapply Forall_impl; [exact Hf|]. intros x Hx. by right. }
  assert (forall w2 w3, mayRestore (RecoveryRestore uri target uid) w2 w3 -> mayRestore P w2 w3) as Hrec.
  { intros w2 w3 (l & Hl & Hf). exists l. split; [done|]. eapply Forall_impl; [exact Hf|]. intros x Hx. by left. }
  destruct (bool_decide (bs_Phase _ = BootstrapFailed)); [by apply may_none|].
  destruct (match parseManifestURI quote uri with inl _ => _ | inr _ => _ end) as [err|[bucket prefix]] eqn:El.
  { apply may_none. by rewrite run_bind. }
  assert (uri = artifactURI bucket (Join [prefix; ManifestObjectName])) as Huri.
  { destruct (parseManifestURI quote uri) as [err|[b1 p1]] eqn:Ep.
    - destruct (recoveryStarted _ _); [|done]. by apply (started_key quote).
    - injection El as -> ->. by apply (parsed_key quote). }
  destruct (negb (br_Restore r)); [apply may_none; by rewrite run_bind|].
  pose proof (recoverySeeding_restores (databaseOf w) w1 b Hb) as Hs. rewrite Huid, Hh in Hs.
  destruct (_ && _); [by apply Hseed|]. destruct (bool_decide (bs_OperationID _ = "")).
  - apply Hrec. rewrite <- Huid. by apply start_restores.
  - apply Hseed. rewrite <- Huid, <- Hh. by apply poll_restores.
Qed.
End recovery.
