(* ===== verification/RecoveryRuns.v ===== *)
(** * Sequences of reconciles of a recovery

    What holds of the stored [status.bootstrap] and [status.databases] and of
    the calls over every sequence of reconciles of a recovery (Recovery.v),
    with stale reads and lost status writes: a recovery that is recorded as
    complete has its data in place. *)
From stdpp Require Import prelude gmap strings pretty list.
From Stdlib Require Import Ascii String.
From S2P Require Import Prelude GoState Api GoStr Utf8 Engine HARole OpStore ManifestURI ImClient BackupController HABootstrap.
From S2P Require Import Recovery BootstrapSafety BootstrapRuns RecoverySafety.

Section runs.
Context `{O : ConditionOps} (quote : string -> string) (formatTime : Time -> string) (hashRequest : RestoreRequest -> string).
Context (asStored : Time -> Time) (name uid database uri : string) (ha : bool) (count : Z).

Notation target := (memberName name 0).
Definition memberOf (p : string) : Prop := p ∈ memberName name <$> (N.of_nat <$> seq 0 (Z.to_nat count)).

(** ** What the calls show *)

Definition RecoveryKey (key : string) : Prop := exists tail, key = "restore:" +:+ uid +:+ ":" +:+ uri +:+ ":" +:+ target +:+ tail.

(** The answer to the start of the recovery's restore, of the object that the
    manifest URI names, or to a lookup of its key gave the identity [id]. *)
Definition namedBy (id : string) (e : Entry) : Prop :=
  exists op, en_answer e = Some op /\ op_ID op = id /\
    match en_call e with
    | StartsRestore p key req => p = target /\ RecoveryKey key /\ rr_Database req = database /\
        uri = artifactURI (rr_Bucket req) (Join [rr_Prefix req; ManifestObjectName])
    | LooksUp p kind key => p = target /\ kind = OpRestore /\ RecoveryKey key
    | _ => False
    end.

(** The recovery's restore was started or found, and later read as completed
    under the identity it had then. *)
Definition restoreDone (log : list Entry) : Prop :=
  exists id before e after op, log = before ++ e :: after /\ Exists (namedBy id) before /\
    en_call e = Polls target id /\ en_answer e = Some op /\ op_State op = OpCompleted.

Lemma Exists_more {A} (P : A -> Prop) l k : Exists P l -> Exists P (l ++ k).
Proof. intros H. apply Exists_app. by left. Qed.

Lemma restoreDone_more log l : restoreDone log -> restoreDone (log ++ l).
Proof.
  intros (id & before & e & after & op & -> & H). exists id, before, e, (after ++ l), op. by rewrite <- app_assoc.
Qed.

(** ** What is stored *)

Record Sound (log : list Entry) (boot : option BootstrapStatus) (s : DatabaseStatus) : Prop := {
  so_target b : boot = Some b -> bs_TargetMember b = target;
  so_operation b : boot = Some b -> bs_OperationID b <> "" -> Exists (namedBy (bs_OperationID b)) log;
  so_created : ds_PrimaryCreated s = true -> restoreDone log;
  so_configured : ds_HAConfigured s = true -> forall p, memberOf p -> p = target \/ p ∈ ds_SeededMembers s;
  so_seeded p : p ∈ ds_SeededMembers s -> Exists (restoredBy database uid p) log;
  so_complete b : boot = Some b -> bs_Phase b = BootstrapComplete -> restoreDone log /\ (ha = true -> ds_HAConfigured s = true) }.

Lemma Sound_more log l boot s : Sound log boot s -> Sound (log ++ l) boot s.
Proof.
  intros [H1 H2 H3 H4 H5 H6]. split; [done|..]; [intros; apply Exists_more; auto|intros; apply restoreDone_more; auto|done
    |intros; apply Exists_more; auto|]. intros b Hb Hp. destruct (H6 b Hb Hp). split; [by apply restoreDone_more|done].
Qed.

(** ** One reconcile *)

Section reconcile.
Context (r : BootReconciler) (env : BootEnv) (past : list Entry) (c0 : CubridCluster).
Context (Hname : cl_Name c0 = name) (Huid : cl_UID c0 = uid) (Hdb : default "" (head (sp_Databases (cl_Spec c0))) = database).
Context (Hha : sp_HAEnabled (cl_Spec c0) = ha) (Hcount : sp_PromotableMembers (cl_Spec c0) = count).

Notation log w := (past ++ bw_log w).
Notation soundNow w := (Sound (log w) (bootstrapOf w) (entry database w)).

(** In the middle of a reconcile. *)
Record Here (w : BW) : Prop := {
  he_sound : soundNow w;
  he_open : open w;
  he_same : SameCluster c0 (bw_cluster w) }.
Definition goesOn (w w' : BW) : Prop := Here w -> Here w'.
#[local] Instance goesOn_preorder : PreOrder goesOn.
Proof. split; [by intros w H|]. intros w1 w2 w3 H1 H2 H. auto. Qed.

Lemma here_grown w w' l : bw_log w' = bw_log w ++ l -> bootstrapOf w' = bootstrapOf w -> found database w' = found database w ->
  SameCluster (bw_cluster w) (bw_cluster w') -> goesOn w w'.
Proof.
  intros Hl Hb Hf Hs [H1 H2 H3]. split; [|by eapply open_same|by transitivity (bw_cluster w)].
  assert (entry database w' = entry database w) as -> by (unfold entry, entryOf; unfold found in Hf; by rewrite Hf).
  rewrite Hb, Hl, app_assoc. by apply Sound_more.
Qed.
Lemma here_same w w' : bw_log w' = bw_log w -> bootstrapOf w' = bootstrapOf w -> found database w' = found database w ->
  SameCluster (bw_cluster w) (bw_cluster w') -> goesOn w w'.
Proof. intros Hl. apply (here_grown w w' []). by rewrite app_nil_r. Qed.

Lemma here_ret {A} (x : A) : keeps goesOn (mret x).
Proof. by intros w H. Qed.
Lemma here_notReady reason msg : keeps goesOn (notReady reason msg).
Proof. intros w. by apply here_same. Qed.
Lemma here_event t reason msg : keeps goesOn (statusEvent t reason msg).
Proof. intros w. by apply here_same. Qed.
Lemma here_clock : keeps goesOn (clock env).
Proof. intros w. by apply here_same. Qed.
Lemma here_getBoot : keeps goesOn getBoot.
Proof. by intros w H. Qed.
Lemma here_operate c : keeps goesOn (operate env database c).
Proof. intros w. by eapply here_grown. Qed.
Lemma here_find p k key : keeps goesOn (findOperation env database p k key).
Proof. intros w. by eapply here_grown. Qed.

(** A change of [status.bootstrap] that records no new operation and does not
    complete the recovery. *)
Lemma here_mod f : (forall b, bs_TargetMember (f b) = bs_TargetMember b) ->
  (forall b, bs_OperationID (f b) = bs_OperationID b \/ bs_OperationID (f b) = "") ->
  (forall b, bs_Phase b <> BootstrapComplete -> bs_Phase (f b) <> BootstrapComplete) -> keeps goesOn (modBoot f).
Proof.
  intros Ht Ho Hp w [[S1 S2 S3 S4 S5 S6] Hop Hs]. pose proof (open_mod f Hp w Hop) as Hop'. destruct Hop as (b & Hb & Hc).
  pose proof (mod_bootstrap f w b Hb) as Hb'. split; [|done|by destruct Hs]. rewrite Hb'.
  split; [|..]; try done; intros b' [= <-].
  - rewrite Ht. by apply S1.
  - destruct (Ho b) as [-> | ->]; [by apply S2|by intros []].
  - intros Hx. by apply Hp in Hx.
Qed.

Hint Resolve here_ret here_notReady here_event here_clock here_getBoot here_operate here_find : keeps.
Lemma here_failedPhase : keeps goesOn (modBoot (set_bs_Phase BootstrapFailed)).
Proof. apply here_mod; auto; discriminate. Qed.
Lemma here_seedingPhase : keeps goesOn (modBoot (set_bs_Phase BootstrapSeedingReplicas)).
Proof. apply here_mod; auto; discriminate. Qed.
Lemma here_since t : keeps goesOn (modBoot (set_bs_OperationMissingSince t)).
Proof. apply here_mod; auto. Qed.
Lemma here_attempt a : keeps goesOn (modBoot (fun b => set_bs_OperationID "" (set_bs_Attempts a b))).
Proof. apply here_mod; auto. Qed.
Hint Resolve here_failedPhase here_seedingPhase here_since here_attempt : keeps.

Lemma here_failed reason msg : keeps goesOn (recoveryFailed reason msg).
Proof. unfold recoveryFailed. keeps_solve. Qed.
Hint Resolve here_failed : keeps.
Lemma here_attemptFailed member why : keeps goesOn (restoreAttemptFailed member why).
Proof. unfold restoreAttemptFailed. keeps_solve. Qed.
Lemma here_missing member err : keeps goesOn (restoreOperationMissing formatTime env member err).
Proof. unfold restoreOperationMissing. keeps_solve. Qed.
Lemma here_progress state member : keeps goesOn (setRestoreProgress state member).
Proof.
  unfold setRestoreProgress. destruct (state == OpRestoring); [|destruct (state == OpStarting)];
    (apply (keeps_bind _); [apply here_mod; auto; discriminate|intros _; apply here_notReady]).
Qed.
Hint Resolve here_attemptFailed here_missing here_progress : keeps.
(** A start is answered with an operation only by the start itself or by the
    lookup of its key. *)
Lemma follow_named key req w op : RecoveryKey key -> rr_Database req = database ->
  uri = artifactURI (rr_Bucket req) (Join [rr_Prefix req; ManifestObjectName]) ->
  (startOrFollow quote env database target OpRestore key (StartsRestore target key req) w).1.1 = inr op ->
  Exists (namedBy (op_ID op)) (bw_log (startOrFollow quote env database target OpRestore key (StartsRestore target key req) w).2).
Proof.
  intros Hk Hd Hu. unfold startOrFollow. rewrite run_bind. unfold operate. cbn [fst snd].
  destruct (bn_operation env _ _) as [err|op'] eqn:Eo; cbn [asked].
  - rewrite run_bind. unfold operationUnderKey. destruct (negb (Is err errStartConflict) || _ || _ || _) eqn:Eg.
    { cbn [mret St_ret fst snd]. unfold operationOfKey. by rewrite Eg. }
    rewrite run_bind. unfold findOperation. cbn [mret St_ret fst snd]. unfold operationOfKey. rewrite Eg.
    set (w1 := logCall _ _ _ w). destruct (bn_lookup env _ _) as [e|[op'|]]; [done| |done]. intros [= <-].
    apply Exists_app. right. apply Exists_cons_hd. by exists op'.
  - cbn [mret St_ret fst snd]. intros [= <-]. apply Exists_app. right. apply Exists_cons_hd. by exists op'.
Qed.

Lemma here_follow key c : keeps goesOn (startOrFollow quote env database target OpRestore key c).
Proof. apply log_follow; [apply _|apply here_find|apply here_operate]. Qed.

Lemma recoveryKey_is c : cl_UID c = uid -> RecoveryKey (recoveryIdempotencyKey c uri target).
Proof.
  intros Hu. unfold RecoveryKey, recoveryIdempotencyKey. rewrite Hu. destruct (0 <? _); [|exists ""; by rewrite str_app_nil_r].
  eexists. by rewrite !str_app_assoc.
Qed.

(** The identity that is recorded is the one the member gave. *)
Lemma here_operation id w : Exists (namedBy id) (log w) -> goesOn w (modBoot (set_bs_OperationID id) w).2.
Proof.
  intros Hid [[S1 S2 S3 S4 S5 S6] Hop Hs]. pose proof (open_operation id w Hop) as Hop'. destruct Hop as (b & Hb & Hc).
  pose proof (mod_bootstrap (set_bs_OperationID id) w b Hb) as Hb'. split; [|done|by destruct Hs]. rewrite Hb'.
  split; [|..]; try done; intros b' [= <-]; [exact (S1 b Hb)|done|by intros ?].
Qed.

Lemma here_start bucket prefix w : uri = artifactURI bucket (Join [prefix; ManifestObjectName]) ->
  goesOn w (startRecovery quote env database bucket prefix uri target w).2.
Proof using Huid.
  intros Hu Hh. pose proof (he_same w Hh) as Hsame. unfold startRecovery. rewrite run_bind. cbn [theCluster fst snd].
  destruct (engineSeriesHold _ _) as [msg [|]]; [rewrite run_bind; by apply here_notReady|]. rewrite run_bind.
  set (key := recoveryIdempotencyKey _ _ _). set (req := recoveryRequest _ _ _ _).
  assert (RecoveryKey key) as Hk by (apply recoveryKey_is; by rewrite (same_uid _ _ Hsame)).
  pose proof (here_follow key (StartsRestore target key req) w Hh) as H1.
  pose proof (fun op => follow_named key req w op Hk eq_refl Hu) as Hn.
  destruct (startOrFollow _ _ _ _ _ _ _ w) as [[[err|op] b] w1]; cbn [fst snd] in *.
  - destruct (Is err errRequestRefused); [by apply here_attemptFailed|]. rewrite run_bind. by apply here_notReady.
  - rewrite !run_bind. cbn [mret St_ret snd]. apply here_progress, here_operation; [|done]. apply Exists_app. right. by apply Hn.
Qed.

(** ** The copies *)

Lemma here_databaseStatus w : Here w -> Here (databaseStatus database w).2 /\ exists s, found database (databaseStatus database w).2 = Some s.
Proof.
  intros [H1 H2 H3]. destruct (databaseStatus_found database w) as (Hf & Hl & Hb & Hs). split; [|eauto].
  split; [|by eapply open_same|by transitivity (bw_cluster w)]. by rewrite Hl, Hb, (entry_found _ _ _ Hf).
Qed.

Lemma here_created w s : found database w = Some s -> restoreDone (log w) ->
  goesOn w (modDB database (fun s => set_ds_PrimaryCreated true (set_ds_Phase databasePhaseCreated s)) w).2.
Proof.
  intros Hf Hd [[S1 S2 S3 S4 S5 S6] Hop Hs]. rewrite (entry_found _ _ _ Hf) in S3, S4, S5, S6. set (f := fun s => _).
  split; [|exact Hop|by destruct Hs]. rewrite (entry_found _ _ _ (mod_found database f w s (fun _ => eq_refl) Hf)).
  by split.
Qed.

Lemma here_seeding w s : found database w = Some s -> restoreDone (log w) ->
  goesOn w (reconcileSeeding quote formatTime hashRequest r env database target w).2.
Proof using Hname Huid Hcount.
  intros Hf Hd [[S1 S2 S3 S4 S5 S6] Hop Hs].
  destruct (reconcileSeeding_run quote formatTime hashRequest r env database target w s Hf) as (new & l & s' & Hf' & Hl & Hm & _ & Hnew & Hall).
  pose proof (sameBoot_seeding quote formatTime hashRequest r env database target w) as Hb.
  assert (keeps (on_entry database anyEntry) (reconcileSeeding quote formatTime hashRequest r env database target)) as Hk.
  { apply kept_reconcileSeeding; try done; [apply _..|]. intros reason msg. by apply entry_stepFailed. }
  pose proof (proj1 (Hk w)) as Hsame.
  set (w' := (reconcileSeeding _ _ _ _ _ _ _ w).2) in *. rewrite (entry_found _ _ _ Hf) in S3, S4, S5, S6.
  split; [|by eapply open_same|by transitivity (bw_cluster w)]. rewrite (entry_found _ _ _ Hf'), Hb, Hl, app_assoc.
  rewrite (same_uid _ _ Hs), Huid in Hnew. rewrite (same_spec _ _ Hs), Hcount in Hall. unfold memberNames in Hall.
  rewrite (same_name _ _ Hs), Hname in Hall. rewrite Forall_forall in Hnew. split.
  - done.
  - intros b Hb1 Hb2. by apply Exists_more, S2.
  - intros _. by apply restoreDone_more.
  - intros Hc p Hp. rewrite Hm, elem_of_app. destruct (Hall Hc) as [Hc'|Hall'].
    + destruct (S4 Hc' p Hp); auto.
    + destruct (Hall' p Hp) as [?|Hin]; [by left|]. rewrite Hm, elem_of_app in Hin. by right.
  - intros p. rewrite Hm, elem_of_app. intros [Hp|Hp]; [by apply Exists_more, S5|].
    destruct (Hnew p Hp) as (_ & _ & e & He & Hr). apply Exists_app. right. apply Exists_exists. eauto.
  - intros b Hb1 Hb2. destruct Hop as (b' & Hb' & Hne). congruence.
Qed.
(** How the copying of a restored database ends: in the middle, or with the
    recovery complete. *)
Lemma recoverySeeding_sound w : Here w -> restoreDone (log w) ->
  let w' := (reconcileRecoverySeeding quote formatTime hashRequest r env database w).2 in soundNow w' /\ SameCluster c0 (bw_cluster w').
Proof using Hname Huid Hcount.
  intros Hh Hd. cbv zeta. unfold reconcileRecoverySeeding. rewrite !run_bind. cbn [getBoot getDB fst snd].
  assert (bs_TargetMember (bootOf (bw_cluster w)) = target) as ->.
  { destruct (he_open w Hh) as (b & Hb & _). unfold bootOf. unfold bootstrapOf in Hb. rewrite Hb. cbn. by apply (so_target _ _ _ (he_sound w Hh)). }
  destruct (here_databaseStatus w Hh) as [H1 [s1 Hf1]]. pose proof (proj1 (proj2 (databaseStatus_found database w))) as Hl1.
  set (w1 := (databaseStatus database w).2) in *. assert (restoreDone (log w1)) as Hd1 by by rewrite Hl1.
  set (m1 := if negb (ds_PrimaryCreated _) then _ else _).
  assert (Here (m1 w1).2 /\ bw_log (m1 w1).2 = bw_log w1 /\ exists s2, found database (m1 w1).2 = Some s2) as (H2 & Hl2 & s2 & Hf2).
  { unfold m1. destruct (negb _); [|eauto]. rewrite run_bind. set (f := fun s => _). split_and!.
    - apply here_event. by apply (here_created w1 s1).
    - done.
    - exists (f s1). by apply (mod_found database f w1 s1). }
  set (w2 := (m1 w1).2) in *. assert (restoreDone (log w2)) as Hd2 by by rewrite Hl2.
  set (m2 := if negb _ then _ else _). assert (Here (m2 w2).2) as H3.
  { unfold m2. destruct (ds_Phase (entryOf database (bw_cluster w2)) != databasePhaseFailed); [|exact H2]. rewrite run_bind. apply (here_seeding _ s2); [exact Hf2|exact Hd2|by apply here_seedingPhase]. }
  assert (restoreDone (log (m2 w2).2)) as Hd3.
  { assert (keeps grown m2) as Hg.
    { unfold m2. destruct (ds_Phase (entryOf database (bw_cluster w2)) != databasePhaseFailed); [|apply keeps_ret, _]. apply (keeps_bind _); [intros x; by exists []; rewrite app_nil_r|intros _].
      apply log_reconcileSeeding; [apply _|apply grown_log|..]; intros; (apply grown_find || apply grown_operate). }
    destruct (Hg w2) as [l Hl]. rewrite Hl, app_assoc. by apply restoreDone_more. }
  set (w3 := (m2 w2).2) in *. clearbody w3. fold (entry database w3). destruct (ds_HAConfigured (entry database w3)) eqn:Ec.
  - rewrite run_bind. destruct H3 as [[S1 S2 S3 S4 S5 S6] (b & Hb & Hp) Hs]. split; [|by destruct Hs].
    pose proof (mod_bootstrap (set_bs_Phase BootstrapComplete) w3 b Hb) as Hb'. cbn [mret St_ret snd]. rewrite Hb'.
    split; [|..]; try done; intros b' [= <-]; [exact (S1 b Hb)|exact (S2 b Hb)].
  - assert (forall x, Here x -> soundNow x /\ SameCluster c0 (bw_cluster x)) as Hhere by by intros x [].
    apply Hhere. refine ((_ : keeps goesOn _) w3 H3). keeps_solve.
Qed.

Lemma poll_sound w : Here w -> bs_OperationID (bootOf (bw_cluster w)) <> "" ->
  let w' := (pollRecovery quote formatTime hashRequest r env database target w).2 in soundNow w' /\ SameCluster c0 (bw_cluster w').
Proof using Hname Huid Hcount Hha.
  intros Hh Hid. cbv zeta. assert (forall x, Here x -> soundNow x /\ SameCluster c0 (bw_cluster x)) as Hhere by by intros x [].
  unfold pollRecovery. rewrite run_bind. cbn [theCluster fst snd]. rewrite run_bind. set (id := bs_OperationID _) in *.
  pose proof (here_operate (Polls target id) w Hh) as H1. set (out := operate env database (Polls target id) w) in *.
  assert (Exists (namedBy id) (log w)) as Hn.
  { destruct (he_open w Hh) as (b & Hb & _). unfold id, bootOf in *. pose proof Hb as Hb2. unfold bootstrapOf in Hb2. rewrite Hb2 in *.
    cbn in *. by apply (so_operation _ _ _ (he_sound w Hh) b). }
  assert (forall op, out.1 = inr op -> op_State op = OpCompleted -> restoreDone (log out.2)) as Hd.
  { intros op Ho Hs. exists id, (log w), (mkEntry (entry database w) (Polls target id) (Some op)), [], op. split_and!; try done.
    unfold out, operate, logCall in *. cbn in *. rewrite Ho. cbn. by rewrite app_assoc. }
  destruct out as [[err|op] w1]; cbn [fst snd] in *.
  - destruct (Is err errOperationMissing); [by apply Hhere, here_missing|]. rewrite run_bind. by apply Hhere, here_notReady.
  - rewrite run_bind. pose proof (here_since None w1 H1) as H2. set (w2 := (modBoot _ w1).2) in *.
    destruct (bool_decide (op_State op = OpCompleted)) eqn:Ec; bool_simpl.
    + specialize (Hd op eq_refl Ec). rewrite (same_spec _ _ (he_same w Hh)), Hha. destruct ha eqn:Eha.
      { apply recoverySeeding_sound; [done|exact Hd]. }
      rewrite !run_bind. cbn [mret St_ret snd]. destruct H2 as [[S1 S2 S3 S4 S5 S6] (b & Hb & Hp) Hs].
      pose proof (mod_bootstrap (set_bs_Phase BootstrapComplete) w2 b Hb) as Hb'. set (w3 := (modBoot _ w2).2) in *.
      split; [|by destruct Hs]. change (bootstrapOf (setBootstrapReady ConditionTrue _ _ w3).2) with (bootstrapOf w3). rewrite Hb'.
      split; [|..]; try done; intros b' [= <-]; [exact (S1 b Hb)|exact (S2 b Hb)|]. intros _. split; [exact Hd|]. by rewrite Eha.
    + destruct (bool_decide (op_State op = OpFailed)); [by apply Hhere, here_attemptFailed|].
      rewrite run_bind. by apply Hhere, here_progress.
Qed.

Lemma here_begin w : bw_cluster w = c0 -> soundNow w -> recoveryActive c0 = true -> Here (beginRecovery uri target w).2.
Proof.
  intros Hc [S1 S2 S3 S4 S5 S6] Hact. destruct (begin_bootstrap uri target w) as (b & Hb & Hsame & Hlog & _). split; [| |by rewrite <- Hc].
  - unfold beginRecovery in *. destruct (st_Bootstrap (cl_Status (bw_cluster w))) as [b0|] eqn:E; [done|]. cbn [snd] in *.
    split; [| |exact S3|exact S4|exact S5|]; cbn; by intros b1 [= <-].
  - exists b. split; [done|]. unfold beginRecovery, bootstrapOf in Hb. unfold recoveryActive in Hact. rewrite <- Hc in Hact.
    destruct (st_Bootstrap (cl_Status (bw_cluster w))) as [b0|] eqn:E; cbn in Hb.
    + rewrite E in Hb. injection Hb as <-. destruct (sp_Recovery _); [|done]. by bool_simpl.
    + by injection Hb as <-.
Qed.

Lemma recovery_sound w : bw_cluster w = c0 -> soundNow w -> recoveryActive c0 = true ->
  soundNow (reconcileRecovery quote formatTime hashRequest r env uri w).2.
Proof using Hname Huid Hcount Hha Hdb.
  intros Hc Hsound Hact. unfold reconcileRecovery. rewrite !run_bind. cbn [theCluster fst snd]. rewrite Hc, Hname, Hdb.
  pose proof (here_begin w Hc Hsound Hact) as Hh.
  set (w1 := (beginRecovery uri target w).2) in *. assert (forall x, Here x -> soundNow x) as Hhere by by intros x [].
  destruct (bool_decide (bs_Phase _ = BootstrapFailed)); [by apply Hhere|].
  destruct (match parseManifestURI quote uri with inl _ => _ | inr _ => _ end) as [err|[bucket prefix]] eqn:El.
  { rewrite run_bind. by apply Hhere, here_failed. }
  assert (uri = artifactURI bucket (Join [prefix; ManifestObjectName])) as Huri.
  { destruct (parseManifestURI quote uri) as [err|[b1 p1]] eqn:Ep.
    - destruct (recoveryStarted _ _); [|done]. by apply (started_key quote).
    - injection El as -> ->. by apply (parsed_key quote). }
  destruct (negb (br_Restore r)); [rewrite run_bind; by apply Hhere, here_notReady|].
  destruct (_ && restoredOnTarget _ _) eqn:Er.
  { apply recoverySeeding_sound; [done|]. apply andb_true_iff in Er as [_ Er]. apply (so_created _ _ _ (he_sound w1 Hh)).
    unfold restoredOnTarget in Er. unfold entry, entryOf. by destruct (findDatabase _ _). }
  case_bool_decide as Eid.
  - apply Hhere. by apply here_start.
  - by apply poll_sound.
Qed.
End reconcile.

(** ** Sequences of reconciles

    The API server holds the versions of [status.bootstrap] and
    [status.databases] that were stored, newest first.  A reconcile reads one
    of them, the newest or an older one from a cache, and works on a cluster
    with the same name, UID, first database, manifest URI and number of
    members.  Its status is stored only on top of the version it read; the
    write may also fail or be lost, in which case what it sent to the members
    stays sent.  The members answer each call as they like.  [asStored] is a
    time as the API server stores it. *)
Definition storedBoot (b : BootstrapStatus) : BootstrapStatus :=
  set_bs_OperationMissingSince (asStored <$> bs_OperationMissingSince b) b.

Notation Version := (option BootstrapStatus * list DatabaseStatus)%type.

Inductive recoveries : list Version -> list Entry -> Prop :=
| recoveries_new : recoveries [(None, [])] []
| recoveries_step versions log k boot dbs r env cluster (stored : bool) :
    recoveries versions log -> versions !! k = Some (boot, dbs) ->
    cl_Name cluster = name -> cl_UID cluster = uid -> default "" (head (sp_Databases (cl_Spec cluster))) = database ->
    sp_HAEnabled (cl_Spec cluster) = ha -> sp_PromotableMembers (cl_Spec cluster) = count ->
    st_Bootstrap (cl_Status cluster) = boot -> st_Databases (cl_Status cluster) = dbs -> recoveryActive cluster = true ->
    (stored = true -> k = 0%nat) ->
    let w' := (reconcileRecovery quote formatTime hashRequest r env uri (mkBW cluster [] [] 0)).2 in
    recoveries (if stored then (storedBoot <$> bootstrapOf w', storedDatabase asStored <$> st_Databases (cl_Status (bw_cluster w'))) :: versions
                else versions) (log ++ bw_log w').

Lemma Sound_stored log boot s : Sound log boot s -> Sound log (storedBoot <$> boot) (storedDatabase asStored s).
Proof.
  intros [H1 H2 H3 H4 H5 H6]. split; [| |exact H3|exact H4|exact H5|]; intros b (b' & Hb & ->)%fmap_Some_1;
    [exact (H1 b' Hb)|exact (H2 b' Hb)|exact (H6 b' Hb)].
Qed.

Lemma recoveries_sound versions log : recoveries versions log ->
  Forall (fun v => Sound log v.1 (entryIn database v.2)) versions.
Proof.
  induction 1 as [|versions log k boot dbs r env cluster stored _ IH Hk Hn Hu Hd Hh Hc Hb Hs Ha _].
  { repeat constructor; cbn; try done. by intros p ?%not_elem_of_nil. }
  pose proof (proj1 (Forall_lookup _ _) IH k _ Hk) as Hold. cbn [fst snd] in Hold.
  assert (Forall (fun v => Sound (log ++ bw_log w') v.1 (entryIn database v.2)) versions) as Hmore.
  { eapply Forall_impl; [exact IH|]. intros v. apply Sound_more. }
  destruct stored; [|done]. constructor; [|done]. cbn [fst snd]. rewrite entryIn_stored. apply Sound_stored.
  apply (recovery_sound r env log cluster Hn Hu Hd Hh Hc (mkBW cluster [] [] 0)); [done| |done].
  unfold bootstrapOf, entry, entryOf. cbn [bw_log bw_cluster]. rewrite app_nil_r, Hb, Hs. exact Hold.
Qed.

(** C31: A recovery that is recorded as complete has its data in place, over
    every sequence of reconciles.  Its own restore, of the object its manifest
    URI names and under its own key, was started or found on the member with
    ordinal 0, and later read as completed there under the identity it was
    given; and in an HA cluster every other member was restored by a copy of
    this cluster's database. *)
Theorem recovery_complete_means_restored versions log boot dbs : recoveries versions log -> (Some boot, dbs) ∈ versions ->
  bs_Phase boot = BootstrapComplete ->
  restoreDone log /\
  (ha = true -> forall p, memberOf p -> p = target \/ exists e, e ∈ log /\ restoredBy database uid p e).
Proof.
  intros Hr Hin Hp. pose proof (recoveries_sound versions log Hr) as Hall. rewrite Forall_forall in Hall.
  destruct (Hall _ Hin) as [_ _ _ Hc Hs Hco]. destruct (Hco boot eq_refl Hp) as [Hd Hha]. split; [done|].
  intros Hh p Hm. destruct (Hc (Hha Hh) p Hm) as [?|Hseed]; [by left|right]. by apply Exists_exists, Hs.
Qed.
End runs.
