(* ===== verification/BootstrapExamples.v ===== *)
(** * A bootstrap and a recovery, run

    A three-member cluster whose members answer every start with a completed
    operation: its database is created on [c-0], copied to [c-1] and then, in
    a later reconcile that read the chosen source back, to [c-2]; and the same
    cluster recovered from a backup.  The theorems of BootstrapSafety.v,
    BootstrapRuns.v and RecoveryRuns.v are applied to these runs. *)
From stdpp Require Import prelude gmap strings pretty list.
From S2P Require Import Prelude GoState Api GoStr Utf8 Engine HARole OpStore ManifestURI ImClient BackupController HABootstrap.
From S2P Require Import Recovery BootstrapSafety BootstrapRuns RecoverySafety RecoveryRuns.

Module BootstrapExample.
Export SliceConditions.
Definition storage : CubridObjectStorage := mkObjectStorage "s3.local" "" false "bucket" "pre" "s3".
Definition instance (name : string) (ordinal : Z) : InstanceStatus :=
  mkInstanceStatus name ordinal RoleUnknown true "11.4.0" "" None None None.
Definition cluster (recovery : option string) (dbs : list DatabaseStatus) : CubridCluster :=
  mkCluster "c" "ns" "u1" 1 (mkSpec "11.4" ["db"] 3 true recovery (Some storage))
    (mkStatus 1 "" [instance "c-0" 0; instance "c-1" 1; instance "c-2" 2] dbs [] None "" None None).
Definition now : Time := 5000 * Second.
Definition observed (role : CubridRole) : RoleObservation :=
  mkRoleObservation true false role now false false false "" None None "" "" None.
Definition answer (kind id : string) : Operation := mkOperation id kind "k" "h" "db" OpCompleted "" None None "" now now.
Definition reconciler : BootReconciler := mkBootReconciler true true true true.
(** Every operation has completed; [c-0] is the master. *)
Definition env : BootEnv :=
  mkBootEnv
    (fun _ c => inr (match c with
                     | StartsHABootstrap _ _ _ => answer OpHABootstrap "create"
                     | StartsBackup _ _ _ => answer OpBackup "backup"
                     | StartsRestore _ _ _ => answer OpRestore "restore"
                     | Polls _ id => answer (if id == "backup" then OpBackup else OpRestore) id
                     | LooksUp _ _ _ => answer OpRestore "restore"
                     end))
    (fun _ _ => inr None) (fun _ m => observed (if m == "c-0" then RoleMaster else RoleSlave)) (fun _ => now).
Definition formatTime (t : Time) : string := pretty t.
Definition hashRequest (q : RestoreRequest) : string := rr_Prefix q.
Notation bootstrap dbs := (reconcileHABootstrap quoted formatTime hashRequest reconciler env (mkBW (cluster None dbs) [] [] 0)).2.
Definition databases (w : BW) : list DatabaseStatus :=
  storedDatabase (fun t => t) <$> st_Databases (cl_Status (bw_cluster w)).

(** Two reconciles, the second from what the first stored. *)
Definition first : BW := bootstrap [].
Definition second : BW := bootstrap (databases first).
Definition read : BW := mkBW (cluster None (databases first)) [] [] 0.
(** The seeding of the second reconcile. *)
Definition seeded : BW := (reconcileSeeding quoted formatTime hashRequest reconciler env "db" "c-0" read).2.

Notation reachedHere := (reached quoted formatTime hashRequest (fun t => t) "c" "u1" "db").
Lemma bootstrap_reached dbs versions log : reachedHere (dbs :: versions) log ->
  reachedHere (databases (bootstrap dbs) :: dbs :: versions) (log ++ bw_log (bootstrap dbs)).
Proof.
  intros H. exact (reached_step quoted formatTime hashRequest (fun t => t) "c" "u1" "db" (dbs :: versions) log 0 dbs reconciler env
    (cluster None dbs) true H eq_refl eq_refl eq_refl eq_refl eq_refl (fun _ => eq_refl)).
Qed.

Lemma second_reached : reachedHere [databases second; databases first; []] (([] ++ bw_log first) ++ bw_log second).
Proof. apply bootstrap_reached, bootstrap_reached, reached_new. Qed.

(** The cluster is recovered from a backup. *)
Definition manifest : string := "s3://bucket/pre/u0/a1/db/manifest.json".
Notation Version := (option BootstrapStatus * list DatabaseStatus)%type.
Definition recovering (v : Version) : CubridCluster :=
  mkCluster "c" "ns" "u1" 1 (mkSpec "11.4" ["db"] 3 true (Some manifest) (Some storage))
    (mkStatus 1 "" [instance "c-0" 0; instance "c-1" 1; instance "c-2" 2] v.2 [] v.1 "" None None).
Notation recovery v := (reconcileRecovery quoted formatTime hashRequest reconciler env manifest (mkBW (recovering v) [] [] 0)).2.
Definition storedVersion (w : BW) : Version :=
  (storedBoot (fun t => t) <$> bootstrapOf w, storedDatabase (fun t => t) <$> st_Databases (cl_Status (bw_cluster w))).
Notation recoveringHere := (recoveries quoted formatTime hashRequest (fun t => t) "c" "u1" "db" manifest true 3).
Lemma recovering_again v versions log : recoveryActive (recovering v) = true -> recoveringHere (v :: versions) log ->
  recoveringHere (storedVersion (recovery v) :: v :: versions) (log ++ bw_log (recovery v)).
Proof.
  destruct v as [boot dbs]. intros Ha H.
  exact (recoveries_step quoted formatTime hashRequest (fun t => t) "c" "u1" "db" manifest true 3 ((boot, dbs) :: versions) log 0 boot dbs
    reconciler env (recovering (boot, dbs)) true H eq_refl eq_refl eq_refl eq_refl eq_refl eq_refl eq_refl eq_refl Ha (fun _ => eq_refl)).
Qed.
Definition begun : Version := storedVersion (recovery (None, [])).
Definition restored : Version := storedVersion (recovery begun).
Definition copied : Version := storedVersion (recovery restored).
Definition recoveryLog : list Entry := (([] ++ bw_log (recovery (None, []))) ++ bw_log (recovery begun)) ++ bw_log (recovery restored).
Lemma recovery_run : recoveringHere [copied; restored; begun; (None, [])] recoveryLog.
Proof. do 3 (apply recovering_again; [vm_compute; reflexivity|]). apply recoveries_new. Qed.
End BootstrapExample.
Import BootstrapExample.

Lemma seed_restore_from_master_witness :
  (fun x => (x.1.1.2, rr_SeedFromMaster x.2)) <$> restores (bw_log seeded) = [("c-2", "c-0")] /\
  exists storage l, (l <> [] -> sp_ObjectStorage (cl_Spec (bw_cluster read)) = Some storage) /\
    restores (bw_log seeded) = restores (bw_log read) ++ l /\
    Forall (GoodRestore env "db" storage (cl_UID (bw_cluster read)) "c-0"
      (memberNames (bw_cluster read) (sp_PromotableMembers (cl_Spec (bw_cluster read)))) (entry "db" read)) l.
Proof.
  split; [vm_compute; reflexivity|].
  assert (found "db" read = Some (entry "db" read)) as Hf by (vm_compute; reflexivity). unfold seeded.
  exact (seed_restore_from_master quoted formatTime hashRequest reconciler env "db" "c-0" read (entry "db" read) Hf).
Defined.

Lemma seeded_members_restored_witness : ds_SeededMembers (entry "db" seeded) = ["c-1"; "c-2"] /\
  exists e, e ∈ bw_log seeded /\ restoredBy "db" (cl_UID (bw_cluster read)) "c-2" e.
Proof.
  assert (ds_SeededMembers (entry "db" seeded) = ["c-1"; "c-2"]) as H by (vm_compute; reflexivity). split; [exact H|].
  assert (found "db" read = Some (entry "db" read)) as Hr by (vm_compute; reflexivity).
  destruct (seeded_members_restored quoted formatTime hashRequest reconciler env "db" "c-0" read (entry "db" read) Hr) as (new & l & st' & Hf & Hl & Hs & _ & Hall & _).
  fold seeded in Hf, Hl. rewrite (entry_found "db" seeded st' Hf), Hs in H.
  apply (app_inj_1 _ ["c-1"] new ["c-2"]) in H as [_ ->]; [|vm_compute; reflexivity].
  apply Forall_singleton in Hall as (_ & _ & He). rewrite Hl. exact He.
Defined.

Lemma seed_restore_key_identifies_witness :
  bootstrapKey "seed-restore" "u1" (attempt "db" 1) (copyMember "c" (LaterCopy 2 0 1)) = "seed-restore-u1-db-a1-c-2-from-c-0-r1" /\
  (forall a c, 0 <= a -> copyOk c ->
    bootstrapKey "seed-restore" "u1" (attempt "db" a) (copyMember "c" c) = "seed-restore-u1-db-a1-c-2-from-c-0-r1" ->
    a = 1 /\ c = LaterCopy 2 0 1) /\ (1 = 1 /\ LaterCopy 2 0 1 = LaterCopy 2 0 1).
Proof.
  split; [vm_compute; reflexivity|]. split.
  - intros a c Ha Hc Hk. apply (seed_restore_key_identifies "c" "u1" "db" a 1 c (LaterCopy 2 0 1)); [done|done|done|done|].
    rewrite Hk. vm_compute. reflexivity.
  - apply (seed_restore_key_identifies "c" "u1" "db" 1 1 (LaterCopy 2 0 1) (LaterCopy 2 0 1)); done.
Defined.

Lemma bootstrap_record_sound_witness :
  ds_SeededMembers (entryIn "db" (databases first)) `prefix_of` ds_SeededMembers (entryIn "db" (databases second)).
Proof.
  exact (proj1 (proj2 (proj2 (bootstrap_record_sound quoted formatTime hashRequest (fun t => t) "c" "u1" "db" _ _ second_reached)
    0%nat (databases second) (databases first) eq_refl eq_refl))).
Defined.

Lemma database_created_on_one_member_witness :
  "ha-bootstrap-u1-db-a0" ∈ [bootstrapKey "ha-bootstrap" "u1" (attempt "db" 0) ""; bootstrapKey "ha-bootstrap" "u1" (attempt "db" 1) "";
    bootstrapKey "ha-bootstrap" "u1" (attempt "db" 2) ""].
Proof.
  apply (database_created_on_one_member quoted formatTime hashRequest (fun t => t) "c" "u1" "db" _ _
    (mkEntry (zeroDatabaseStatus "db") (StartsHABootstrap "c-0" "ha-bootstrap-u1-db-a0" "db") (Some (answer OpHABootstrap "create")))
    "c-0" "ha-bootstrap-u1-db-a0" "db" second_reached); [|reflexivity].
  apply list_elem_of_lookup_2 with 0%nat. vm_compute. reflexivity.
Defined.

(** A recovery of three members: the restore is started, polled and copied to
    one member, then to the other, and the recovery is complete. *)
Lemma recovery_complete_means_restored_witness :
  (bs_Phase <$> copied.1) = Some BootstrapComplete /\ restoreDone "c" "u1" "db" manifest recoveryLog /\
  exists e, e ∈ recoveryLog /\ restoredBy "db" "u1" "c-2" e.
Proof.
  split; [vm_compute; reflexivity|].
  destruct (recovery_complete_means_restored quoted formatTime hashRequest (fun t => t) "c" "u1" "db" manifest true 3
    [copied; restored; begun; (None, [])] recoveryLog (default zeroBootstrapStatus copied.1) copied.2 recovery_run) as [Hd Hall].
  - change (Some (default zeroBootstrapStatus copied.1), copied.2) with copied. left.
  - vm_compute. reflexivity.
  - split; [exact Hd|]. destruct (Hall eq_refl "c-2") as [H|H]; [right; right; left|discriminate H|exact H].
Defined.
