(* ===== verification/Lifecycle.v ===== *)
(** * The lifecycle of the Instance Manager

    [internal/instancemanager/operations.go] and the command
    [instance-manager shutdown] (cmd/instance-manager/main.go): which
    operations are admitted, how a stop is ordered against them, and how a
    stop reaches a manager that does not listen yet.

    These run concurrently.  A goroutine, and the command, is a program: a
    tree of atomic actions on what they share, each with the answer it gets.
    A section under [lifeMu] is one action, since nothing blocks inside it; the
    wait for the operations takes effect when it sees that none is left.  The
    programs interleave in every order ([transition]).  The work of an
    operation is the list of its calls of [activate], the only place that
    starts CUBRID; what else it does is not modelled here, and neither is the
    removal of abandoned backup staging. *)
From stdpp Require Import prelude strings pretty list.
From Stdlib Require Import String.
From S2P Require Import Prelude GoStr Programs.

(** ** What is shared *)

(** The fields of [Server] that a stop is about, whether the manager listens,
    and whether a stop is recorded in the stop file.  [lf_cancelled] is
    [opsCtx.Err() != nil], and [lf_panicked] that the counter of the
    [sync.WaitGroup] fell below zero. *)
Record Life := mkLife {
  lf_stopRequested : bool;
  lf_stopMu : bool;
  lf_stopped : bool;
  lf_stopping : bool;
  lf_starting : bool;
  lf_ops : Z;
  lf_disruptive : Z;
  lf_cancelled : bool;
  lf_listening : bool;
  lf_recorded : bool;
  lf_panicked : bool }.

Definition NewServer : Life := mkLife false false false false false 0 0 false false false false.

Definition set_stopRequested (s : Life) : Life := mkLife true (lf_stopMu s) (lf_stopped s) (lf_stopping s) (lf_starting s)
  (lf_ops s) (lf_disruptive s) (lf_cancelled s) (lf_listening s) (lf_recorded s) (lf_panicked s).
Definition set_stopMu v (s : Life) : Life := mkLife (lf_stopRequested s) v (lf_stopped s) (lf_stopping s) (lf_starting s)
  (lf_ops s) (lf_disruptive s) (lf_cancelled s) (lf_listening s) (lf_recorded s) (lf_panicked s).
Definition set_stopped (s : Life) : Life := mkLife (lf_stopRequested s) (lf_stopMu s) true (lf_stopping s) (lf_starting s)
  (lf_ops s) (lf_disruptive s) (lf_cancelled s) (lf_listening s) (lf_recorded s) (lf_panicked s).
Definition set_stopping (s : Life) : Life := mkLife (lf_stopRequested s) (lf_stopMu s) (lf_stopped s) true (lf_starting s)
  (lf_ops s) (lf_disruptive s) (lf_cancelled s) (lf_listening s) (lf_recorded s) (lf_panicked s).
Definition set_starting v (s : Life) : Life := mkLife (lf_stopRequested s) (lf_stopMu s) (lf_stopped s) (lf_stopping s) v
  (lf_ops s) (lf_disruptive s) (lf_cancelled s) (lf_listening s) (lf_recorded s) (lf_panicked s).
Definition add_ops d (s : Life) : Life := mkLife (lf_stopRequested s) (lf_stopMu s) (lf_stopped s) (lf_stopping s) (lf_starting s)
  (lf_ops s + d) (lf_disruptive s) (lf_cancelled s) (lf_listening s) (lf_recorded s) (lf_panicked s || (lf_ops s + d <? 0)).
Definition add_disruptive d (s : Life) : Life := mkLife (lf_stopRequested s) (lf_stopMu s) (lf_stopped s) (lf_stopping s)
  (lf_starting s) (lf_ops s) (lf_disruptive s + d) (lf_cancelled s) (lf_listening s) (lf_recorded s) (lf_panicked s).
Definition set_cancelled (s : Life) : Life := mkLife (lf_stopRequested s) (lf_stopMu s) (lf_stopped s) (lf_stopping s) (lf_starting s)
  (lf_ops s) (lf_disruptive s) true (lf_listening s) (lf_recorded s) (lf_panicked s).
Definition set_listening (s : Life) : Life := mkLife (lf_stopRequested s) (lf_stopMu s) (lf_stopped s) (lf_stopping s) (lf_starting s)
  (lf_ops s) (lf_disruptive s) (lf_cancelled s) true (lf_recorded s) (lf_panicked s).
Definition set_recorded (s : Life) : Life := mkLife (lf_stopRequested s) (lf_stopMu s) (lf_stopped s) (lf_stopping s) (lf_starting s)
  (lf_ops s) (lf_disruptive s) (lf_cancelled s) (lf_listening s) true (lf_panicked s).

(** ** Actions *)

Inductive Command := StartsCubrid (args : list string) | HeartbeatStop | ServerStop (database : string).
#[global] Instance Command_eq_dec : EqDecision Command.
Proof. solve_decision. Defined.

(** What [os.Lstat] shows of the stop file, and what the command's request
    meets. *)
Inductive FileState := FileAbsent | FilePresent | FileUnreadable.
Inductive Dialed := Answered (status : Z) (body : string) | NobodyListens | NoAnswer.

Inductive Atom :=
| StoreStopRequested | MarkStopping | EndOps | ReadStopping
| Admit (resume : bool) | AddDisruptive | SubDisruptive | OpsDone
| LockStop | ReadStopped | SetStopped | UnlockStop | AwaitOps
| SetStarting (v : bool) | Listen | LookStopFile
| CliBegins (c : Command) | CliEnds (c : Command)
| RecordStop | Dial.

(** [Admit] answers the reason of a refusal, [CliEnds] the error and the output
    of a failed command, [AwaitOps] why it gave up before every operation was
    seen to end. *)
Definition answer (e : Atom) : Type :=
  match e with
  | MarkStopping | ReadStopping | ReadStopped | Listen | RecordStop => bool
  | Admit _ | AwaitOps => option string
  | CliEnds _ => option (string * string)
  | LookStopFile => FileState
  | Dial => Dialed
  | _ => unit
  end.

Definition errStopping : string := "the member is stopping".
Definition errStarting : string := "the manager is starting".

(** What an action meets that the shared state does not decide. *)
Inductive Choice := Fine | Fault (err out : string) | Status (code : Z) (body : string).

(** [None] when the action has to wait. *)
Definition exec (e : Atom) (c : Choice) (s : Life) : option (answer e * Life) :=
  match e with
  | StoreStopRequested => Some (tt, set_stopRequested s)
  | MarkStopping => Some (lf_stopping s, set_stopping s)
  | EndOps => Some (tt, set_cancelled s)
  | ReadStopping => Some (lf_stopping s, s)
  | Admit resume =>
      Some (if lf_stopping s then (Some errStopping, s)
            else if negb resume && lf_starting s then (Some errStarting, s)
            else (None, add_ops 1 s))
  | AddDisruptive => Some (tt, add_disruptive 1 s)
  | SubDisruptive => Some (tt, add_disruptive (-1) s)
  | OpsDone => Some (tt, add_ops (-1) s)
  | LockStop => if lf_stopMu s then None else Some (tt, set_stopMu true s)
  | ReadStopped => Some (lf_stopped s, s)
  | SetStopped => Some (tt, set_stopped s)
  | UnlockStop => Some (tt, set_stopMu false s)
  | AwaitOps =>
      match c with
      | Fault err _ => Some (Some err, s)
      | _ => if lf_ops s == 0 then Some (None, s) else None
      end
  | SetStarting v => Some (tt, set_starting v s)
  | Listen => Some (match c with Fault _ _ => (false, s) | _ => (true, set_listening s) end)
  | LookStopFile =>
      Some (match c with
            | Fault _ _ => FileUnreadable
            | _ => if lf_recorded s then FilePresent else FileAbsent
            end, s)
  | CliBegins _ => Some (tt, s)
  | CliEnds _ => Some (match c with Fault err out => Some (err, out) | _ => None end, s)
  | RecordStop => Some (match c with Fault _ _ => (false, s) | _ => (true, set_recorded s) end)
  | Dial =>
      Some (match c with
            | Fine => if lf_listening s then Answered 200 "" else NobodyListens
            | Status code body => if lf_listening s then Answered code body else NobodyListens
            | Fault _ _ => NoAnswer
            end, s)
  end.

(** ** Programs *)

Notation Prog := (prog answer).

Definition haNotConfigured : string := "not configured for HA".

(** [strings.Contains] *)
Fixpoint Contains (s sub : string) : bool :=
  String.prefix sub s || match s with String.String _ rest => Contains rest sub | String.EmptyString => false end.

(** A command that is run to its end, with its error and output when it failed. *)
Definition Run (c : Command) : Prog (option (string * string)) :=
  _ ← act (CliBegins c);
  act (CliEnds c).

(** Shutdown: the failures, in order. *)
Definition Shutdown (database : string) : Prog (list string) :=
  hb ← Run HeartbeatStop;
  let errs := match hb with
              | Some (err, out) =>
                  if Contains out haNotConfigured then [] else ["heartbeat stop failed: " +:+ err +:+ ": " +:+ out]
              | None => []
              end in
  if database != "" then
    srv ← Run (ServerStop database);
    mret (errs ++ match srv with Some (err, out) => ["server stop failed: " +:+ err +:+ ": " +:+ out] | None => [] end)
  else mret errs.

Definition awaitFailed (err : string) : string := "operations were still running when the stop proceeded: " +:+ err.

(** [mret []] is the answer nil. *)
Definition Stop (database : string) : Prog (list string) :=
  _ ← act StoreStopRequested;
  _ ← act MarkStopping;
  _ ← act EndOps;
  _ ← act LockStop;
  stopped ← act ReadStopped;
  if (stopped : bool) then _ ← act UnlockStop; mret []
  else
    waited ← act AwaitOps;
    errs ← Shutdown database;
    let all := match waited with Some err => [awaitFailed err] | None => [] end ++ errs in
    if bool_decide (all = []) then _ ← act SetStopped; _ ← act UnlockStop; mret []
    else _ ← act UnlockStop; mret all.

(** The handler of /v1/shutdown, without its answer. *)
Definition shutdown (database : string) : Prog unit := _ ← Stop database; mret tt.

Section manager.
Context (stopFile : string).

Definition honorRecordedStop : Prog bool :=
  if stopFile == "" then mret false
  else
    found ← act LookStopFile;
    match found with
    | FileAbsent => mret false
    | _ =>
        _ ← act StoreStopRequested;
        _ ← act MarkStopping;
        _ ← act EndOps;
        mret true
    end.

Definition activate (args : list string) : Prog (option (string * string)) :=
  honored ← honorRecordedStop;
  if (honored : bool) then mret (Some (errStopping, ""))
  else
    stopping ← act ReadStopping;
    if (stopping : bool) then mret (Some (errStopping, "")) else Run (StartsCubrid args).

(** The calls of [activate] an operation makes, in order. *)
Fixpoint perform (work : list (list string)) : Prog unit :=
  match work with
  | [] => mret tt
  | args :: rest => _ ← activate args; perform rest
  end.

(** An operation of a handler: [disruptive] for a restore and an HA bootstrap,
    which stop and start CUBRID themselves. *)
Definition operation (disruptive : bool) (work : list (list string)) : Prog unit :=
  refused ← act (Admit false);
  match refused with
  | Some _ => mret tt
  | None =>
      if disruptive then
        _ ← act AddDisruptive;
        _ ← perform work;
        _ ← act SubDisruptive;
        act OpsDone
      else _ ← perform work; act OpsDone
  end.

(** [None] for a manager without an operation store. *)
Definition ResumeCompletedRestores (work : option (list (list string))) : Prog unit :=
  match work with
  | None => mret tt
  | Some work =>
      refused ← act (Admit true);
      match refused with
      | Some _ => mret tt
      | None => _ ← perform work; act OpsDone
      end
  end.

Definition ResumeAndServe (work : option (list (list string))) : Prog unit :=
  _ ← act (SetStarting true);
  listens ← act Listen;
  _ ← (if negb listens then mret tt
       else
         honored ← honorRecordedStop;
         if (honored : bool) then mret tt else ResumeCompletedRestores work);
  act (SetStarting false).

Definition RequestShutdown (database : string) : Prog (list string) :=
  dialed ← act Dial;
  match dialed with
  | Answered status body =>
      if status != 200
      then mret ["the manager answered the shutdown with status " +:+ pretty status +:+ ": " +:+ TrimSpace body]
      else mret []
  | _ => Shutdown database
  end.

(** [instance-manager shutdown]: a record that could not be written does not
    hold up the stop. *)
Definition shutdownCommand (database : string) : Prog unit :=
  _ ← act RecordStop;
  _ ← RequestShutdown database;
  mret tt.

(** ** Interleavings *)

Inductive Event := Did (t : nat) (e : Atom) (x : answer e).

Record Manager := mkManager {
  mg_life : Life;
  mg_threads : list (Prog unit);
  mg_log : list Event }.

(** What happens next: a thread does its next action, the listening manager is
    asked to run an operation or to stop, or the command is run. *)
Inductive Happening :=
| Steps (t : nat) (c : Choice)
| AskedFor (disruptive : bool) (work : list (list string))
| AskedToStop (database : string)
| CommandRun (database : string).

Definition spawn (p : Prog unit) (m : Manager) : Manager := mkManager (mg_life m) (mg_threads m ++ [p]) (mg_log m).

Definition transition (h : Happening) (m : Manager) : option Manager :=
  match h with
  | Steps t c =>
      match mg_threads m !! t with
      | Some (Vis e k) =>
          '(x, s) ← exec e c (mg_life m);
          Some (mkManager s (<[t := k x]> (mg_threads m)) (mg_log m ++ [Did t e x]))
      | _ => None
      end
  | AskedFor disruptive work => if lf_listening (mg_life m) then Some (spawn (operation disruptive work) m) else None
  | AskedToStop database => if lf_listening (mg_life m) then Some (spawn (shutdown database) m) else None
  | CommandRun database => Some (spawn (shutdownCommand database) m)
  end.

Definition newManager (work : option (list (list string))) : Manager := mkManager NewServer [ResumeAndServe work] [].

Inductive managed : Manager -> Prop :=
| managed_new work : managed (newManager work)
| managed_step h m m' : managed m -> transition h m = Some m' -> managed m'.

(** A schedule, run. *)
Fixpoint runs (hs : list Happening) (m : Manager) : option Manager :=
  match hs with
  | [] => Some m
  | h :: hs => m' ← transition h m; runs hs m'
  end.

Lemma runs_managed hs m m' : managed m -> runs hs m = Some m' -> managed m'.
Proof.
  revert m. induction hs as [|h hs IH]; intros m Hm H; cbn in H; [by simplify_eq|].
  destruct (transition h m) as [m1|] eqn:E; [|done]. apply (IH m1); [|done]. by apply (managed_step h m).
Qed.
End manager.

(** StopIntended, what the watch over CUBRID's processes asks for. *)
Definition StopIntended (s : Life) : bool := lf_stopRequested s || (0 <? lf_disruptive s).
