(* ===== verification/LifecycleSafety.v ===== *)
(** * What a stop of a member promises

    Theorems about every interleaving of the programs of Lifecycle.v.  A
    program is checked against a table of phases ([next]): which action a
    thread may do in which phase, and the phase it is in afterwards.  The
    phases of all threads are then related to the shared state and the log. *)
From stdpp Require Import prelude strings list.
From S2P Require Import Prelude GoStr Programs Lifecycle.

(** ** Phases *)

(** A thread of the manager before it listens, and outside of everything once
    it does; an operation, with whether it is counted as disruptive, and where
    it is in a start of CUBRID; a stop, from its mark to its end; the
    command. *)
Inductive Phase :=
| Before | Serving
| Entered (d : bool) | Looked (d : bool) | Checked (d : bool) | Starting (d : bool) (args : list string)
| Marked | Locked | Fresh | Quiet | Hurried | Leaving
| Commanded.

Definition stopsCubrid (c : Command) : bool := match c with StartsCubrid _ => false | _ => true end.

(** The phase after an action and its answer; [None] when the action is not
    done in the phase. *)
Definition next (stopFile : string) (g : Phase) (e : Atom) : answer e -> option Phase :=
  match e with
  | StoreStopRequested | EndOps => fun _ => match g with Serving | Entered _ | Marked => Some g | _ => None end
  | MarkStopping => fun _ => match g with Serving => Some Marked | Entered _ => Some g | _ => None end
  | SetStarting _ => fun _ => match g with Before | Serving | Marked => Some g | _ => None end
  | Listen => fun ok => match g with Before => Some (if ok then Serving else Before) | _ => None end
  | LookStopFile => fun found =>
      match g with
      | Serving => Some g
      | Entered d => Some (match found with FileAbsent => Looked d | _ => g end)
      | _ => None
      end
  | ReadStopping => fun stopping =>
      match g with
      | Looked d => Some (if stopping then Entered d else Checked d)
      | Entered d => if stopFile == "" then Some (if stopping then Entered d else Checked d) else None
      | _ => None
      end
  | Admit _ => fun refused =>
      match g with Serving => Some (match refused with None => Entered false | Some _ => Serving end) | _ => None end
  | AddDisruptive => fun _ => match g with Entered false => Some (Entered true) | _ => None end
  | SubDisruptive => fun _ => match g with Entered true => Some (Entered false) | _ => None end
  | OpsDone => fun _ => match g with Entered false => Some Serving | _ => None end
  | LockStop => fun _ => match g with Marked => Some Locked | _ => None end
  | ReadStopped => fun stopped => match g with Locked => Some (if stopped then Leaving else Fresh) | _ => None end
  | AwaitOps => fun err => match g with Fresh => Some (match err with None => Quiet | Some _ => Hurried end) | _ => None end
  | SetStopped => fun _ => match g with Quiet => Some Leaving | _ => None end
  | UnlockStop => fun _ => match g with Quiet | Hurried | Leaving => Some Marked | _ => None end
  | CliBegins c => fun _ =>
      match g, c with
      | Checked d, StartsCubrid args => Some (Starting d args)
      | (Quiet | Hurried | Commanded), (HeartbeatStop | ServerStop _) => Some g
      | _, _ => None
      end
  | CliEnds c => fun _ =>
      match g, c with
      | Starting d args, StartsCubrid args' => if args' == args then Some (Entered d) else None
      | (Quiet | Hurried | Commanded), (HeartbeatStop | ServerStop _) => Some g
      | _, _ => None
      end
  | RecordStop | Dial => fun _ => match g with Commanded => Some g | _ => None end
  end.

Section phases.
Context (stopFile : string).

Notation typed := (typed (next stopFile)).

(** *** The programs keep to the table *)

Lemma typed_stops c g Q : (g = Quiet \/ g = Hurried \/ g = Commanded) -> stopsCubrid c = true ->
  (forall out, Q out g) -> typed g (Run c) Q.
Proof.
  intros Hg Hc HQ. unfold Run.
  destruct Hg as [->|[->| ->]]; destruct c; try done; typed_step; apply typed_act; intros ?; by eexists.
Qed.

Lemma typed_Shutdown database g Q : (g = Quiet \/ g = Hurried \/ g = Commanded) ->
  (forall errs, Q errs g) -> typed g (Shutdown database) Q.
Proof.
  intros Hg HQ. unfold Shutdown. apply typed_bind, typed_stops; [done|done|]. intros hb.
  destruct (database != ""); [|apply HQ]. apply typed_bind, typed_stops; [done|done|]. intros srv. apply HQ.
Qed.

Lemma typed_Stop database : typed Serving (Stop database) (fun _ g => g = Marked).
Proof.
  unfold Stop. do 4 typed_step. typed_does. intros stopped. eexists. split; [reflexivity|].
  destruct stopped; [by typed_step|]. typed_does. intros waited. eexists. split; [reflexivity|].
  destruct waited as [err|]; apply typed_bind, typed_Shutdown; [by auto| |by auto|]; intros errs.
  - rewrite bool_decide_eq_false_2 by done. by typed_step.
  - destruct (bool_decide _); by repeat typed_step.
Qed.

Lemma typed_honor_in d : typed (Entered d) (honorRecordedStop stopFile)
  (fun honored g => g = if honored then Entered d else if stopFile == "" then Entered d else Looked d).
Proof.
  unfold honorRecordedStop. destruct (bool_decide (stopFile = "")); [done|].
  typed_does. intros found. destruct found; eexists; (split; [reflexivity|]); [done|by repeat typed_step..].
Qed.

Lemma typed_honor_out : typed Serving (honorRecordedStop stopFile)
  (fun honored g => g = if honored then Marked else Serving).
Proof.
  unfold honorRecordedStop. destruct (bool_decide (stopFile = "")); [done|].
  typed_does. intros found. destruct found; eexists; (split; [reflexivity|]); [done|by repeat typed_step..].
Qed.

Lemma typed_starts d args : typed (Checked d) (Run (StartsCubrid args)) (fun _ g => g = Entered d).
Proof.
  unfold Run. typed_step. typed_last. intros ?. eexists. split; [|reflexivity]. cbn [next].
  by rewrite bool_decide_eq_true_2.
Qed.

Lemma typed_activate d args : typed (Entered d) (activate stopFile args) (fun _ g => g = Entered d).
Proof.
  unfold activate. apply typed_bind. eapply typed_weaken; [|apply typed_honor_in]. intros honored g ->. destruct honored; [done|].
  typed_does. intros stopping. exists (if stopping then Entered d else Checked d). split.
  - destruct (bool_decide (stopFile = "")) eqn:E; cbn [next]; by rewrite ?E.
  - destruct stopping; [done|apply typed_starts].
Qed.

Lemma typed_perform d work : typed (Entered d) (perform stopFile work) (fun _ g => g = Entered d).
Proof.
  induction work as [|args work IH]; [done|]. cbn [perform]. apply typed_bind.
  eapply typed_weaken; [|apply typed_activate]. by intros x g ->.
Qed.

Lemma typed_operation disruptive work : typed Serving (operation stopFile disruptive work) (fun _ g => g = Serving).
Proof.
  unfold operation. typed_does. intros [err|]; (eexists; split; [reflexivity|]); [done|]. destruct disruptive.
  - typed_step. apply typed_bind. eapply typed_weaken; [|apply typed_perform]. intros _ g ->. typed_step.
    typed_last. intros ?. by eexists.
  - apply typed_bind. eapply typed_weaken; [|apply typed_perform]. intros _ g ->. typed_last. intros ?. by eexists.
Qed.

Lemma typed_resume work : typed Serving (ResumeCompletedRestores stopFile work) (fun _ g => g = Serving).
Proof.
  unfold ResumeCompletedRestores. destruct work as [work|]; [|done].
  typed_does. intros [err|]; (eexists; split; [reflexivity|]); [done|].
  apply typed_bind. eapply typed_weaken; [|apply typed_perform]. intros _ g ->. typed_last. intros ?. by eexists.
Qed.

(** A thread that has come to its end. *)
Definition atEnd (_ : unit) (g : Phase) : Prop := g = Before \/ g = Serving \/ g = Marked \/ g = Commanded.

Lemma typed_shutdown database : typed Serving (shutdown database) atEnd.
Proof. unfold shutdown. apply typed_bind. eapply typed_weaken; [|apply typed_Stop]. intros errs g ->. cbn. unfold atEnd. auto. Qed.

Lemma typed_ResumeAndServe work : typed Before (ResumeAndServe stopFile work) atEnd.
Proof.
  unfold ResumeAndServe, atEnd. typed_step. typed_does. intros listens. eexists. split; [reflexivity|].
  apply typed_bind. destruct listens; cbn [negb].
  - apply typed_bind. eapply typed_weaken; [|apply typed_honor_out]. intros honored g ->. destruct honored.
    + apply typed_ret. typed_last. intros ?. eexists. split; [reflexivity|]. by auto.
    + eapply typed_weaken; [|apply typed_resume]. intros _ g ->. typed_last. intros ?. eexists. split; [reflexivity|]. by auto.
  - apply typed_ret. typed_last. intros ?. eexists. split; [reflexivity|]. by auto.
Qed.

Lemma typed_command database : typed Commanded (shutdownCommand database) atEnd.
Proof.
  unfold shutdownCommand, RequestShutdown. typed_step. apply typed_bind. typed_does.
  intros dialed. eexists. split; [reflexivity|]. unfold atEnd.
  destruct dialed as [status body| |]; [destruct (status != 200); cbn; by auto|..];
    (apply typed_Shutdown; [by auto|]; intros errs; cbn; by auto).
Qed.
End phases.

(** ** Counting threads *)

Fixpoint total (f : Phase -> Z) (gs : list Phase) : Z := match gs with [] => 0 | g :: gs => f g + total f gs end.

Lemma total_app f gs gs' : total f (gs ++ gs') = total f gs + total f gs'.
Proof. induction gs as [|g gs IH]; cbn; [done|]. lia. Qed.

Lemma total_insert f gs t g g' : gs !! t = Some g -> total f (<[t := g']> gs) = total f gs - f g + f g'.
Proof.
  revert t. induction gs as [|h gs IH]; intros [|t] H; simplify_eq/=; [lia|].
  specialize (IH t H). lia.
Qed.

Lemma total_nonneg f gs : (forall g, 0 <= f g) -> 0 <= total f gs.
Proof. intros Hf. induction gs as [|g gs IH]; cbn; [done|]. specialize (Hf g). lia. Qed.

Lemma total_one f gs t g : (forall g, 0 <= f g) -> gs !! t = Some g -> f g <= total f gs.
Proof.
  intros Hf. revert t. induction gs as [|h gs IH]; intros [|t] H; simplify_eq/=.
  - pose proof (total_nonneg f gs Hf) as Hn. lia.
  - specialize (IH t H). specialize (Hf h). lia.
Qed.

Lemma total_two f gs t t' g g' : (forall g, 0 <= f g) -> t <> t' -> gs !! t = Some g -> gs !! t' = Some g' -> f g + f g' <= total f gs.
Proof.
  intros Hf. revert t t'. induction gs as [|h gs IH]; intros [|t] [|t'] Ht H H'; simplify_eq/=.
  - pose proof (total_one f gs t' g' Hf H') as Hn. lia.
  - pose proof (total_one f gs t g Hf H) as Hn. lia.
  - assert (t <> t') as Hne by congruence. specialize (IH t t' Hne H H'). specialize (Hf h). lia.
Qed.

Lemma total_le f f' gs : (forall g, f g <= f' g) -> total f gs <= total f' gs.
Proof. intros Hf. induction gs as [|g gs IH]; cbn; [done|]. specialize (Hf g). lia. Qed.

(** An admitted operation, one that is counted as disruptive, a stop that
    holds [stopMu]. *)
Definition inside (g : Phase) : Z := match g with Entered _ | Looked _ | Checked _ | Starting _ _ => 1 | _ => 0 end.
Definition counted (g : Phase) : Z :=
  match g with Entered d | Looked d | Checked d | Starting d _ => if d then 1 else 0 | _ => 0 end.
Definition holding (g : Phase) : Z := match g with Locked | Fresh | Quiet | Hurried | Leaving => 1 | _ => 0 end.
Definition lockOf (s : Life) : Z := if lf_stopMu s then 1 else 0.

Lemma inside_nonneg g : 0 <= inside g.
Proof. by destruct g. Qed.
Lemma counted_nonneg g : 0 <= counted g.
Proof. by destruct g as [| |[]|[]|[]|[]| | | | | | |]. Qed.
Lemma holding_nonneg g : 0 <= holding g.
Proof. by destruct g. Qed.
Lemma counted_inside g : counted g <= inside g.
Proof. by destruct g as [| |[]|[]|[]|[]| | | | | | |]. Qed.

(** A stop after its mark, and one that runs. *)
Definition afterMark (g : Phase) : bool := match g with Marked | Locked | Fresh | Quiet | Hurried | Leaving => true | _ => false end.
Definition stops (g : Phase) : bool := match g with Fresh | Quiet | Hurried => true | _ => false end.
(** An operation between its look at the stop file and the end of a start. *)
Definition onItsWay (g : Phase) : bool := match g with Looked _ | Checked _ | Starting _ _ => true | _ => false end.
Definition apart (g : Phase) : bool := match g with Before | Commanded => true | _ => false end.

(** ** Events *)

Definition threadOf (ev : Event) : nat := let 'Did t _ _ := ev in t.
(** A start of CUBRID begins. *)
Definition begins (ev : Event) : bool := match ev with Did _ (CliBegins (StartsCubrid _)) _ => true | _ => false end.
Definition started (ev : Event) : option (nat * list string) :=
  match ev with Did t (CliBegins (StartsCubrid args)) _ => Some (t, args) | _ => None end.
(** An operation is admitted. *)
Definition admits (ev : Event) : bool := match ev with Did _ (Admit _) None => true | _ => false end.
(** [activate] finds that the member is not stopping. *)
Definition passes (ev : Event) : bool := match ev with Did _ ReadStopping false => true | _ => false end.
(** A stop waits, and one has seen every operation end. *)
Definition awaits (ev : Event) : bool := match ev with Did _ AwaitOps _ => true | _ => false end.
Definition waitedAll (ev : Event) : bool := match ev with Did _ AwaitOps None => true | _ => false end.
(** The member is marked as stopping, and a stop succeeds. *)
Definition marks (ev : Event) : bool := match ev with Did _ MarkStopping _ => true | _ => false end.
Definition succeeds (ev : Event) : bool := match ev with Did _ SetStopped _ => true | _ => false end.
(** The command records the stop, and finds that nobody listens. *)
Definition records (ev : Event) : bool := match ev with Did _ RecordStop true => true | _ => false end.
Definition unheard (ev : Event) : bool := match ev with Did _ Dial NobodyListens => true | _ => false end.

(** ** One action *)

Section one_step.
Context (stopFile : string).

(** Thread [t] in phase [g] does [e], is answered [x] and is in [g']. *)
Record Acts (t : nat) (e : Atom) (x : answer e) (g g' : Phase) (s s' : Life) (gs : list Phase) : Prop := {
  acts_from : gs !! t = Some g;
  acts_next : next stopFile g e x = Some g';
  acts_exec : exists c, exec e c s = Some (x, s') }.

Ltac act_cases H :=
  let c := fresh "c" in let Hn := fresh "Hn" in let He := fresh "He" in
  destruct H as [_ Hn [c He]];
  match type of Hn with next _ _ ?e _ = _ => destruct e end; cbn in Hn, He;
  repeat match type of Hn with context [match ?g with _ => _ end] => is_var g; destruct g; try discriminate Hn end;
  repeat match type of Hn with context [if ?b then _ else _] => destruct b eqn:?; try discriminate Hn end;
  repeat match type of He with context [match ?b with _ => _ end] => destruct b eqn:?; try discriminate He end;
  simplify_eq.

Context {t : nat} {e : Atom} {x : answer e} {g g' : Phase} {s s' : Life} {gs : list Phase}.
Context (H : Acts t e x g g' s s' gs).

Lemma acts_stopping : lf_stopping s = true -> lf_stopping s' = true.
Proof. act_cases H; done. Qed.

Lemma acts_ops : lf_ops s' = lf_ops s + inside g' - inside g.
Proof. act_cases H; cbn; lia. Qed.

Lemma acts_disruptive : lf_disruptive s' = lf_disruptive s + counted g' - counted g.
Proof. act_cases H; cbn; repeat case_match; lia. Qed.

Lemma acts_lock : holding g <= lockOf s -> lockOf s' = lockOf s + holding g' - holding g.
Proof. unfold lockOf. act_cases H; cbn; repeat case_match; simplify_eq; lia. Qed.

Lemma acts_panicked : inside g <= lf_ops s -> lf_panicked s = false -> lf_panicked s' = false.
Proof. act_cases H; cbn; intros ? Hp; rewrite ?Hp; try done; apply Z.ltb_ge; lia. Qed.

Lemma acts_mark : (afterMark g = true -> lf_stopping s = true) -> afterMark g' = true -> lf_stopping s' = true.
Proof. act_cases H; cbn; naive_solver. Qed.

Lemma acts_stopped : lf_stopped s' = true -> lf_stopped s = true \/ g = Quiet /\ stops g' = false.
Proof. act_cases H; cbn; naive_solver. Qed.

Lemma acts_stops : (stops g = true -> lf_stopped s = false) -> stops g' = true -> lf_stopped s' = false.
Proof. act_cases H; cbn; naive_solver. Qed.

Lemma acts_recorded : lf_recorded s = true -> lf_recorded s' = true.
Proof. act_cases H; done. Qed.

Lemma acts_listening : lf_listening s' = false -> lf_listening s = false /\ (apart g = true -> apart g' = true).
Proof. act_cases H; cbn; naive_solver. Qed.

Lemma acts_onItsWay : stopFile <> "" -> lf_recorded s = true -> onItsWay g' = true -> onItsWay g = true.
Proof. intros Hf. act_cases H; try done; by bool_simpl. Qed.

Lemma acts_stays_out : lf_stopping s = true -> inside g = 0 -> inside g' = 0.
Proof. act_cases H; done. Qed.

(** *** What an action shows of the state *)

Lemma acts_begins : begins (Did t e x) = true -> exists d args, g = Checked d /\ g' = Starting d args.
Proof. act_cases H; try done; eauto. Qed.

Lemma acts_free : admits (Did t e x) || passes (Did t e x) = true -> lf_stopping s = false.
Proof. act_cases H; done. Qed.

Lemma acts_awaits : awaits (Did t e x) = true -> stops g = true.
Proof. act_cases H; done. Qed.

Lemma acts_waitedAll : waitedAll (Did t e x) = true -> afterMark g = true /\ lf_ops s' = 0 /\ lf_stopping s' = lf_stopping s.
Proof. act_cases H; try done; intros _; by bool_simpl. Qed.

Lemma acts_marks : marks (Did t e x) = true -> lf_stopping s' = true.
Proof. act_cases H; done. Qed.

Lemma acts_records : records (Did t e x) = true -> lf_recorded s' = true.
Proof. act_cases H; done. Qed.

Lemma acts_succeeds : succeeds (Did t e x) = true -> lf_stopped s' = true.
Proof. act_cases H; done. Qed.

Lemma acts_succeeded : lf_stopped s = true -> lf_stopped s' = true.
Proof. act_cases H; done. Qed.

Lemma acts_unheard : unheard (Did t e x) = true -> lf_listening s = false /\ g' = g /\ s' = s.
Proof. act_cases H; done. Qed.

Lemma ends_starting d args : g = Starting d args ->
  exists y, Did t e x = Did t (CliEnds (StartsCubrid args)) y.
Proof. act_cases H; try done; intros [= <- <-]; bool_simpl; subst; eauto. Qed.

Lemma starts_starting t' args : Did t e x = Did t' (CliBegins (StartsCubrid args)) tt -> t' = t /\ exists d, g' = Starting d args.
Proof.
  intros E%(f_equal started). cbn in E. act_cases H; try done; eauto.
Qed.

Lemma acts_checked d : g' = Checked d -> Did t e x = Did t ReadStopping false.
Proof. act_cases H; done. Qed.
End one_step.

(** ** The log *)

(** Whether [b] may come after [a]. *)
Definition mayFollow (a b : Event) : bool :=
  negb (waitedAll a && begins b) && negb (marks a && (admits b || passes b)) && negb (succeeds a && awaits b).
Definition ordered (log : list Event) : Prop :=
  forall i j a b, (i < j)%nat -> log !! i = Some a -> log !! j = Some b -> mayFollow a b = true.

Lemma ordered_snoc log ev : ordered log -> Forall (fun a => mayFollow a ev = true) log -> ordered (log ++ [ev]).
Proof.
  intros Ho Hev i j a b Hij Ha Hb. apply lookup_snoc_Some in Hb as [[Hj Hb]|[-> ->]].
  - apply lookup_snoc_Some in Ha as [[Hi Ha]|[-> _]]; [|lia]. by apply (Ho i j).
  - apply lookup_snoc_Some in Ha as [[Hi Ha]|[-> _]]; [|lia]. by apply (proj1 (Forall_lookup _ _) Hev i).
Qed.

(** The command recorded a stop, and later found that nobody listens. *)
Definition unheardStop (log : list Event) : Prop :=
  exists i j a b, (i < j)%nat /\ log !! i = Some a /\ log !! j = Some b /\ records a = true /\ unheard b = true.

Lemma unheardStop_snoc log ev : unheardStop (log ++ [ev]) ->
  unheardStop log \/ unheard ev = true /\ Exists (fun a => records a = true) log.
Proof.
  intros (i & j & a & b & Hij & Ha & Hb & Hra & Hub). apply lookup_snoc_Some in Hb as [[Hj Hb]|[-> ->]].
  - left. apply lookup_snoc_Some in Ha as [[Hi Ha]|[-> _]]; [|lia]. by exists i, j, a, b.
  - right. split; [done|]. apply lookup_snoc_Some in Ha as [[Hi Ha]|[-> _]]; [|lia].
    apply Exists_exists. exists a. split; [|done]. by apply list_elem_of_lookup_2 in Ha.
Qed.

Lemma Exists_snoc {A} (P : A -> Prop) l x : Exists P (l ++ [x]) <-> Exists P l \/ P x.
Proof. rewrite Exists_app, Exists_cons, Exists_nil. naive_solver. Qed.

Lemma not_Exists_Forall (f : Event -> bool) log : ~ Exists (fun a => f a = true) log -> Forall (fun a => f a = false) log.
Proof.
  intros H. apply Forall_forall. intros a Ha. apply not_true_is_false. intros E. apply H, Exists_exists. by exists a.
Qed.

(** The last event of a thread is its check that the member is not stopping. *)
Definition checkedLast (t : nat) (log : list Event) : Prop :=
  exists i, log !! i = Some (Did t ReadStopping false) /\
    forall k ev, (i < k)%nat -> log !! k = Some ev -> threadOf ev <> t.

Lemma checkedLast_snoc t log ev : checkedLast t log -> threadOf ev <> t -> checkedLast t (log ++ [ev]).
Proof.
  intros (i & Hi & Hk) Hev. exists i. split; [by apply lookup_app_l_Some|]. intros k ev' Hik He.
  apply lookup_snoc_Some in He as [[Hl He]|[-> <-]]; [|done]. by apply (Hk k).
Qed.

Lemma checkedLast_new t log : checkedLast t (log ++ [Did t ReadStopping false]).
Proof.
  exists (length log). split; [by apply list_lookup_middle|]. intros k ev Hk He.
  apply lookup_lt_Some in He. rewrite length_app in He. cbn in He. lia.
Qed.

(** ** The invariant *)

Section invariant.
Context (stopFile : string).

Record Inv (s : Life) (gs : list Phase) (log : list Event) : Prop := {
  inv_ops : lf_ops s = total inside gs;
  inv_disruptive : lf_disruptive s = total counted gs;
  inv_lock : lockOf s = total holding gs;
  inv_panicked : lf_panicked s = false;
  inv_mark t g : gs !! t = Some g -> afterMark g = true -> lf_stopping s = true;
  inv_stops t g : gs !! t = Some g -> stops g = true -> lf_stopped s = false;
  inv_apart : lf_listening s = false ->
    Forall (fun g => apart g = true) gs /\ Forall (fun ev => begins ev = false) log;
  inv_waited : Exists (fun ev => waitedAll ev = true) log -> lf_stopping s = true /\ lf_ops s = 0;
  inv_marked : Exists (fun ev => marks ev = true) log -> lf_stopping s = true;
  inv_recorded : Exists (fun ev => records ev = true) log -> lf_recorded s = true;
  inv_succeeded : Exists (fun ev => succeeds ev = true) log -> lf_stopped s = true;
  inv_started j t args : log !! j = Some (Did t (CliBegins (StartsCubrid args)) tt) ->
    (exists k x, (j < k)%nat /\ log !! k = Some (Did t (CliEnds (StartsCubrid args)) x)) \/
    exists d, gs !! t = Some (Starting d args);
  inv_checked t d : gs !! t = Some (Checked d) -> checkedLast t log;
  inv_begun j t args : log !! j = Some (Did t (CliBegins (StartsCubrid args)) tt) -> checkedLast t (take j log);
  inv_unheard : stopFile <> "" -> unheardStop log -> lf_recorded s = true /\
    Forall (fun g => onItsWay g = false) gs /\ Forall (fun ev => begins ev = false) log;
  inv_ended i t j t' args : log !! i = Some (Did t AwaitOps None) ->
    (j < i)%nat -> log !! j = Some (Did t' (CliBegins (StartsCubrid args)) tt) ->
    exists k x, (j < k < i)%nat /\ log !! k = Some (Did t' (CliEnds (StartsCubrid args)) x);
  inv_order : ordered log }.

(** *** Kept by every action *)

Section kept.
Context (t : nat) (e : Atom) (x : answer e) (g g' : Phase) (s s' : Life) (gs : list Phase) (log : list Event).
Context (I : Inv s gs log) (H : Acts stopFile t e x g g' s s' gs).
Notation gs' := (<[t := g']> gs).
Notation ev := (Did t e x).

Lemma thread_cases t' h : gs' !! t' = Some h -> t' = t /\ h = g' \/ t' <> t /\ gs !! t' = Some h.
Proof. intros Hl. apply list_lookup_insert_Some in Hl as [(-> & -> & _)|[Hne Hl]]; naive_solver. Qed.

Lemma mine : gs !! t = Some g.
Proof. apply H. Qed.

Lemma kept_ops : lf_ops s' = total inside gs'.
Proof. rewrite (acts_ops _ H), (total_insert _ _ _ _ _ mine), (inv_ops _ _ _ I). lia. Qed.
Lemma kept_disruptive : lf_disruptive s' = total counted gs'.
Proof. rewrite (acts_disruptive _ H), (total_insert _ _ _ _ _ mine), (inv_disruptive _ _ _ I). lia. Qed.
Lemma kept_lock : lockOf s' = total holding gs'.
Proof.
  pose proof (total_one holding gs t g holding_nonneg mine) as Hle. rewrite <- (inv_lock _ _ _ I) in Hle.
  rewrite (acts_lock _ H Hle), (total_insert _ _ _ _ _ mine), (inv_lock _ _ _ I). lia.
Qed.
Lemma kept_panicked : lf_panicked s' = false.
Proof.
  apply (acts_panicked _ H); [|apply I]. rewrite (inv_ops _ _ _ I). apply (total_one _ _ t); [apply inside_nonneg|apply mine].
Qed.

Lemma kept_mark t' h : gs' !! t' = Some h -> afterMark h = true -> lf_stopping s' = true.
Proof.
  intros [[-> ->]|[Hne Hl]]%thread_cases Hh.
  - apply (acts_mark _ H); [|done]. apply (inv_mark _ _ _ I t), mine.
  - apply (acts_stopping _ H). by apply (inv_mark _ _ _ I t' h).
Qed.

Lemma kept_stops t' h : gs' !! t' = Some h -> stops h = true -> lf_stopped s' = false.
Proof.
  intros [[-> ->]|[Hne Hl]]%thread_cases Hh.
  - apply (acts_stops _ H); [|done]. apply (inv_stops _ _ _ I t), mine.
  - apply not_true_is_false. intros [Hs|[Hq _]]%(acts_stopped _ H).
    + pose proof (inv_stops _ _ _ I t' h Hl Hh). congruence.
    + pose proof (total_two holding gs t t' g h holding_nonneg (not_eq_sym Hne) mine Hl) as Htwo.
      rewrite <- (inv_lock _ _ _ I), Hq in Htwo. unfold lockOf in Htwo. destruct h; try done; cbn in Htwo; destruct (lf_stopMu s); lia.
Qed.

Lemma kept_apart : lf_listening s' = false ->
  Forall (fun g => apart g = true) gs' /\ Forall (fun ev => begins ev = false) (log ++ [ev]).
Proof.
  intros [Hs Hg]%(acts_listening _ H). destruct (inv_apart _ _ _ I Hs) as [Hgs Hlog].
  pose proof (proj1 (Forall_lookup _ _) Hgs t g mine) as Hm. cbn in Hm.
  split; [apply Forall_insert; [done|by apply Hg]|]. apply Forall_app. split; [done|]. apply Forall_singleton, not_true_is_false.
  intros (d & args & -> & _)%(acts_begins _ H). done.
Qed.

Lemma kept_waited : Exists (fun ev => waitedAll ev = true) (log ++ [ev]) -> lf_stopping s' = true /\ lf_ops s' = 0.
Proof.
  rewrite Exists_snoc. intros [Hw|Hw].
  - destruct (inv_waited _ _ _ I Hw) as [Hs Ho]. split; [by apply (acts_stopping _ H)|].
    rewrite (acts_ops _ H), Ho. pose proof (total_one inside gs t g inside_nonneg mine) as Hle.
    rewrite <- (inv_ops _ _ _ I), Ho in Hle. pose proof (inside_nonneg g).
    assert (inside g' = 0); [|lia]. apply (acts_stays_out _ H); [done|lia].
  - destruct (acts_waitedAll _ H Hw) as (Hg & Ho & ->). split; [|done]. apply (inv_mark _ _ _ I t g mine Hg).
Qed.

Lemma kept_marked : Exists (fun ev => marks ev = true) (log ++ [ev]) -> lf_stopping s' = true.
Proof. rewrite Exists_snoc. intros [Hm|Hm]; [by apply (acts_stopping _ H), (inv_marked _ _ _ I)|by apply (acts_marks _ H)]. Qed.
Lemma kept_recorded : Exists (fun ev => records ev = true) (log ++ [ev]) -> lf_recorded s' = true.
Proof. rewrite Exists_snoc. intros [Hm|Hm]; [by apply (acts_recorded _ H), (inv_recorded _ _ _ I)|by apply (acts_records _ H)]. Qed.
Lemma kept_succeeded : Exists (fun ev => succeeds ev = true) (log ++ [ev]) -> lf_stopped s' = true.
Proof. rewrite Exists_snoc. intros [Hm|Hm]; [by apply (acts_succeeded _ H), (inv_succeeded _ _ _ I)|by apply (acts_succeeds _ H)]. Qed.

Lemma kept_started j t' args : (log ++ [ev]) !! j = Some (Did t' (CliBegins (StartsCubrid args)) tt) ->
  (exists k x, (j < k)%nat /\ (log ++ [ev]) !! k = Some (Did t' (CliEnds (StartsCubrid args)) x)) \/
  exists d, gs' !! t' = Some (Starting d args).
Proof.
  intros [[Hj Hl]|[-> Hev]]%lookup_snoc_Some.
  - destruct (inv_started _ _ _ I j t' args Hl) as [(k & y & Hk & Hend)|(d & Hd)].
    + left. exists k, y. split; [done|]. by apply lookup_app_l_Some.
    + destruct (decide (t' = t)) as [->|Hne]; [|right; exists d; by rewrite list_lookup_insert_ne].
      assert (g = Starting d args) as Hg by (pose proof mine; congruence).
      destruct (ends_starting _ H d args Hg) as (y & Hy). left. exists (length log), y. split; [done|].
      rewrite Hy. by apply list_lookup_middle.
  - right. destruct (starts_starting _ H t' args Hev) as (Ht & d & Hg). exists d. rewrite Ht, Hg. apply list_lookup_insert_eq.
    eapply lookup_lt_Some, mine.
Qed.

Lemma kept_checked t' d : gs' !! t' = Some (Checked d) -> checkedLast t' (log ++ [ev]).
Proof.
  intros [[-> Hg]|[Hne Hl]]%thread_cases.
  - rewrite (acts_checked _ H d) by done. apply checkedLast_new.
  - apply checkedLast_snoc; [by apply (inv_checked _ _ _ I t' d)|]. cbn. congruence.
Qed.

Lemma kept_begun j t' args : (log ++ [ev]) !! j = Some (Did t' (CliBegins (StartsCubrid args)) tt) ->
  checkedLast t' (take j (log ++ [ev])).
Proof.
  intros [[Hj Hl]|[-> Hev]]%lookup_snoc_Some.
  - rewrite take_app_le by lia. by apply (inv_begun _ _ _ I j t' args).
  - rewrite take_app_length. destruct (starts_starting _ H t' args Hev) as (Ht & d & _). rewrite Ht.
    destruct (acts_begins _ H) as (d' & args' & Hg & _); [by rewrite Hev|].
    apply (inv_checked _ _ _ I t d'). by rewrite <- Hg, mine.
Qed.

Lemma kept_unheard : stopFile <> "" -> unheardStop (log ++ [ev]) -> lf_recorded s' = true /\
  Forall (fun g => onItsWay g = false) gs' /\ Forall (fun ev => begins ev = false) (log ++ [ev]).
Proof.
  intros Hf [Hu|[Hu Hr]]%unheardStop_snoc.
  - destruct (inv_unheard _ _ _ I Hf Hu) as (Hrec & Hgs & Hlog). pose proof (proj1 (Forall_lookup _ _) Hgs t g mine) as Hm. cbn in Hm.
    split; [by apply (acts_recorded _ H)|]. split.
    + apply Forall_insert; [done|]. apply not_true_is_false. intros Hg%(acts_onItsWay _ H Hf Hrec). congruence.
    + apply Forall_app. split; [done|]. apply Forall_singleton, not_true_is_false.
      intros (d & args & Hg & _)%(acts_begins _ H). by rewrite Hg in Hm.
  - destruct (acts_unheard _ H Hu) as (Hl & Hg & Hs). destruct (inv_apart _ _ _ I Hl) as [Hgs Hlog].
    rewrite Hs, Hg, list_insert_id by apply mine. split; [by apply (inv_recorded _ _ _ I)|]. split.
    + eapply Forall_impl; [exact Hgs|]. by intros [].
    + apply Forall_app. split; [done|]. apply Forall_singleton, not_true_is_false.
      intros (d & args & Hc & _)%(acts_begins _ H). pose proof (proj1 (Forall_lookup _ _) Hgs t g mine) as Hm. by rewrite Hc in Hm.
Qed.

Lemma kept_ended i t1 j t' args : (log ++ [ev]) !! i = Some (Did t1 AwaitOps None) ->
  (j < i)%nat -> (log ++ [ev]) !! j = Some (Did t' (CliBegins (StartsCubrid args)) tt) ->
  exists k x, (j < k < i)%nat /\ (log ++ [ev]) !! k = Some (Did t' (CliEnds (StartsCubrid args)) x).
Proof.
  intros Hi Hj Hb. pose proof (lookup_lt_Some _ _ _ Hi) as Hlen. rewrite length_app in Hlen. cbn in Hlen.
  rewrite lookup_app_l in Hb by lia. apply lookup_snoc_Some in Hi as [[Hl Hi]|[-> Hev]].
  - destruct (inv_ended _ _ _ I i t1 j t' args Hi Hj Hb) as (k & y & Hk & Hend). exists k, y. split; [done|].
    rewrite lookup_app_l by lia. done.
  - destruct (inv_started _ _ _ I j t' args Hb) as [(k & y & Hk & Hend)|(d & Hd)].
    + exists k, y. pose proof (lookup_lt_Some _ _ _ Hend). split; [lia|]. by rewrite lookup_app_l by lia.
    + exfalso. destruct (acts_waitedAll _ H) as (_ & Ho & _); [by rewrite Hev|]. rewrite kept_ops in Ho.
      assert (gs' !! t' = Some (Starting d args)) as Hd'.
      { rewrite list_lookup_insert_ne; [done|]. intros <-. destruct (ends_starting _ H d args) as (y & Hy).
        - pose proof mine. congruence.
        - rewrite Hy in Hev. by apply (f_equal waitedAll) in Hev. }
      pose proof (total_one inside _ _ _ inside_nonneg Hd') as Hle. cbn in Hle. lia.
Qed.

Lemma kept_order : ordered (log ++ [ev]).
Proof.
  apply ordered_snoc; [apply (inv_order _ _ _ I)|]. apply Forall_forall. intros a Ha. unfold mayFollow.
  apply andb_true_iff. split; [apply andb_true_iff; split|]; apply negb_true_iff, not_true_is_false; intros [Ha1 Hb]%andb_true_iff.
  - destruct (acts_begins _ H Hb) as (d & args & Hg & _). destruct (inv_waited _ _ _ I) as [_ Ho]; [apply Exists_exists; by exists a|].
    pose proof (total_one inside gs t g inside_nonneg mine) as Hle. rewrite <- (inv_ops _ _ _ I), Ho, Hg in Hle. cbn in Hle. lia.
  - pose proof (acts_free _ H Hb) as Hs. rewrite (inv_marked _ _ _ I) in Hs; [done|]. apply Exists_exists. by exists a.
  - pose proof (inv_stops _ _ _ I t g mine (acts_awaits _ H Hb)) as Hs. rewrite (inv_succeeded _ _ _ I) in Hs; [done|].
    apply Exists_exists. by exists a.
Qed.

Lemma inv_acts : Inv s' gs' (log ++ [ev]).
Proof.
  split; [apply kept_ops|apply kept_disruptive|apply kept_lock|apply kept_panicked|apply kept_mark|apply kept_stops|apply kept_apart
    |apply kept_waited|apply kept_marked|apply kept_recorded|apply kept_succeeded|apply kept_started|apply kept_checked
    |apply kept_begun|apply kept_unheard|apply kept_ended|apply kept_order].
Qed.
End kept.

(** *** Kept by a new thread *)

Lemma inv_spawn s gs log g : Inv s gs log -> g = Serving /\ lf_listening s = true \/ g = Commanded -> Inv s (gs ++ [g]) log.
Proof.
  intros I Hg. assert (inside g = 0 /\ counted g = 0 /\ holding g = 0 /\ afterMark g = false /\ stops g = false /\ onItsWay g = false)
    as (H1 & H2 & H3 & H4 & H5 & H6) by (destruct Hg as [[-> _]| ->]; done).
  assert (forall t h, (gs ++ [g]) !! t = Some h -> gs !! t = Some h \/ h = g) as Hl.
  { intros t h [[_ ?]|[_ ?]]%lookup_snoc_Some; auto. }
  split; try apply I.
  - rewrite total_app, (inv_ops _ _ _ I). cbn. lia.
  - rewrite total_app, (inv_disruptive _ _ _ I). cbn. lia.
  - rewrite total_app, (inv_lock _ _ _ I). cbn. lia.
  - intros t h [Ht| ->]%Hl Hh; [by apply (inv_mark _ _ _ I t h)|congruence].
  - intros t h [Ht| ->]%Hl Hh; [by apply (inv_stops _ _ _ I t h)|congruence].
  - intros Hn. destruct (inv_apart _ _ _ I Hn) as [Hgs Hlog]. split; [|done]. apply Forall_app. split; [done|].
    apply Forall_singleton. destruct Hg as [[_ Hc]| ->]; [congruence|done].
  - intros j t args Hj. destruct (inv_started _ _ _ I j t args Hj) as [?|[d Hd]]; [by left|right].
    exists d. by apply lookup_app_l_Some.
  - intros t d [Ht|Ht]%Hl; [by apply (inv_checked _ _ _ I t d)|]. destruct Hg as [[-> _]| ->]; done.
  - intros Hf Hu. destruct (inv_unheard _ _ _ I Hf Hu) as (Hr & Hgs & Hlog). split_and!; [done| |done].
    apply Forall_app. split; [done|]. by apply Forall_singleton.
Qed.

Lemma inv_new : Inv NewServer [Before] [].
Proof.
  split; try done; try (intros He%Exists_nil; done).
  all: try (intros [|[|t]] ? ?; naive_solver).
  - intros _. by repeat constructor.
  - intros _ (i & j & a & b & _ & Ha & _). done.
Qed.

(** Every reached manager has phases its threads keep to. *)
Lemma managed_inv m : managed stopFile m -> exists gs,
  Forall2 (fun g p => typed (next stopFile) g p atEnd) gs (mg_threads m) /\ Inv (mg_life m) gs (mg_log m).
Proof.
  induction 1 as [work|h m m' _ (gs & Hty & I) Ht].
  - exists [Before]. split; [constructor; [apply typed_ResumeAndServe|constructor]|].
    apply inv_new.
  - destruct h as [t c|disruptive work|database|database]; unfold transition in Ht.
    + destruct (mg_threads m !! t) as [[a|e k]|] eqn:Et; [done| |done].
      destruct (exec e c (mg_life m)) as [[x s']|] eqn:Ee; [|done]. cbn in Ht. simplify_eq. cbn.
      destruct (Forall2_lookup_r _ _ _ _ _ Hty Et) as (g & Hg & Hp). cbn in Hp. specialize (Hp x).
      destruct (next stopFile g e x) as [g'|] eqn:En; [|done]. exists (<[t := g']> gs). split; [by apply Forall2_insert|].
      apply (inv_acts t e x g g' (mg_life m)); [done|]. split; [done|done|by exists c].
    + destruct (lf_listening _) eqn:El; [|done]. simplify_eq. exists (gs ++ [Serving]). split; [|by apply inv_spawn; auto].
      apply Forall2_app; [done|]. constructor; [|constructor]. eapply typed_weaken; [|apply typed_operation]. unfold atEnd. naive_solver.
    + destruct (lf_listening _) eqn:El; [|done]. simplify_eq. exists (gs ++ [Serving]). split; [|by apply inv_spawn; auto].
      apply Forall2_app; [done|]. constructor; [|constructor]. apply typed_shutdown.
    + simplify_eq. exists (gs ++ [Commanded]). split; [|by apply inv_spawn; auto].
      apply Forall2_app; [done|]. constructor; [|constructor]. apply typed_command.
Qed.
End invariant.

(** ** What every interleaving keeps *)

Section promises.
Context (stopFile : string).
Notation log m := (mg_log m).

(** C8: An orderly stop comes after every start of CUBRID.  When a stop has
    seen every operation end, no start of CUBRID is running and none begins
    any more, in whatever order the threads run: every start that is in the
    log began, and ended, before.  So the shutdown that follows is not undone
    by an operation of the manager. *)
Theorem stop_after_every_start m i t j t' args : managed stopFile m ->
  log m !! i = Some (Did t AwaitOps None) -> log m !! j = Some (Did t' (CliBegins (StartsCubrid args)) tt) ->
  exists k out, (j < k < i)%nat /\ log m !! k = Some (Did t' (CliEnds (StartsCubrid args)) out).
Proof.
  intros (gs & _ & I)%managed_inv Hi Hj. apply (inv_ended _ _ _ _ I i t j t' args Hi); [|done].
  destruct (Nat.lt_trichotomy i j) as [Hlt|[->|Hlt]]; [exfalso|exfalso|done].
  - pose proof (inv_order _ _ _ _ I i j _ _ Hlt Hi Hj). done.
  - rewrite Hi in Hj. injection Hj as Hj. done.
Qed.

(** C13: A stop that nobody heard is honoured.  Once the command recorded a
    stop and then found that no manager listens, so that it stops CUBRID
    itself, the manager of that container never starts CUBRID: not before the
    record, and not when it listens later and resumes completed restores. *)
Theorem unheard_stop_starts_nothing m i j t t' : stopFile <> "" -> managed stopFile m ->
  (i < j)%nat -> log m !! i = Some (Did t RecordStop true) -> log m !! j = Some (Did t' Dial NobodyListens) ->
  Forall (fun ev => begins ev = false) (log m).
Proof.
  intros Hf (gs & _ & I)%managed_inv Hij Hi Hj. apply (inv_unheard _ _ _ _ I Hf). by eexists i, j, _, _.
Qed.

(** From the mark of a stop on nothing new is let in.  No operation is
    admitted after it, and a start of CUBRID that begins after it had found,
    as the last thing its thread did, that the member is not stopping before
    the mark was set. *)
Theorem nothing_admitted_after_mark m i t was : managed stopFile m -> log m !! i = Some (Did t MarkStopping was) ->
  (forall j ev, (i < j)%nat -> log m !! j = Some ev -> admits ev = false) /\
  (forall j t' args, (i < j)%nat -> log m !! j = Some (Did t' (CliBegins (StartsCubrid args)) tt) ->
    exists k, (k < i)%nat /\ log m !! k = Some (Did t' ReadStopping false) /\
      forall l ev, (k < l < j)%nat -> log m !! l = Some ev -> threadOf ev <> t').
Proof.
  intros (gs & _ & I)%managed_inv Hi. split.
  - intros j ev Hij Hj. pose proof (inv_order _ _ _ _ I i j _ _ Hij Hi Hj) as Ho. unfold mayFollow in Ho.
    cbn in Ho. bool_simpl. by destruct (admits ev).
  - intros j t' args Hij Hj. destruct (inv_begun _ _ _ _ I j t' args Hj) as (k & Hk & Hlast).
    pose proof (lookup_lt_Some _ _ _ Hk) as Hlen. rewrite length_take in Hlen. rewrite lookup_take_lt in Hk by lia.
    exists k. split_and!; [|done|].
    + destruct (Nat.lt_trichotomy k i) as [?|[->|Hlt]]; [done|exfalso|exfalso].
      * rewrite Hi in Hk. by apply (f_equal (fmap marks)) in Hk.
      * by pose proof (inv_order _ _ _ _ I i k _ _ Hlt Hi Hk).
    + intros l ev Hl He. apply (Hlast l); [lia|]. by rewrite lookup_take_lt by lia.
Qed.

(** The counters are exact.  The [sync.WaitGroup] of the operations never
    falls below zero, so that it does not panic, and the disruptive
    operations, for which the watch accepts that CUBRID is absent, are never
    more than the running ones. *)
Theorem operation_counters_exact m : managed stopFile m ->
  lf_panicked (mg_life m) = false /\ 0 <= lf_disruptive (mg_life m) <= lf_ops (mg_life m).
Proof.
  intros (gs & _ & I)%managed_inv. split; [apply I|]. rewrite (inv_disruptive _ _ _ _ I), (inv_ops _ _ _ _ I).
  split; [apply total_nonneg, counted_nonneg|apply total_le, counted_inside].
Qed.

(** A stop that succeeded is not run a second time: after it no stop waits
    for the operations any more, and so none shuts CUBRID down again. *)
Theorem stop_succeeds_once m i t : managed stopFile m -> log m !! i = Some (Did t SetStopped tt) ->
  forall j ev, (i < j)%nat -> log m !! j = Some ev -> awaits ev = false.
Proof.
  intros (gs & _ & I)%managed_inv Hi j ev Hij Hj. pose proof (inv_order _ _ _ _ I i j _ _ Hij Hi Hj) as Ho.
  unfold mayFollow in Ho. cbn in Ho. bool_simpl. done.
Qed.

Lemma exec_enabled e s : e <> LockStop \/ lf_stopMu s = false -> exists x s', exec e (Fault "" "") s = Some (x, s').
Proof. intros H. destruct e; cbn; repeat case_match; try (by eauto); naive_solver. Qed.

Lemma total_pos f gs : (forall g, f g = 0 \/ f g = 1) -> 0 < total f gs -> exists t g, gs !! t = Some g /\ f g = 1.
Proof.
  intros Hf. induction gs as [|g gs IH]; cbn; [lia|]. intros H. destruct (Hf g) as [E|E]; [|by exists 0%nat, g].
  destruct IH as (t & h & Ht & Hh); [lia|]. by exists (S t), h.
Qed.

(** C21: The programs do not block each other: while a thread has not ended,
    some thread can do its next action.  A stop that waits for another one
    to end its turn is never left waiting by it. *)
Theorem no_deadlock m t e k : managed stopFile m -> mg_threads m !! t = Some (Vis e k) ->
  exists t' c m', transition stopFile (Steps t' c) m = Some m'.
Proof.
  intros (gs & Hty & I)%managed_inv Ht.
  assert (forall t e k, mg_threads m !! t = Some (Vis e k) -> e <> LockStop \/ lf_stopMu (mg_life m) = false ->
    exists t' c m', transition stopFile (Steps t' c) m = Some m') as Hgo.
  { intros t1 e1 k1 Ht1 (x & s' & Hx)%exec_enabled. exists t1, (Fault "" ""). cbn. rewrite Ht1, Hx. by eexists. }
  destruct (lf_stopMu (mg_life m)) eqn:El; [|apply (Hgo t e k); auto].
  destruct (total_pos holding gs) as (t1 & g & Hg & Hh); [intros []; cbn; auto| |].
  { rewrite <- (inv_lock _ _ _ _ I). unfold lockOf. by rewrite El. }
  destruct (Forall2_lookup_l _ _ _ _ _ Hty Hg) as (p & Hp & Hpt). destruct p as [a|e1 k1]; cbn in Hpt.
  - unfold atEnd in Hpt. by destruct g; destruct_or? Hpt.
  - apply (Hgo t1 e1 k1 Hp). left. intros ->. specialize (Hpt tt). by destruct g.
Qed.
End promises.

(** ** A member, stopped *)

Module LifecycleExample.
Definition stopFile : string := "/tmp/instance-manager-stop-requested".
Definition go (t : nat) : Happening := Steps t Fine.

(** A restore is admitted and starts CUBRID; a stop is asked for, waits for it
    and shuts CUBRID down. *)
Definition orderly : list Happening :=
  replicate 6 (go 0) ++ replicate 4 (go 0) ++ [AskedFor true [["heartbeat"; "start"]]] ++ replicate 5 (go 1) ++ [AskedToStop "db"] ++
  replicate 5 (go 2) ++ replicate 3 (go 1) ++ replicate 7 (go 2).
(** The command finds nobody, and the manager listens later. *)
Definition unheardOf : list Happening := [go 0; CommandRun "db"] ++ replicate 4 (go 1) ++ replicate 6 (go 0).
Definition start : Manager := newManager stopFile (Some [["server"; "start"; "db"]]).
Definition orderlyEnd : Manager := default start (runs stopFile orderly start).
Definition unheardEnd : Manager := default start (runs stopFile unheardOf start).

Lemma orderly_managed : managed stopFile orderlyEnd.
Proof. apply (runs_managed stopFile orderly start); [constructor|vm_compute; reflexivity]. Qed.
Lemma unheard_managed : managed stopFile unheardEnd.
Proof. apply (runs_managed stopFile unheardOf start); [constructor|vm_compute; reflexivity]. Qed.
End LifecycleExample.
Import LifecycleExample.

Lemma stop_after_every_start_witness :
  exists k out, (14 < k < 23)%nat /\ mg_log orderlyEnd !! k = Some (Did 1 (CliEnds (StartsCubrid ["heartbeat"; "start"])) out).
Proof.
  apply (stop_after_every_start stopFile orderlyEnd 23 2 14 1 ["heartbeat"; "start"] orderly_managed); vm_compute; reflexivity.
Defined.

Lemma unheard_stop_starts_nothing_witness : Forall (fun ev => begins ev = false) (mg_log unheardEnd).
Proof.
  apply (unheard_stop_starts_nothing stopFile unheardEnd 1 2 1 1); [done|exact unheard_managed|lia|vm_compute; reflexivity..].
Defined.

Lemma nothing_admitted_after_mark_witness :
  mg_log orderlyEnd !! 16%nat = Some (Did 2 MarkStopping false) /\
  forall j ev, (16 < j)%nat -> mg_log orderlyEnd !! j = Some ev -> admits ev = false.
Proof.
  assert (mg_log orderlyEnd !! 16%nat = Some (Did 2 MarkStopping false)) as H by (vm_compute; reflexivity). split; [exact H|].
  exact (proj1 (nothing_admitted_after_mark stopFile orderlyEnd 16 2 false orderly_managed H)).
Defined.

Lemma operation_counters_exact_witness :
  lf_panicked (mg_life orderlyEnd) = false /\ 0 <= lf_disruptive (mg_life orderlyEnd) <= lf_ops (mg_life orderlyEnd).
Proof. exact (operation_counters_exact stopFile orderlyEnd orderly_managed). Defined.

Lemma stop_succeeds_once_witness :
  forall j ev, (28 < j)%nat -> mg_log orderlyEnd !! j = Some ev -> awaits ev = false.
Proof. apply (stop_succeeds_once stopFile orderlyEnd 28 2 orderly_managed). vm_compute. reflexivity. Defined.

(** The first action of a new manager. *)
Lemma no_deadlock_witness : exists t' c m', transition stopFile (Steps t' c) start = Some m'.
Proof.
  eapply (no_deadlock stopFile start 0); [exact (managed_new stopFile _)|reflexivity].
Defined.
