(* ===== verification/Watchdog.v ===== *)
(** * The watch over CUBRID's processes

    [internal/instancemanager/watchdog.go]: the Instance Manager ends itself,
    and with it the container, when a process the member needs stays away.
    A tick of the ticker is the time it carries, the process list as it can be
    read then, and whether the absence of processes is intended. *)
From stdpp Require Import prelude gmap strings list.
From S2P Require Import Prelude.

Record Tick := mkTick {
  tk_now : Time;
  tk_running : option (gset string);
  tk_busy : bool }.

Record Watchdog := mkWatchdog { wd_armed : bool; wd_missingSince : Time }.
Definition zeroWatchdog : Watchdog := mkWatchdog false 0.

Section watch.
Context (required : list string) (grace : Duration).

(** The first required process that does not run; empty when all do. *)
Fixpoint firstMissing (names : list string) (running : gset string) : string :=
  match names with
  | [] => ""
  | name :: names => if negb (bool_decide (name ∈ running)) then name else firstMissing names running
  end.

Definition check (w : Watchdog) (t : Tick) : bool * Watchdog :=
  match tk_running t with
  | None => (false, w)
  | Some running =>
      let missing := firstMissing required running in
      if missing == "" then (false, mkWatchdog true 0)
      else if negb (wd_armed w) then (false, w)
      else if tk_busy t then (false, mkWatchdog (wd_armed w) 0)
      else if IsZero (wd_missingSince w) then (false, mkWatchdog (wd_armed w) (tk_now t))
      else if grace <? Sub (tk_now t) (wd_missingSince w) then (true, w)
      else (false, w)
  end.

(** Run: the state while the watch goes on, or [None] when it has ended with
    [ErrProcessGone]. *)
Fixpoint Run (w : Watchdog) (ticks : list Tick) : option Watchdog :=
  match ticks with
  | [] => Some w
  | t :: rest => let '(gone, w') := check w t in if (gone : bool) then None else Run w' rest
  end.

(** ** What it sees *)

Definition readable (t : Tick) : bool := non_nil (tk_running t).
(** Every required process runs. *)
Definition complete (t : Tick) : bool :=
  match tk_running t with Some running => firstMissing required running == "" | None => false end.
(** One does not, and nobody asked for that. *)
Definition absent (t : Tick) : bool :=
  match tk_running t with Some running => (firstMissing required running != "") && negb (tk_busy t) | None => false end.

Lemma Run_app w l l' : Run w (l ++ l') = Run w l ≫= fun w' => Run w' l'.
Proof. revert w. induction l as [|t l IH]; intros w; [done|]. cbn. destruct (check w t) as [[] w']; [done|apply IH]. Qed.

(** The tick an unbroken absence began with, over the readable ticks. *)
Definition since (l : list Tick) : option Tick :=
  fold_left (fun s t => if absent t then Some (default t s) else None) (filter readable l) None.

Lemma since_snoc l t : since (l ++ [t]) =
  if readable t then if absent t then Some (default t (since l)) else None else since l.
Proof.
  unfold since. rewrite filter_app. cbn [filter list_filter]. destruct (readable t) eqn:E.
  - rewrite decide_True by done. by rewrite fold_left_app.
  - rewrite decide_False by (by intros []). by rewrite app_nil_r.
Qed.

Lemma since_elem l s : since l = Some s -> s ∈ l.
Proof.
  induction l as [|t l IH] using rev_ind; [done|]. rewrite since_snoc, elem_of_app, list_elem_of_singleton.
  destruct (readable t), (absent t); [|done|auto..]. intros [= <-]. destruct (since l); cbn; auto.
Qed.

(** An absence that began with [s]: it has been seen at every tick from then
    on that could be read, and not at the one before. *)
Lemma since_iff l s : since l = Some s <->
  exists a b, filter readable l = a ++ s :: b /\ Forall (fun t => absent t = true) (s :: b) /\
    (forall z, last a = Some z -> absent z = false).
Proof.
  unfold since. generalize (filter readable l). clear l. intros l. revert s. induction l as [|t l IH] using rev_ind; intros s.
  - split; [done|]. intros ([|] & b & H & _); done.
  - rewrite fold_left_app. cbn. set (acc := fold_left _ l None) in *. destruct (absent t) eqn:Et; split.
    + destruct acc as [s'|] eqn:Ea; intros [= <-].
      * destruct (proj1 (IH s') eq_refl) as (a & b & -> & Hb & Hz). exists a, (b ++ [t]). split; [by rewrite <- app_assoc|].
        split; [|done]. inversion Hb; subst. constructor; [done|]. apply Forall_app. split; [done|]. by apply Forall_singleton.
      * exists l, []. split_and!; [done|by apply Forall_singleton|]. intros z Hz. apply not_true_is_false. intros Haz.
        apply last_Some in Hz as [l' ->]. unfold acc in Ea. by rewrite fold_left_app in Ea; cbn in Ea; rewrite Haz in Ea.
    + intros (a & b & Hl & Hb & Hz). destruct b as [|y b _] using rev_ind.
      * apply app_inj_tail in Hl as [-> ->]. f_equal. destruct acc as [s'|] eqn:Ea; [|done].
        exfalso. unfold acc in Ea. destruct a as [|z a _] using rev_ind; [done|].
        rewrite fold_left_app in Ea. cbn in Ea. by rewrite (Hz z (last_snoc _ _)) in Ea.
      * rewrite app_comm_cons, app_assoc in Hl. apply app_inj_tail in Hl as [-> ->].
        rewrite (proj2 (IH s)); [done|]. exists a, b. split_and!; [done| |done].
        inversion Hb as [|? ? Hs Hb']; subst. apply Forall_app in Hb' as [Hb' _]. by constructor.
    + done.
    + intros (a & b & Hl & Hb & Hz). exfalso. destruct b as [|y b _] using rev_ind.
      * apply app_inj_tail in Hl as [_ ->]. apply Forall_cons_1 in Hb as [Hb _]. congruence.
      * rewrite app_comm_cons, app_assoc in Hl. apply app_inj_tail in Hl as [_ ->]. inversion Hb as [|? ? Hs Hb']; subst.
        apply Forall_app in Hb' as [_ [Hb' _]%Forall_cons_1]. congruence.
Qed.

(** The state of a watch that goes on. *)
Lemma Run_state l w : Forall (fun t => IsZero (tk_now t) = false) l -> Run zeroWatchdog l = Some w ->
  wd_armed w = existsb complete l /\ wd_missingSince w = if wd_armed w then from_option tk_now 0 (since l) else 0.
Proof.
  revert w. induction l as [|t l IH] using rev_ind; intros w Hz Hr; [by injection Hr as <-|].
  apply Forall_app in Hz as [Hz [Ht _]%Forall_cons_1]. rewrite Run_app in Hr.
  destruct (Run zeroWatchdog l) as [w0|]; [|done]. specialize (IH w0 Hz eq_refl) as [Ha Hm]. cbn in Hr.
  rewrite existsb_app, since_snoc. cbn [existsb]. rewrite orb_false_r. unfold check in Hr. unfold complete, absent, readable in *.
  destruct (tk_running t) as [running|]; cbn [non_nil is_nil negb]; [|by injection Hr as <-; rewrite orb_false_r].
  destruct (bool_decide (firstMissing required running = "")) eqn:Em; cbn [negb andb] in *.
  { injection Hr as <-. cbn. by rewrite orb_true_r. }
  rewrite orb_false_r, <- Ha. destruct (wd_armed w0) eqn:Earm; cbn [negb] in Hr; [|injection Hr as <-; by rewrite Earm, Hm].
  destruct (tk_busy t); cbn [negb]; [by injection Hr as <-|].
  assert (forall s, since l = Some s -> IsZero (tk_now s) = false) as Hs.
  { intros s Hs%since_elem. by apply (proj1 (Forall_forall _ _) Hz). }
  destruct (since l) as [s|] eqn:Es; cbn in Hm; rewrite Hm in Hr.
  - rewrite (Hs s eq_refl) in Hr. destruct (grace <? _); [done|]. injection Hr as <-. cbn. by rewrite Earm.
  - cbn in Hr. injection Hr as <-. done.
Qed.

(** C24: The watch ends the manager exactly when a process it has seen stays
    away.  After any ticks, the next one ends it if and only if the process
    list can be read, a required process is not running and nobody asked for
    that; every required process was once seen running; and at every tick that
    could be read since one more than the grace period ago the same was seen.
    A list that cannot be read neither ends nor resets the wait. *)
Theorem watchdog_ends_exactly l t w : Forall (fun t => IsZero (tk_now t) = false) l -> Run zeroWatchdog l = Some w ->
  Run w [t] = None <->
  absent t = true /\ existsb complete l = true /\
  exists a s b, filter readable l = a ++ s :: b /\ Forall (fun t => absent t = true) (s :: b) /\
    (forall z, last a = Some z -> absent z = false) /\ grace < Sub (tk_now t) (tk_now s).
Proof.
  intros Hz Hr. destruct (Run_state l w Hz Hr) as [Ha Hm]. rewrite <- Ha.
  assert (forall s, since l = Some s -> IsZero (tk_now s) = false) as Hs.
  { intros s Hs%since_elem. by apply (proj1 (Forall_forall _ _) Hz). }
  transitivity (absent t = true /\ wd_armed w = true /\ exists s, since l = Some s /\ grace < Sub (tk_now t) (tk_now s)).
  - cbn. unfold check, absent. destruct (tk_running t) as [running|]; [|naive_solver].
    destruct (bool_decide (firstMissing required running = "")); cbn [negb andb]; [naive_solver|].
    destruct (wd_armed w); cbn [negb]; [|naive_solver]. destruct (tk_busy t); cbn [negb]; [naive_solver|].
    destruct (since l) as [s|] eqn:Es; cbn in Hm; rewrite Hm; [rewrite (Hs s eq_refl)|].
    + destruct (grace <? _) eqn:Eg; bool_simpl; split; [by eauto|done|done|]. intros (_ & _ & s' & [= <-] & Hg). lia.
    + cbn. naive_solver.
  - setoid_rewrite since_iff. naive_solver.
Qed.
End watch.

Module WatchdogExample.
Definition running (now : Time) (procs : list string) : Tick := mkTick (now * Second) (Some (list_to_set procs)) false.
Definition required : list string := ["cub_master"; "cub_server"].
(** All run; then the server is gone. *)
Definition ticks : list Tick :=
  [running 5 ["cub_master"]; running 10 required; running 15 ["cub_master"]; mkTick (20 * Second) None false; running 25 ["cub_master"]].
End WatchdogExample.
Import WatchdogExample.

Lemma watchdog_ends_exactly_witness :
  Run required (30 * Second) (default zeroWatchdog (Run required (30 * Second) zeroWatchdog ticks)) [running 46 ["cub_master"]] = None.
Proof.
  apply (watchdog_ends_exactly required (30 * Second) ticks (running 46 ["cub_master"])).
  - by repeat constructor.
  - vm_compute. reflexivity.
  - split; [vm_compute; reflexivity|]. split; [vm_compute; reflexivity|].
    exists [running 5 ["cub_master"]; running 10 required], (running 15 ["cub_master"]), [running 25 ["cub_master"]].
    split; [vm_compute; reflexivity|]. split; [repeat constructor; vm_compute; reflexivity|].
    split; [intros z [= <-]; vm_compute; reflexivity|vm_compute; reflexivity].
Defined.
