(* ===== verification/ManagerOps.v ===== *)
(** * What the operations of the Instance Manager share

    Programs that stop at their first error, the answers of the file system
    that the code tells apart, the updates that operations make of their
    records, and the texts of their failures (server.go, operations.go). *)
From stdpp Require Import prelude gmap strings list.
From Stdlib Require Import Ascii String.
From S2P Require Import Prelude GoStr Programs Lifecycle OpStore.

(** An error is its text; the answers that [os.IsNotExist] or [os.IsExist]
    tells apart are constructors of their own. *)
Inductive Looked (A : Type) := Found (a : A) | NotExist | LookFails (err : string).
Arguments Found {A} a.
Arguments NotExist {A}.
Arguments LookFails {A} err.
Inductive Made := MadeNew | AlreadyExists | MakeFails (err : string).

(** ** Programs that can fail *)

Section failing.
Context {Atom : Type} {answer : Atom -> Type}.

(** A step that can fail, and what follows when it did not. *)
Definition trying {E A B} (m : prog answer (E + A)) (k : A -> prog answer (E + B)) : prog answer (E + B) :=
  r ← m; match r with inl err => mret (inl err) | inr x => k x end.
Definition failed {E A} (err : E) : prog answer (E + A) := mret (inl err).
Definition onError {E F A} (f : E -> F) (m : prog answer (E + A)) : prog answer (F + A) :=
  r ← m; mret (match r with inl err => inl (f err) | inr x => inr x end).
(** [fmt.Errorf(text + ": %w", err)]. *)
Definition wrapping {A} (text : string) (m : prog answer (string + A)) : prog answer (string + A) := onError (fun err => text +:+ ": " +:+ err) m.
Definition done_ : prog answer (string + unit) := mret (inr tt).
End failing.
Notation "x ←? m ; k" := (trying m (fun x => k)) (at level 20, m at level 100, k at level 200, right associativity).

(** ** Records *)

(** The updates of a record that the operations make. *)
Definition setState (st : string) (o : Operation) : Operation :=
  mkOperation (op_ID o) (op_Kind o) (op_IdempotencyKey o) (op_RequestHash o) (op_Database o) st (op_FailureReason o)
    (op_Artifact o) (op_Restored o) (op_StagingDir o) (op_CreatedAt o) (op_UpdatedAt o).
Definition setRestored (a : OperationArtifact) (o : Operation) : Operation :=
  mkOperation (op_ID o) (op_Kind o) (op_IdempotencyKey o) (op_RequestHash o) (op_Database o) (op_State o) (op_FailureReason o)
    (op_Artifact o) (Some a) (op_StagingDir o) (op_CreatedAt o) (op_UpdatedAt o).
Definition setCompleted (a : OperationArtifact) (o : Operation) : Operation :=
  mkOperation (op_ID o) (op_Kind o) (op_IdempotencyKey o) (op_RequestHash o) (op_Database o) OpCompleted (op_FailureReason o)
    (Some a) (op_Restored o) (op_StagingDir o) (op_CreatedAt o) (op_UpdatedAt o).

(** ** Texts *)

(** [opsCtx] ends when the member stops. *)
Definition stoppingReason (cancelled : bool) (reason : string) : string :=
  if negb cancelled || Contains reason errStopping then reason else errStopping +:+ ": " +:+ reason.
Definition notRecorded (state err : string) : string :=
  "could not record the state " +:+ state +:+ ", so the operation went no further: " +:+ err.
