(* ===== verification/Ownership.v ===== *)
(** * The data directory of a database

    What the Instance Manager does to the directory of one database: the
    ownership marker and what an earlier operation left (ownership.go), the
    writes that survive a power loss (durable.go), the registration of a
    restore and its undo, the restore and the HA bootstrap with everything
    they record (restore.go, server.go, habootstrap.go), and the start of
    completed restores after a restart.

    Each is a program of atomic actions (Programs.v) on the directory, on
    databases.txt (DatabasesTxt.v) and on the operation store (OpStore.v),
    which is the real one: a store action runs the modelled method.  Every
    action can fail, and the manager can be killed or the node can lose its
    power between any two of them.  A directory whose entries were changed and
    not synced may come back from a power loss as it was at any moment since
    its last sync.  The entrypoint of the image, which starts what carries no
    marker, is part of the restart. *)
From stdpp Require Import prelude gmap strings list.
From Stdlib Require Import Ascii String.
From S2P Require Import Prelude GoStr Programs Lifecycle Api Engine HARole OpStore ManifestURI Paths Manifest HABootstrap Requests RequestSafety Artifact DatabasesTxt ManagerOps.

(** ** The volume *)

(** A directory: the content of its marker file and what it was since the
    directory's entries were last synced; whether it holds a complete database;
    and whether that is data to be kept: it was there without a marker, or
    CUBRID was started on it. *)
Record Folder := mkFolder {
  fo_marker : option string;
  fo_marks : list (option string);
  fo_whole : bool;
  fo_data : bool }.

(** The entries of the database root that matter for this database: its own
    directory, the one a reclaim moved aside, and databases.txt. *)
Record Root := mkRoot { rt_db : option nat; rt_tomb : option nat; rt_txt : option string }.

(** [w_roots] are the entries the root had since it was last synced;
    [w_lost] becomes true when the removal of data to be kept begins. *)
Record World := mkWorld {
  w_store : Store;
  w_folders : list Folder;
  w_root : Root;
  w_roots : list Root;
  w_lost : bool }.

Definition set_store (s : Store) (w : World) : World := mkWorld s (w_folders w) (w_root w) (w_roots w) (w_lost w).
Definition set_root (r : Root) (w : World) : World := mkWorld (w_store w) (w_folders w) r (w_root w :: w_roots w) (w_lost w).
Definition on_folder (f : nat) (g : Folder -> Folder) (w : World) : World :=
  mkWorld (w_store w) (alter g f (w_folders w)) (w_root w) (w_roots w) (w_lost w).
Definition set_marker (m : option string) (f : Folder) : Folder :=
  mkFolder m (fo_marker f :: fo_marks f) (fo_whole f) (fo_data f).
Definition set_synced (f : Folder) : Folder := mkFolder (fo_marker f) [] (fo_whole f) (fo_data f).
Definition set_whole (b : bool) (f : Folder) : Folder := mkFolder (fo_marker f) (fo_marks f) b (fo_data f).
Definition set_started (f : Folder) : Folder := mkFolder (fo_marker f) (fo_marks f) (fo_whole f) (fo_data f || fo_whole f).
Definition with_db (o : option nat) (r : Root) : Root := mkRoot o (rt_tomb r) (rt_txt r).
Definition with_tomb (o : option nat) (r : Root) : Root := mkRoot (rt_db r) o (rt_txt r).
Definition with_txt (o : option string) (r : Root) : Root := mkRoot (rt_db r) (rt_tomb r) o.

(** ** Actions *)

(** heartbeatObservation of cli.go. *)
Record heartbeatObservation := mkObserved { hb_startable : bool; hb_running : bool; hb_Role : string; hb_reason : string }.

Inductive Entry := DbEntry | TombEntry.
Inductive File := MarkerFile | TxtFile.
Inductive Directory := DbDir | RootDir.
Definition dirOf (file : File) : Directory := match file with MarkerFile => DbDir | TxtFile => RootDir end.
(** The commands that write a database. *)
Inductive Command := Createdb (hosts : string) | Restoredb | Restoreslave (master : string).

Inductive Atom :=
  | OpenRoot
  | ReadRoot
  | MkdirRoot
  | Lstat (e : Entry)
  | BeginRemoveAll (e : Entry)
  | EndRemoveAll (e : Entry)
  | ReadFile (file : File)
  | PlaceFile (file : File) (content : string)
  | RemoveEntry (file : File)
  | SyncDir (d : Directory)
  | RenameAside
  | Mkdir
  | MkdirLob
  | StatDatabase
  | StoreGet (id : string)
  | StorePeek (id : string)
  | StoreUpdate (id : string) (mutate : Operation -> Operation)
  | StoreSettle (id : string) (mutate : Operation -> Operation)
  | Cancelled
  | EngineVersion
  | HAHosts
  | Hostname
  | StatStaging
  | RemoveStaging
  | StageArtifact
  | RunCubrid (c : Command)
  | Activate (args : list string)
  | ObserveStartable.

Definition answer (e : Atom) : Type :=
  match e with
  | OpenRoot | ReadRoot => Looked unit
  | MkdirRoot | EndRemoveAll _ | PlaceFile _ _ | SyncDir _ | RenameAside | MkdirLob => string + unit
  | Lstat _ => Looked unit
  | BeginRemoveAll _ => unit
  | ReadFile _ => Looked string
  | RemoveEntry _ => Looked unit
  | Mkdir => Made
  | StatDatabase | Cancelled | StatStaging => bool
  | StoreGet _ | StorePeek _ | StoreUpdate _ _ => StoreErr + Operation
  | StoreSettle _ _ => StoreErr + unit
  | EngineVersion => string
  | HAHosts | Hostname => string + string
  | RemoveStaging => unit
  | StageArtifact => string + BackupManifest
  | RunCubrid _ | Activate _ => option (string * string)
  | ObserveStartable => heartbeatObservation
  end.

(** What the surroundings decide about an action: it is done, it fails, it
    fails after it took effect, or it answers something given here. *)
Inductive Choice :=
  | Fine
  | Fault (err : string)
  | Half (err : string)
  | Text (s : string)
  | Registers (txt : option string)
  | Calls (env : Env) (writes : list WriteOutcome)
  | Sees (hb : heartbeatObservation)
  | Stages (m : BackupManifest).

Definition entry (e : Entry) (r : Root) : option nat := match e with DbEntry => rt_db r | TombEntry => rt_tomb r end.
Definition without (e : Entry) (r : Root) : Root := match e with DbEntry => with_db None r | TombEntry => with_tomb None r end.
Definition emptyRoot (r : Root) : bool := is_nil (rt_db r) && is_nil (rt_tomb r) && is_nil (rt_txt r).
Definition folderAt (e : Entry) (w : World) : option Folder := f ← entry e (w_root w); w_folders w !! f.
Definition here (w : World) : option Folder := folderAt DbEntry w.
(** Changes the directory under the database's name. *)
Definition on_here (g : Folder -> Folder) (w : World) : World :=
  match rt_db (w_root w) with Some f => on_folder f g w | None => w end.

(** A removal goes through the files of a directory in an order of its own:
    the marker is among the first ([markerGone]) or the last of them. *)
Definition beginRemoval (e : Entry) (markerGone : bool) (w : World) : World :=
  match entry e (w_root w) with
  | None => w
  | Some f =>
      let lost := from_option fo_data false (w_folders w !! f) in
      let w := on_folder f (fun d => set_whole false (if markerGone then set_marker None d else d)) w in
      mkWorld (w_store w) (w_folders w) (w_root w) (w_roots w) (w_lost w || lost)
  end.
Definition endRemoval (e : Entry) (w : World) : World :=
  match entry e (w_root w) with None => w | Some _ => set_root (without e (w_root w)) w end.

Section exec.
(** [syncFails]: a directory's sync can report an error. *)
Context (syncFails : bool).

Definition onStore {A} (call : M A) (writes : list WriteOutcome) (w : World) : (StoreErr + A) * World :=
  let '(r, s) := call (set_writes writes (w_store w)) in (r, set_store s w).

Definition exec (e : Atom) (c : Choice) (w : World) : option (answer e * World) :=
  match e return option (answer e * World) with
  | OpenRoot | ReadRoot =>
      match c with
      | Fine => Some (Found tt, w)
      | Fault err => Some (LookFails err, w)
      | _ => if emptyRoot (w_root w) then Some (NotExist, w) else None
      end
  | MkdirRoot => match c with Fine => Some (inr tt, w) | Fault err => Some (inl err, w) | _ => None end
  | Lstat e =>
      match c with
      | Fault err => Some (LookFails err, w)
      | _ => Some (match entry e (w_root w) with Some _ => Found tt | None => NotExist end, w)
      end
  | BeginRemoveAll e => Some (tt, beginRemoval e (match c with Half _ => false | _ => true end) w)
  | EndRemoveAll e => Some (match c with Fault err => (inl err, w) | _ => (inr tt, endRemoval e w) end)
  | ReadFile file =>
      match c with
      | Fault err => Some (LookFails err, w)
      | _ =>
          let content := match file with MarkerFile => here w ≫= fo_marker | TxtFile => rt_txt (w_root w) end in
          Some (match content with Some s => Found s | None => NotExist end, w)
      end
  | PlaceFile file content =>
      match c, file with
      | Fault err, _ => Some (inl err, w)
      | _, TxtFile => Some (inr tt, set_root (with_txt (Some content) (w_root w)) w)
      | _, MarkerFile =>
          Some (if is_nil (here w) then (inl "no such directory", w) else (inr tt, on_here (set_marker (Some content)) w))
      end
  | RemoveEntry file =>
      match c, file with
      | Fault err, _ => Some (LookFails err, w)
      | _, TxtFile =>
          Some (if is_nil (rt_txt (w_root w)) then (NotExist, w) else (Found tt, set_root (with_txt None (w_root w)) w))
      | _, MarkerFile =>
          Some (if is_nil (here w ≫= fo_marker) then (NotExist, w) else (Found tt, on_here (set_marker None) w))
      end
  | SyncDir d =>
      match c, d with
      | Fault err, _ => if syncFails then Some (inl err, w) else None
      | _, RootDir => Some (inr tt, mkWorld (w_store w) (w_folders w) (w_root w) [] (w_lost w))
      | _, DbDir => Some (if is_nil (here w) then (inl "no such directory", w) else (inr tt, on_here set_synced w))
      end
  | RenameAside =>
      match c with
      | Fault err => Some (inl err, w)
      | _ =>
          Some (match rt_db (w_root w), rt_tomb (w_root w) with
                | Some f, None => (inr tt, set_root (mkRoot None (Some f) (rt_txt (w_root w))) w)
                | _, _ => (inl "cannot rename", w)
                end)
      end
  | Mkdir =>
      match c with
      | Fault err => Some (MakeFails err, w)
      | _ =>
          Some (match rt_db (w_root w) with
                | Some _ => (AlreadyExists, w)
                | None =>
                    let w' := mkWorld (w_store w) (w_folders w ++ [mkFolder None [] false false]) (w_root w) (w_roots w) (w_lost w) in
                    (MadeNew, set_root (with_db (Some (List.length (w_folders w))) (w_root w)) w')
                end)
      end
  | MkdirLob => Some (match c with Fault err => (inl err, w) | _ => (inr tt, w) end)
  | StatDatabase => Some (match c with Fault _ => false | _ => non_nil (rt_db (w_root w)) end, w)
  | StoreGet id => match c with Calls env writes => Some (onStore (OpStore.Get env id) writes w) | _ => None end
  | StorePeek id => match c with Calls env writes => Some (onStore (OpStore.Peek env id) writes w) | _ => None end
  | StoreUpdate id mutate => match c with Calls env writes => Some (onStore (OpStore.Update env id mutate) writes w) | _ => None end
  | StoreSettle id mutate => match c with Calls env writes => Some (onStore (OpStore.Settle env id mutate) writes w) | _ => None end
  | Cancelled => Some (match c with Fault _ => true | _ => false end, w)
  | EngineVersion => Some (match c with Text s => s | _ => "" end, w)
  | HAHosts | Hostname => match c with Text s => Some (inr s, w) | Fault err => Some (inl err, w) | _ => None end
  | StatStaging => Some (match c with Fine => false | _ => true end, w)
  | RemoveStaging => Some (tt, w)
  | StageArtifact => match c with Stages m => Some (inr m, w) | Fault err => Some (inl err, w) | _ => None end
  | RunCubrid (Createdb _) =>
      match c with
      | Registers txt => Some (None, on_here (set_whole true) (set_root (with_txt txt (w_root w)) w))
      | Fault err => Some (Some (err, ""), w)
      | Text s => Some (Some ("exit status 1", ""), set_root (with_txt (Some s) (w_root w)) w)
      | _ => None
      end
  | RunCubrid _ =>
      match c with
      | Fault err => Some (Some (err, ""), w)
      | _ => Some (None, on_here (set_whole true) w)
      end
  | Activate _ =>
      match c with
      | Fault err => Some (Some (err, ""), w)
      | Half err => Some (Some (err, ""), on_here set_started w)
      | _ => Some (None, on_here set_started w)
      end
  | ObserveStartable => match c with Sees hb => Some (hb, w) | _ => None end
  end.
End exec.

(** ** Programs *)

Notation Prog := (prog answer).

(** *** durable.go *)

Definition replaceFile (file : File) (content : string) : Prog (string + unit) :=
  _ ←? act (PlaceFile file content);
  act (SyncDir (dirOf file)).

Definition removeFile (file : File) : Prog (string + unit) :=
  removed ← act (RemoveEntry file);
  match removed with
  | LookFails err => failed err
  | NotExist => done_
  | Found _ => act (SyncDir (dirOf file))
  end.

(** [root.RemoveAll]: a removal that a crash can stop partway. *)
Definition RemoveAll (e : Entry) : Prog (string + unit) :=
  _ ← act (BeginRemoveAll e);
  act (EndRemoveAll e).

(** *** The marker *)

Definition entrypointMarker : string := "entrypoint-createdb".

Section database.
(** The database, the root it lies in, the one a standalone member was
    configured to start (empty on an HA member), and the texts of store errors. *)
Context (database : string) (roots : RestoreRoots) (standaloneDB : string).
Context (errText : StoreErr -> string) (quote : string -> string).

Definition target : string := rs_Target roots.
Definition where_ : string := Join [target; database].
Definition notPlain : string := "database name " +:+ quote database +:+ " is not a plain identifier".

Definition markOwned (opID : string) : Prog (string + unit) :=
  if opID == "" then done_
  else
    let text := "mark " +:+ database +:+ " as owned by " +:+ opID in
    _ ←? wrapping text (replaceFile MarkerFile (opID +:+ newline));
    wrapping text (act (SyncDir RootDir)).

Definition clearOwned : Prog (string + unit) :=
  root ← act OpenRoot;
  match root with
  | Found _ => wrapping ("clear the ownership marker of " +:+ database) (removeFile MarkerFile)
  | NotExist => failed "no such directory"
  | LookFails err => failed err
  end.

(** *** databases.txt *)

Definition unregisterDatabaseLocked (removeEmpty : bool) : Prog (string + unit) :=
  data ← act (ReadFile TxtFile);
  match data with
  | NotExist => done_
  | LookFails err => failed ("read databases.txt: " +:+ err)
  | Found content =>
      match unregisterLine content database removeEmpty with
      | TxtUnreadable => failed "read databases.txt: token too long"
      | TxtRemove => wrapping ("unregister " +:+ database +:+ " from databases.txt") (removeFile TxtFile)
      | TxtLeave => done_
      | TxtReplace kept => wrapping ("unregister " +:+ database +:+ " from databases.txt") (replaceFile TxtFile kept)
      end
  end.

Definition readRegistered : Prog (string + bool) :=
  data ← act (ReadFile TxtFile);
  mret (match data with
        | NotExist => inr false
        | LookFails err => inl ("read databases.txt: " +:+ err)
        | Found content =>
            match registeredInDatabasesTxt (Some content) database with
            | Some b => inr b
            | None => inl "read databases.txt: token too long"
            end
        end).

(** *** What an earlier operation left *)

Definition removeTomb : Prog (string + unit) :=
  tomb ← act (Lstat TombEntry);
  match tomb with
  | Found _ => wrapping ("remove " +:+ Join [target; ".reclaim-" +:+ database]) (RemoveAll TombEntry)
  | NotExist => done_
  | LookFails err => failed ("check " +:+ Join [target; ".reclaim-" +:+ database] +:+ ": " +:+ err)
  end.

Definition removeUnfinished : Prog (string + unit) :=
  _ ←? wrapping ("unregister the unfinished " +:+ where_) (unregisterDatabaseLocked false);
  _ ←? wrapping ("move the unfinished " +:+ where_ +:+ " aside") (act RenameAside);
  _ ←? wrapping ("move the unfinished " +:+ where_ +:+ " aside") (act (SyncDir RootDir));
  wrapping ("remove the unfinished " +:+ where_) (RemoveAll TombEntry).

(** The judgement of a marker by the record it names. *)
Definition judgeOwner (id : string) (op : Operation) : Prog (string + unit) :=
  if op_State op == OpCompleted then clearOwned
  else if op_State op == OpFailed then
    if non_nil (op_Restored op)
    then failed (where_ +:+ " holds the data operation " +:+ id +:+ " restored, which may have been started; refusing to remove it")
    else removeUnfinished
  else failed (where_ +:+ " belongs to operation " +:+ id +:+ ", which is " +:+ op_State op +:+ "; refusing to touch it").

Definition reclaimIncomplete : Prog (string + unit) :=
  if negb (MatchString databaseNamePattern database) then failed notPlain
  else
    root ← act OpenRoot;
    match root with
    | NotExist => done_
    | LookFails err => failed ("open the database root: " +:+ err)
    | Found _ =>
        _ ←? removeTomb;
        data ← act (ReadFile MarkerFile);
        match data with
        | NotExist => done_
        | LookFails err => failed ("read the ownership marker of " +:+ database +:+ ": " +:+ err)
        | Found data =>
            let id := TrimSpace data in
            if negb (isValidOperationID id) then failed (where_ +:+ " carries an unreadable ownership marker; refusing to touch it")
            else
              op ← act (StoreGet id);
              match op with
              | inl ErrOperationNotFound =>
                  failed (where_ +:+ " is marked by operation " +:+ id +:+ ", which this manager does not know; refusing to touch it")
              | inl err => failed (errText err)
              | inr op => judgeOwner id op
              end
        end
    end.

(** Whether [previous], a failed restore, left data that [current] takes over. *)
Definition leftRestored (previous current : Operation) : option OperationArtifact :=
  if (op_Kind previous != OpRestore) || (op_State previous != OpFailed) || is_nil (op_Restored previous)
     || (op_RequestHash previous != op_RequestHash current)
  then None else op_Restored previous.

Definition storeGet (id : string) : Prog (string + Operation) := onError errText (act (StoreGet id)).
Definition storeUpdate (id : string) (mutate : Operation -> Operation) : Prog (string + Operation) :=
  onError errText (act (StoreUpdate id mutate)).

Definition takeOver (id : string) (previous : Operation) : Prog (string + option OperationArtifact) :=
  current ←? storeGet id;
  match leftRestored previous current with
  | None => mret (inr None)
  | Some restored =>
      _ ←? storeUpdate id (setRestored restored);
      _ ←? markOwned id;
      mret (inr (Some restored))
  end.

Definition adoptRestored (id : string) : Prog (string + option OperationArtifact) :=
  if negb (MatchString databaseNamePattern database) then failed notPlain
  else
    root ← act OpenRoot;
    match root with
    | NotExist => mret (inr None)
    | LookFails err => failed ("open the database root: " +:+ err)
    | Found _ =>
        data ← act (ReadFile MarkerFile);
        match data with
        | NotExist => mret (inr None)
        | LookFails err => failed ("read the ownership marker of " +:+ database +:+ ": " +:+ err)
        | Found data =>
            previous ← act (StoreGet (TrimSpace data));
            match previous with
            | inl ErrOperationNotFound => mret (inr None)
            | inl err => failed (errText err)
            | inr previous => takeOver id previous
            end
        end
    end.

(** *** The target of a restore *)

Definition undoLocked (existed : bool) : Prog unit :=
  _ ← RemoveAll DbEntry;
  _ ← unregisterDatabaseLocked (negb existed);
  mret tt.

Definition undo (existed : bool) : Prog unit :=
  root ← act OpenRoot;
  match root with Found _ => undoLocked existed | _ => mret tt end.

(** What follows a failure after the directory was made. *)
Definition orRemove (m : Prog (string + unit)) : Prog (string + unit) :=
  r ← m;
  match r with
  | inr _ => done_
  | inl err => _ ← RemoveAll DbEntry; failed err
  end.

Definition makeTarget (owner : string) : Prog (string + unit) :=
  made ← act Mkdir;
  match made with
  | AlreadyExists => failed ("create " +:+ database +:+ " in " +:+ target +:+ ": file exists")
  | MakeFails err => failed ("create " +:+ database +:+ " in " +:+ target +:+ ": " +:+ err)
  | MadeNew =>
      _ ←? orRemove (markOwned owner);
      _ ←? orRemove (wrapping ("create " +:+ database +:+ "/lob in " +:+ target) (act MkdirLob));
      orRemove (act (SyncDir DbDir))
  end.

Definition hostColumn (host : string) : Prog (string + string) :=
  if host == "" then wrapping "host name for databases.txt" (act Hostname) else mret (inr host).

(** Answers whether databases.txt existed before, which the undo needs. *)
Definition registerRestoreTarget (host owner : string) : Prog (string + bool) :=
  if negb (MatchString databaseNamePattern database) then failed notPlain
  else
    host ←? hostColumn host;
    root ← act OpenRoot;
    match root with
    | NotExist => failed ("open " +:+ target +:+ ": no such directory")
    | LookFails err => failed ("open " +:+ target +:+ ": " +:+ err)
    | Found _ =>
        before ← act (ReadFile TxtFile);
        match before with
        | LookFails err => failed ("read databases.txt: " +:+ err)
        | _ =>
            let existed := match before with Found _ => true | _ => false end in
            let before := match before with Found content => content | _ => "" end in
            _ ←? makeTarget owner;
            registered ← replaceFile TxtFile (registerLine before database host where_);
            match registered with
            | inl err => _ ← undoLocked existed; failed ("register " +:+ database +:+ " in databases.txt: " +:+ err)
            | inr _ => mret (inr existed)
            end
        end
    end.

(** *** Restore *)

Definition restoreCommand (req : RestoreRequest) : Command :=
  if rr_SeedFromMaster req != "" then Restoreslave (rr_SeedFromMaster req) else Restoredb.
Definition commandName (c : Command) : string :=
  match c with Createdb _ => "createdb" | Restoredb => "restoredb" | Restoreslave _ => "restoreslave" end.

Definition engineErrText (e : RestoreEngineError) : string :=
  match e with
  | EngineNotKnown engine =>
      "the engine version of this member is not known (" +:+ quote engine +:+ "); a restore needs it to check the artifact (ADR-0011)"
  | EngineNotDeclared engine declared =>
      "this member runs engine " +:+ engine +:+ ", which is not of the declared version " +:+ quote declared
  end.

(** Why a restore failed: an error of its own, or one of [BeforeRestore]. *)
Inductive RestoreFailure := RestoreFailed (err : string) | BeforeFailed (err : string).

(** From the staging on: download, register, restoredb. *)
Definition restoreStaged (req : RestoreRequest) (host owner : string) (beforeRestore : Prog (string + unit))
  : Prog (RestoreFailure + BackupManifest) :=
  manifest ←? onError RestoreFailed (wrapping "artifact verification failed" (act StageArtifact));
  _ ←? onError BeforeFailed beforeRestore;
  existed ←? onError RestoreFailed (registerRestoreTarget host owner);
  out ← act (RunCubrid (restoreCommand req));
  match out with
  | Some (err, out) =>
      _ ← undo existed;
      failed (RestoreFailed (commandName (restoreCommand req) +:+ " failed: " +:+ err +:+ ": " +:+ out))
  | None => mret (inr manifest)
  end.

(** The checks that come before anything is read, written or run; [first] is
    the order in which the map of the directories is gone through. *)
Definition restoreRefused (first : bool) (req : RestoreRequest) (host engine : string) : option string :=
  match validateRestoreRequest quote first req with
  | Some err => Some err
  | None =>
      match confine quote req roots with
      | inl err => Some err
      | inr _ =>
          if (rr_SeedFromMaster req != "") && (host == "")
          then Some ("seedFromMaster " +:+ quote (rr_SeedFromMaster req) +:+ " was given, but this member is not an HA member")
          else engineErrText <$> checkRestoreEngine engine (rr_ExpectedCubridVersion req)
      end
  end.

Definition Restore (first : bool) (req : RestoreRequest) (host owner engine : string) (beforeRestore : Prog (string + unit))
  : Prog (RestoreFailure + OperationArtifact) :=
  match restoreRefused first req host engine with
  | Some err => failed (RestoreFailed err)
  | None =>
      exists_ ← act StatDatabase;
      if (exists_ : bool)
      then failed (RestoreFailed ("target " +:+ target +:+ " already holds database " +:+ quote database
                                  +:+ "; refusing to overwrite (ADR-0008)"))
      else
        registered ←? onError RestoreFailed readRegistered;
        if (registered : bool)
        then failed (RestoreFailed ("database " +:+ quote database +:+ " is already registered in " +:+ Join [target; "databases.txt"]
                                    +:+ "; refusing to overwrite (ADR-0008)"))
        else
          created ← act StatStaging;
          result ← restoreStaged req host owner beforeRestore;
          match result with
          | inl err => _ ← (if (created : bool) then act RemoveStaging else mret tt); failed err
          | inr manifest =>
              _ ← act RemoveStaging;
              mret (inr (mkArtifact (artifactURI (rr_Bucket req) (Join [rr_Prefix req; ManifestObjectName])) "" 0 database
                           (mf_CubridVersion manifest) 0))
          end
  end.

(** *** Starting a restored database *)

Definition startError (hb : heartbeatObservation) : option string :=
  if negb (hb_startable hb) && negb (hb_running hb) then Some (hb_reason hb +:+ "; heartbeat start was not issued")
  else if hb_running hb && (hb_Role hb == RoleUnknown)
  then Some (hb_reason hb +:+ ": heartbeat runs without a confirmed role; heartbeat start was not issued")
  else None.

Definition started (what : string) (args : list string) : Prog (string + unit) :=
  out ← act (Activate args);
  match out with Some (err, out) => failed (what +:+ " start failed: " +:+ err +:+ ": " +:+ out) | None => done_ end.

Definition joinHA (before : Prog (string + unit)) : Prog (string + unit) :=
  hb ← act ObserveStartable;
  match startError hb with
  | Some err => failed err
  | None => if hb_startable hb then _ ←? before; started "heartbeat" ["heartbeat"; "start"] else done_
  end.

Definition startRestoredDatabase (haMember : bool) (before : Prog (string + unit)) : Prog (string + unit) :=
  match validateRestoreDatabase quote standaloneDB database with
  | Some err => failed err
  | None =>
      _ ←? (if standaloneDB != "" then _ ←? before; started "server" ["server"; "start"; database] else done_);
      if negb haMember then done_ else joinHA before
  end.

(** *** The operations *)

Definition fail (id reason : string) : Prog unit :=
  cancelled ← act Cancelled;
  _ ← act (StoreSettle id (set_op_failed (stoppingReason cancelled reason)));
  mret tt.

(** [inl] is the failure reason. *)
Definition recordState (id state : string) : Prog (string + unit) :=
  _ ←? onError (notRecorded state) (storeUpdate id (setState state)); done_.

Definition restoreFailedText (e : RestoreFailure) : string :=
  match e with RestoreFailed err => "restore failed: " +:+ err | BeforeFailed err => err end.

Definition restoreData (first : bool) (id : string) (req : RestoreRequest) (host engine : string) : Prog (string + OperationArtifact) :=
  _ ←? wrapping "restore failed" reclaimIncomplete;
  restored ←? onError restoreFailedText (Restore first req host id engine (recordState id OpRestoring));
  _ ←? wrapping "record the restored database" (storeUpdate id (setRestored restored));
  mret (inr restored).

(** The data of the restore: taken over from a failed attempt of the same
    request, or restored anew. *)
Definition obtainData (first : bool) (id : string) (req : RestoreRequest) (host engine : string) : Prog (string + OperationArtifact) :=
  restored ←? wrapping "restore failed" (adoptRestored id);
  match restored with
  | Some restored =>
      if EngineSeries (oa_CubridVersion restored) != EngineSeries engine
      then failed ("restore refused: the data an earlier attempt restored is of engine " +:+ oa_CubridVersion restored
                   +:+ ", not of the series of this member's engine " +:+ engine +:+ "; it is kept and not started (ADR-0011)")
      else mret (inr restored)
  | None => restoreData first id req host engine
  end.

Definition runRestoreSteps (first : bool) (id : string) (req : RestoreRequest) : Prog (string + OperationArtifact) :=
  engine ← act EngineVersion;
  let haMember := standaloneDB == "" in
  host ←? (if haMember
           then wrapping "restore refused: this member is not standalone and has no usable HA configuration" (act HAHosts)
           else mret (inr ""));
  _ ←? recordState id OpDownloading;
  match checkRestoreEngine engine (rr_ExpectedCubridVersion req) with
  | Some err => failed ("restore refused: " +:+ engineErrText err)
  | None =>
      restored ←? obtainData first id req host engine;
      _ ←? startRestoredDatabase haMember (recordState id OpStarting);
      mret (inr restored)
  end.

Definition runRestore (first : bool) (id : string) (req : RestoreRequest) : Prog unit :=
  result ← runRestoreSteps first id req;
  match result with
  | inl reason => fail id reason
  | inr restored =>
      settled ← act (StoreSettle id (setCompleted restored));
      match settled with
      | inl _ => mret tt
      | inr _ => _ ← clearOwned; mret tt
      end
  end.

(** ResumeCompletedRestores: the pass of its loop over this database's
    directory. *)
Definition resumeDatabase (haErr : string + string) : Prog (string + unit) :=
  if negb (MatchString databaseNamePattern database) then done_
  else
    data ← act (ReadFile MarkerFile);
    match data with
    | Found data =>
        got ← act (StoreGet (TrimSpace data));
        match got with
        | inr op =>
            if (op_Kind op != OpRestore) || (op_State op != OpCompleted) || is_nil (op_Restored op) || (op_Database op != database)
            then done_
            else
              let text := "start " +:+ database +:+ " of completed restore " +:+ op_ID op in
              match haErr with
              | inl err => failed (text +:+ ": the HA configuration is not usable: " +:+ err)
              | inr _ =>
                  _ ←? wrapping text (startRestoredDatabase (standaloneDB == "") done_);
                  clearOwned
              end
        | inl _ => done_
        end
    | _ => done_
    end.

Definition ResumeCompletedRestores : Prog (string + unit) :=
  entries ← act ReadRoot;
  match entries with
  | NotExist => done_
  | LookFails err => failed ("read the database root: " +:+ err)
  | Found _ => haErr ← (if standaloneDB == "" then act HAHosts else mret (inr "")); resumeDatabase haErr
  end.

(** *** The report of an unfinished database *)

(** What is reported of a marker that names the operation [id]. *)
Definition unfinishedOf (id : string) (peeked : StoreErr + Operation) : option UnfinishedDatabase :=
  match peeked with
  | inl ErrOperationNotFound =>
      Some (mkUnfinishedDatabase database id UnfinishedRefused ("the marker names operation " +:+ id +:+ ", which this manager does not know"))
  | inl err =>
      Some (mkUnfinishedDatabase database id UnfinishedRefused
        ("the record of operation " +:+ id +:+ " could not be read, so the database cannot be judged now: " +:+ errText err))
  | inr op =>
      if negb (IsTerminal (op_State op)) then None
      else if op_State op == OpCompleted then
        Some (mkUnfinishedDatabase database id UnfinishedWaiting
          ("operation " +:+ id +:+ " completed and left its marker; the next restore or HA bootstrap of the database clears it"))
      else if (op_State op == OpFailed) && non_nil (op_Restored op) then
        Some (mkUnfinishedDatabase database id UnfinishedRefused
          ("operation " +:+ id +:+ " recorded its data as restored before it failed; only a restore of the same request takes it over, and no operation removes it"))
      else
        Some (mkUnfinishedDatabase database id UnfinishedWaiting
          ("operation " +:+ id +:+ " failed; the next restore or HA bootstrap of the database removes what it left"))
  end.

Definition unfinishedDatabase : Prog (option UnfinishedDatabase) :=
  if negb (MatchString databaseNamePattern database) then mret None
  else
    let refused reason := Some (mkUnfinishedDatabase database "" UnfinishedRefused reason) in
    root ← act OpenRoot;
    match root with
    | NotExist => mret None
    | LookFails err => mret (refused ("the database root could not be opened, so the database cannot be judged now: " +:+ err))
    | Found _ =>
        data ← act (ReadFile MarkerFile);
        match data with
        | NotExist => mret None
        | LookFails err => mret (refused ("the ownership marker could not be read, so the database cannot be judged now: " +:+ err))
        | Found data =>
            let id := TrimSpace data in
            if id == entrypointMarker then
              mret (refused "the image's entrypoint did not complete its createdb; no operation of the Instance Manager removes it")
            else if negb (isValidOperationID id) then
              mret (refused "the ownership marker is unreadable: it names no operation")
            else
              op ← act (StorePeek id);
              mret (unfinishedOf id op)
        end
    end.

(** *** The HA bootstrap *)

Definition createdbFailed (out : string * string) : Prog (string + unit) :=
  registered ← readRegistered;
  _ ← match registered with
      | inr false => RemoveAll DbEntry
      | _ => done_
      end;
  failed ("createdb failed: " +:+ out.1 +:+ ": " +:+ TrimSpace out.2).

Definition createHADatabase (owner : string) : Prog (string + unit) :=
  hosts ←? act HAHosts;
  _ ←? wrapping "create the database root" (act MkdirRoot);
  root ← act OpenRoot;
  match root with
  | NotExist => failed "open the database root: no such directory"
  | LookFails err => failed ("open the database root: " +:+ err)
  | Found _ =>
      made ← act Mkdir;
      match made with
      | AlreadyExists =>
          failed (where_ +:+ " exists although database " +:+ quote database +:+ " is not registered; refusing to create over it")
      | MakeFails err => failed ("create the database directory: " +:+ err)
      | MadeNew =>
          _ ←? orRemove (markOwned owner);
          out ← act (RunCubrid (Createdb hosts));
          match out with
          | Some out => createdbFailed out
          | None => clearOwned
          end
      end
  end.

Definition runHABootstrapSteps (id : string) : Prog (string + unit) :=
  _ ←? reclaimIncomplete;
  registered ←? readRegistered;
  _ ←? (if (registered : bool) then done_ else _ ←? recordState id OpCreating; createHADatabase id);
  joinHA (recordState id OpStarting).

Definition runHABootstrap (id : string) : Prog unit :=
  result ← runHABootstrapSteps id;
  match result with
  | inl reason => fail id reason
  | inr _ => _ ← act (StoreSettle id (setState OpCompleted)); mret tt
  end.
End database.

(** ** The manager over time

    The manager works on the requests for this database one after the other:
    the store admits an operation only when the one before has its end on
    record ([OpStore.store_invariant]).  A crash ends what runs; what was not
    synced is on the disk afterwards, or lost when the power failed, and then
    the directory's entries and the markers are each as they were at some
    moment since their last sync.  The entrypoint starts a directory without a
    marker, or not; the manager then reads its records and resumes completed
    restores. *)
Inductive Loss := NothingLost | PowerLost (root : nat) (marks : list nat).

Definition surviving {A} (current : A) (earlier : list A) (pick : nat) : A := default current ((current :: earlier) !! pick).
Definition folderAfter (loss : Loss) (f : nat) (d : Folder) : Folder :=
  let marker := match loss with
                | NothingLost => fo_marker d
                | PowerLost _ marks => surviving (fo_marker d) (fo_marks d) (default 0%nat (marks !! f))
                end in
  mkFolder marker [] (fo_whole d) (fo_data d).
Definition afterCrash (loss : Loss) (w : World) : World :=
  let root := match loss with NothingLost => w_root w | PowerLost i _ => surviving (w_root w) (w_roots w) i end in
  mkWorld (w_store w) (imap (folderAfter loss) (w_folders w)) root [] (w_lost w).

(** Rule 4 of the entrypoint: what carries the marker is not started. *)
Definition entrypointStarts (w : World) : World := if is_nil (here w ≫= fo_marker) then on_here set_started w else w.

Inductive Request := RestoreOf (first : bool) (req : RestoreRequest) | BootstrapOf.

Inductive Event :=
  | Requested (r : Request) (key hash : string) (env : Env) (writes : list WriteOutcome)
  | Acts (c : Choice)
  | Ends
  | Crashes (loss : Loss) (starts : bool) (env : Env) (writes : list WriteOutcome).

(** [sy_up]: the manager could read its records and takes requests. *)
Record Sys := mkSys { sy_world : World; sy_up : bool; sy_run : option (Prog unit) }.

Section manager.
Context (syncFails : bool) (database : string) (roots : RestoreRoots) (standaloneDB : string).
Context (errText : StoreErr -> string) (quote : string -> string).

(** The checks of restorePrepare and haBootstrap, and what is then run. *)
Definition requestKind (r : Request) : string := match r with RestoreOf _ _ => OpRestore | BootstrapOf => OpHABootstrap end.
Definition requestAccepted (r : Request) (key : string) : bool :=
  (key != "") &&
  match r with
  | RestoreOf first req =>
      (rr_Database req == database) && is_nil (validateRestoreRequest quote first req) &&
      is_nil (validateRestoreDatabase quote standaloneDB database)
  | BootstrapOf => (standaloneDB == "") && MatchString databaseNamePattern database
  end.
Definition runOperation (r : Request) (id : string) : Prog unit :=
  match r with
  | RestoreOf first req => runRestore database roots standaloneDB errText quote first id req
  | BootstrapOf => runHABootstrap database roots errText quote id
  end.

(** The identifiers that newOperationID draws are well formed and do not
    repeat. *)
Definition newIDFresh (env : Env) (s : Store) : bool :=
  match env_newID env with
  | None => true
  | Some id =>
      isValidOperationID id && is_nil (s_disk s !! id) && is_nil (s_unsettled s !! id) && negb (bool_decide (id ∈ s_interrupted s))
  end.

Definition transition (ev : Event) (s : Sys) : option Sys :=
  let w := sy_world s in
  match ev, sy_run s with
  | Requested r key hash env writes, None =>
      if negb (sy_up s && requestAccepted r key && newIDFresh env (w_store w)) then None
      else
        let '(found, w') := onStore (FindOrCreate env (requestKind r) key hash database) writes w in
        Some (mkSys w' true (match found with
                             | inr (op, false) => Some (runOperation r (op_ID op))
                             | _ => None
                             end))
  | Acts c, Some (Vis e k) =>
      match exec syncFails e c w with
      | Some (x, w') => Some (mkSys w' (sy_up s) (Some (k x)))
      | None => None
      end
  | Ends, Some (Ret _) => Some (mkSys w (sy_up s) None)
  | Crashes loss starts env writes, _ =>
      let w := afterCrash loss w in
      let w := if starts then entrypointStarts w else w in
      let '(r, store) := NewOperationStore env (s_disk (w_store w)) writes in
      let up := match r with inr _ => true | inl _ => false end in
      Some (mkSys (set_store store w) up
        (if up then Some (_ ← ResumeCompletedRestores database standaloneDB quote; mret tt) else None))
  | _, _ => None
  end.

Fixpoint runs (events : list Event) (s : Sys) : option Sys :=
  match events with
  | [] => Some s
  | ev :: rest => match transition ev s with Some s' => runs rest s' | None => None end
  end.
End manager.
