(* ===== verification/OwnershipLogic.v ===== *)
(** * Reasoning about the data directory

    The invariant of the data directory (Ownership.v) and the rules for its
    programs: which actions are allowed when, what each does to the directory
    under the database's name and to the records, and what holds between
    operations. *)
From stdpp Require Import prelude gmap strings list.
From Stdlib Require Import Ascii String Lia.
From S2P Require Import Prelude GoStr Programs Lifecycle Api Engine OpStore StoreRecords ManifestURI Paths Manifest HABootstrap Requests RequestSafety Artifact DatabasesTxt ManagerOps Ownership.

(** ** Markers *)

Lemma hex_word c : isHexDigit c = true -> wordByte c = true.
Proof.
  unfold isHexDigit, wordByte, isAlnum, isUpper, isLower, isDigitRune, Utf8.in_range. intros [H|H]%orb_true_iff.
  - rewrite H, !orb_true_r. done.
  - apply andb_true_iff in H as [H1%N.leb_le H2%N.leb_le]. rewrite (proj2 (N.leb_le 97 _)), (proj2 (N.leb_le _ 122)) by lia.
    rewrite !orb_true_r. done.
Qed.

Lemma TrimSpace_id id : isValidOperationID id = true -> TrimSpace (id +:+ newline) = id.
Proof.
  intros Hv. assert (exists l c, list_ascii_of_string id = ("o"%char :: l ++ [c])%list /\ wordByte c = true) as (l & c & Hl & Hc).
  { destruct id as [|c0 id]; [done|]. assert (c0 = "o"%char) as -> by (by destruct c0 as [[] [] [] [] [] [] [] []]).
    destruct id as [|c1 id]; [done|]. assert (c1 = "p"%char) as -> by (by destruct c1 as [[] [] [] [] [] [] [] []]).
    destruct id as [|c2 id]; [done|]. assert (c2 = "-"%char) as -> by (by destruct c2 as [[] [] [] [] [] [] [] []]).
    cbn [isValidOperationID] in Hv. apply andb_true_iff in Hv as [Hlen Hh]. apply bool_decide_eq_true in Hlen.
    destruct (lastChar_nonempty id) as [c Hc]; [by intros ->|].
    pose proof (str_forall_last _ _ _ Hh Hc) as Hx%hex_word. unfold lastChar in Hc. apply last_Some in Hc as [l El].
    exists (["p"; "-"]%char ++ l)%list, c. cbn. by rewrite El. }
  assert (stripOne spaceRunes (list_ascii_of_string id ++ [chNewline]) = None) as Hfront by (rewrite Hl; by apply word_not_space).
  assert (stripOne (@rev ascii <$> spaceRunes) (rev (list_ascii_of_string id)) = None) as Hback.
  { rewrite Hl, app_comm_cons, rev_app_distr. cbn [rev app]. apply stripOne_head.
    assert (forallb (fun r => match r with [] => false | a :: _ => negb (wordByte a) end) (@rev ascii <$> spaceRunes) = true) as H by reflexivity.
    rewrite forallb_Forall_iff in H. eapply Forall_impl; [exact H|]. intros [|a r] Hr; [done|]. intros ->. by rewrite Hc in Hr. }
  unfold TrimSpace. rewrite list_ascii_app. change (list_ascii_of_string newline) with [chNewline].
  rewrite !(trimFront_id _ spaceRunes) by done. rewrite rev_app_distr. change (rev [chNewline]) with [chNewline]. cbn [app].
  rewrite length_app, Nat.add_comm. cbn [List.length Nat.add trimFront].
  change (stripOne (@rev ascii <$> spaceRunes) (chNewline :: ?s)) with (Some s). cbn iota beta.
  rewrite trimFront_id by done. by rewrite rev_involutive, string_of_list_ascii_of_string.
Qed.

(** ** The invariant *)

(** A marker content that lets nothing be removed: it names no operation, or
    one that has recorded its data as restored. *)
Definition harmless (s : Store) (m : option string) : Prop :=
  match m with
  | None => True
  | Some t => isValidOperationID (TrimSpace t) = false \/ lasting s (TrimSpace t)
  end.

(** What a marker may be after a power loss, and the root's entries. *)
Definition markers (d : Folder) : list (option string) := fo_marker d :: fo_marks d.
Definition rootsOf (w : World) : list Root := w_root w :: w_roots w.

(** A directory that was moved aside does not come back to its name. *)
Fixpoint ordered (rs : list Root) : Prop :=
  match rs with
  | [] => True
  | r :: rest => ordered rest /\ forall r' f, r' ∈ r :: rest -> rt_tomb r' = Some f -> rt_db r <> Some f
  end.

Record WInv (w : World) : Prop := {
  wi_store : StoreInv (w_store w);
  wi_lost : w_lost w = false;
  wi_data : forall f d, w_folders w !! f = Some d -> fo_data d = true -> Forall (harmless (w_store w)) (markers d);
  wi_tomb : forall r f d, r ∈ rootsOf w -> rt_tomb r = Some f -> w_folders w !! f = Some d -> fo_data d = false;
  wi_order : ordered (rootsOf w);
  wi_known : forall r e f, r ∈ rootsOf w -> entry e r = Some f -> is_Some (w_folders w !! f) }.

Lemma harmless_advances s s' m : advances s s' -> harmless s m -> harmless s' m.
Proof. intros [_ H]. destruct m as [t|]; [|done]. intros [?|?]; [by left|right; by apply H]. Qed.
Lemma harmless_all s s' l : advances s s' -> Forall (harmless s) l -> Forall (harmless s') l.
Proof. intros Ha H. eapply Forall_impl; [exact H|]. intros m. by apply harmless_advances. Qed.

Lemma set_store_inv s w : WInv w -> advances (w_store w) s -> WInv (set_store s w).
Proof.
  intros [Hs Hl Hd Ht Ho Hk] Ha. split; [by apply Ha|done| |done|done|done]. intros f d Hf Hda. eapply harmless_all; [done|by eapply Hd].
Qed.

Lemma set_root_inv r w : WInv w -> (forall e f, entry e r = Some f -> is_Some (w_folders w !! f)) ->
  (forall f d, rt_tomb r = Some f -> w_folders w !! f = Some d -> fo_data d = false) ->
  (forall r' f, r' ∈ r :: rootsOf w -> rt_tomb r' = Some f -> rt_db r <> Some f) -> WInv (set_root r w).
Proof.
  intros [Hs Hl Hd Ht Ho Hk] Hkn Htr Hor. split; [done|done|done| | |].
  - intros r' f d [->|Hin]%elem_of_cons; [apply Htr|by apply (Ht r')].
  - by split.
  - intros r' e f [->|Hin]%elem_of_cons; [apply Hkn|by apply (Hk r')].
Qed.

Lemma alter_Some {A} (g : A -> A) f (l : list A) f' d : alter g f l !! f' = Some d ->
  (f' = f /\ exists d0, l !! f = Some d0 /\ d = g d0) \/ l !! f' = Some d.
Proof.
  rewrite list_lookup_alter. case_decide as E; [|by right]. subst f'. destruct (l !! f) as [d0|]; [|done]. intros [= <-]. left. eauto.
Qed.

Lemma on_folder_inv f g w : WInv w ->
  (forall d, w_folders w !! f = Some d -> fo_data (g d) = true ->
    Forall (harmless (w_store w)) (markers (g d)) /\ (fo_data d = true \/ forall r, r ∈ rootsOf w -> rt_tomb r <> Some f)) ->
  WInv (on_folder f g w).
Proof.
  intros [Hs Hl Hd Ht Ho Hk] Hg. split; [done|done| | |done|].
  - intros f' d. cbn. intros Hf Hda. apply alter_Some in Hf as [(-> & d0 & Hd0 & ->)|Hf]; [|by eapply Hd].
    by apply (Hg d0).
  - intros r f' d Hin Hr. cbn. intros Hf. apply alter_Some in Hf as [(-> & d0 & Hd0 & ->)|Hf]; [|by eapply Ht].
    destruct (fo_data (g d0)) eqn:E; [|done]. destruct (Hg d0 Hd0 E) as [_ [?|Hno]]; [|by destruct (Hno r Hin)].
    by rewrite (Ht r f d0) in *.
  - intros r e f' Hin He. cbn. rewrite list_lookup_alter. case_decide; [apply fmap_is_Some|]; subst; by eapply Hk.
Qed.

(** ** What may be done *)

(** A directory that may be started: whatever its marker is after a power loss,
    it lets nothing be removed. *)
Definition startable (s : Store) (h : option Folder) : Prop :=
  forall d, h = Some d -> fo_whole d = true -> Forall (harmless s) (markers d).

Definition allowed (e : Atom) (w : World) : Prop :=
  match e with
  | PlaceFile MarkerFile m => forall d, here w = Some d -> fo_data d = true -> harmless (w_store w) (Some m)
  | BeginRemoveAll DbEntry | RenameAside => forall d, here w = Some d -> fo_data d = false
  | Activate _ => startable (w_store w) (here w)
  | StoreUpdate id f => live id (w_store w) /\ progress f
  | StoreSettle _ f => isEnd f
  | _ => True
  end.

Lemma here_Some w f d : rt_db (w_root w) = Some f -> w_folders w !! f = Some d -> here w = Some d.
Proof. intros E Ef. unfold here, folderAt. cbn [entry]. by rewrite E. Qed.
Lemma here_inv w d : here w = Some d -> exists f, rt_db (w_root w) = Some f /\ w_folders w !! f = Some d.
Proof. unfold here, folderAt. cbn [entry]. destruct (rt_db (w_root w)) as [f|]; [|done]. eauto. Qed.

Lemma db_not_tomb w f r : WInv w -> rt_db (w_root w) = Some f -> r ∈ rootsOf w -> rt_tomb r <> Some f.
Proof. intros H Hf Hin Ht. destruct (wi_order _ H) as [_ Ho]. by apply (Ho r f Hin Ht). Qed.

(** A change of the database's own directory. *)
Lemma on_here_inv g w : WInv w ->
  (forall d, here w = Some d -> fo_data (g d) = true -> Forall (harmless (w_store w)) (markers (g d))) -> WInv (on_here g w).
Proof.
  intros Hw Hg. unfold on_here. destruct (rt_db (w_root w)) as [f|] eqn:E; [|done]. apply on_folder_inv; [done|]. intros d Hd Hda.
  split; [apply Hg; [by eapply here_Some|done]|]. right. intros r. by apply db_not_tomb.
Qed.

Lemma txt_inv o w : WInv w -> WInv (set_root (with_txt o (w_root w)) w).
Proof.
  intros Hw. apply set_root_inv; [done|..].
  - intros e f. destruct e; [apply (wi_known _ Hw (w_root w) DbEntry f)|apply (wi_known _ Hw (w_root w) TombEntry f)]; by left.
  - intros f d. apply (wi_tomb _ Hw (w_root w)). by left.
  - intros r' f Hin Ht. cbn [with_txt rt_db]. destruct (wi_order _ Hw) as [_ Ho].
    apply elem_of_cons in Hin as [->|Hin]; [|by apply (Ho r')]. apply (Ho (w_root w)); [by left|done].
Qed.

Lemma without_inv e w : WInv w -> WInv (set_root (without e (w_root w)) w).
Proof.
  intros Hw. apply set_root_inv; [done|..].
  - intros e' f. destruct e, e'; cbn; try done; [apply (wi_known _ Hw (w_root w) TombEntry f)|apply (wi_known _ Hw (w_root w) DbEntry f)]; by left.
  - intros f d. destruct e; cbn; [|done]. apply (wi_tomb _ Hw (w_root w)). by left.
  - intros r' f Hin Ht. destruct e; cbn; [done|]. destruct (wi_order _ Hw) as [_ Ho].
    apply elem_of_cons in Hin as [->|Hin]; [done|by apply (Ho r')].
Qed.

Lemma rename_inv f w : WInv w -> rt_db (w_root w) = Some f -> (forall d, here w = Some d -> fo_data d = false) ->
  WInv (set_root (mkRoot None (Some f) (rt_txt (w_root w))) w).
Proof.
  intros Hw Hf Hd. apply set_root_inv; [done|..].
  - intros e f'. destruct e; cbn; [done|]. intros [= <-]. apply (wi_known _ Hw (w_root w) DbEntry f); [by left|done].
  - intros f' d. cbn. intros [= <-] Hl. apply Hd. by eapply here_Some.
  - intros. done.
Qed.

Lemma mkdir_inv w : WInv w -> rt_db (w_root w) = None ->
  WInv (set_root (with_db (Some (List.length (w_folders w))) (w_root w))
    (mkWorld (w_store w) (w_folders w ++ [mkFolder None [] false false]) (w_root w) (w_roots w) (w_lost w))).
Proof.
  intros Hw Hn. assert (forall f, is_Some (w_folders w !! f) -> is_Some ((w_folders w ++ [mkFolder None [] false false]) !! f)) as Hmore.
  { intros f [d Hd]. exists d. by apply lookup_app_l_Some. }
  assert (forall f d, (w_folders w ++ [mkFolder None [] false false]) !! f = Some d ->
    w_folders w !! f = Some d \/ d = mkFolder None [] false false) as Hold.
  { intros f d [?|[_ Hd]]%lookup_app_Some; [by left|right]. apply list_lookup_singleton_Some in Hd as [_ <-]. done. }
  apply set_root_inv.
  - destruct Hw as [Hs Hl Hd Ht Ho Hk]. split; [done|done| | |done|].
    + intros f d [Hf| ->]%Hold; [by apply (Hd f)|done].
    + intros r f d Hin Hr [Hf| ->]%Hold; [by apply (Ht r f)|done].
    + intros r e f Hin He. apply Hmore. by apply (Hk r e).
  - intros e f. destruct e; cbn [entry with_db rt_db rt_tomb].
    + intros [= <-]. cbn. rewrite lookup_app_r, Nat.sub_diag by done. by eexists.
    + intros Ht. apply Hmore, (wi_known _ Hw (w_root w) TombEntry); [by left|done].
  - intros f d. cbn [with_db rt_tomb]. intros Ht [Hf| ->]%Hold; [|done]. apply (wi_tomb _ Hw (w_root w) f); [by left|done|done].
  - intros r' f Hin Ht. cbn [with_db rt_db]. intros [= <-].
    assert (is_Some (w_folders w !! List.length (w_folders w))) as [d Hd%lookup_lt_Some]; [|lia].
    apply elem_of_cons in Hin as [->|Hin]; [apply (wi_known _ Hw (w_root w) TombEntry); [by left|done]|by apply (wi_known _ Hw r' TombEntry)].
Qed.

Lemma removal_inv e gone w : WInv w -> (e = DbEntry -> forall d, here w = Some d -> fo_data d = false) -> WInv (beginRemoval e gone w).
Proof.
  intros Hw Hd. unfold beginRemoval. destruct (entry e (w_root w)) as [f|] eqn:E; [|done].
  assert (forall d, w_folders w !! f = Some d -> fo_data d = false) as Hf.
  { intros d Hf. destruct e; cbn [entry] in E; [apply Hd; [done|by eapply here_Some]|]. apply (wi_tomb _ Hw (w_root w) f); [by left|done|done]. }
  set (g := fun d => _). assert (WInv (on_folder f g w)) as [Hs Hl Hda Ht Ho Hk].
  { apply on_folder_inv; [done|]. intros d Hfd Hg. exfalso. specialize (Hf d Hfd). by destruct gone; cbn in Hg; congruence. }
  split; [done| |done|done|done|done]. cbn. cbn in Hl. rewrite Hl. destruct (w_folders w !! f) as [d|] eqn:Ef; [|done].
  cbn. by apply Hf.
Qed.

Lemma onStore_eq {A} (call : M A) ws w x w' : onStore call ws w = (x, w') ->
  exists s', call (set_writes ws (w_store w)) = (x, s') /\ w' = set_store s' w.
Proof. unfold onStore. destruct (call _) as [r s']. intros [= <- <-]. eauto. Qed.

Lemma live_writes ws id s : live id s -> live id (set_writes ws s).
Proof. done. Qed.

Lemma did {A B} (p : A * B) x w : Some p = Some (x, w) -> x = p.1 /\ w = p.2.
Proof. by intros [= ->]. Qed.

(** Every allowed action keeps the invariant. *)
Lemma exec_inv e c w x w' : WInv w -> allowed e w -> exec false e c w = Some (x, w') -> WInv w'.
Proof.
  intros Hw Ha H.
  assert (forall ws s', advances (set_writes ws (w_store w)) s' -> WInv (set_store s' w)) as Hst.
  { intros ws s' Hs. apply set_store_inv; [done|]. transitivity (set_writes ws (w_store w)); [apply set_writes_advances|done]. }
  destruct e; cbn [exec] in H.
  all: try (by repeat case_match; simplify_eq).
  - (* BeginRemoveAll *) apply did in H as [_ ->]. apply removal_inv; [done|]. by intros ->.
  - (* EndRemoveAll *) apply did in H as [_ ->].
    assert (WInv (endRemoval e w)) by (unfold endRemoval; destruct (entry e _); [by apply without_inv|done]). by destruct c.
  - (* PlaceFile *)
    assert (file = MarkerFile -> WInv (on_here (set_marker (Some content)) w)) as Hm.
    { intros ->. apply on_here_inv; [done|]. intros d Hd Hda. constructor; [by apply (Ha d)|].
      destruct (here_inv _ _ Hd) as (f & _ & Hf). by apply (wi_data _ Hw f d). }
    pose proof (txt_inv (Some content) w Hw).
    destruct c, file; apply did in H as [_ ->]; try done; destruct (is_nil (here w)); auto.
  - (* RemoveEntry *)
    assert (WInv (on_here (set_marker None) w)) as Hm.
    { apply on_here_inv; [done|]. intros d Hd Hda. constructor; [done|]. destruct (here_inv _ _ Hd) as (f & _ & Hf). by apply (wi_data _ Hw f d). }
    pose proof (txt_inv None w Hw).
    destruct c, file; apply did in H as [_ ->]; try done; case_match; auto.
  - (* SyncDir *)
    assert (WInv (mkWorld (w_store w) (w_folders w) (w_root w) [] (w_lost w))) as Hr.
    { destruct Hw as [Hs Hl Hd Ht Ho Hk]. split; try done; cbn.
      - intros r f d0 [->|?%elem_of_nil]%elem_of_cons; [apply Ht; by left|done].
      - split; [done|]. intros r' f [->|?%elem_of_nil]%elem_of_cons; [|done]. destruct Ho as [_ Ho]. apply Ho. by left.
      - intros r e f [->|?%elem_of_nil]%elem_of_cons; [apply Hk; by left|done]. }
    assert (WInv (on_here set_synced w)) as Hm.
    { apply on_here_inv; [done|]. intros d' Hd Hda. destruct (here_inv _ _ Hd) as (f & _ & Hf).
      pose proof (wi_data _ Hw f d' Hf Hda) as [Hm _]%Forall_cons. by constructor. }
    destruct c, d; try done; apply did in H as [_ ->]; try done; by case_match.
  - (* RenameAside *)
    destruct c; apply did in H as [_ ->]; try done;
      (destruct (rt_db (w_root w)) as [f|] eqn:Ef; [|done]); destruct (rt_tomb (w_root w)); try done; cbn [snd];
      by apply rename_inv.
  - (* Mkdir *) destruct c; apply did in H as [_ ->]; try done; (destruct (rt_db (w_root w)) eqn:Ef; [done|]); cbn [snd];
    by apply mkdir_inv.
  - (* StoreGet *) destruct c; try done. injection H as H. apply onStore_eq in H as (s' & Hc & ->).
    apply Get_ok in Hc as [Hs _]; [|by apply set_writes_inv, Hw]. by eapply Hst.
  - (* StorePeek *) destruct c; try done. injection H as H. apply onStore_eq in H as (s' & Hc & ->). apply Peek_ok in Hc as ->.
    by apply set_store_inv, set_writes_advances.
  - (* StoreUpdate *) destruct c; try done. injection H as H. apply onStore_eq in H as (s' & Hc & ->). destruct Ha as [Hl Hp].
    apply Update_ok in Hc as (Hs & _); [by eapply Hst|by apply set_writes_inv, Hw|done|done].
  - (* StoreSettle *) destruct c; try done. injection H as H. apply onStore_eq in H as (s' & Hc & ->).
    apply Settle_ok in Hc; [by eapply Hst|by apply set_writes_inv, Hw|done].
  - (* RunCubrid *)
    assert (forall w, WInv w -> WInv (on_here (set_whole true) w)) as Hm.
    { intros w0 Hw0. apply on_here_inv; [done|]. intros d Hd Hda. destruct (here_inv _ _ Hd) as (f & _ & Hf). by apply (wi_data _ Hw0 f d). }
    destruct c0, c; try done; apply did in H as [_ ->]; try done; try (by apply Hm); cbn [snd].
    + by apply txt_inv.
    + by apply Hm, txt_inv.
  - (* Activate *)
    assert (WInv (on_here set_started w)) as Hm.
    { apply on_here_inv; [done|]. intros d Hd. cbn [set_started fo_data markers fo_marker fo_marks]. intros [Hda|Hwh]%orb_true_iff.
      - destruct (here_inv _ _ Hd) as (f & _ & Hf). by apply (wi_data _ Hw f d).
      - exact (Ha d Hd Hwh). }
    destruct c; apply did in H as [_ ->]; done.
Qed.

(** ** What an action does to the directory and to the records *)

#[global] Arguments here : simpl never.
#[global] Arguments on_here : simpl never.
#[global] Arguments set_root : simpl never.

Definition effect (e : Atom) (x : answer e) (h h' : option Folder) : Prop :=
  match e return answer e -> Prop with
  | OpenRoot | ReadRoot => fun x => h' = h /\ (x = NotExist -> h = None)
  | SyncDir DbDir => fun x => match x with inr _ => exists d, h = Some d /\ h' = Some (set_synced d) | inl _ => h = None /\ h' = None end
  | PlaceFile MarkerFile m =>
      fun x => match x with inr _ => exists d, h = Some d /\ h' = Some (set_marker (Some m) d) | inl _ => h' = h end
  | RemoveEntry MarkerFile =>
      fun x => match x with
      | Found _ => exists d, h = Some d /\ h' = Some (set_marker None d)
      | NotExist => h' = h /\ h ≫= fo_marker = None
      | LookFails _ => h' = h /\ True
      end
  | ReadFile MarkerFile =>
      fun x => h' = h /\ match x with Found s => h ≫= fo_marker = Some s | NotExist => h ≫= fo_marker = None | LookFails _ => True end
  | Mkdir => fun x => match x with MadeNew => h' = Some (mkFolder None [] false false) | _ => h' = h end
  | BeginRemoveAll DbEntry => fun _ => forall d', h' = Some d' -> fo_whole d' = false
  | EndRemoveAll DbEntry => fun _ => h' = h \/ h' = None
  | RenameAside => fun x => match x with inr _ => h' = None | inl _ => h' = h end
  | RunCubrid _ => fun x => match x with None => h' = set_whole true <$> h | Some _ => h' = h end
  | Activate _ => fun _ => h' = h \/ h' = set_started <$> h
  | _ => fun _ => h' = h
  end x.

Lemma here_on_here g w : here (on_here g w) = g <$> here w.
Proof.
  unfold here, folderAt, on_here. destruct (rt_db (w_root w)) as [f|] eqn:E; cbn [entry]; rewrite ?E; [|done]. cbn.
  by rewrite E; cbn; rewrite list_lookup_alter_eq.
Qed.

Lemma here_removal_tomb gone w : WInv w -> here (beginRemoval TombEntry gone w) = here w.
Proof.
  intros Hw. unfold beginRemoval. destruct (entry TombEntry (w_root w)) as [t|] eqn:Et; [|done]. unfold here, folderAt. cbn.
  destruct (rt_db (w_root w)) as [f|] eqn:E; [|done]. cbn. rewrite list_lookup_alter_ne; [done|]. intros ->.
  apply (db_not_tomb w f (w_root w) Hw E); [by left|done].
Qed.

Lemma here_removal_db gone w d : here (beginRemoval DbEntry gone w) = Some d -> fo_whole d = false.
Proof.
  unfold beginRemoval. cbn [entry]. destruct (rt_db (w_root w)) as [f|] eqn:E.
  - unfold here, folderAt. cbn. rewrite E. cbn. rewrite list_lookup_alter_eq. destruct (w_folders w !! f); [|done]. by intros [= <-].
  - unfold here, folderAt. cbn [entry]. by rewrite E.
Qed.

Lemma here_set_root r w : rt_db r = rt_db (w_root w) -> here (set_root r w) = here w.
Proof. intros E. unfold here, folderAt, set_root. cbn. by rewrite E. Qed.
Lemma here_none r w : rt_db r = None -> here (set_root r w) = None.
Proof. intros E. unfold here, folderAt, set_root. cbn. by rewrite E. Qed.
Lemma empty_here w : emptyRoot (w_root w) = true -> here w = None.
Proof. unfold emptyRoot. intros H. bool_simpl. unfold here, folderAt. cbn [entry]. by destruct (rt_db (w_root w)). Qed.
Lemma here_is_nil w : is_nil (here w) = false -> exists d, here w = Some d.
Proof. destruct (here w) as [d|]; [eauto|done]. Qed.

Lemma exec_effect e c w x w' : WInv w -> exec false e c w = Some (x, w') -> effect e x (here w) (here w').
Proof.
  intros Hw H. destruct e; cbn [exec] in H.
  all: try (by (destruct c; try discriminate H; apply did in H as [-> ->]; cbn; try done)).
  all: try (by (destruct c; try discriminate H; injection H as H; apply onStore_eq in H as (s' & _ & ->))).
  - destruct c; try (by apply did in H as [-> ->]); destruct (emptyRoot (w_root w)) eqn:Ee; try done; apply did in H as [-> ->];
      (split; [done|]); intros _; by apply empty_here.
  - destruct c; try (by apply did in H as [-> ->]); destruct (emptyRoot (w_root w)) eqn:Ee; try done; apply did in H as [-> ->];
      (split; [done|]); intros _; by apply empty_here.
  - apply did in H as [-> ->]. destruct e; cbn; [|by apply here_removal_tomb]. intros d. by apply here_removal_db.
  - apply did in H as [-> ->]. destruct e; [|by destruct c; try done; cbn; unfold endRemoval; destruct (entry _ _);
      rewrite ?here_set_root]. cbn. destruct c; cbn; auto; unfold endRemoval; destruct (entry _ _); auto; by rewrite here_none; auto.
  - destruct file; [|by destruct c; apply did in H as [-> ->]]. destruct c; apply did in H as [-> ->]; cbn; try done;
      destruct (here w ≫= fo_marker); done.
  - destruct file; destruct c; apply did in H as [-> ->]; cbn; try done; try (by rewrite here_set_root);
      (destruct (is_nil (here w)) eqn:E; cbn; [done|]); apply here_is_nil in E as [d Hd]; exists d; by rewrite here_on_here, Hd.
  - destruct file; destruct c; apply did in H as [-> ->]; cbn; try done; try (by destruct (is_nil (rt_txt _)); cbn; rewrite ?here_set_root);
      (destruct (is_nil (here w ≫= fo_marker)) eqn:E; cbn; [by destruct (here w ≫= fo_marker)|]);
      (destruct (here w) as [d|] eqn:Hd; [|done]); exists d; by rewrite here_on_here, Hd.
  - destruct d; destruct c; try done; apply did in H as [-> ->]; cbn; try done;
      (destruct (is_nil (here w)) eqn:E; cbn; [by destruct (here w)|]); apply here_is_nil in E as [d Hd]; exists d; by rewrite here_on_here, Hd.
  - destruct c; apply did in H as [-> ->]; cbn; try done; destruct (rt_db (w_root w)) eqn:Ef; cbn; try done;
      destruct (rt_tomb (w_root w)); cbn; done.
  - destruct c; apply did in H as [-> ->]; cbn; try done; destruct (rt_db (w_root w)) eqn:Ef; cbn; try done;
      unfold here, folderAt, set_root; cbn; by rewrite lookup_app_r, Nat.sub_diag.
  - destruct c0, c; try done; apply did in H as [-> ->]; cbn; try done; rewrite ?here_on_here, ?here_set_root; done.
  - destruct c; apply did in H as [-> ->]; cbn; auto; rewrite here_on_here; auto.
Qed.

Definition recorded (e : Atom) (x : answer e) (s' : Store) : Prop :=
  match e return answer e -> Prop with
  | StoreGet id => fun x => match x with inr op => s_disk s' !! id = Some op | inl _ => True end
  | StoreUpdate id f =>
      fun x => match x with
      | inr _ => isValidOperationID id = true /\ exists now o, s_disk s' !! id = Some (set_op_UpdatedAt now (f o))
      | inl _ => True
      end
  | _ => fun _ => True
  end x.
Definition settlesOwn (e : Atom) : bool := match e with StoreSettle _ _ => true | _ => false end.

Lemma exec_records e c w x w' : WInv w -> allowed e w -> exec false e c w = Some (x, w') ->
  advances (w_store w) (w_store w') /\ recorded e x (w_store w') /\
  (settlesOwn e = false -> forall id, live id (w_store w) -> live id (w_store w')).
Proof.
  intros Hw Ha H. assert (forall ws, StoreInv (set_writes ws (w_store w))) as Hinv by (intros; apply set_writes_inv, Hw).
  assert (forall ws s', advances (set_writes ws (w_store w)) s' -> advances (w_store w) s') as Hadv.
  { intros ws s' ?. transitivity (set_writes ws (w_store w)); [apply set_writes_advances|done]. }
  destruct e; cbn [exec] in H.
  all: try (by (assert (w_store w' = w_store w) as ->; [|by split_and!];
    repeat case_match; try discriminate H; apply did in H as [_ ->]; cbn; unfold on_here, beginRemoval, endRemoval;
    repeat case_match; done)).
  - destruct c; try done. injection H as H. apply onStore_eq in H as (s' & Hc & ->). split_and!.
    + apply Get_ok in Hc as [? _]; [by eapply Hadv|done].
    + destruct x; [done|]. apply Get_ok in Hc as [_ Hr]; [|done]. by apply Hr.
    + intros _ id' Hl. by eapply Get_live.
  - destruct c; try done. injection H as H. apply onStore_eq in H as (s' & Hc & ->). apply Peek_ok in Hc as ->.
    split_and!; [apply set_writes_advances|done|done].
  - destruct c; try done. injection H as H. apply onStore_eq in H as (s' & Hc & ->). destruct Ha as [Hl Hp].
    pose proof (Update_ok _ _ _ _ _ _ Hc (Hinv _) Hl Hp) as (Hs & Hl' & Hr). split_and!; [by eapply Hadv| |].
    + destruct x as [|op]; [done|]. destruct (Hr op eq_refl) as (? & o & ?). split; [done|]. eauto.
    + intros _ id' Hid'. destruct (decide (id' = id)) as [->|Hne]; [done|].
      eapply local_live; [by eapply updateLocked_local; [|apply Hp]|done|done].
  - destruct c; try done. injection H as H. apply onStore_eq in H as (s' & Hc & ->).
    split_and!; [|done|done]. eapply Hadv, Settle_ok; done.
Qed.

(** The rule for an action: it must be allowed, and what follows may rely on
    its effects. *)
Notation safe := (safely (Ownership.exec false) WInv).

Lemma safe_act e (Q : answer e -> World -> Prop) w : WInv w -> allowed e w ->
  (forall x w', WInv w' -> effect e x (here w) (here w') -> advances (w_store w) (w_store w') -> recorded e x (w_store w') ->
    (settlesOwn e = false -> forall id, live id (w_store w) -> live id (w_store w')) -> Q x w') -> safe (act e) Q w.
Proof.
  intros Hw Ha HQ. apply safely_act; [done|]. intros c x w' E. pose proof (exec_inv _ _ _ _ _ Hw Ha E) as Hw'. split; [done|].
  pose proof (exec_records _ _ _ _ _ Hw Ha E) as (Hs & Hr & Hl). pose proof (exec_effect _ _ _ _ _ Hw E). by apply HQ.
Qed.

(** A step that can fail, and one whose error is wrapped. *)
Lemma safe_trying {E A B} (m : Prog (E + A)) (k : A -> Prog (E + B)) Q w :
  safe m (fun r w' => match r with inl err => Q (inl err) w' | inr x => safe (k x) Q w' end) w -> safe (trying m k) Q w.
Proof.
  intros H. unfold trying. apply safely_bind. eapply safely_weaken; [|exact H]. intros [err|x] w' Hw' HQ; [|exact HQ]. by apply safely_ret.
Qed.

Lemma safe_onError {E F A} (f : E -> F) (m : Prog (E + A)) Q w :
  safe m (fun r w' => Q (match r with inl err => inl (f err) | inr x => inr x end) w') w -> safe (onError f m) Q w.
Proof. intros H. unfold onError. apply safely_bind. eapply safely_weaken; [|exact H]. intros r w' Hw' HQ. by apply safely_ret. Qed.

Create HintDb ownership.

(** ** Moments between operations *)

(** A complete database without a marker: whatever the marker was, it lets
    nothing be removed when it comes back. *)
Definition quiet (w : World) : Prop := forall d, here w = Some d -> fo_whole d = true -> fo_marker d = None ->
  Forall (harmless (w_store w)) (fo_marks d).
Definition unmarked (w : World) : Prop := here w ≫= fo_marker = None.
Definition half (w : World) : Prop := forall d, here w = Some d -> fo_whole d = false.
Definition noData (w : World) : Prop := forall d, here w = Some d -> fo_data d = false.

(** The records only advance, and who runs goes on running. *)
Definition after (w w' : World) : Prop :=
  advances (w_store w) (w_store w') /\ forall id, live id (w_store w) -> live id (w_store w').
Definition unmoved (w w' : World) : Prop := after w w' /\ here w' = here w.

#[global] Instance after_refl : Reflexive after.
Proof. by split. Qed.
#[global] Instance after_trans : Transitive after.
Proof. intros w1 w2 w3 [? ?] [? ?]. split; [by etransitivity|auto]. Qed.
#[global] Instance unmoved_refl : Reflexive unmoved.
Proof. by split. Qed.
#[global] Instance unmoved_trans : Transitive unmoved.
Proof. intros w1 w2 w3 [? ?] [? ?]. split; [by transitivity w2|congruence]. Qed.

Lemma quiet_unmoved w w' : quiet w -> unmoved w w' -> quiet w'.
Proof. intros Hq [[Ha _] E] d. rewrite E. intros Hd Hw Hm. eapply harmless_all; [done|by apply Hq]. Qed.
Lemma startable_unmoved w w' : startable (w_store w) (here w) -> unmoved w w' -> startable (w_store w') (here w').
Proof. intros Hq [[Ha _] E] d. rewrite E. intros Hd Hw. eapply harmless_all; [done|by apply Hq]. Qed.
Lemma half_quiet w : half w -> quiet w.
Proof. intros H d Hd Hw. by rewrite H in Hw. Qed.
Lemma marked_quiet w d t : here w = Some d -> fo_marker d = Some t -> quiet w.
Proof. intros E Em d'. rewrite E. intros [= <-]. congruence. Qed.
Lemma none_quiet w : here w = None -> quiet w.
Proof. intros E d. by rewrite E. Qed.
Lemma quiet_startable w : quiet w -> unmarked w -> startable (w_store w) (here w).
Proof.
  intros Hq Hu d Hd Hw. unfold unmarked in Hu. rewrite Hd in Hu. cbn in Hu. unfold markers. rewrite Hu. constructor; [done|]. by apply Hq.
Qed.
Lemma unmarked_unmoved w w' : unmarked w -> unmoved w w' -> unmarked w'.
Proof. unfold unmarked. by intros H [_ ->]. Qed.
Lemma noData_unmoved w w' : noData w -> unmoved w w' -> noData w'.
Proof. unfold noData. by intros H [_ ->]. Qed.
#[export] Hint Resolve half_quiet none_quiet quiet_unmoved startable_unmoved unmarked_unmoved noData_unmoved : ownership.

(** Actions that leave the directory where it is. *)
Definition still (e : Atom) : bool :=
  match e with
  | SyncDir DbDir | PlaceFile MarkerFile _ | RemoveEntry MarkerFile | Mkdir | BeginRemoveAll DbEntry | EndRemoveAll DbEntry
  | RenameAside | RunCubrid _ | Activate _ | StoreSettle _ _ => false
  | _ => true
  end.
Lemma still_effect e x h h' : still e = true -> effect e x h h' -> h' = h.
Proof.
  intros Hs. destruct e; try discriminate Hs; try destruct e; try destruct file; try destruct d; try discriminate Hs; cbn; try done;
    by intros [? _].
Qed.

Lemma safe_still e (Q : answer e -> World -> Prop) w : WInv w -> still e = true -> allowed e w ->
  (forall x w', WInv w' -> unmoved w w' -> effect e x (here w) (here w') -> recorded e x (w_store w') -> Q x w') -> safe (act e) Q w.
Proof.
  intros Hw Hs Ha HQ. apply safe_act; [done|done|]. intros x w' Hw' He Hadv Hr Hl. apply HQ; try done.
  split; [split; [done|]|by eapply still_effect]. apply Hl. by destruct e.
Qed.

Lemma safe_moving e (Q : answer e -> World -> Prop) w : WInv w -> settlesOwn e = false -> allowed e w ->
  (forall x w', WInv w' -> after w w' -> effect e x (here w) (here w') -> recorded e x (w_store w') -> Q x w') -> safe (act e) Q w.
Proof. intros Hw Hs Ha HQ. apply safe_act; [done|done|]. intros x w' Hw' He Hadv Hr Hl. apply HQ; try done. by split; [|apply Hl]. Qed.

Ltac sstep := first [apply safe_trying|apply safe_onError|apply safely_bind].
Ltac sret := apply safely_ret; [done|].
(** Does the next action, which leaves the directory where it is. *)
Tactic Notation "sstill" simple_intropattern(x) ident(w1) ident(Hw1) ident(Hu) :=
  apply safe_still; [done|reflexivity|try exact I|intros x w1 Hw1 Hu; cbn [effect recorded]].
(** Does the next action. *)
Tactic Notation "sact" simple_intropattern(x) ident(w1) ident(Hw1) ident(Ha) simple_intropattern(He) :=
  apply safe_moving; [done|reflexivity|try done|intros x w1 Hw1 Ha He _; cbn [effect] in He].

Lemma safe_weaken {A} (p : Prog A) (Q Q' : A -> World -> Prop) w :
  safe p Q w -> (forall a w, WInv w -> Q a w -> Q' a w) -> safe p Q' w.
Proof. intros H HQ. by eapply safely_weaken. Qed.
(** Uses what is known of a part of the program. *)
Tactic Notation "suse" constr(H) "as" simple_intropattern(a) ident(w1) ident(Hw1) simple_intropattern(HQ) :=
  eapply safe_weaken; [eapply H; eauto with ownership|cbv beta; intros a w1 Hw1 HQ].
