(* ===== verification/OwnershipSafety.v ===== *)
(** * No data is removed

    The theorems on the data directory of a database (Ownership.v): over every
    sequence of requests, failures, crashes and power losses the manager never
    removes data that CUBRID was started on or that is someone else's. *)
From stdpp Require Import prelude gmap strings list.
From Stdlib Require Import Ascii String Lia.
From S2P Require Import Prelude GoStr Programs Lifecycle Api Engine OpStore StoreRecords ManifestURI Paths Manifest HABootstrap Requests RequestSafety Artifact DatabasesTxt ManagerOps Ownership OwnershipLogic.

(** ** Writes and removals *)

Lemma removeTxt_safe w : WInv w -> safe (removeFile TxtFile) (fun _ w' => unmoved w w') w.
Proof.
  intros Hw. unfold removeFile. sstep. sstill x w1 Hw1 Hu1. intros _ _. destruct x as [u| |err]; [|by sret|by sret].
  sstill y w2 Hw2 Hu2. intros _ _. by transitivity w1.
Qed.

Lemma replaceTxt_safe content w : WInv w -> safe (replaceFile TxtFile content) (fun _ w' => unmoved w w') w.
Proof.
  intros Hw. unfold replaceFile. sstep. sstill x w1 Hw1 Hu1. intros _ _. destruct x as [err|u]; [done|].
  sstill y w2 Hw2 Hu2. intros _ _. by transitivity w1.
Qed.

Lemma removeMarker_safe w : WInv w -> quiet w -> safe (removeFile MarkerFile)
  (fun r w' => after w w' /\ quiet w' /\ match r with inr _ => unmarked w' | inl _ => True end) w.
Proof.
  intros Hw Hq. unfold removeFile. sstep. sact x w1 Hw1 Ha1 He. destruct x as [u| |err].
  - destruct He as (d & Hd & Hd1). sact y w2 Hw2 Ha2 He2. assert (after w w2) by by transitivity w1.
    destruct y as [err|u']; [destruct He2; congruence|]. destruct He2 as (d' & Hd' & Hd2). rewrite Hd1 in Hd'. injection Hd' as <-.
    split_and!; [done| |unfold unmarked; by rewrite Hd2]. intros d2. rewrite Hd2. intros [= <-] _ _. constructor.
  - destruct He as [E Hm]. sret. split_and!; [done|eapply quiet_unmoved; [done|by split]|]. unfold unmarked. by rewrite E.
  - destruct He as [E _]. sret. split_and!; [done|eapply quiet_unmoved; [done|by split]|done].
Qed.

Lemma RemoveAll_tomb_safe w : WInv w -> safe (RemoveAll TombEntry) (fun _ w' => unmoved w w') w.
Proof. intros Hw. unfold RemoveAll. sstep. sstill x w1 Hw1 Hu1. intros _ _. sstill y w2 Hw2 Hu2. intros _ _. by transitivity w1. Qed.

(** The removal of a directory without data leaves nothing complete. *)
Lemma RemoveAll_db_safe w : WInv w -> noData w -> safe (RemoveAll DbEntry) (fun _ w' => after w w' /\ half w') w.
Proof.
  intros Hw Hn. unfold RemoveAll. sstep. sact x w1 Hw1 Ha1 He1. sact y w2 Hw2 Ha2 He2. split; [by transitivity w1|].
  intros d Hd. destruct He2 as [E|E]; rewrite E in Hd; [by apply He1|done].
Qed.

Section programs.
Context (database : string) (roots : RestoreRoots) (standaloneDB : string).
Context (errText : StoreErr -> string) (quote : string -> string).

Lemma clearOwned_safe w : WInv w -> quiet w -> safe (clearOwned database)
  (fun r w' => after w w' /\ quiet w' /\ match r with inr _ => unmarked w' | inl _ => True end) w.
Proof.
  intros Hw Hq. unfold clearOwned. sstep. sstill x w1 Hw1 Hu1. intros _ _.
  destruct x as [u| |err]; [|sret; split_and!; eauto with ownership; by destruct Hu1..].
  sstep. suse removeMarker_safe as r w2 Hw2 (Ha & Hq' & Hm). split_and!; [transitivity w1; [apply Hu1|done]|done|by destruct r].
Qed.

Lemma unregister_safe removeEmpty w : WInv w -> safe (unregisterDatabaseLocked database removeEmpty) (fun _ w' => unmoved w w') w.
Proof.
  intros Hw. unfold unregisterDatabaseLocked. sstep. sstill x w1 Hw1 Hu1. intros _ _. destruct x as [content| |err]; [|by sret|by sret].
  destruct (unregisterLine content database removeEmpty); try (by sret); sstep;
    [suse removeTxt_safe as r w2 Hw2 Hu2|suse replaceTxt_safe as r w2 Hw2 Hu2]; by transitivity w1.
Qed.

Lemma readRegistered_safe w : WInv w -> safe (readRegistered database) (fun _ w' => unmoved w w') w.
Proof. intros Hw. unfold readRegistered. sstep. sstill x w1 Hw1 Hu1. intros _ _. by sret. Qed.

Lemma removeTomb_safe w : WInv w -> safe (removeTomb database roots) (fun _ w' => unmoved w w') w.
Proof.
  intros Hw. unfold removeTomb. sstep. sstill x w1 Hw1 Hu1. intros _ _. destruct x as [u| |err]; [|by sret|by sret].
  sstep. suse RemoveAll_tomb_safe as r w2 Hw2 Hu2. by transitivity w1.
Qed.

(** ** What an earlier operation left *)

Lemma removeUnfinished_safe w : WInv w -> noData w -> safe (removeUnfinished database roots)
  (fun r w' => after w w' /\ (here w' = here w \/ here w' = None) /\ match r with inr _ => here w' = None | inl _ => True end) w.
Proof.
  intros Hw Hn. unfold removeUnfinished. sstep. sstep. suse unregister_safe as r1 w1 Hw1 Hu1.
  destruct r1 as [err|u]; [destruct Hu1; auto|]. assert (noData w1) as Hn1 by eauto with ownership. destruct Hu1 as [Ha1 E1].
  sstep. sstep. sact r2 w2 Hw2 Ha2 He2. assert (after w w2) as Hw2a by by transitivity w1.
  destruct r2 as [err|u']; [rewrite He2, E1; auto|].
  sstep. sstep. sstill r3 w3 Hw3 Hu3. intros _ _. destruct Hu3 as [Ha3 E3]. assert (after w w3) as Hw3a by by transitivity w2.
  destruct r3 as [err|u'']; [rewrite E3, He2; auto|].
  sstep. suse RemoveAll_tomb_safe as r4 w4 Hw4 [Ha4 E4].
  split_and!; [by transitivity w3|right; congruence|destruct r4; [done|congruence]].
Qed.

(** Data to be kept does not carry the marker of an operation that failed
    before it restored. *)
Lemma doomed_noData w t op : WInv w -> here w ≫= fo_marker = Some t -> isValidOperationID (TrimSpace t) = true ->
  s_disk (w_store w) !! TrimSpace t = Some op -> op_Restored op = None -> noData w.
Proof.
  intros Hw Hm Hv Ho Hr d Hd. destruct (fo_data d) eqn:E; [|done]. rewrite Hd in Hm. cbn in Hm.
  destruct (here_inv _ _ Hd) as (f & _ & Hf). pose proof (wi_data _ Hw f d Hf E) as [Hh _]%Forall_cons. rewrite Hm in Hh.
  destruct Hh as [?|(o & Ho' & ?)]; congruence.
Qed.

Lemma judgeOwner_safe t op w : WInv w -> quiet w -> here w ≫= fo_marker = Some t -> isValidOperationID (TrimSpace t) = true ->
  s_disk (w_store w) !! TrimSpace t = Some op -> safe (judgeOwner database roots (TrimSpace t) op)
  (fun r w' => after w w' /\ quiet w' /\ match r with inr _ => unmarked w' | inl _ => True end) w.
Proof.
  intros Hw Hq Hm Hv Ho. unfold judgeOwner. case_bool_decide; [by apply clearOwned_safe|].
  case_bool_decide; [|by sret]. destruct (op_Restored op) as [a|] eqn:Er; cbn [non_nil is_nil negb]; [by sret|].
  suse removeUnfinished_safe as r w1 Hw1 (Ha & Hh & Hr); [by eapply doomed_noData|]. split_and!; [done| |].
  - destruct Hh as [E|E]; [|auto with ownership]. eapply quiet_unmoved; [done|by split].
  - destruct r; [done|]. unfold unmarked. by rewrite Hr.
Qed.

Lemma reclaimIncomplete_safe w : WInv w -> quiet w -> safe (reclaimIncomplete database roots errText quote)
  (fun r w' => after w w' /\ quiet w' /\ match r with inr _ => unmarked w' | inl _ => True end) w.
Proof.
  intros Hw Hq. unfold reclaimIncomplete. destruct (negb _); [by sret|]. sstep. sstill x w1 Hw1 Hu1. intros [E He] _.
  destruct x as [u| |err]; [|sret; split_and!; [by apply Hu1|by eauto with ownership|unfold unmarked; by rewrite E, He by done]|sret; split_and!; [by apply Hu1|by eauto with ownership|done]].
  sstep. suse removeTomb_safe as r2 w2 Hw2 Hu2. assert (unmoved w w2) as Hu by by transitivity w1.
  destruct r2 as [err|u']; [split_and!; [by apply Hu|by eauto with ownership|done]|].
  sstep. sstill x w3 Hw3 Hu3. intros [E3 Hm] _. assert (unmoved w w3) as Hv by by transitivity w2. rewrite <- E3 in Hm.
  destruct x as [data| |err]; [|sret; split_and!; [by apply Hv|by eauto with ownership|done]..].
  destruct (isValidOperationID (TrimSpace data)) eqn:Ev; cbn [negb]; [|sret; split_and!; [by apply Hv|by eauto with ownership|done]].
  sstep. sstill x w4 Hw4 Hu4. intros E4 Hget. assert (unmoved w w4) as Hx by by transitivity w3.
  destruct x as [err|op]; [destruct err; sret; (split_and!; [by apply Hx|by eauto with ownership|done])|].
  suse judgeOwner_safe as r w5 Hw5 (Ha5 & Hq5 & Hr5); [by rewrite E4|]. split_and!; [transitivity w4; [apply Hx|done]|done|done].
Qed.

(** ** Marking *)

Definition owner (id : string) : option string := Some (id +:+ newline).

Lemma owner_harmless id s : isValidOperationID id = true -> lasting s id -> harmless s (owner id).
Proof. intros Hv Hl. right. by rewrite TrimSpace_id. Qed.

(** The marker of [id] is in the directory and durable, and nothing else of it
    changed; or it is there without being durable, or not there. *)
Definition marked (id : string) (w : World) (w' : World) : Prop :=
  exists d, here w = Some d /\ here w' = Some (mkFolder (owner id) [] (fo_whole d) (fo_data d)).
Definition maybeMarked (id : string) (w : World) (w' : World) : Prop :=
  here w' = here w \/ exists d ms, here w = Some d /\ here w' = Some (mkFolder (owner id) ms (fo_whole d) (fo_data d)).

Lemma maybeMarked_quiet id w w' : quiet w -> after w w' -> maybeMarked id w w' -> quiet w'.
Proof. intros Hq Ha [E|(d & ms & _ & E)]; [eapply quiet_unmoved; [done|by split]|by eapply marked_quiet]. Qed.

Lemma markOwned_safe id w : WInv w -> isValidOperationID id = true -> (noData w \/ lasting (w_store w) id) ->
  safe (markOwned database id)
    (fun r w' => after w w' /\ match r with inr _ => marked id w w' | inl _ => maybeMarked id w w' end) w.
Proof.
  intros Hw Hv Hd. unfold markOwned. rewrite bool_decide_eq_false_2 by (by intros ->).
  sstep. sstep. unfold replaceFile. sstep. sact r1 w1 Hw1 Ha1 He1.
  { intros d Hh Hda. destruct Hd as [Hn|Hl]; [by rewrite Hn in Hda|]. by apply owner_harmless. }
  destruct r1 as [err|u]; [split; [done|by left]|]. destruct He1 as (d & Hh & E1).
  sact r2 w2 Hw2 Ha2 He2. destruct r2 as [err|u2]; [destruct He2; congruence|]. destruct He2 as (d1 & Hh1 & E2).
  rewrite E1 in Hh1. injection Hh1 as <-. assert (after w w2) as Haft by by transitivity w1.
  sstep. sstill r3 w3 Hw3 Hu3. intros _ _. destruct Hu3 as [Ha3 E3]. split; [by transitivity w2|].
  destruct r3 as [err|u3]; [right; exists d, []|exists d]; (split; [done|]); by rewrite E3, E2.
Qed.

(** Data that an operation has on record as restored, under its marker. *)
Definition owned (id : string) (w : World) : Prop :=
  lasting (w_store w) id /\ exists d, here w = Some d /\ fo_marker d = owner id /\ fo_marks d = [].

Lemma owned_quiet id w : owned id w -> quiet w.
Proof. intros (_ & d & Hd & Hm & _). by eapply marked_quiet. Qed.
Lemma owned_startable id w : isValidOperationID id = true -> owned id w -> startable (w_store w) (here w).
Proof.
  intros Hv (Hl & d & Hd & Hm & Hms) d'. rewrite Hd. intros [= <-] _. unfold markers. rewrite Hm, Hms.
  constructor; [by apply owner_harmless|constructor].
Qed.
Lemma owned_unmoved id w w' : owned id w -> unmoved w w' -> owned id w'.
Proof. intros [Hl Hd] [[[_ Ha] _] E]. split; [by apply Ha|by rewrite E]. Qed.
#[local] Hint Resolve owned_quiet owned_unmoved : ownership.

Lemma storeGet_safe id w : WInv w -> safe (storeGet errText id) (fun _ w' => unmoved w w') w.
Proof. intros Hw. unfold storeGet. sstep. sstill x w1 Hw1 Hu1. done. Qed.

Lemma storeUpdate_safe id f w : WInv w -> live id (w_store w) -> progress f -> safe (storeUpdate errText id f)
  (fun r w' => unmoved w w' /\ match r with
    | inr _ => isValidOperationID id = true /\ exists now o, s_disk (w_store w') !! id = Some (set_op_UpdatedAt now (f o))
    | inl _ => True end) w.
Proof.
  intros Hw Hl Hp. unfold storeUpdate. sstep. apply safe_still; [done|done|done|]. intros x w1 Hw1 Hu1 _ Hr. split; [done|]. by destruct x.
Qed.

Lemma setState_progress st : IsTerminal st = false -> progress (setState st).
Proof. intros Hs. split; [intros o; by split_and!|]. intros o. split; [|done]. unfold ended. cbn. congruence. Qed.
Lemma setRestored_progress a : progress (setRestored a).
Proof. split; [intros o; by split_and!|]. intros o. by split. Qed.

Lemma recordState_safe id st w : WInv w -> live id (w_store w) -> IsTerminal st = false ->
  safe (recordState errText id st) (fun _ w' => unmoved w w') w.
Proof.
  intros Hw Hl Hs. unfold recordState. sstep. sstep. suse storeUpdate_safe as r w1 Hw1 [Hu1 _]; [by apply setState_progress|].
  destruct r; [done|]. by sret.
Qed.

Lemma recordRestored_safe id a w : WInv w -> live id (w_store w) -> safe (storeUpdate errText id (setRestored a))
  (fun r w' => unmoved w w' /\ match r with inr _ => isValidOperationID id = true /\ lasting (w_store w') id | inl _ => True end) w.
Proof.
  intros Hw Hl. suse storeUpdate_safe as r w1 Hw1 [Hu1 Hr]; [apply setRestored_progress|]. split; [done|].
  destruct r as [err|op]; [done|]. destruct Hr as (? & now & o & Ho). split; [done|]. eexists. by split.
Qed.

Lemma takeOver_safe id previous w : WInv w -> quiet w -> live id (w_store w) -> is_Some (here w) ->
  safe (takeOver database errText id previous)
    (fun r w' => after w w' /\ match r with inr (Some _) => isValidOperationID id = true /\ owned id w' | _ => quiet w' end) w.
Proof.
  intros Hw Hq Hl Hh. unfold takeOver. sstep. suse storeGet_safe as r1 w1 Hw1 Hu1. destruct r1 as [err|current].
  { split; [apply Hu1|eauto with ownership]. }
  destruct (leftRestored previous current) as [restored|]; [|sret; split; [apply Hu1|eauto with ownership]].
  assert (live id (w_store w1)) as Hl1 by (by apply Hu1). sstep. suse recordRestored_safe as r2 w2 Hw2 [Hu2 Hr2].
  assert (unmoved w w2) as Hu by by transitivity w1. destruct r2 as [err|op]; [split; [apply Hu|eauto with ownership]|].
  destruct Hr2 as [Hv Hla]. sstep. suse markOwned_safe as r3 w3 Hw3 [Ha3 Hm3].
  assert (after w w3) as Haft by (transitivity w2; [apply Hu|done]).
  destruct r3 as [err|u]; [split; [done|]; apply (maybeMarked_quiet id w2); eauto with ownership|]. sret. split_and!; [done|done|].
  destruct Hm3 as (d & _ & E). split; [by apply Ha3|]. by eexists.
Qed.

Lemma adoptRestored_safe id w : WInv w -> quiet w -> live id (w_store w) -> safe (adoptRestored database errText quote id)
  (fun r w' => after w w' /\ match r with inr (Some _) => isValidOperationID id = true /\ owned id w' | _ => quiet w' end) w.
Proof.
  intros Hw Hq Hl. unfold adoptRestored. destruct (negb _); [by sret|]. sstep. sstill x w1 Hw1 Hu1. intros _ _.
  destruct x as [u| |err]; [|sret; split; [apply Hu1|eauto with ownership]..].
  sstep. sstill x w2 Hw2 Hu2. intros [E2 Hm] _. assert (unmoved w w2) as Hu by by transitivity w1.
  destruct x as [data| |err]; [|sret; split; [apply Hu|eauto with ownership]..].
  sstep. sstill x w3 Hw3 Hu3. intros E3 _. assert (unmoved w w3) as Hv by by transitivity w2.
  destruct x as [err|previous]; [destruct err; sret; (split; [apply Hv|eauto with ownership])|].
  assert (live id (w_store w3)) by (by apply Hv). suse takeOver_safe as r w4 Hw4 [Ha4 Hr4].
  { rewrite E3, E2. by destruct (here w1). }
  split; [transitivity w3; [apply Hv|done]|done].
Qed.

(** ** The target of a restore *)

(** A directory that this operation made: nothing is in it yet. *)
Definition made (ow : option string) (w : World) : Prop := here w = Some (mkFolder ow [] false false).

Lemma made_noData ow w : made ow w -> noData w.
Proof. intros E d. rewrite E. by intros [= <-]. Qed.
Lemma made_unmoved ow w w' : made ow w -> unmoved w w' -> made ow w'.
Proof. unfold made. by intros H [_ ->]. Qed.
#[local] Hint Resolve made_noData made_unmoved : ownership.

(** What fails after the directory was made takes it back. *)
Lemma orRemove_safe (m : Prog (string + unit)) P w : WInv w ->
  safe m (fun r w' => after w w' /\ match r with inr _ => P w' | inl _ => noData w' end) w ->
  safe (orRemove m) (fun r w' => after w w' /\ match r with inr _ => P w' | inl _ => quiet w' end) w.
Proof.
  intros Hw Hm. unfold orRemove. sstep. eapply safe_weaken; [exact Hm|]. intros [err|u] w1 Hw1 [Ha Hr]; [|by sret].
  sstep. suse RemoveAll_db_safe as r w2 Hw2 [Ha2 Hh]. sret. split; [by transitivity w1|auto with ownership].
Qed.

Lemma markMade_safe id w : WInv w -> isValidOperationID id = true -> made None w ->
  safe (orRemove (markOwned database id)) (fun r w' => after w w' /\ match r with inr _ => made (owner id) w' | inl _ => quiet w' end) w.
Proof.
  intros Hw Hv Hm. apply orRemove_safe; [done|]. suse markOwned_safe as r w1 Hw1 [Ha Hr]. split; [done|].
  destruct r as [err|u].
  - intros d Hd. destruct Hr as [E|(d0 & ms & E0 & E)]; rewrite E in Hd; [by eapply made_noData|]. injection Hd as <-. cbn. by apply (made_noData _ _ Hm).
  - destruct Hr as (d & Hd & E). rewrite Hm in Hd. injection Hd as <-. done.
Qed.

Lemma madeStill_safe ow (m : Prog (string + unit)) w : WInv w -> made ow w -> safe m (fun _ w' => unmoved w w') w ->
  safe (orRemove m) (fun r w' => after w w' /\ match r with inr _ => made ow w' | inl _ => quiet w' end) w.
Proof.
  intros Hw Hm Hs. apply orRemove_safe; [done|]. eapply safe_weaken; [exact Hs|]. intros r w1 Hw1 Hu. split; [apply Hu|].
  destruct r; eauto with ownership.
Qed.

Lemma makeTarget_safe id w : WInv w -> quiet w -> isValidOperationID id = true -> safe (makeTarget database roots id)
  (fun r w' => after w w' /\ match r with inr _ => made (owner id) w' | inl _ => quiet w' end) w.
Proof.
  intros Hw Hq Hv. unfold makeTarget. sstep. sact x w1 Hw1 Ha1 He1. destruct x as [| |err].
  2,3: sret; split; [done|eapply quiet_unmoved; [done|by split]].
  sstep. suse markMade_safe as r2 w2 Hw2 [Ha2 Hr2]. assert (after w w2) as Haft by by transitivity w1. destruct r2 as [err|u]; [done|].
  sstep. suse madeStill_safe as r3 w3 Hw3 [Ha3 Hr3]; [by sstep; sstill y w4 Hw4 Hu4|].
  assert (after w w3) as Haft3 by by transitivity w2. destruct r3 as [err|u']; [done|].
  eapply safe_weaken; [apply (orRemove_safe _ (made (owner id))); [done|]|intros r w5 Hw5 [Ha5 ?]; split; [by transitivity w3|done]].
  sact r4 w4 Hw4 Ha4 He4. split; [done|]. rewrite Hr3 in He4. destruct r4 as [err|u4].
  - by destruct He4.
  - destruct He4 as (d & [= <-] & E). exact E.
Qed.

Lemma hostColumn_safe host w : WInv w -> safe (hostColumn host) (fun _ w' => unmoved w w') w.
Proof. intros Hw. unfold hostColumn. destruct (host == ""); [|by sret]. sstep. by sstill x w1 Hw1 Hu1. Qed.

Lemma undoLocked_safe existed w : WInv w -> noData w -> safe (undoLocked database existed) (fun _ w' => after w w' /\ quiet w') w.
Proof.
  intros Hw Hn. unfold undoLocked. sstep. suse RemoveAll_db_safe as r w1 Hw1 [Ha1 Hh]. sstep. suse unregister_safe as r2 w2 Hw2 Hu2. sret.
  split; [transitivity w1; [done|apply Hu2]|]. eapply quiet_unmoved; [by apply half_quiet|done].
Qed.

Lemma registerRestoreTarget_safe host id w : WInv w -> quiet w -> isValidOperationID id = true ->
  safe (registerRestoreTarget database roots quote host id)
    (fun r w' => after w w' /\ match r with inr _ => made (owner id) w' | inl _ => quiet w' end) w.
Proof.
  intros Hw Hq Hv. unfold registerRestoreTarget. destruct (negb _); [by sret|].
  sstep. suse hostColumn_safe as r1 w1 Hw1 Hu1. destruct r1 as [err|h]; [split; [apply Hu1|eauto with ownership]|].
  sstep. sstill x w2 Hw2 Hu2. intros _ _. assert (unmoved w w2) as Hu by by transitivity w1.
  destruct x as [u| |err]; [|sret; split; [apply Hu|eauto with ownership]..].
  sstep. sstill x w3 Hw3 Hu3. intros _ _. assert (unmoved w w3) as Hu' by by transitivity w2. assert (quiet w3) as Hq3 by eauto with ownership.
  assert (forall existed before, safe (_ ←? makeTarget database roots id;
      registered ← replaceFile TxtFile (registerLine before database h (where_ database roots));
      match registered with
      | inl err => _ ← undoLocked database existed; failed ("register " +:+ database +:+ " in databases.txt: " +:+ err)
      | inr _ => mret (inr existed)
      end) (fun r w' => after w w' /\ match r with inr _ => made (owner id) w' | inl _ => quiet w' end) w3) as Hgo.
  { intros existed before. sstep. suse makeTarget_safe as r4 w4 Hw4 [Ha4 Hr4]. assert (after w w4) as Haft by (transitivity w3; [apply Hu'|done]).
    destruct r4 as [err|u']; [done|]. sstep. suse replaceTxt_safe as r5 w5 Hw5 Hu5. assert (after w w5) as Haft5 by (transitivity w4; [done|apply Hu5]).
    destruct r5 as [err|u5]; [|sret; split; [done|eauto with ownership]].
    sstep. suse undoLocked_safe as r6 w6 Hw6 [Ha6 Hq6]. sret. split; [by transitivity w5|done]. }
  destruct x as [content| |err]; [apply Hgo|apply Hgo|sret; split; [apply Hu'|done]].
Qed.

(** ** Restoring *)

Lemma restoreStaged_safe req host id w : WInv w -> quiet w -> live id (w_store w) -> isValidOperationID id = true ->
  safe (restoreStaged database roots quote req host id (recordState errText id OpRestoring))
    (fun r w' => after w w' /\ match r with inr _ => here w' = Some (mkFolder (owner id) [] true false) | inl _ => quiet w' end) w.
Proof.
  intros Hw Hq Hl Hv. unfold restoreStaged. sstep. sstep. sstep. sstill x w1 Hw1 Hu1. intros _ _.
  destruct x as [err|m]; [split; [apply Hu1|eauto with ownership]|]. assert (live id (w_store w1)) by (by apply Hu1).
  sstep. sstep. suse recordState_safe as r2 w2 Hw2 Hu2. assert (unmoved w w2) as Hu by by transitivity w1.
  destruct r2 as [err|u]; [split; [apply Hu|eauto with ownership]|].
  sstep. sstep. suse registerRestoreTarget_safe as r3 w3 Hw3 [Ha3 Hr3]. assert (after w w3) as Haft by (transitivity w2; [apply Hu|done]).
  destruct r3 as [err|existed]; [done|]. sstep. sact x w4 Hw4 Ha4 He4. assert (after w w4) as Haft4 by by transitivity w3.
  rewrite Hr3 in He4. destruct x as [[err out]|].
  - assert (noData w4) as Hn by (intros d; rewrite He4; by intros [= <-]). sstep. unfold undo. sstep. sstill y w5 Hw5 Hu5. intros _ _.
    assert (after w w5) as Haft5 by (transitivity w4; [done|apply Hu5]).
    assert (quiet w4) as Hq4 by (apply half_quiet; intros d; rewrite He4; by intros [= <-]).
    destruct y as [u'| |err']; [|sret; sret; split; [done|eauto with ownership]..].
    suse undoLocked_safe as r6 w6 Hw6 [Ha6 Hq6]. sret. split; [by transitivity w5|done].
  - sret. done.
Qed.

Definition whole (id : string) (w : World) : Prop := here w = Some (mkFolder (owner id) [] true false).
Lemma whole_quiet id w : whole id w -> quiet w.
Proof. intros E. by eapply marked_quiet. Qed.
#[local] Hint Resolve whole_quiet : ownership.

Lemma Restore_safe first req host id engine w : WInv w -> quiet w -> live id (w_store w) -> isValidOperationID id = true ->
  safe (Restore database roots quote first req host id engine (recordState errText id OpRestoring))
    (fun r w' => after w w' /\ match r with inr _ => whole id w' | inl _ => quiet w' end) w.
Proof.
  intros Hw Hq Hl Hv. unfold Restore. destruct (restoreRefused _ _ _ _ _ _); [by sret|].
  sstep. sstill x w1 Hw1 Hu1. intros _ _. destruct x; [sret; split; [apply Hu1|eauto with ownership]|].
  sstep. sstep. suse readRegistered_safe as r2 w2 Hw2 Hu2. assert (unmoved w w2) as Hu by by transitivity w1.
  destruct r2 as [err|[]]; [split; [apply Hu|eauto with ownership]|sret; split; [apply Hu|eauto with ownership]|].
  sstep. sstill created w3 Hw3 Hu3. intros _ _. assert (unmoved w w3) as Hu' by by transitivity w2. assert (live id (w_store w3)) by (by apply Hu').
  sstep. suse restoreStaged_safe as r4 w4 Hw4 [Ha4 Hr4]. assert (after w w4) as Haft by (transitivity w3; [apply Hu'|done]).
  destruct r4 as [err|m].
  - sstep. destruct created; [sstill y w5 Hw5 Hu5; intros _ _|sret]; sret; [|done]. split; [transitivity w4; [done|apply Hu5]|eauto with ownership].
  - sstep. sstill y w5 Hw5 Hu5. intros _ _. sret. split; [transitivity w4; [done|apply Hu5]|]. unfold whole. by destruct Hu5 as [_ ->].
Qed.

Lemma restoreData_safe first id req host engine w : WInv w -> quiet w -> live id (w_store w) -> isValidOperationID id = true ->
  safe (restoreData database roots errText quote first id req host engine)
    (fun r w' => after w w' /\ match r with inr _ => owned id w' | inl _ => quiet w' end) w.
Proof.
  intros Hw Hq Hl Hv. unfold restoreData. sstep. sstep. suse reclaimIncomplete_safe as r1 w1 Hw1 (Ha1 & Hq1 & _).
  destruct r1 as [err|u]; [done|]. assert (live id (w_store w1)) by (by apply Ha1).
  sstep. sstep. suse Restore_safe as r2 w2 Hw2 (Ha2 & Hr2). assert (after w w2) as Haft by by transitivity w1.
  destruct r2 as [err|restored]; [done|]. assert (live id (w_store w2)) by (by apply Haft).
  sstep. sstep. suse recordRestored_safe as r3 w3 Hw3 [Hu3 Hr3]. assert (after w w3) as Haft3 by (transitivity w2; [done|apply Hu3]).
  destruct r3 as [err|op]; [split; [done|eauto with ownership]|]. sret. split; [done|]. split; [apply Hr3|].
  destruct Hu3 as [_ E]. rewrite E, Hr2. by eexists.
Qed.

Lemma obtainData_safe first id req host engine w : WInv w -> quiet w -> live id (w_store w) -> isValidOperationID id = true ->
  safe (obtainData database roots errText quote first id req host engine)
    (fun r w' => after w w' /\ match r with inr _ => owned id w' | inl _ => quiet w' end) w.
Proof.
  intros Hw Hq Hl Hv. unfold obtainData. sstep. sstep. suse adoptRestored_safe as r1 w1 Hw1 (Ha1 & Hr1).
  destruct r1 as [err|[restored|]]; [done| |].
  - destruct Hr1 as [_ Ho]. destruct (_ != _); sret; (split; [done|]); eauto with ownership.
  - assert (live id (w_store w1)) by (by apply Ha1). suse restoreData_safe as r2 w2 Hw2 (Ha2 & Hr2). split; [by transitivity w1|done].
Qed.

(** ** Starting *)

Definition restarts (w w' : World) : Prop := after w w' /\ (here w' = here w \/ here w' = set_started <$> here w).

Lemma set_started_twice d : set_started (set_started d) = set_started d.
Proof. unfold set_started. cbn. by destruct (fo_data d), (fo_whole d). Qed.
#[local] Instance restarts_trans : Transitive restarts.
Proof.
  intros w1 w2 w3 [Ha E] [Ha' E']. split; [by transitivity w2|].
  destruct E as [E|E], E' as [E'|E']; rewrite E', E; auto. right. destruct (here w1); [|done]. cbn. by rewrite set_started_twice.
Qed.
Lemma unmoved_restarts w w' : unmoved w w' -> restarts w w'.
Proof. intros [? ?]. split; auto. Qed.

(** A start changes neither the marker nor what the directory holds. *)
Lemma restarts_here w w' d' : restarts w w' -> here w' = Some d' ->
  exists d, here w = Some d /\ fo_marker d' = fo_marker d /\ fo_marks d' = fo_marks d /\ fo_whole d' = fo_whole d.
Proof. intros [_ [E|E]]; rewrite E; [eauto|]. destruct (here w) as [d|]; [|done]. intros [= <-]. by exists d. Qed.
Lemma restarts_startable w w' : restarts w w' -> startable (w_store w) (here w) -> startable (w_store w') (here w').
Proof.
  intros Hr Hs d' Hd' Hw. destruct (restarts_here _ _ _ Hr Hd') as (d & Hd & Hm & Hms & Hwh). unfold markers. rewrite Hm, Hms.
  eapply harmless_all; [apply Hr|]. apply (Hs d Hd). congruence.
Qed.
Lemma startable_quiet w : startable (w_store w) (here w) -> quiet w.
Proof. intros Hs d Hd Hw _. by apply (Forall_inv_tail (Hs d Hd Hw)). Qed.
Lemma restarts_quiet w w' : restarts w w' -> quiet w -> quiet w'.
Proof.
  intros Hr Hq d' Hd' Hw Hm'. destruct (restarts_here _ _ _ Hr Hd') as (d & Hd & Hm & Hms & Hwh). rewrite Hms.
  eapply harmless_all; [apply Hr|]. apply (Hq d Hd); congruence.
Qed.
#[local] Hint Resolve unmoved_restarts restarts_startable startable_quiet restarts_quiet : ownership.

Lemma started_safe what args w : WInv w -> startable (w_store w) (here w) -> safe (started what args) (fun _ w' => restarts w w') w.
Proof.
  intros Hw Hs. unfold started. sstep. sact x w1 Hw1 Ha1 He1. destruct x as [[err out]|]; sret; by split.
Qed.

(** [before] is what is recorded ahead of the start. *)
Lemma thenStarted_safe (before : Prog (string + unit)) what args w : WInv w -> startable (w_store w) (here w) ->
  safe before (fun _ w' => unmoved w w') w -> safe (_ ←? before; started what args) (fun _ w' => restarts w w') w.
Proof.
  intros Hw Hs Hb. sstep. eapply safe_weaken; [exact Hb|]. intros r w1 Hw1 Hu1. destruct r as [err|u]; [by apply unmoved_restarts|].
  suse started_safe as r2 w2 Hw2 Hr2. transitivity w1; eauto with ownership.
Qed.

Lemma joinHA_safe (before : Prog (string + unit)) w : WInv w -> startable (w_store w) (here w) ->
  (forall w', WInv w' -> after w w' -> safe before (fun _ w'' => unmoved w' w'') w') -> safe (joinHA before) (fun _ w' => restarts w w') w.
Proof.
  intros Hw Hs Hb. unfold joinHA. sstep. sstill hb w1 Hw1 Hu1. intros _ _. destruct (startError hb); [sret; eauto with ownership|].
  destruct (hb_startable hb); [|sret; eauto with ownership].
  suse thenStarted_safe as r2 w2 Hw2 Hr2; [apply Hb; [done|apply Hu1]|]. transitivity w1; eauto with ownership.
Qed.

Lemma startRestoredDatabase_safe haMember (before : Prog (string + unit)) w : WInv w -> startable (w_store w) (here w) ->
  (forall w', WInv w' -> after w w' -> safe before (fun _ w'' => unmoved w' w'') w') ->
  safe (startRestoredDatabase database standaloneDB quote haMember before) (fun _ w' => restarts w w') w.
Proof.
  intros Hw Hs Hb. unfold startRestoredDatabase. destruct (validateRestoreDatabase _ _ _); [sret; by apply unmoved_restarts|]. sstep.
  assert (safe (if standaloneDB != "" then _ ←? before; started "server" ["server"; "start"; database] else done_)
    (fun _ w' => restarts w w') w) as H1.
  { destruct (standaloneDB != ""); [|sret; by apply unmoved_restarts]. apply thenStarted_safe; [done|done|]. by apply Hb. }
  eapply safe_weaken; [exact H1|]. intros r w1 Hw1 Hr1. destruct r as [err|u]; [done|].
  destruct haMember; cbn [negb]; [|by sret]. suse joinHA_safe as r2 w2 Hw2 Hr2; [|by transitivity w1].
  intros w3 Hw3 Ha3. apply Hb; [done|]. transitivity w1; [apply Hr1|done].
Qed.

(** ** Operations *)

Lemma live_valid id w : WInv w -> live id (w_store w) -> isValidOperationID id = true.
Proof. intros Hw (_ & _ & o & Ho & _). by apply (inv_records _ (wi_store _ Hw) id o). Qed.

Lemma settle_safe id f w : WInv w -> quiet w -> isEnd f -> safe (act (StoreSettle id f)) (fun _ w' => quiet w') w.
Proof.
  intros Hw Hq Hf. apply safe_act; [done|done|]. intros x w1 Hw1 E Ha _ _. cbn in E. intros d. rewrite E. intros Hd Hwh Hm.
  eapply harmless_all; [done|by apply Hq].
Qed.

Lemma fail_safe id reason w : WInv w -> quiet w -> safe (fail id reason) (fun _ w' => quiet w') w.
Proof.
  intros Hw Hq. unfold fail. sstep. sstill x w1 Hw1 Hu1. intros _ _. sstep. suse settle_safe as r2 w2 Hw2 Hq2.
  - split; intros o; [split; [by split_and!|done]|done].
  - by sret.
Qed.

Lemma runRestoreSteps_safe first id req w : WInv w -> quiet w -> live id (w_store w) ->
  safe (runRestoreSteps database roots standaloneDB errText quote first id req) (fun _ w' => quiet w') w.
Proof.
  intros Hw Hq Hl. pose proof (live_valid _ _ Hw Hl) as Hv. unfold runRestoreSteps. sstep. sstill engine w1 Hw1 Hu1. intros _ _.
  sstep. assert (safe (if standaloneDB == "" then wrapping "restore refused: this member is not standalone and has no usable HA configuration" (act HAHosts)
    else mret (inr "")) (fun _ w' => unmoved w w') w1) as Hhost.
  { destruct (standaloneDB == ""); [|by sret]. sstep. sstill x w2 Hw2 Hu2. intros _ _. by transitivity w1. }
  eapply safe_weaken; [exact Hhost|]. intros r2 w2 Hw2 Hu2. destruct r2 as [err|host]; [eauto with ownership|].
  assert (live id (w_store w2)) as Hl2 by (by apply Hu2). sstep. suse recordState_safe as r3 w3 Hw3 Hu3.
  assert (unmoved w w3) as Hu by by transitivity w2. destruct r3 as [err|u]; [eauto with ownership|].
  assert (live id (w_store w3)) as Hl3 by (by apply Hu). destruct (checkRestoreEngine _ _); [sret; eauto with ownership|].
  sstep. suse obtainData_safe as r4 w4 Hw4 [Ha4 Hr4]. destruct r4 as [err|restored]; [done|].
  assert (live id (w_store w4)) as Hl4 by (by apply Ha4). sstep. suse startRestoredDatabase_safe as r5 w5 Hw5 Hr5.
  - by eapply owned_startable.
  - intros w6 Hw6 Ha6. apply recordState_safe; [done|by apply Ha6|done].
  - destruct r5 as [err|u']; [|sret]; eauto with ownership.
Qed.

Lemma runRestore_safe first id req w : WInv w -> quiet w -> live id (w_store w) ->
  safe (runRestore database roots standaloneDB errText quote first id req) (fun _ w' => quiet w') w.
Proof.
  intros Hw Hq Hl. unfold runRestore. sstep. suse runRestoreSteps_safe as r1 w1 Hw1 Hq1. destruct r1 as [reason|restored]; [by apply fail_safe|].
  sstep. suse settle_safe as r2 w2 Hw2 Hq2; [split; intros o; [split; [by split_and!|done]|done]|].
  destruct r2 as [err|u]; [by sret|]. sstep. suse clearOwned_safe as r3 w3 Hw3 (_ & Hq3 & _). by sret.
Qed.

Lemma createHADatabase_safe id w : WInv w -> quiet w -> isValidOperationID id = true -> safe (createHADatabase database roots quote id)
  (fun r w' => after w w' /\ quiet w' /\ match r with inr _ => unmarked w' | inl _ => True end) w.
Proof.
  intros Hw Hq Hv. unfold createHADatabase. sstep. sstill x w1 Hw1 Hu1. intros _ _.
  destruct x as [err|hosts]; [split_and!; [apply Hu1|eauto with ownership|done]|].
  sstep. sstep. sstill x w2 Hw2 Hu2. intros _ _. assert (unmoved w w2) as Hu by by transitivity w1.
  destruct x as [err|u]; [split_and!; [apply Hu|eauto with ownership|done]|].
  sstep. sstill x w3 Hw3 Hu3. intros _ _. assert (unmoved w w3) as Hu' by by transitivity w2.
  destruct x as [u'| |err]; [|sret; split_and!; [apply Hu'|eauto with ownership|done]..].
  sstep. sact x w4 Hw4 Ha4 He4. assert (after w w4) as Haft by (transitivity w3; [apply Hu'|done]).
  destruct x as [| |err]. 2,3: sret; split_and!; [done|eapply (quiet_unmoved w); [done|split; [done|rewrite He4; apply Hu']]|done].
  sstep. suse markMade_safe as r5 w5 Hw5 [Ha5 Hr5]. assert (after w w5) as Haft5 by by transitivity w4. destruct r5 as [err|u5]; [done|].
  sstep. sact x w6 Hw6 Ha6 He6. assert (after w w6) as Haft6 by by transitivity w5. rewrite Hr5 in He6. destruct x as [out|].
  - assert (noData w6) as Hn by (intros d; rewrite He6; by intros [= <-]).
    assert (half w6) as Hh by (intros d; rewrite He6; by intros [= <-]).
    unfold createdbFailed. sstep. suse readRegistered_safe as r7 w7 Hw7 Hu7. assert (after w w7) as Haft7 by (transitivity w6; [done|apply Hu7]).
    sstep. assert (quiet w7) as Hq7 by eauto with ownership. destruct r7 as [err|[]]; [sret; by sret|sret; by sret|].
    suse RemoveAll_db_safe as r8 w8 Hw8 [Ha8 Hh8]. sret. split_and!; [by transitivity w7|auto with ownership|done].
  - suse clearOwned_safe as r7 w7 Hw7 (Ha7 & Hq7 & Hr7). split_and!; [by transitivity w6|done|done].
Qed.

Lemma runHABootstrap_safe id w : WInv w -> quiet w -> live id (w_store w) ->
  safe (runHABootstrap database roots errText quote id) (fun _ w' => quiet w') w.
Proof.
  intros Hw Hq Hl. pose proof (live_valid _ _ Hw Hl) as Hv. unfold runHABootstrap. sstep.
  assert (safe (runHABootstrapSteps database roots errText quote id) (fun _ w' => quiet w') w) as Hsteps.
  { unfold runHABootstrapSteps. sstep. suse reclaimIncomplete_safe as r1 w1 Hw1 (Ha1 & Hq1 & Hm1). destruct r1 as [err|u]; [done|].
    sstep. suse readRegistered_safe as r2 w2 Hw2 Hu2. destruct r2 as [err|registered]; [eauto with ownership|].
    assert (after w w2) as Haft2 by (transitivity w1; [done|apply Hu2]). assert (live id (w_store w2)) as Hl2 by (by apply Haft2).
    assert (quiet w2) as Hq2 by eauto with ownership. assert (unmarked w2) as Hm2 by eauto with ownership.
    sstep. assert (safe (if registered then done_ else _ ←? recordState errText id OpCreating; createHADatabase database roots quote id)
      (fun r w' => after w w' /\ quiet w' /\ match r with inr _ => unmarked w' | inl _ => True end) w2) as Hc.
    { destruct registered; [by sret|]. sstep. suse recordState_safe as r3 w3 Hw3 Hu3.
      assert (after w w3) as Haft3 by (transitivity w2; [done|apply Hu3]). assert (quiet w3) as Hq3 by eauto with ownership.
      destruct r3 as [err|u']; [done|]. suse createHADatabase_safe as r4 w4 Hw4 (Ha4 & Hq4 & Hr4). split_and!; [by transitivity w3|done|done]. }
    eapply safe_weaken; [exact Hc|]. intros r3 w3 Hw3 (Ha3 & Hq3 & Hm3). destruct r3 as [err|u3]; [done|].
    suse joinHA_safe as r4 w4 Hw4 Hr4; [by apply quiet_startable| |eauto with ownership].
    intros w5 Hw5 Ha5. apply recordState_safe; [done|by apply Ha5, Ha3|done]. }
  eapply safe_weaken; [exact Hsteps|]. intros r w1 Hw1 Hq1. destruct r as [reason|u]; [by apply fail_safe|].
  sstep. suse settle_safe as r2 w2 Hw2 Hq2; [split; intros o; [split; [by split_and!|done]|done]|by sret].
Qed.

(** The start of a completed restore, when no marker is left that is not on
    the disk. *)
Lemma ResumeCompletedRestores_safe w : WInv w -> (forall d, here w = Some d -> fo_marks d = []) ->
  safe (ResumeCompletedRestores database standaloneDB quote) (fun _ w' => quiet w') w.
Proof.
  intros Hw Hms. assert (quiet w) as Hq by (intros d Hd _ _; by rewrite (Hms d Hd)).
  unfold ResumeCompletedRestores. sstep. sstill x w1 Hw1 Hu1. intros _ _. destruct x as [u| |err]; [|sret; eauto with ownership..].
  sstep. assert (safe (if standaloneDB == "" then act HAHosts else mret (inr "")) (fun _ w' => unmoved w w') w1) as Hhost.
  { destruct (standaloneDB == ""); [|by sret]. sstill x w2 Hw2 Hu2. intros _ _. by transitivity w1. }
  eapply safe_weaken; [exact Hhost|]. intros haErr w2 Hw2 Hu2. unfold resumeDatabase. destruct (negb _); [sret; eauto with ownership|].
  sstep. sstill x w3 Hw3 Hu3. intros [E3 Hm] _. assert (unmoved w w3) as Hu by by transitivity w2.
  destruct x as [data| |err]; [|sret; eauto with ownership..].
  sstep. sstill x w4 Hw4 Hu4. intros E4 Hget. assert (unmoved w w4) as Hv by by transitivity w3.
  destruct x as [err|op]; [sret; eauto with ownership|]. destruct (_ || _) eqn:Ec; [sret; eauto with ownership|]. bool_simpl.
  destruct haErr as [err|hosts]; [sret; eauto with ownership|].
  assert (startable (w_store w4) (here w4)) as Hst.
  { intros d. destruct Hv as [_ Ev]. rewrite Ev. intros Hd _. unfold markers. rewrite (Hms d Hd). constructor; [|constructor].
    destruct Hu2 as [_ E2]. rewrite E2, Hd in Hm. cbn in Hm. rewrite Hm. right. exists op. split; [done|]. by destruct (op_Restored op). }
  sstep. sstep. suse startRestoredDatabase_safe as r5 w5 Hw5 Hr5; [by intros; sret|].
  assert (quiet w5) as Hq5 by eauto with ownership. destruct r5 as [err|u5]; [done|].
  suse clearOwned_safe as r6 w6 Hw6 (_ & Hq6 & _). done.
Qed.
End programs.

(** ** Crashes *)

Lemma surviving_in {A} (x : A) l i : surviving x l i ∈ x :: l.
Proof. unfold surviving. destruct ((x :: l) !! i) eqn:E; cbn; [by eapply list_elem_of_lookup_2|by left]. Qed.

Lemma folderAfter_marker loss f d : fo_marker (folderAfter loss f d) ∈ markers d.
Proof. destruct loss; cbn [folderAfter fo_marker]; [by left|apply surviving_in]. Qed.

Lemma ordered_in rs r f : ordered rs -> r ∈ rs -> rt_tomb r = Some f -> rt_db r <> Some f.
Proof.
  induction rs as [|r0 rs IH]; [by intros _ ?%elem_of_nil|]. intros [Hrs H0] [->|Hin]%elem_of_cons; [apply (H0 r0); by left|by apply IH].
Qed.

Lemma afterCrash_inv loss w : WInv w -> WInv (afterCrash loss w).
Proof.
  intros [Hs Hl Hd Ht Ho Hk]. set (r := w_root (afterCrash loss w)).
  assert (r ∈ rootsOf w) as Hr by (unfold r; destruct loss; [by left|apply surviving_in]).
  assert (forall f d', w_folders (afterCrash loss w) !! f = Some d' -> exists d, w_folders w !! f = Some d /\ d' = folderAfter loss f d) as Hf.
  { intros f d'. cbn. rewrite list_lookup_imap. intros (d & -> & Hd')%fmap_Some. eauto. }
  split; [done|done| | | |].
  - intros f d' (d & Hfd & ->)%Hf Hda. constructor; [|constructor].
    pose proof (folderAfter_marker loss f d) as Hm. by apply (proj1 (Forall_forall _ _) (Hd f d Hfd Hda)).
  - intros r' f d' [->|?%elem_of_nil]%elem_of_cons; [|done]. fold r. intros Hrt (d & Hfd & ->)%Hf. cbn. by apply (Ht r f d).
  - split; [done|]. intros r' f [->|?%elem_of_nil]%elem_of_cons; [|done]. fold r. by eapply ordered_in.
  - intros r' e f [->|?%elem_of_nil]%elem_of_cons; [|done]. fold r. intros He. destruct (Hk r e f Hr He) as [d Hfd]. cbn.
    rewrite list_lookup_imap, Hfd. by eexists.
Qed.

Definition synced (w : World) : Prop := forall d, here w = Some d -> fo_marks d = [].

Lemma afterCrash_synced loss w : synced (afterCrash loss w).
Proof.
  intros d' (f & _ & Hf)%here_inv. cbn in Hf. rewrite list_lookup_imap in Hf. apply fmap_Some in Hf as (d & _ & ->). done.
Qed.

Lemma entrypointStarts_inv w : WInv w -> synced w -> WInv (entrypointStarts w) /\ synced (entrypointStarts w).
Proof.
  intros Hw Hs. unfold entrypointStarts. destruct (here w ≫= fo_marker) eqn:Em; [done|]. cbn [is_nil]. split.
  - apply on_here_inv; [done|]. intros d Hd _. rewrite Hd in Em. cbn in Em.
    cbn [set_started markers fo_marker fo_marks]. unfold markers. cbn. rewrite Em, (Hs d Hd). by repeat constructor.
  - intros d'. rewrite here_on_here. intros (d & Hd & ->)%fmap_Some. by apply (Hs d).
Qed.

Lemma synced_quiet w : synced w -> quiet w.
Proof. intros Hs d Hd _ _. by rewrite (Hs d Hd). Qed.

(** ** The manager over time *)

Section manager.
Context (database : string) (roots : RestoreRoots) (standaloneDB : string).
Context (errText : StoreErr -> string) (quote : string -> string).
Notation transition := (Ownership.transition false database roots standaloneDB errText quote).

Definition SysInv (s : Sys) : Prop :=
  match sy_run s with
  | None => WInv (sy_world s) /\ quiet (sy_world s)
  | Some p => safe p (fun _ w' => quiet w') (sy_world s)
  end.

Lemma request_inv r key hash env writes w found w' : WInv w -> quiet w -> key <> "" -> newIDFresh env (w_store w) = true ->
  onStore (FindOrCreate env (requestKind r) key hash database) writes w = (found, w') ->
  SysInv (mkSys w' true (match found with
    | inr (op, false) => Some (runOperation database roots standaloneDB errText quote r (op_ID op))
    | _ => None
    end)).
Proof.
  intros Hw Hq Hkey Hid (s' & Hc & ->)%onStore_eq. unfold newIDFresh in Hid.
  assert (forall id, env_newID env = Some id -> isValidOperationID id = true /\ s_disk (w_store w) !! id = None /\
    s_unsettled (w_store w) !! id = None /\ id ∉ s_interrupted (w_store w)) as Hnew.
  { intros id E. rewrite E in Hid. bool_simpl. destruct (s_disk (w_store w) !! id), (s_unsettled (w_store w) !! id); done. }
  apply FindOrCreate_ok in Hc as [Ha Hl]; [|by apply set_writes_inv, Hw|intros id E; by apply Hnew in E as (? & ? & _)
    |by destruct r|done|intros id E; by apply Hnew in E as (_ & _ & ? & ?)].
  assert (advances (w_store w) s') as Hadv by (transitivity (set_writes writes (w_store w)); [apply set_writes_advances|done]).
  assert (WInv (set_store s' w)) as Hw' by by apply set_store_inv.
  assert (quiet (set_store s' w)) as Hq'. { intros d Hd Hwh Hm. eapply harmless_all; [done|by apply Hq]. }
  destruct found as [err|[op []]]; [done|done|]. specialize (Hl op eq_refl). unfold SysInv. cbn [sy_run sy_world].
  destruct r as [first req|]; [by apply runRestore_safe|by apply runHABootstrap_safe].
Qed.

Lemma crash_inv loss starts env writes w r store : WInv w ->
  let w1 := if (starts : bool) then entrypointStarts (afterCrash loss w) else afterCrash loss w in
  NewOperationStore env (s_disk (w_store w1)) writes = (r, store) -> WInv (set_store store w1) /\ synced (set_store store w1).
Proof.
  intros Hw w1 Hn. assert (WInv w1 /\ synced w1) as [Hw1 Hs1].
  { pose proof (afterCrash_inv loss w Hw) as H1. pose proof (afterCrash_synced loss w) as H2.
    subst w1. destruct starts; [by apply entrypointStarts_inv|done]. }
  split; [|done]. apply set_store_inv; [done|]. eapply NewOperationStore_ok; [done|apply Hw1].
Qed.

Lemma transition_inv ev s s' : SysInv s -> transition ev s = Some s' -> SysInv s'.
Proof.
  intros Hs H. assert (WInv (sy_world s)) as Hw by (unfold SysInv in Hs; destruct (sy_run s); [by eapply safely_inv|by destruct Hs]).
  destruct ev as [r key hash env writes|c| |loss starts env writes]; cbn [Ownership.transition] in H.
  - unfold SysInv in Hs. destruct (sy_run s); [done|]. destruct Hs as [_ Hq]. destruct (negb _) eqn:E; [done|]. bool_simpl.
    destruct (onStore _ _ _) as [found w'] eqn:Ec. injection H as <-. eapply request_inv; try done. unfold requestAccepted in *. by bool_simpl.
  - unfold SysInv in Hs. destruct (sy_run s) as [[a|e k]|] eqn:Er; [done| |done]. destruct (exec false e c (sy_world s)) as [[x w']|] eqn:Ee; [|done].
    injection H as <-. unfold SysInv. cbn. destruct Hs as [_ Hs]. by apply (Hs c).
  - unfold SysInv in Hs. destruct (sy_run s) as [[a|e k]|] eqn:Er; [|done|done]. injection H as <-. done.
  - destruct (NewOperationStore _ _ _) as [r store] eqn:En. injection H as <-.
    destruct (crash_inv loss starts env writes (sy_world s) r store Hw En) as [Hw1 Hs1]. unfold SysInv. cbn [sy_run sy_world].
    destruct r as [err|u]; [split; [done|by apply synced_quiet]|]. 
    refine (safely_bind (exec false) WInv (ResumeCompletedRestores database standaloneDB quote) (fun _ => mret tt) _ _ _). suse ResumeCompletedRestores_safe as x w2 Hw2 Hq2. by sret.
Qed.

(** How the manager finds a volume: nothing unsynced, nothing moved aside, and
    no marker of an operation. *)
Record initial (w : World) : Prop := {
  in_store : StoreInv (w_store w);
  in_lost : w_lost w = false;
  in_roots : w_roots w = [] /\ rt_tomb (w_root w) = None;
  in_known : forall f, rt_db (w_root w) = Some f -> is_Some (w_folders w !! f);
  in_markers : Forall (fun d => fo_marks d = [] /\ forall t, fo_marker d = Some t -> isValidOperationID (TrimSpace t) = false) (w_folders w) }.

Lemma initial_inv w : initial w -> SysInv (mkSys w true None).
Proof.
  intros [Hs Hl [Hr Ht] Hk Hm]. rewrite Forall_lookup in Hm. unfold SysInv. cbn [sy_run sy_world]. split.
  - split; [done|done| | | |]; unfold rootsOf; rewrite ?Hr.
    + intros f d Hf _. destruct (Hm f d Hf) as [E Hv]. unfold markers. rewrite E. constructor; [|constructor].
      destruct (fo_marker d) as [t|]; [|done]. left. by apply Hv.
    + intros r f d [->|?%elem_of_nil]%elem_of_cons; [|done]. cbn. congruence.
    + split; [done|]. intros r f [->|?%elem_of_nil]%elem_of_cons; [|done]. cbn. congruence.
    + intros r e f [->|?%elem_of_nil]%elem_of_cons; [|done]. cbn. destruct e; cbn; [apply Hk|congruence].
  - intros d (f & _ & Hf)%here_inv _ _. cbn in Hf. destruct (Hm f d Hf) as [-> _]. constructor.
Qed.

Lemma runs_inv events s s' : SysInv s -> runs false database roots standaloneDB errText quote events s = Some s' -> SysInv s'.
Proof.
  revert s. induction events as [|ev rest IH]; intros s Hs; cbn [runs]; [by intros [= <-]|].
  destruct (transition ev s) as [s1|] eqn:E; [|done]. by apply IH, (transition_inv ev s).
Qed.

(** C2: Data is never removed, on a volume whose directory syncs do not fail.
    Over every sequence of restores and HA bootstraps that run one after
    another, with every other action and every write of a record failing where
    it may, with crashes and power losses between any two actions, and with the
    entrypoint starting what carries no marker, the removal of a directory
    never begins that CUBRID was started on while it held a complete database,
    or that was on the volume before. *)
Theorem data_never_removed w events s : initial w ->
  runs false database roots standaloneDB errText quote events (mkSys w true None) = Some s -> w_lost (sy_world s) = false.
Proof.
  intros Hi Hr. pose proof (runs_inv _ _ _ (initial_inv w Hi) Hr) as Hs. unfold SysInv in Hs. apply wi_lost.
  destruct (sy_run s); [by eapply safely_inv|by destruct Hs].
Qed.
End manager.
