(* ===== verification/OwnershipExamples.v ===== *)
(** * Runs of the manager on a volume

    Concrete runs of the restore and the HA bootstrap (Ownership.v): one that
    the theorems of OwnershipSafety.v are applied to, and two that show what
    goes wrong where their assumptions end. *)
From stdpp Require Import prelude gmap strings list.
From Stdlib Require Import Ascii String.
From S2P Require Import Prelude GoStr Programs Lifecycle Api Engine OpStore StoreRecords ManifestURI Paths Manifest HABootstrap Requests RequestSafety Artifact DatabasesTxt ManagerOps Ownership OwnershipLogic OwnershipSafety.

Definition quote (s : string) : string := s.
Definition errText (e : StoreErr) : string := "store".
Definition database : string := "db".
Definition volumeRoots : RestoreRoots := mkRestoreRoots "/data" "/staging".
Definition id1 : string := "op-00000000000000000000000000000001".
Definition id2 : string := "op-00000000000000000000000000000002".
Definition id3 : string := "op-00000000000000000000000000000003".
Definition calledFor (id : string) : Env := mkEnv 100 true (fun _ => true) (Some id) true.
Definition ok : Choice := Calls (calledFor id1) [].
Definition request : RestoreRequest := mkRestoreRequest "db" "b" "p" "" "/staging/r" "/data" "" "".
Definition manifest : BackupManifest := mkManifest 1 "db" "u" "11.4.6.1963" 0 "m" "master" "" "" [].
Definition registeredTxt : option string := Some (databaseEntry "db" "h0:h1" "/data/db" +:+ newline).
Definition quietHA : heartbeatObservation := mkObserved true false "" "".

Definition empty : World := mkWorld (mkStore ∅ ∅ ∅ ∅ []) [] (mkRoot None None None) [] false.
Definition run (syncFails : bool) (events : list Event) : option Sys :=
  runs syncFails database volumeRoots "" errText quote events (mkSys empty true None).

(** An HA bootstrap up to the sync after the removal of the marker. *)
Definition createsDatabase (sync : Choice) : list Event :=
  [Requested BootstrapOf "k1" "h" (calledFor id1) []] ++
  (Acts <$> [Fine; Fine; Fine; Fine; ok; Text "h0:h1"; Fine; Fine; Fine; Fine; Fine; Fine; Registers registeredTxt; Fine; Fine; sync]).
(** An HA bootstrap that finds the database and starts it. *)
Definition startsDatabase (key id : string) : list Event :=
  [Requested BootstrapOf key "h" (calledFor id) []] ++ (Acts <$> [Fine; Fine; Fine; Fine; Sees quietHA; ok; Fine; ok]) ++ [Ends].
(** The power fails, what was synced last comes back, and the manager resumes. *)
Definition losesPower : list Event :=
  [Crashes (PowerLost 0 [1]%nat) false (calledFor id1) []] ++ (Acts <$> [Fine; Text "h0:h1"; Fine; ok]) ++ [Ends].
(** An HA bootstrap that finds a marker, up to the removal of the directory. *)
Definition reclaims : list Event :=
  [Requested BootstrapOf "k3" "h" (calledFor id3) []] ++ (Acts <$> [Fine; Fine; Fine; ok; Fine; Fine; Fine; Fine; Fine; Fine]).

Definition lossRun : list Event :=
  createsDatabase (Fault "EIO") ++ (Acts <$> [Fine; ok]) ++ [Ends] ++ startsDatabase "k2" id2 ++ losesPower ++ reclaims.

(** A restore whose restoredb fails, up to the beginning of its undo. *)
Definition restoreFails : list Event :=
  [Requested (RestoreOf true request) "r1" "h" (calledFor id1) []] ++
  (Acts <$> [Text "11.4.6.1963"; Text "h0:h1"; ok; Fine; Fine; Fine; Fine; Fine] ++
            [Fine; Fine; Fine; Stages manifest; ok] ++
            [Fine; Fine; Fine; Fine; Fine; Fine; Fine; Fine; Fine; Fine] ++ [Fault "killed"; Fine; Fine]).
(** The manager is killed, the entrypoint starts what it finds, and the manager
    starts. *)
Definition isKilled : list Event := [Crashes NothingLost true (calledFor id1) []] ++ (Acts <$> [Fine; Text "h0:h1"; Fine]) ++ [Ends].
(** The restore is asked for again. *)
Definition restoresAgain : list Event :=
  [Requested (RestoreOf true request) "r2" "h" (calledFor id2) []] ++
  (Acts <$> [Text "11.4.6.1963"; Text "h0:h1"; ok; Fine; Fine; Fine; Fine; Fine; Fine; Fine; ok]) ++ [Ends].

(** A created database that was started, and a power loss. *)
Definition keptRun : list Event :=
  createsDatabase Fine ++ (Acts <$> [Sees quietHA; ok; Fine; ok]) ++ [Ends] ++
  [Crashes (PowerLost 0 [1]%nat) false (calledFor id1) []] ++ (Acts <$> [Fine; Text "h0:h1"; Fine]) ++ [Ends] ++
  startsDatabase "k2" id2.

Definition of_run {A} (f : World -> A) (s : option Sys) : option A := (fun s => f (sy_world s)) <$> s.
Definition stateOf (id : string) (w : World) : option string := op_State <$> s_disk (w_store w) !! id.

Lemma empty_initial : initial empty.
Proof. by repeat split. Qed.

Lemma data_never_removed_witness : exists s, run false keptRun = Some s /\ w_lost (sy_world s) = false /\
  fo_data <$> here (sy_world s) = Some true.
Proof.
  destruct (run false keptRun) as [s|] eqn:E; [|by vm_compute in E]. exists s. split_and!; [done| |].
  - apply (data_never_removed database volumeRoots "" errText quote empty keptRun s); [apply empty_initial|exact E].
  - assert (of_run (fun w => fo_data <$> here w) (run false keptRun) = Some (Some true)) as H by (vm_compute; reflexivity).
    rewrite E in H. by injection H.
Defined.

(** What the sync of the marker's removal is for.  On a volume where the sync
    of a directory can fail, a database can be lost: an HA bootstrap whose
    createdb succeeded removed its marker and could not sync that, so it failed;
    the next one finds a database without a marker, takes it as it is without
    syncing its directory, and starts it; after a power loss the marker is back
    and names a failed operation, and the next bootstrap removes the database
    that was in use. *)
Example failed_sync_loses_database : of_run w_lost (run true lossRun) = Some true.
Proof. vm_compute. reflexivity. Qed.

(** The undo of a failed restore is not safe against a crash.  A manager that
    is killed while the undo removes the directory, after the marker and before
    the rest, leaves a directory that is incomplete, registered and without a
    marker: the entrypoint starts it, and every later attempt of the restore
    is refused because the target exists. *)
Example interrupted_undo_blocks_restore :
  of_run (fun w => (registeredInDatabasesTxt (rt_txt (w_root w)) database, (fun d => (fo_marker d, fo_whole d)) <$> here w))
    (run false (restoreFails ++ isKilled)) = Some (Some true, Some (None, false)) /\
  of_run (stateOf id2) (run false (restoreFails ++ isKilled ++ restoresAgain)) = Some (Some OpFailed).
Proof. split; vm_compute; reflexivity. Qed.
