(* ===== verification/Staging.v ===== *)
(** * Backups on a member and their staging

    What the Instance Manager does for a backup: the request handler, the
    claim of a staging directory and its reclaim (staging.go), the wait for
    processes that still write into it (stagingwriter.go), and the backup
    itself with everything it records (runBackup and its helpers in server.go,
    Backup in operations.go).

    Each is a program of atomic actions (Programs.v) on the staging tree and
    on the operation store (OpStore.v).  Any number of backups, of any
    databases and destinations, run beside each other; the lock [stagingMu] is
    part of the state.  The upload of a staged backup is one action here;
    Artifact.v models what it does. *)
From stdpp Require Import prelude gmap strings list pretty.
From Stdlib Require Import Ascii String.
From S2P Require Import Prelude GoStr BackupController Programs Lifecycle Api Engine OpStore ManifestURI Paths Manifest Requests Artifact ManagerOps.

(** ** The staging tree *)

(** The processes that may write into the directory of an operation.  [Quiet]:
    none holds a file in it, and a look has found so since backupdb ended, if
    it was begun at all.  [Unseen]: none holds a file in it, but a process that
    backupdb left behind may still open one.  [Holding]: a process holds a
    file.  [Late]: a process holds a file that it opened after a look had found
    none. *)
Inductive Writers := Quiet | Unseen | Holding | Late.
Definition holdsFile (p : Writers) : bool := match p with Holding | Late => true | Quiet | Unseen => false end.

(** A directory of an operation: whether it holds all that the operation's
    backupdb wrote, and who may write into it. *)
Record Item := mkItem { it_whole : bool; it_writers : Writers }.

(** No look has found the directory free of holders since backupdb, which did
    not succeed, was begun in it. *)
Definition exposed (it : Item) : bool := match it_writers it with Holding | Unseen => true | Quiet | Late => false end.

(** A look at the processes, which may be [complete] or not, sees who holds a
    file then. *)
Definition looked (complete : bool) (it : Item) : Item :=
  mkItem (it_whole it) (match it_writers it with Late => Holding | Unseen => if complete then Quiet else Unseen | p => p end).
(** A process that was left behind opens a file: not where backupdb
    succeeded, because none is left then. *)
Definition opens (it : Item) : Item :=
  if it_whole it then it
  else mkItem false (match it_writers it with Unseen => Holding | Quiet => Late | p => p end).
Definition closes (it : Item) : Item :=
  mkItem (it_whole it) (match it_writers it with Holding => Unseen | Late => Quiet | p => p end).
(** What lies directly below the staging root: a destination with its
    entries, or something that is not a directory. *)
Inductive Node := NotDirectory | Destination (items : gmap string Item).

(** [w_runs] is the thread that made an operation; [w_lock] the one that holds
    [stagingMu]; [w_harm] becomes true when a directory is removed that a
    look has not found free of holders, or when something else is uploaded than
    what the operation's own backupdb wrote. *)
Record World := mkWorld {
  w_store : Store;
  w_tree : gmap string Node;
  w_lock : option nat;
  w_runs : gmap string nat;
  w_harm : bool }.

Definition set_store (s : Store) (w : World) : World := mkWorld s (w_tree w) (w_lock w) (w_runs w) (w_harm w).
Definition set_tree (t : gmap string Node) (w : World) : World := mkWorld (w_store w) t (w_lock w) (w_runs w) (w_harm w).
Definition set_lock (l : option nat) (w : World) : World := mkWorld (w_store w) (w_tree w) l (w_runs w) (w_harm w).
Definition set_runs (r : gmap string nat) (w : World) : World := mkWorld (w_store w) (w_tree w) (w_lock w) r (w_harm w).
Definition harmed (b : bool) (w : World) : World := mkWorld (w_store w) (w_tree w) (w_lock w) (w_runs w) (w_harm w || b).

Definition itemsAt (d : string) (w : World) : gmap string Item :=
  match w_tree w !! d with Some (Destination items) => items | _ => ∅ end.
Definition item (d n : string) (w : World) : option Item := itemsAt d w !! n.
Definition isDestination (d : string) (w : World) : bool :=
  match w_tree w !! d with Some (Destination _) => true | _ => false end.
Definition set_items (d : string) (items : gmap string Item) (w : World) : World := set_tree (<[d := Destination items]> (w_tree w)) w.
Definition on_item (d n : string) (f : Item -> Item) (w : World) : World :=
  match w_tree w !! d with Some (Destination items) => set_items d (alter f n items) w | _ => w end.

(** ** Actions *)

Inductive Atom :=
  | Lock
  | Unlock
  | MkdirStagingRoot
  | OpenStagingRoot
  | ReadStagingRoot
  | OpenDestination (d : string)
  | ReadDestination (d : string)
  | MkdirDestination (d : string)
  | LstatDestination (d : string)
  | RemoveDestination (d : string)
  | Holders (d n : string)
  | MkdirItem (d n : string)
  | MkdirAllItem (d n : string)
  | RemoveItem (d n : string)
  | StoreGet (id : string)
  | StoreFindOrCreate (key hash database : string)
  | StoreUpdate (id : string) (mutate : Operation -> Operation)
  | StoreSettle (id : string) (mutate : Operation -> Operation)
  | EngineVersion
  | ReadRole
  | Sleep (duration : Z)
  | TimePassed
  | CtxErr
  | Cancelled
  | BeginBackupdb (d n : string)
  | EndBackupdb (d n : string)
  | Upload (d n : string) (spec : UploadSpec)
  | UTCNow.

(** [Holders] answers the processes found and what could not be read;
    [ReadRole] the role and the reason of a heartbeat status; [TimePassed]
    how much more time has passed than was slept; [CtxErr] why the operation's
    context has ended; [Cancelled] whether the member stops. *)
Definition answer (e : Atom) : Type :=
  match e with
  | Lock | Unlock | RemoveDestination _ | Sleep _ | BeginBackupdb _ _ => unit
  | MkdirStagingRoot | OpenStagingRoot | MkdirItem _ _ | MkdirAllItem _ _ | RemoveItem _ _ => string + unit
  | ReadStagingRoot => string + list (string * bool)
  | OpenDestination _ => Looked unit
  | ReadDestination _ => string + list string
  | MkdirDestination _ => Made
  | LstatDestination _ => string + bool
  | Holders _ _ => list string * option string
  | StoreGet _ | StoreUpdate _ _ => StoreErr + Operation
  | StoreFindOrCreate _ _ _ => StoreErr + (Operation * bool)
  | StoreSettle _ _ => StoreErr + unit
  | EngineVersion | UTCNow => string
  | ReadRole => string * string
  | TimePassed => N
  | CtxErr => option string
  | Cancelled => bool
  | EndBackupdb _ _ => option (string * string)
  | Upload _ _ _ => string + UploadResult
  end.

Inductive Choice :=
  | Fine
  | Fault (err : string)
  | Half (err : string)
  | Text (s : string)
  | Role (role reason : string)
  | Passes (n : N)
  | Calls (env : Env) (writes : list WriteOutcome)
  | Uploads (r : UploadResult).

(** newOperationID draws an identifier that is well formed and in use nowhere. *)
Definition unused (id : string) (w : World) : Prop :=
  isValidOperationID id = true /\ s_disk (w_store w) !! id = None /\ s_unsettled (w_store w) !! id = None /\
  (id ∉ s_interrupted (w_store w)) /\ w_runs w !! id = None /\ map_Forall (fun d _ => item d id w = None) (w_tree w).
#[global] Instance unused_dec id w : Decision (unused id w).
Proof. unfold unused. apply _. Defined.
Definition drawsUnused (env : Env) (w : World) : bool :=
  match env_newID env with None => true | Some id => bool_decide (unused id w) end.

Section exec.
(** The thread that acts. *)
Context (me : nat).

Definition onStore {A} (call : M A) (writes : list WriteOutcome) (w : World) : (StoreErr + A) * World :=
  let '(r, s) := call (set_writes writes (w_store w)) in (r, set_store s w).

Definition removal (d n : string) (done : bool) (w : World) : World :=
  match item d n w with
  | None => w
  | Some it =>
      harmed (exposed it)
        (if done then set_items d (delete n (itemsAt d w)) w else on_item d n (fun it => mkItem false (it_writers it)) w)
  end.

Definition exec (e : Atom) (c : Choice) (w : World) : option (answer e * World) :=
  match e return option (answer e * World) with
  | Lock => match w_lock w with None => Some (tt, set_lock (Some me) w) | Some _ => None end
  | Unlock => Some (tt, set_lock None w)
  | MkdirStagingRoot | OpenStagingRoot => Some (match c with Fault err => inl err | _ => inr tt end, w)
  | ReadStagingRoot =>
      Some (match c with
            | Fault err => inl err
            | _ => inr ((fun p => (p.1, match p.2 with Destination _ => true | _ => false end)) <$> map_to_list (w_tree w))
            end, w)
  | OpenDestination d =>
      Some (match c with Fault err => LookFails err | _ => if is_nil (w_tree w !! d) then NotExist else Found tt end, w)
  | ReadDestination d =>
      Some (match c with
            | Fault err => inl err
            | _ => if isDestination d w then inr (map_to_list (itemsAt d w)).*1 else inl "not a directory"
            end, w)
  | MkdirDestination d =>
      Some (match c with
            | Fault err => (MakeFails err, w)
            | _ => if is_nil (w_tree w !! d) then (MadeNew, set_items d ∅ w) else (AlreadyExists, w)
            end)
  | LstatDestination d =>
      Some (match c with
            | Fault err => inl err
            | _ => if is_nil (w_tree w !! d) then inl "no such directory" else inr (isDestination d w)
            end, w)
  | RemoveDestination d =>
      Some (tt, match c with
                | Fault _ => w
                | _ => if isDestination d w && bool_decide (itemsAt d w = ∅) then set_tree (delete d (w_tree w)) w else w
                end)
  | Holders d n =>
      let held := match item d n w with Some it => holdsFile (it_writers it) | None => false end in
      let err := match c with Fault err => Some err | _ => None end in
      Some (if held then [match c with Text s => s | _ => "a process" end] else [], err, on_item d n (looked (is_nil err)) w)
  | MkdirItem d n =>
      Some (match c with
            | Fault err => (inl err, w)
            | _ => if negb (isDestination d w) then (inl "no such directory", w)
                   else if is_nil (item d n w) then (inr tt, set_items d (<[n := mkItem false Quiet]> (itemsAt d w)) w)
                   else (inl "file exists", w)
            end)
  | MkdirAllItem d n =>
      Some (match c with
            | Fault err => (inl err, w)
            | _ => if negb (is_nil (w_tree w !! d)) && negb (isDestination d w) then (inl "not a directory", w)
                   else if is_nil (item d n w) then (inr tt, set_items d (<[n := mkItem false Quiet]> (itemsAt d w)) w)
                   else (inr tt, w)
            end)
  | RemoveItem d n =>
      Some (match c with
            | Fault err => (inl err, w)
            | Half err => (inl err, removal d n false w)
            | _ => (inr tt, removal d n true w)
            end)
  | StoreGet id => match c with Calls env writes => Some (onStore (OpStore.Get env id) writes w) | _ => None end
  | StoreFindOrCreate key hash database =>
      match c with
      | Calls env writes =>
          if negb (drawsUnused env w) then None
          else
            let '(r, w') := onStore (FindOrCreate env OpBackup key hash database) writes w in
            Some (r, match r with inr (op, false) => set_runs (<[op_ID op := me]> (w_runs w')) w' | _ => w' end)
      | _ => None
      end
  | StoreUpdate id mutate => match c with Calls env writes => Some (onStore (OpStore.Update env id mutate) writes w) | _ => None end
  | StoreSettle id mutate => match c with Calls env writes => Some (onStore (OpStore.Settle env id mutate) writes w) | _ => None end
  | EngineVersion | UTCNow => Some (match c with Text s => s | _ => "" end, w)
  | ReadRole => match c with Role role reason => Some ((role, reason), w) | _ => None end
  | Sleep _ => Some (tt, w)
  | TimePassed => match c with Passes n => Some (n, w) | _ => None end
  | CtxErr => Some (match c with Fault err => Some err | _ => None end, w)
  | Cancelled => Some (match c with Fault _ => true | _ => false end, w)
  | BeginBackupdb d n => Some (tt, on_item d n (fun _ => mkItem false Holding) w)
  | EndBackupdb d n =>
      Some (match c with
            | Fault err => (Some (err, ""), on_item d n (fun _ => mkItem false Unseen) w)
            | Half err => (Some (err, ""), w)
            | _ => (None, on_item d n (fun _ => mkItem true Quiet) w)
            end)
  | Upload d n _ =>
      let read := harmed (match item d n w with Some it => negb (it_whole it) | None => true end) w in
      match c with Uploads r => Some (inr r, read) | Fault err => Some (inl err, read) | _ => None end
  end.
End exec.

(** ** Programs *)

Notation Prog := (prog answer).

(** [&Operation{ID: name}]. *)
Definition onlyID (name : string) : Operation := mkOperation name "" "" "" "" "" "" None None "" 0 0.

Definition setStagingDir (dir : string) (o : Operation) : Operation :=
  mkOperation (op_ID o) (op_Kind o) (op_IdempotencyKey o) (op_RequestHash o) (op_Database o) (op_State o) (op_FailureReason o)
    (op_Artifact o) (op_Restored o) dir (op_CreatedAt o) (op_UpdatedAt o).

Section server.
(** The staging root, how long and how often a wait looks (overrides of the
    defaults below), the texts of store errors, durations and quoted strings,
    and whether the manager has object storage. *)
Context (root : string) (stagingBound stagingPoll roleBound rolePoll : Z).
Context (errText : StoreErr -> string) (durationText : Z -> string) (quote : string -> string) (hasObjects : bool).

(** *** Who owns an entry *)

Definition stagingRecordLive (name : string) : Prog (option Operation) :=
  if negb (isValidOperationID name) then mret None
  else
    got ← act (StoreGet name);
    mret (match got with
          | inl ErrOperationNotFound => None
          | inl _ => Some (onlyID name)
          | inr op => if IsTerminal (op_State op) then None else Some op
          end).

Definition stagingOwnerLive (destination name : string) : Prog (option Operation) :=
  recorded ← stagingRecordLive name;
  match recorded with
  | Some op => mret (Some op)
  | None =>
      found ← act (Holders destination name);
      mret (if non_nil (found.2) || non_nil (head found.1) then Some (onlyID name) else None)
  end.

(** The loop of liveStagingOwners. *)
Fixpoint ownersAmong (destination : string) (names : list string) : Prog (list Operation) :=
  match names with
  | [] => mret []
  | name :: names =>
      owner ← stagingOwnerLive destination name;
      live ← ownersAmong destination names;
      mret (match owner with Some op => op :: live | None => live end)
  end.

Definition liveStagingOwners (name : string) : Prog (string + (list Operation * list string)) :=
  dir ← act (OpenDestination name);
  match dir with
  | NotExist => mret (inr ([], []))
  | LookFails err => failed ("open the backup staging destination: " +:+ err)
  | Found _ =>
      entries ←? wrapping "read the backup staging destination" (act (ReadDestination name));
      live ← ownersAmong name entries;
      mret (inr (live, entries))
  end.

(** *** The claim *)

(** The loop of reclaimDestination; an entry that cannot be removed is logged. *)
Fixpoint removeEntries (name : string) (entries : list string) : Prog unit :=
  match entries with
  | [] => mret tt
  | e :: entries => _ ← act (RemoveItem name e); removeEntries name entries
  end.

Definition reclaimDestination (name : string) : Prog (string + bool) :=
  found ←? liveStagingOwners name;
  if non_nil (head found.1) then mret (inr false)
  else _ ← removeEntries name found.2; mret (inr true).

Definition ErrBackupStagingInUse : string := "the backup staging destination is owned by another operation that is still running".

Definition claimBackupStaging (name id : string) : Prog (string + unit) :=
  made ← act (MkdirDestination name);
  match made with
  | MakeFails err => failed ("create the backup staging destination: " +:+ err)
  | _ =>
      isDir ←? wrapping "inspect the backup staging destination" (act (LstatDestination name));
      if negb isDir then failed ("the backup staging destination " +:+ name +:+ " is not a directory")
      else
        free ←? reclaimDestination name;
        if negb free then failed (ErrBackupStagingInUse +:+ ": " +:+ name)
        else wrapping "create the operation's backup staging directory" (act (MkdirItem name id))
  end.

(** The errors of recordBackup that its caller tells apart. *)
Inductive RecordErr :=
  | RecordUnreadable (text : string)
  | StagingInUse (text : string)
  | RecordFailed (err : StoreErr)
  | RecordOther (text : string).

Fixpoint checkOwners (key name : string) (live : list Operation) : Prog (RecordErr + unit) :=
  match live with
  | [] => mret (inr tt)
  | owner :: live =>
      unreadable ← (if op_Kind owner == ""
                    then got ← act (StoreGet (op_ID owner));
                         mret (match got with
                               | inl ErrOperationNotFound | inr _ => None
                               | inl err => Some err
                               end)
                    else mret None);
      match unreadable with
      | Some err => failed (RecordUnreadable ("operation " +:+ op_ID owner +:+ " owns an entry of " +:+ name +:+ ": " +:+ errText err))
      | None =>
          if (op_Kind owner != OpBackup) || (op_IdempotencyKey owner != key)
          then failed (StagingInUse (ErrBackupStagingInUse +:+ ": " +:+ name +:+ " is owned by operation " +:+ op_ID owner))
          else checkOwners key name live
      end
  end.

Definition stagingDir (name id : string) : string := Join [root; name; id].

(** The claim of a new operation and its record; [claimed] says whether its
    directory is to be removed when this fails. *)
Definition claimAndRecord (name id : string) : Prog (string * bool + unit) :=
  _ ←? onError (fun err => (err, false)) (claimBackupStaging name id);
  _ ←? onError (fun err => (errText err, true)) (act (StoreUpdate id (setStagingDir (stagingDir name id))));
  mret (inr tt).

(** What follows when it fails. *)
Definition claimFailed (name id err : string) (claimed : bool) : Prog (RecordErr + Operation) :=
  _ ← (if claimed then act (RemoveItem name id) else done_);
  let reason := "claim the backup staging directory: " +:+ err in
  settled ← (act (StoreSettle id (set_op_failed reason)) : Prog (StoreErr + unit));
  match settled with
  | inl serr => failed (RecordOther (reason +:+ "; recording that the operation failed: " +:+ errText serr))
  | inr _ => onError RecordFailed (act (StoreGet id) : Prog (StoreErr + Operation))
  end.

(** recordBackup under the lock.  The answer says whether the operation has a
    directory of its own to stage in. *)
Definition recordLocked (key requestHash name database : string) : Prog (RecordErr + (Operation * bool)) :=
  _ ←? onError RecordOther (wrapping "create the backup staging root" (act MkdirStagingRoot));
  _ ←? onError RecordOther (wrapping "open the backup staging root" (act OpenStagingRoot));
  found ←? onError RecordOther (liveStagingOwners name);
  _ ←? checkOwners key name found.1;
  made ←? onError RecordFailed (act (StoreFindOrCreate key requestHash database));
  let '(op, existed) := made in
  if (existed : bool) then mret (inr (op, false))
  else
    claimed ← claimAndRecord name (op_ID op);
    match claimed with
    | inl (err, claimed) => failed_ ←? claimFailed name (op_ID op) err claimed; mret (inr (failed_, false))
    | inr _ => mret (inr (op, true))
    end.

Definition recordBackup (key requestHash name database : string) : Prog (RecordErr + (Operation * bool)) :=
  _ ← act Lock;
  r ← recordLocked key requestHash name database;
  _ ← act Unlock;
  mret r.

(** *** The end of staging *)

Definition removeBackupStaging (name id : string) : Prog unit :=
  _ ← act Lock;
  opened ← act OpenStagingRoot;
  _ ← match opened with
      | inl _ => mret tt
      | inr _ => _ ← act (RemoveItem name id); act (RemoveDestination name)
      end;
  act Unlock.

(** The destinations that reclaimBackupStaging goes through. *)
Fixpoint reclaimEach (entries : list (string * bool)) : Prog unit :=
  match entries with
  | [] => mret tt
  | (name, isDir) :: entries =>
      _ ← (if negb isDir || negb (MatchString stagingNamePattern name) then mret tt
           else
             free ← reclaimDestination name;
             match free with
             | inr true => act (RemoveDestination name)
             | _ => mret tt
             end);
      reclaimEach entries
  end.

Definition reclaimBackupStaging : Prog unit :=
  if root == "" then mret tt
  else
    _ ← act Lock;
    _ ← (entries ← act ReadStagingRoot;
         match entries with
         | inl _ => mret tt
         | inr entries =>
             opened ← act OpenStagingRoot;
             match opened with inl _ => mret tt | inr _ => reclaimEach entries end
         end);
    act Unlock.

Definition createBackupStaging (name id : string) : Prog (string + unit) :=
  _ ←? wrapping "create the backup staging root" (act MkdirStagingRoot);
  _ ←? wrapping "open the backup staging root" (act OpenStagingRoot);
  wrapping "create the backup staging directory" (act (MkdirAllItem name id)).

(** *** Waiting for writers *)

Definition second : Z := 1000000000.
Definition millisecond : Z := 1000000.
Definition stagingWriterBound : Z := 30 * second.
Definition stagingWriterPoll : Z := 200 * millisecond.
Definition backupRoleBound : Z := 30 * second.
Definition backupRolePoll : Z := second.
Definition orDefault (override default : Z) : Z := if override <=? 0 then default else override.

(** How often a loop that sleeps [poll] each time can go round before [bound]
    has passed. *)
Definition rounds (bound poll : Z) : nat := Z.to_nat (bound / poll) + 1.

Definition describeHolders (found : list string * option string) : string :=
  let what := strJoin ", " found.1 in
  match found.2 with
  | Some err => if what == "" then err else what +:+ "; " +:+ err
  | None => what
  end.
Definition noHolders (found : list string * option string) : bool := is_nil (found.2) && is_nil (head found.1).

Definition keptText (dir : string) (bound : Z) (found : list string * option string) : string :=
  "the backup staging " +:+ dir +:+ " is kept and is not uploaded or reused: a process still held a file in it after "
  +:+ durationText bound +:+ " (" +:+ describeHolders found +:+ ")".

(** The loop of awaitStagingWriters; [slept] is the time it slept so far. *)
Fixpoint awaitLoop (fuel : nat) (bound poll slept : Z) (name id : string) (found : list string * option string) : Prog (string + unit) :=
  passed ← act TimePassed;
  let slept := slept + Z.of_N passed in
  if slept <? bound then
    match fuel with
    | O => failed (keptText (stagingDir name id) bound found)
    | S fuel =>
        _ ← act (Sleep poll);
        found ← act (Holders name id);
        if noHolders found then mret (inr tt) else awaitLoop fuel bound poll (slept + poll) name id found
    end
  else failed (keptText (stagingDir name id) bound found).

Definition awaitStagingWriters (name id : string) : Prog (string + unit) :=
  let bound := orDefault stagingBound stagingWriterBound in
  let poll := orDefault stagingPoll stagingWriterPoll in
  found ← act (Holders name id);
  if noHolders found then mret (inr tt) else awaitLoop (rounds bound poll) bound poll 0 name id found.

(** *** The role and the engine of the member *)

(** [time.Duration.Round(time.Millisecond)] of a duration that is not negative. *)
Definition roundMillis (d : Z) : Z := (d + millisecond / 2) / millisecond * millisecond.

Definition whyText (reason : string) : string := if reason != "" then " (" +:+ reason +:+ ")" else "".

(** The loop of backupSourceRole: the last role read, and why it is not the
    one asked for. *)
Fixpoint roleLoop (fuel : nat) (bound poll slept : Z) (want : string) : Prog (string * option string) :=
  st ← act ReadRole;
  let '(role, reason) := st in
  if (want == "") || (want == RoleUnknown) || (role == want) then mret (role, None)
  else
    _ ← act (Sleep poll);
    passed ← act TimePassed;
    ended ← act CtxErr;
    match ended with
    | Some err =>
        mret (role, Some ("the wait for that role ended after " +:+ durationText (roundMillis (slept + Z.of_N passed)) +:+ " (" +:+ err
                          +:+ "); it last reported " +:+ role +:+ whyText reason))
    | None =>
        let slept := slept + poll + Z.of_N passed in
        let refused := Some ("it reports " +:+ role +:+ " after " +:+ durationText (roundMillis slept) +:+ whyText reason) in
        if bound <=? roundMillis slept then mret (role, refused)
        else match fuel with
        | O => mret (role, refused)
        | S fuel => roleLoop fuel bound poll slept want
        end
    end.

Definition backupSourceRole (want : string) : Prog (string * option string) :=
  let bound := orDefault roleBound backupRoleBound in
  let poll := orDefault rolePoll backupRolePoll in
  roleLoop (rounds (bound + millisecond) poll) bound poll 0 want.

Definition requestedRole (req : BackupRequest) : string :=
  match br_Upload req with None => "" | Some up => bu_SourceRole up end.

Definition backupEngineVersion (req : BackupRequest) : Prog (string + string) :=
  engine ← act EngineVersion;
  if engine == "" then failed "the engine version of this member could not be read from cubrid_rel"
  else
    let declared := match br_Upload req with None => "" | Some up => bu_CubridVersion up end in
    let series := EngineSeries engine in
    if series == "" then failed ("the engine version " +:+ quote engine +:+ " that cubrid_rel gives has no series")
    else if series != EngineSeries declared
    then failed ("this member runs engine " +:+ engine +:+ ", which is not of the declared version " +:+ quote declared)
    else mret (inr engine).

(** *** The backup *)

(** Backup of operations.go: backupdb, in two actions, since a crash can come
    between its start and its end. *)
Definition Backup (name id : string) (req : BackupRequest) : Prog (string + unit) :=
  if (br_Database req == "") || (stagingDir name id == "") then failed "database and destination are required"
  else
    _ ← act (BeginBackupdb name id);
    out ← act (EndBackupdb name id);
    match out with
    | Some (err, out) => failed ("backupdb failed: " +:+ err +:+ ": " +:+ out)
    | None => mret (inr tt)
    end.

Definition failBackup (name id reason : string) : Prog unit :=
  cancelled ← act Cancelled;
  let reason := stoppingReason cancelled reason in
  writers ← awaitStagingWriters name id;
  reason ← match writers with
           | inl err => mret (reason +:+ "; " +:+ err)
           | inr _ => _ ← removeBackupStaging name id; mret reason
           end;
  _ ← act (StoreSettle id (set_op_failed reason));
  mret tt.

Definition recordState (id state : string) : Prog (string + unit) :=
  _ ←? onError (fun err => notRecorded state (errText err)) (act (StoreUpdate id (setState state)));
  mret (inr tt).

(** The role is read again when it matters: [inl] is why the backup is not
    uploaded. *)
Definition checkRoleAfter (role : string) (up : BackupUpload) : Prog (string + unit) :=
  if (role == RoleMaster) || bu_Seed up then
    after ← backupSourceRole role;
    match after with
    | (after, Some err) =>
        failed ("backup not uploaded: this member was observed " +:+ role +:+ " at start, " +:+ after +:+ " after backupdb; " +:+ err)
    | (_, None) => mret (inr tt)
    end
  else if role != RoleUnknown then _ ← act ReadRole; mret (inr tt)
  else mret (inr tt).

Definition uploadSpec (name id engine role created : string) (req : BackupRequest) (up : BackupUpload) : UploadSpec :=
  mkUploadSpec (stagingDir name id) (bu_Bucket up) (bu_Prefix up)
    (mkManifest 0 (br_Database req) (bu_ClusterUID up) engine (br_Level req) (bu_SourceInstance up) role created id [])
    (bu_Seed up).

(** From the end of backupdb to the end of the upload; [inl] is the failure
    reason. *)
Definition uploadStaged (name id engine role : string) (req : BackupRequest) : Prog (string + (string * UploadResult)) :=
  match br_Upload req with
  | Some up =>
      if negb hasObjects then failed "backupdb succeeded but no object-storage destination is configured"
      else
        _ ←? checkRoleAfter role up;
        _ ←? recordState id OpUploading;
        created ← (act UTCNow : Prog string);
        res ←? wrapping "upload failed" (act (Upload name id (uploadSpec name id engine role created req up)) : Prog (string + UploadResult));
        mret (inr (engine, res))
  | None => failed "backupdb succeeded but no object-storage destination is configured"
  end.

Definition runBackupSteps (name id : string) (req : BackupRequest) : Prog (string + (string * UploadResult)) :=
  _ ←? recordState id OpRunningBackup;
  engine ←? wrapping "backup refused" (backupEngineVersion req);
  read ← backupSourceRole (requestedRole req);
  match read with
  | (_, Some err) => failed ("backup refused: the request names this member as " +:+ requestedRole req +:+ ", but " +:+ err)
  | (role, None) =>
      _ ←? createBackupStaging name id;
      _ ←? wrapping "backupdb failed" (Backup name id req);
      uploadStaged name id engine role req
  end.

Definition backupArtifact (engine : string) (req : BackupRequest) (res : UploadResult) : OperationArtifact :=
  mkArtifact (ur_ManifestURI res) (ur_ManifestDigest res) (ur_SizeBytes res) (br_Database req) engine (br_Level req).

Definition runBackup (name id : string) (req : BackupRequest) : Prog unit :=
  result ← runBackupSteps name id req;
  match result with
  | inl reason => failBackup name id reason
  | inr (engine, res) =>
      _ ← removeBackupStaging name id;
      _ ← act (StoreSettle id (setCompleted (backupArtifact engine req res)));
      mret tt
  end.

(** *** The request *)

(** The checks of the handler before anything is recorded: the status it
    refuses with, or the name of the destination.  The manager has an
    operation store. *)
Definition backupPreflight (req : BackupRequest) : option Z :=
  match br_Upload req with
  | None => Some 400
  | Some up => if bu_Bucket up == "" then Some 400 else if negb hasObjects then Some 412 else None
  end.

Definition backupChecks (key : string) (req : BackupRequest) : Z + string :=
  match validateBackupRequest quote req with
  | Some _ => inl 400
  | None =>
      match confineBackupDestination quote (br_Destination req) root with
      | inl _ => inl 400
      | inr destination =>
          if key == "" then inl 400
          else match backupPreflight req with Some status => inl status | None => inr (Base destination) end
      end
  end.

Definition recordStatus (r : RecordErr + (Operation * bool)) : Z :=
  match r with
  | inl (RecordFailed ErrIdempotencyConflict) | inl (RecordFailed ErrOperationInProgress) | inl (StagingInUse _) => 409
  | inl _ => 500
  | inr _ => 202
  end.

(** The handler of POST /v1/backup and the status it answers, and the backup it
    starts, which goes on after the answer.  The request's destination becomes
    the operation's own directory. *)
Definition backup (key requestHash : string) (req : BackupRequest) : Prog Z :=
  match backupChecks key req with
  | inl status => mret status
  | inr name =>
      r ← recordBackup key requestHash name (br_Database req);
      _ ← match r with
          | inr (op, true) => runBackup name (op_ID op) req
          | _ => mret tt
          end;
      mret (recordStatus r)
  end.
End server.

(** ** The manager over time

    Any number of requests are served beside each other; a thread's next
    action is done when it is its turn.  Processes close their files at any
    time, a process that a failed backupdb left behind opens one at any time,
    and other handlers read the store.  A crash ends every thread; what
    is staged stays.  The manager then reads its records and reclaims. *)

Inductive Read := GetOperation (id : string) | FindOperations (key : string) | ListUnwritten.

Definition reads (r : Read) (env : Env) : M unit :=
  match r with
  | GetOperation id => _ ← OpStore.Get env id; mret tt
  | FindOperations key => _ ← FindByKey env key; mret tt
  | ListUnwritten => _ ← UnwrittenEnds env; mret tt
  end.

Inductive Event :=
  | Requested (key requestHash : string) (req : BackupRequest)
  | Acts (thread : nat) (c : Choice)
  | Closes (d n : string)
  | Opens (d n : string)
  | ReadsStore (r : Read) (env : Env) (writes : list WriteOutcome)
  | Crashes (env : Env) (writes : list WriteOutcome).

(** [sy_up]: the manager could read its records and serves requests. *)
Record Sys := mkSys { sy_world : World; sy_up : bool; sy_threads : list (Prog unit) }.

Section manager.
Context (root : string) (stagingBound stagingPoll roleBound rolePoll : Z).
Context (errText : StoreErr -> string) (durationText : Z -> string) (quote : string -> string) (hasObjects : bool).

Definition transition (ev : Event) (s : Sys) : option Sys :=
  let w := sy_world s in
  match ev with
  | Requested key requestHash req =>
      if negb (sy_up s) then None
      else
        let thread := _ ← backup root stagingBound stagingPoll roleBound rolePoll errText durationText quote hasObjects key requestHash req;
                      mret tt in
        Some (mkSys w true (sy_threads s ++ [thread]))
  | Acts i c =>
      match sy_threads s !! i with
      | Some (Vis e k) =>
          match exec i e c w with
          | Some (x, w') => Some (mkSys w' (sy_up s) (<[i := k x]> (sy_threads s)))
          | None => None
          end
      | _ => None
      end
  | Closes d n => Some (mkSys (on_item d n closes w) (sy_up s) (sy_threads s))
  | Opens d n => Some (mkSys (on_item d n opens w) (sy_up s) (sy_threads s))
  | ReadsStore r env writes => Some (mkSys (onStore (reads r env) writes w).2 (sy_up s) (sy_threads s))
  | Crashes env writes =>
      let '(r, store) := NewOperationStore env (s_disk (w_store w)) writes in
      let up := match r with inr _ => true | inl _ => false end in
      Some (mkSys (mkWorld store (w_tree w) None ∅ (w_harm w)) up (if up then [reclaimBackupStaging root] else []))
  end.

Fixpoint runs (events : list Event) (s : Sys) : option Sys :=
  match events with
  | [] => Some s
  | ev :: rest => match transition ev s with Some s' => runs rest s' | None => None end
  end.
End manager.
