(* ===== verification/StagingLogic.v ===== *)
(** * Reasoning about backups that run beside each other

    What a thread of the manager may assume of the others while it runs a
    backup (Staging.v), and what it grants them: the operations it made stay
    its own, nobody touches their directories, and while it holds the lock
    nothing is claimed.  Assertions that the others cannot break are
    [Stable]; [spec] is a triple whose assertions are. *)
From stdpp Require Import prelude gmap strings list.
From Stdlib Require Import Ascii String.
From S2P Require Import Prelude GoStr BackupController Programs Lifecycle Api Engine OpStore StoreRecords ManifestURI Paths Manifest Requests Artifact ManagerOps Staging.

(** ** The state *)

Definition running (n : string) (w : World) : Prop := live n (w_store w).
Definition held (d n : string) (w : World) : Prop := exists it, item d n w = Some it /\ exposed it = true.

(** Two operations that run do not stage in one destination. *)
Definition exclusive (w : World) : Prop := forall d n n', running n w -> running n' w ->
  item d n w <> None -> item d n' w <> None -> n = n'.

Record WInv (w : World) : Prop := {
  winv_store : StoreInv (w_store w);
  winv_harm : w_harm w = false;
  winv_exclusive : exclusive w }.

(** A directory that nobody but a process of its own operation, opening or
    closing files, or a look touched. *)
Definition calm (o o' : option Item) : Prop :=
  match o, o' with
  | None, None => True
  | Some a, Some b => it_whole b = it_whole a /\ (exposed b = true -> exposed a = true)
  | _, _ => False
  end.
#[global] Instance calm_refl : Reflexive calm.
Proof. by intros [a|]. Qed.
#[global] Instance calm_trans : Transitive calm.
Proof. intros [a|] [b|] [c|] H1 H2; try done. destruct H1, H2. split; [congruence|auto]. Qed.

(** ** What a thread assumes *)

Record rely (me : nat) (w w' : World) : Prop := {
  rely_own : forall n, w_runs w !! n = Some me ->
    w_runs w' !! n = Some me /\ (running n w -> running n w' /\ forall d, calm (item d n w) (item d n w'));
  rely_lock : w_lock w = Some me -> w_lock w' = Some me /\
    (forall n d, item d n w = None -> item d n w' = None) /\
    (forall n, ~ running n w -> ~ running n w' /\ forall d, held d n w' -> held d n w) }.

Definition guar (me : nat) (w w' : World) : Prop := forall j, j <> me -> rely j w w'.

#[global] Instance rely_refl me : Reflexive (rely me).
Proof. intros w. split; [by intros n|]. by intros ?. Qed.
#[global] Instance rely_trans me : Transitive (rely me).
Proof.
  intros w1 w2 w3 [O1 L1] [O2 L2]. split.
  - intros n Hn. destruct (O1 n Hn) as [Hn2 R1]. destruct (O2 n Hn2) as [Hn3 R2]. split; [done|]. intros Hr.
    destruct (R1 Hr) as [Hr2 C1]. destruct (R2 Hr2) as [Hr3 C2]. split; [done|]. intros d. etransitivity; eauto.
  - intros Hl. destruct (L1 Hl) as (Hl2 & N1 & R1). destruct (L2 Hl2) as (Hl3 & N2 & R2). split_and!; [done|auto|].
    intros n Hn. destruct (R1 n Hn) as [Hn2 H1]. destruct (R2 n Hn2) as [Hn3 H2]. split; [done|]. intros d ?. auto.
Qed.

Class Stable (me : nat) (P : World -> Prop) : Prop := stable w w' : rely me w w' -> P w -> P w'.
#[global] Hint Mode Stable + + : typeclass_instances.

Section stable.
Context (me : nat).
#[global] Instance stable_const φ : Stable me (fun _ => φ).
Proof. by intros w w' _. Qed.
#[global] Instance stable_and P Q : Stable me P -> Stable me Q -> Stable me (fun w => P w /\ Q w).
Proof. intros HP HQ w w' Hr [? ?]. split; [by apply (HP w w')|by apply (HQ w w')]. Qed.
#[global] Instance stable_imp (φ : Prop) P : Stable me P -> Stable me (fun w => φ -> P w).
Proof. intros HP w w' Hr H Hφ. by apply (HP w w'), H. Qed.
#[global] Instance stable_forall {A} (P : A -> World -> Prop) : (forall a, Stable me (P a)) -> Stable me (fun w => forall a, P a w).
Proof. intros HP w w' Hr H a. by apply (HP a w w'). Qed.

(** ** Assertions *)

Definition holds (w : World) : Prop := w_lock w = Some me.
Definition own (n : string) (w : World) : Prop := w_runs w !! n = Some me /\ running n w.
Definition present (d n : string) (w : World) : Prop := own n w /\ exists it, item d n w = Some it.
Definition clean (d n : string) (w : World) : Prop := own n w /\ exists it, item d n w = Some it /\ exposed it = false.
Definition whole (d n : string) (w : World) : Prop :=
  own n w /\ exists it, item d n w = Some it /\ it_whole it = true /\ exposed it = false.
Definition unclaimed (n : string) (w : World) : Prop := own n w /\ forall d, item d n w = None.
(** Nobody's: no operation that runs, and no process that writes. *)
Definition judged (d n : string) (w : World) : Prop := holds w /\ (~ running n w) /\ (~ held d n w).
Definition idle (n : string) (w : World) : Prop := holds w /\ ~ running n w.
Definition inside (d : string) (ns : list string) (w : World) : Prop :=
  holds w /\ forall n, item d n w <> None -> n ∈ ns.

#[global] Instance stable_holds : Stable me holds.
Proof. intros w w' Hr Hl. by destruct (rely_lock _ _ _ Hr Hl). Qed.
#[global] Instance stable_own n : Stable me (own n).
Proof. intros w w' Hr [Hn Hl]. destruct (rely_own _ _ _ Hr n Hn) as [? H]. split; [done|]. by apply H. Qed.

Lemma own_calm n d w w' : rely me w w' -> own n w -> calm (item d n w) (item d n w').
Proof. intros Hr [Hn Hl]. destruct (rely_own _ _ _ Hr n Hn) as [? H]. by apply H. Qed.

#[global] Instance stable_present d n : Stable me (present d n).
Proof.
  intros w w' Hr [Ho [it E]]. split; [by eapply stable_own|]. pose proof (own_calm n d _ _ Hr Ho) as Hc. rewrite E in Hc.
  destruct (item d n w'); [eauto|done].
Qed.
#[global] Instance stable_clean d n : Stable me (clean d n).
Proof.
  intros w w' Hr (Ho & it & E & Hh). split; [by eapply stable_own|]. pose proof (own_calm n d _ _ Hr Ho) as Hc. rewrite E in Hc.
  destruct (item d n w') as [it'|]; [|done]. exists it'. split; [done|]. destruct Hc as [_ Hc]. destruct (exposed it'); [|done].
  by rewrite Hc in Hh.
Qed.
#[global] Instance stable_whole d n : Stable me (whole d n).
Proof.
  intros w w' Hr (Ho & it & E & Hw & Hh). split; [by eapply stable_own|]. pose proof (own_calm n d _ _ Hr Ho) as Hc. rewrite E in Hc.
  destruct (item d n w') as [it'|]; [|done]. exists it'. destruct Hc as [Hc1 Hc]. split_and!; [done|congruence|].
  destruct (exposed it'); [|done]. by rewrite Hc in Hh.
Qed.
#[global] Instance stable_unclaimed n : Stable me (unclaimed n).
Proof.
  intros w w' Hr (Ho & Hi). split; [by eapply stable_own|]. intros d. pose proof (own_calm n d _ _ Hr Ho) as Hc. rewrite Hi in Hc.
  by destruct (item d n w').
Qed.
#[global] Instance stable_idle n : Stable me (idle n).
Proof. intros w w' Hr [Hl Hn]. destruct (rely_lock _ _ _ Hr Hl) as (? & _ & H). split; [done|]. by apply H. Qed.
#[global] Instance stable_judged d n : Stable me (judged d n).
Proof.
  intros w w' Hr (Hl & Hn & Hh). destruct (rely_lock _ _ _ Hr Hl) as (? & _ & H). destruct (H n Hn) as [? Hd].
  split_and!; [done..|]. intros ?. apply Hh. auto.
Qed.
#[global] Instance stable_inside d ns : Stable me (inside d ns).
Proof.
  intros w w' Hr (Hl & Hi). destruct (rely_lock _ _ _ Hr Hl) as (? & H & _). split; [done|]. intros n Hn. apply Hi.
  intros Hx. by apply Hn, H.
Qed.

Lemma whole_clean d n w : whole d n w -> clean d n w.
Proof. intros (Ho & it & ? & ? & ?). split; [done|eauto]. Qed.
Lemma clean_present d n w : clean d n w -> present d n w.
Proof. intros (Ho & it & ? & ?). split; [done|eauto]. Qed.

(** ** Triples *)

Notation Prog := (prog answer).
Definition Amid {A} (p : Prog A) (Q : A -> World -> Prop) : World -> Prop := amid (exec me) WInv (rely me) (guar me) p Q.
Definition spec {A} (P : World -> Prop) (p : Prog A) (Q : A -> World -> Prop) : Prop := forall w, WInv w -> P w -> Amid p Q w.

Lemma spec_conseq {A} (P P' : World -> Prop) (p : Prog A) (Q Q' : A -> World -> Prop) :
  spec P' p Q' -> (forall w, WInv w -> P w -> P' w) -> (forall a w, WInv w -> Q' a w -> Q a w) -> spec P p Q.
Proof. intros H HP HQ w Hi Hp. eapply amid_weaken; [|apply H; auto]. auto. Qed.
Lemma spec_pre {A} (P P' : World -> Prop) (p : Prog A) Q : (forall w, P w -> P' w) -> spec P' p Q -> spec P p Q.
Proof. intros HP H. eapply spec_conseq; [exact H|auto..]. Qed.
Lemma spec_post {A} P (p : Prog A) (Q Q' : A -> World -> Prop) : (forall a w, Q' a w -> Q a w) -> spec P p Q' -> spec P p Q.
Proof. intros HQ H. eapply spec_conseq; [exact H|auto..]. Qed.

Lemma spec_fact {A} (φ : Prop) P (p : Prog A) Q : (φ -> spec P p Q) -> spec (fun w => φ /\ P w) p Q.
Proof. intros H w Hi [Hφ Hp]. by apply H. Qed.

Lemma spec_ret {A} (a : A) P (Q : A -> World -> Prop) : Stable me P -> (forall w, P w -> Q a w) -> spec P (mret a) Q.
Proof. intros Hs HQ w Hi Hp. apply amid_ret. intros w1 _ Hr. by apply HQ, (Hs w w1). Qed.

Lemma spec_bind {A B} P (m : Prog A) (k : A -> Prog B) R Q : spec P m R -> (forall a, spec (R a) (k a) Q) -> spec P (m ≫= k) Q.
Proof.
  intros Hm Hk w Hi Hp. apply amid_bind; [apply _..|done|]. eapply amid_weaken; [|by apply Hm]. intros a w' Hi' HR. by apply Hk.
Qed.

Lemma spec_act e P Q : Stable me P -> (forall x, Stable me (Q x)) ->
  (forall w c x w', WInv w -> P w -> exec me e c w = Some (x, w') -> WInv w' /\ guar me w w' /\ Q x w') -> spec P (act e) Q.
Proof.
  intros HP HQ H w Hi Hp. apply amid_act; [apply _|]. intros w1 c x w2 Hi1 Hr E.
  destruct (H w1 c x w2) as (? & ? & ?); [done|by apply (HP w w1)|done|]. split_and!; [done..|]. intros w3 _ ?. by apply (HQ x w2 w3).
Qed.

(** An action that does only what the others may do too: what is stable
    survives it. *)
Lemma spec_stays e F (R : answer e -> World -> Prop) : Stable me F -> (forall x, Stable me (R x)) ->
  (forall w c x w', WInv w -> F w -> exec me e c w = Some (x, w') -> WInv w' /\ (forall j, rely j w w') /\ R x w') ->
  spec F (act e) (fun x w => F w /\ R x w).
Proof.
  intros HF HR H. apply spec_act; [apply _..|]. intros w c x w' Hi Hp E. destruct (H w c x w' Hi Hp E) as (? & Hr & ?).
  split_and!; [done|by intros j _|by apply (HF w w')|done].
Qed.

(** An action that changes nothing. *)
Lemma spec_pure e F (R : answer e -> World -> Prop) : Stable me F -> (forall x, Stable me (R x)) ->
  (forall w c x w', F w -> exec me e c w = Some (x, w') -> w' = w /\ R x w) ->
  spec F (act e) (fun x w => F w /\ R x w).
Proof.
  intros HF HR H. apply spec_stays; [apply _..|]. intros w c x w' Hi Hp E. destruct (H w c x w' Hp E) as [-> ?].
  by split_and!.
Qed.

Lemma spec_trying {E A B} P (m : Prog (E + A)) (k : A -> Prog (E + B)) R Q : spec P m R ->
  (forall err, spec (R (inl err)) (mret (inl err)) Q) -> (forall a, spec (R (inr a)) (k a) Q) -> spec P (trying m k) Q.
Proof. intros Hm He Hk. eapply spec_bind; [exact Hm|]. intros [err|a]; [apply He|apply Hk]. Qed.

#[global] Instance stable_exist {A} (P : A -> World -> Prop) : (forall a, Stable me (P a)) -> Stable me (fun w => exists a, P a w).
Proof. intros HP w w' Hr [a H]. exists a. by apply (HP a w w'). Qed.

Lemma spec_onError {E F A} (f : E -> F) P (m : Prog (E + A)) R : (forall r, Stable me (R r)) -> spec P m R ->
  spec P (onError f m) (fun r w => match r with inr x => R (inr x) w | inl e => exists err, e = f err /\ R (inl err) w end).
Proof. intros HR H. eapply spec_bind; [exact H|]. intros [err|x]; (apply spec_ret; [apply _|]); eauto. Qed.
Lemma spec_onError_keeps {E F A} (f : E -> F) P (m : Prog (E + A)) G : Stable me G ->
  spec P m (fun _ w => G w) -> spec P (onError f m) (fun _ w => G w).
Proof. intros HG H. eapply spec_bind; [exact H|]. intros r. by apply spec_ret. Qed.
End stable.
