(* ===== verification/StagingActions.v ===== *)
(** * The actions of a backup, one by one

    What each action of Staging.v grants the other threads and what the thread
    that does it knows afterwards, as triples of StagingLogic.v. *)
From stdpp Require Import prelude gmap strings list.
From Stdlib Require Import Ascii String.
From S2P Require Import Prelude GoStr BackupController Programs Lifecycle Api Engine OpStore StoreRecords ManifestURI Paths Manifest Requests Artifact ManagerOps Staging StagingLogic.

(** ** Changes of the store *)

Lemma steady_rely s w : steady (w_store w) s -> forall j, rely j w (set_store s w).
Proof.
  intros Hs j. split.
  - intros n Hn. split; [done|]. intros Hr. split; [by apply Hs|done].
  - intros Hl. split_and!; [done|done|]. intros n Hn. split; [|done]. intros Hr. by apply Hn, Hs.
Qed.

Lemma steady_inv s w : steady (w_store w) s -> StoreInv s -> WInv w -> WInv (set_store s w).
Proof.
  intros Hs Hi [_ Hh He]. split; [done|done|]. intros d n n' Hr Hr'. apply He; by apply Hs.
Qed.

(** A call about an operation of this thread. *)
Lemma local_rely me id s w : local id (w_store w) s -> own me id w -> forall j, j <> me \/ live id s -> rely j w (set_store s w).
Proof.
  intros Hl [Hid Hlive] j Hj. assert (forall n, n <> id -> running n w <-> live n s) as Hiff by (intros n; by apply local_live_iff).
  split.
  - intros n Hn. split; [done|]. intros Hr. split; [|done]. destruct (decide (n = id)) as [->|Hne]; [|by apply Hiff].
    destruct Hj as [Hj|Hj]; [congruence|done].
  - intros Hlock. split_and!; [done|done|]. intros n Hn. split; [|done]. destruct (decide (n = id)) as [->|Hne]; [done|].
    intros Hr. by apply Hn, Hiff.
Qed.

Lemma local_inv me id s w : local id (w_store w) s -> own me id w -> StoreInv s -> WInv w -> WInv (set_store s w).
Proof.
  intros Hl [Hid Hlive] Hi [_ Hh He]. split; [done|done|].
  assert (forall n, live n s -> running n w) as Hr.
  { intros n Hn. destruct (decide (n = id)) as [->|Hne]; [done|]. by eapply (local_live_iff n id). }
  intros d n n' Hn Hn'. apply He; by apply Hr.
Qed.

Lemma onStore_inv {A} (call : M A) writes w r w' : onStore call writes w = (r, w') ->
  exists s, call (set_writes writes (w_store w)) = (r, s) /\ w' = set_store s w.
Proof. unfold onStore. destruct (call _) as [r0 s]. intros [= <- <-]. eauto. Qed.

Lemma FindOrCreate_newID env kind key hash db s op s' :
  FindOrCreate env kind key hash db s = (inr (op, false), s') -> StoreInv s -> env_newID env = Some (op_ID op).
Proof. intros H Hi. apply FindOrCreate_cases in H; [|done]. by inversion H. Qed.

(** ** Changes of the tree *)

Lemma item_set_items d items w d' n : item d' n (set_items d items w) = if decide (d' = d) then items !! n else item d' n w.
Proof.
  unfold item, itemsAt, set_items. cbn. case_decide as Hd; [subst; by rewrite lookup_insert_eq|by rewrite lookup_insert_ne].
Qed.

Lemma item_dest d n w : item d n w <> None -> w_tree w !! d = Some (Destination (itemsAt d w)).
Proof. unfold item, itemsAt. destruct (w_tree w !! d) as [[|items]|]; done. Qed.

Lemma item_on_item d n f w d' n' : item d' n' (on_item d n f w) =
  if decide (d' = d /\ n' = n) then f <$> item d' n' w else item d' n' w.
Proof.
  unfold on_item. destruct (w_tree w !! d) as [[|items]|] eqn:E.
  2: { rewrite item_set_items. unfold item, itemsAt. destruct (decide (d' = d)) as [->|Hd].
       - rewrite E. destruct (decide (n' = n)) as [->|Hn].
         + by rewrite lookup_alter_eq, decide_True.
         + rewrite lookup_alter_ne by done. rewrite decide_False; [done|]. by intros [_ ?].
       - rewrite decide_False; [done|]. by intros [? _]. }
  all: case_decide as Hd; [|done]; destruct Hd as [-> ->]; unfold item, itemsAt; by rewrite E, lookup_empty.
Qed.

Lemma on_item_same d n f w : w_store (on_item d n f w) = w_store w /\ w_runs (on_item d n f w) = w_runs w /\
  w_lock (on_item d n f w) = w_lock w /\ w_harm (on_item d n f w) = w_harm w.
Proof. unfold on_item. by destruct (w_tree w !! d) as [[|]|]. Qed.

Lemma item_delete d w d' n : itemsAt d w = ∅ -> item d' n (set_tree (delete d (w_tree w)) w) = item d' n w.
Proof.
  intros He. unfold item. destruct (decide (d' = d)) as [->|Hd].
  - rewrite He. unfold itemsAt. cbn. by rewrite lookup_delete_eq.
  - unfold itemsAt. cbn. by rewrite lookup_delete_ne.
Qed.

Lemma unused_item id w : unused id w -> forall d, item d id w = None.
Proof.
  intros (_ & _ & _ & _ & _ & H) d. destruct (w_tree w !! d) as [nd|] eqn:E; [by apply (H d nd)|].
  unfold item, itemsAt. by rewrite E.
Qed.

(** The lock is all that a thread without operations has to keep to. *)
Lemma tree_rely me w w' : w_store w' = w_store w -> w_runs w' = w_runs w -> w_lock w' = w_lock w ->
  (forall d n, item d n w = item d n w' \/ (~ running n w) \/ own me n w) ->
  w_lock w = Some me \/ (forall d n, item d n w = None -> item d n w' = None) /\ (forall d n, held d n w' -> held d n w \/ running n w) ->
  guar me w w'.
Proof.
  intros Hs Hr Hl Hi Hc j Hj. unfold running, own in *. split.
  - intros n Hn. unfold running. rewrite Hr, Hs. split; [done|]. intros Hrun. split; [done|]. intros d. destruct (Hi d n) as [->|[?|[? _]]]; [done|done|congruence].
  - intros Hlock. destruct Hc as [?|[Hn Hh]]; [congruence|]. unfold running. rewrite Hl, Hs. split_and!; [done|auto|]. intros n Hrun. split; [done|].
    intros d Hd. by destruct (Hh d n Hd).
Qed.

Lemma same_items_inv w w' : w_store w' = w_store w -> w_harm w' = w_harm w ->
  (forall d n, item d n w' <> None -> item d n w <> None) -> WInv w -> WInv w'.
Proof.
  intros Hs Hh Hi [H1 H2 H3]. split; [by rewrite Hs|by rewrite Hh|]. intros d n n'. unfold running. rewrite Hs. intros. by eapply H3; eauto.
Qed.

Section thread.
Context (me : nat).
Implicit Type F : World -> Prop.

(** What is stable survives a reading of the store. *)
Lemma StoreGet_any F n : Stable me F -> spec me F (act (StoreGet n)) (fun r w => F w).
Proof.
  intros HF. eapply spec_post; [|apply (spec_stays me (StoreGet n) F (fun _ _ => True)); [apply _..|]]; [by intros ?? [? _]|].
  intros w c x w' Hi Hp E. cbn in E. destruct c; try done. injection E as E. apply onStore_inv in E as (s & E & ->).
  assert (StoreInv (set_writes writes (w_store w))) as Hs by (apply set_writes_inv, Hi).
  pose proof (Get_steady _ _ _ _ _ E Hs) as Hst. apply Get_ok in E as [[Hinv _] _]; [|done].
  split_and!; [|by apply steady_rely|done]. apply steady_inv; auto.
Qed.

Lemma StoreGet_idle F n : Stable me F -> isValidOperationID n = true -> (forall w, F w -> holds me w) ->
  spec me F (act (StoreGet n)) (fun r w => F w /\
    (r = inl ErrOperationNotFound \/ (exists op, r = inr op /\ IsTerminal (op_State op) = true) -> idle me n w)).
Proof.
  intros HF Hv Hh. apply (spec_stays me (StoreGet n) F); [apply _..|].
  intros w c x w' Hi Hp E. cbn in E. destruct c; try done. injection E as E. apply onStore_inv in E as (s & E & ->).
  assert (StoreInv (set_writes writes (w_store w))) as Hs by (apply set_writes_inv, Hi).
  pose proof (Get_steady _ _ _ _ _ E Hs) as Hst. pose proof (fun H => Get_not_live _ _ _ _ _ E Hs Hv H) as Hnl.
  apply Get_ok in E as [[Hinv _] _]; [|done].
  split_and!; [apply steady_inv; auto|by apply steady_rely|]. intros Hr. split; [exact (Hh w Hp)|exact (Hnl Hr)].
Qed.

(** What an operation of this thread records. *)
Lemma StoreUpdate_spec F id f : Stable me F -> (forall w, F w -> own me id w) -> progress f ->
  spec me F (act (StoreUpdate id f)) (fun r w => F w).
Proof.
  intros HF Ho Hf. eapply spec_post; [|apply (spec_stays me (StoreUpdate id f) F (fun _ _ => True)); [apply _..|]]; [by intros ?? [? _]|].
  intros w c x w' Hi Hp E. cbn in E. destruct c; try done. injection E as E. apply onStore_inv in E as (s & E & ->).
  assert (StoreInv (set_writes writes (w_store w))) as Hs by (apply set_writes_inv, Hi).
  pose proof (updateLocked_local _ _ _ _ _ _ E (proj1 Hf)) as Hl.
  apply Update_ok in E as ([Hinv _] & Hlive & _); [|done|apply Ho, Hp|done].
  split_and!; [eapply local_inv; eauto| |done]. intros j. eapply local_rely; eauto.
Qed.

Lemma StoreSettle_spec F G id f : Stable me F -> Stable me G -> (forall w, F w -> own me id w /\ G w) -> (forall w s, G w -> G (set_store s w)) ->
  isEnd f -> spec me F (act (StoreSettle id f)) (fun _ w => G w).
Proof.
  intros HF HG Ho Hg Hf. apply spec_act; [apply _..|].
  intros w c x w' Hi Hp E. cbn in E. destruct c; try done. injection E as E. apply onStore_inv in E as (s & E & ->).
  assert (StoreInv (set_writes writes (w_store w))) as Hs by (apply set_writes_inv, Hi). destruct (Ho w Hp).
  pose proof (Settle_local _ _ _ _ _ _ E Hs Hf) as Hl. apply Settle_ok in E as [Hinv _]; [|done..].
  split_and!; [eapply local_inv; eauto| |auto]. intros j Hj. eapply local_rely; eauto.
Qed.

Lemma StoreFindOrCreate_spec F key hash db : Stable me F -> (forall w, F w -> holds me w) -> key <> "" ->
  spec me F (act (StoreFindOrCreate key hash db)) (fun r w => holds me w /\ (forall op, r = inr (op, false) -> unclaimed me (op_ID op) w)).
Proof.
  intros HF Hh Hkey. apply spec_act; [apply _..|]. intros w c x w' Hi Hp E. cbn in E. destruct c; try done.
  destruct (drawsUnused env w) eqn:Hu; cbn [negb] in E; [|done].
  destruct (onStore _ writes w) as [r w1] eqn:E1. apply onStore_inv in E1 as (s & E1 & ->).
  assert (StoreInv (set_writes writes (w_store w))) as Hs by (apply set_writes_inv, Hi).
  assert (forall id, env_newID env = Some id -> unused id w) as Hfresh.
  { intros id Hid. unfold drawsUnused in Hu. rewrite Hid in Hu. by apply bool_decide_eq_true in Hu. }
  pose proof (FindOrCreate_steady _ _ _ _ _ _ _ _ E1 Hs) as Hst.
  apply FindOrCreate_ok in E1 as Hok; [|done| |done|done|].
  2: { intros id Hid. by destruct (Hfresh id Hid) as (? & ? & _). }
  2: { intros id Hid. by destruct (Hfresh id Hid) as (_ & _ & ? & ? & _). }
  destruct Hok as [[Hinv _] Hlive]. specialize (Hinv Hs). pose proof (Hh w Hp) as Hlock.
  assert (WInv (set_store s w)) as Hw.
  { destruct Hi as [_ H2 H3]. split; [done|done|]. intros d n n' Hn Hn' Hd Hd'.
    assert (forall m, live m s -> item d m w <> None -> running m w) as Hrun.
    { intros m Hm Hitem. apply Hst; [|done]. intros Hid. by rewrite (unused_item m w (Hfresh m Hid)) in Hitem. }
    eapply (H3 d); eauto. }
  assert (forall j m, j <> me -> w_runs w !! m = Some j -> env_newID env <> Some m) as Hne.
  { intros j m _ Hm Hid. destruct (Hfresh m Hid) as (_ & _ & _ & _ & ? & _). congruence. }
  destruct r as [e|[op b]].
  - injection E as <- <-. split_and!; [done| |done|done]. intros j Hj. split; [|intros ?; unfold holds in Hlock; congruence].
    intros n Hn. split; [done|]. intros Hr. split; [|done]. apply Hst; [by eapply Hne|done].
  - injection E as <- <-. destruct b.
    + split_and!; [done| |done|done]. intros j Hj. split; [|intros ?; unfold holds in Hlock; congruence].
      intros n Hn. split; [done|]. intros Hr. split; [|done]. apply Hst; [by eapply Hne|done].
    + pose proof (FindOrCreate_newID _ _ _ _ _ _ _ _ E1 Hs) as Hnew. split_and!.
      * destruct Hw as [H1 H2 H3]. by split.
      * intros j Hj. split; [|intros ?; unfold holds in Hlock; congruence].
        intros n Hn. assert (n <> op_ID op) by (intros ->; by eapply Hne). split; [cbn; by rewrite lookup_insert_ne|].
        intros Hr. split; [|done]. apply Hst; [by eapply Hne|done].
      * done.
      * intros op0 [= <-]. split; [split; [apply lookup_insert_eq|by apply Hlive]|]. exact (unused_item _ _ (Hfresh _ Hnew)).
Qed.

(** *** The lock and the root *)

Lemma Lock_spec F : Stable me F -> spec me F (act Lock) (fun _ w => F w /\ holds me w).
Proof.
  intros HF. apply spec_stays; [apply _..|]. intros w c x w' Hi Hp E. cbn in E. destruct (w_lock w) eqn:El; [done|].
  injection E as <- <-. split_and!; [destruct Hi; by split| |done]. intros j. split; [by intros n|]. rewrite El. done.
Qed.

Lemma Unlock_spec G : Stable me G -> (forall w, G w -> G (set_lock None w)) ->
  spec me (fun w => G w /\ holds me w) (act Unlock) (fun _ w => G w).
Proof.
  intros HG Hg. apply spec_act; [apply _..|]. intros w c x w' Hi [Hp Hl] E. injection E as <- <-.
  split_and!; [destruct Hi; by split| |auto]. intros j Hj. split; [by intros n|]. unfold holds in Hl. intros ?. congruence.
Qed.

Lemma same_spec e F : Stable me F -> (forall c w x w', exec me e c w = Some (x, w') -> w' = w) -> spec me F (act e) (fun _ w => F w).
Proof.
  intros HF He. eapply spec_post; [|apply (spec_pure me e F (fun _ _ => True)); [apply _..|]]; [by intros ?? [? _]|].
  intros w c x w' _ E. by apply He in E.
Qed.

Lemma same_items_rely w w' : w_store w' = w_store w -> w_runs w' = w_runs w -> w_lock w' = w_lock w ->
  (forall d n, item d n w' = item d n w) -> forall j, rely j w w'.
Proof.
  intros Hs Hr Hl Hi j. unfold running, held. split.
  - intros n. unfold running. rewrite Hr, Hs. intros Hn. split; [done|]. intros Hrun. split; [done|]. intros d. by rewrite Hi.
  - unfold running, held. rewrite Hl, Hs. intros Hlock. split_and!; [done|by intros n d; rewrite Hi|]. intros n Hn. split; [done|]. intros d. by rewrite Hi.
Qed.

Lemma same_items_spec e F : Stable me F ->
  (forall c w x w', exec me e c w = Some (x, w') -> w_store w' = w_store w /\ w_runs w' = w_runs w /\ w_lock w' = w_lock w /\
    w_harm w' = w_harm w /\ forall d n, item d n w' = item d n w) -> spec me F (act e) (fun _ w => F w).
Proof.
  intros HF He. eapply spec_post; [|apply (spec_stays me e F (fun _ _ => True)); [apply _..|]]; [by intros ?? [? _]|].
  intros w c x w' Hi Hp E. apply He in E as (H1 & H2 & H3 & H4 & H5). split_and!; [|by apply same_items_rely|done].
  eapply same_items_inv; [done..| |done]. intros d n. by rewrite H5.
Qed.

(** *** Destinations *)

Definition freeDest (d : string) (w : World) : Prop := holds me w /\ forall n, item d n w <> None -> ~ running n w.

#[global] Instance stable_freeDest d : Stable me (freeDest d).
Proof.
  intros w w' Hr [Hl H]. destruct (rely_lock _ _ _ Hr Hl) as (? & Hn & Hrun). split; [done|]. intros n Hin. apply Hrun, H.
  intros Hx. by apply Hin, Hn.
Qed.

Lemma OpenDestination_spec F d : Stable me F -> (forall w, F w -> holds me w) ->
  spec me F (act (OpenDestination d)) (fun x w => F w /\ (x = NotExist -> inside me d [] w)).
Proof.
  intros HF Hh. apply spec_pure; [apply _..|]. intros w c x w' Hp E. cbn in E. injection E as <- <-. split; [done|]. intros Hx.
  split; [by apply Hh|]. intros n. unfold item, itemsAt. destruct (w_tree w !! d); [by destruct c|]. by rewrite lookup_empty.
Qed.

Lemma ReadDestination_spec F d : Stable me F -> (forall w, F w -> holds me w) ->
  spec me F (act (ReadDestination d)) (fun x w => F w /\ (forall ns, x = inr ns -> inside me d ns w /\ NoDup ns)).
Proof.
  intros HF Hh. apply spec_pure; [apply _..|]. intros w c x w' Hp E. cbn in E. injection E as <- <-. split; [done|]. intros ns Hx.
  assert (ns = (map_to_list (itemsAt d w)).*1) as ->.
  { destruct c, (isDestination d w); simplify_eq; done. }
  split; [|apply NoDup_fst_map_to_list]. split; [by apply Hh|]. intros n Hn.
  unfold item in Hn. destruct (itemsAt d w !! n) as [it|] eqn:E; [|done]. apply list_elem_of_fmap. exists (n, it). split; [done|].
  by apply elem_of_map_to_list.
Qed.

Lemma MkdirDestination_spec F d : Stable me F -> spec me F (act (MkdirDestination d)) (fun _ w => F w).
Proof.
  intros HF. apply same_items_spec; [apply _|]. intros c w x w' E. cbn in E.
  destruct c, (is_nil (w_tree w !! d)) eqn:En; injection E as <- <-; split_and!; try done; intros d' m; rewrite item_set_items;
    (case_decide as Hd; [subst|done]); unfold item, itemsAt; destruct (w_tree w !! d); done.
Qed.

Lemma RemoveDestination_spec F d : Stable me F -> spec me F (act (RemoveDestination d)) (fun _ w => F w).
Proof.
  intros HF. apply same_items_spec; [apply _|]. intros c w x w' E. cbn in E. injection E as <- <-.
  destruct (isDestination d w && bool_decide (itemsAt d w = ∅)) eqn:En; [|by destruct c].
  apply andb_true_iff in En as [_ En]. apply bool_decide_eq_true in En.
  destruct c; split_and!; try done; intros d' m; by apply item_delete.
Qed.

(** *** Entries *)

Lemma item_removal d n b w d' n' : item d' n' (removal d n b w) =
  if decide (d' = d /\ n' = n) then if b then None else (fun it => mkItem false (it_writers it)) <$> item d' n' w else item d' n' w.
Proof.
  unfold removal. destruct (item d n w) as [it|] eqn:E.
  - destruct b; cbn [harmed].
    + change (item d' n' (harmed _ ?w)) with (item d' n' w). rewrite item_set_items. destruct (decide (d' = d)) as [->|Hd].
      * destruct (decide (n' = n)) as [->|Hn]; [by rewrite lookup_delete_eq, decide_True|].
        rewrite lookup_delete_ne by done. rewrite decide_False; [done|]. by intros [_ ?].
      * rewrite decide_False; [done|]. by intros [? _].
    + change (item d' n' (harmed _ ?w)) with (item d' n' w). by rewrite item_on_item.
  - case_decide as Hd; [|done]. destruct Hd as [-> ->]. rewrite E. by destruct b.
Qed.

Lemma removal_same d n b w : w_store (removal d n b w) = w_store w /\ w_runs (removal d n b w) = w_runs w /\
  w_lock (removal d n b w) = w_lock w /\ ((~ held d n w) -> w_harm (removal d n b w) = w_harm w).
Proof.
  unfold removal. destruct (item d n w) as [it|] eqn:E; [|done].
  assert ((~ held d n w) -> exposed it = false) as Hh.
  { intros Hn. destruct (exposed it) eqn:Eh; [|done]. destruct Hn. by exists it. }
  destruct b; cbn; [|unfold on_item; destruct (w_tree w !! d) as [[|]|]]; split_and!; try done; intros Hn; by rewrite Hh, orb_false_r.
Qed.

Lemma stagingRemoval_inv d n b w : (~ held d n w) -> WInv w -> WInv (removal d n b w).
Proof.
  intros Hn Hi. destruct (removal_same d n b w) as (Hs & _ & _ & Hh). eapply same_items_inv; [done|by apply Hh| |done].
  intros d' n'. rewrite item_removal. case_decide as Hd; [|done]. destruct b; [done|]. by destruct (item d' n' w).
Qed.

Lemma RemoveItem_judged F d n : Stable me F -> (forall w, F w -> judged me d n w) -> spec me F (act (RemoveItem d n)) (fun _ w => F w).
Proof.
  intros HF Hj. eapply spec_post; [|apply (spec_stays me (RemoveItem d n) F (fun _ _ => True)); [apply _..|]]; [by intros ?? [? _]|].
  intros w c x w' Hi Hp E. destruct (Hj w Hp) as (_ & Hr & Hh).
  assert (w' = w \/ exists b, w' = removal d n b w) as [->|[b ->]]; [by cbn in E; destruct c; injection E as _ <-; eauto|by split_and!|].
  destruct (removal_same d n b w) as (Hs & Hru & Hl & _). split_and!; [by apply stagingRemoval_inv| |done]. intros j. split.
  - intros n'. unfold running. rewrite Hs, Hru. intros Hn'. split; [done|]. intros Hrun. split; [done|]. intros d'. rewrite item_removal.
    case_decide as Hd; [|done]. by destruct Hd as [-> ->].
  - rewrite Hl. intros Hlock. unfold running, held. rewrite Hs. split_and!; [done| |].
    + intros n' d' En. rewrite item_removal. case_decide; [|done]. by destruct b; [|rewrite En].
    + intros n' Hn'. split; [done|]. intros d'. rewrite item_removal. case_decide as Hd; [|done]. destruct b; [by intros (? & ? & _)|].
      intros (it & Eit & Hheld). apply fmap_Some in Eit as (it0 & E0 & ->). by exists it0.
Qed.

Lemma RemoveItem_own d n : spec me (fun w => clean me d n w /\ holds me w) (act (RemoveItem d n)) (fun _ w => own me n w /\ holds me w).
Proof.
  apply spec_act; [apply _..|]. intros w c x w' Hi [(Ho & it & Eit & Hh) Hl] E.
  assert (~ held d n w) as Hn by (intros (it' & ? & ?); congruence).
  assert (w' = w \/ exists b, w' = removal d n b w) as [->|[b ->]]; [by cbn in E; destruct c; injection E as _ <-; eauto|by split_and!|].
  destruct (removal_same d n b w) as (Hs & Hru & Hlk & _).
  split_and!; [by apply stagingRemoval_inv| |unfold own, running; by rewrite Hru, Hs|unfold holds; by rewrite Hlk].
  apply tree_rely; [done..| |by left]. intros d' n'. rewrite item_removal. case_decide as Hd; [|by left]. destruct Hd as [-> ->]. by right; right.
Qed.

Lemma MkdirItem_spec d n : spec me (fun w => unclaimed me n w /\ freeDest d w) (act (MkdirItem d n))
  (fun x w => holds me w /\ match x with inr _ => clean me d n w | inl _ => unclaimed me n w end).
Proof.
  apply spec_act; [apply _|by intros [?|?]; apply _|]. intros w c x w' Hi [[Ho Hu] [Hl Hf]] E.
  assert ((exists err, x = inl err) /\ w' = w \/ x = inr tt /\ w' = set_items d (<[n := mkItem false Quiet]> (itemsAt d w)) w) as [[[err ->] ->]|[-> ->]].
  { cbn in E. destruct c, (isDestination d w), (is_nil (item d n w)); injection E as <- <-; eauto. }
  { by split_and!. }
  assert (forall d' n', item d' n' (set_items d (<[n := mkItem false Quiet]> (itemsAt d w)) w) =
    if decide (d' = d /\ n' = n) then Some (mkItem false Quiet) else item d' n' w) as Hitem.
  { intros d' n'. rewrite item_set_items. destruct (decide (d' = d)) as [->|Hd]; [|rewrite decide_False; [done|by intros [? _]]].
    destruct (decide (n' = n)) as [->|Hn]; [by rewrite lookup_insert_eq, decide_True|]. rewrite lookup_insert_ne by done.
    rewrite decide_False; [done|by intros [_ ?]]. }
  split_and!; [| |done|].
  - destruct Hi as [H1 H2 H3]. split; [done|done|]. intros d' m m' Hm Hm'. rewrite !Hitem.
    repeat case_decide; try (destruct_and?; by subst).
    + destruct_and?; subst. intros _ Hx. by destruct (Hf m' Hx).
    + destruct_and?; subst. intros Hx _. by destruct (Hf m Hx).
    + by apply H3.
  - apply tree_rely; [done..| |by left]. intros d' n'. rewrite Hitem. case_decide as Hd; [|by left]. destruct Hd as [-> ->]. by right; right.
  - split; [done|]. exists (mkItem false Quiet). rewrite Hitem, decide_True by done. done.
Qed.

Lemma MkdirAllItem_spec F d n : Stable me F -> (forall w, F w -> present me d n w) -> spec me F (act (MkdirAllItem d n)) (fun _ w => F w).
Proof.
  intros HF Hp. eapply spec_post; [|apply (spec_pure me (MkdirAllItem d n) F (fun _ _ => True)); [apply _..|]]; [by intros ?? [? _]|].
  intros w c x w' Hw E. split; [|done]. destruct (Hp w Hw) as [_ [it Eit]]. cbn in E. rewrite Eit in E. cbn in E.
  destruct c, (negb (is_nil (w_tree w !! d)) && negb (isDestination d w)); by injection E as _ <-.
Qed.

(** *** backupdb and the upload *)

Lemma on_own_guar d n f w : own me n w -> guar me w (on_item d n f w) /\ own me n (on_item d n f w).
Proof.
  intros Ho. destruct (on_item_same d n f w) as (Hs & Hr & Hl & _).
  split; [|unfold own, running; by rewrite Hr, Hs]. apply tree_rely; [done..| |right].
  - intros d' n'. rewrite item_on_item. case_decide as Hd; [|by left]. destruct Hd as [-> ->]. by right; right.
  - split; intros d' n'; unfold held; rewrite item_on_item; (case_decide as Hd; [destruct Hd as [-> ->]|by auto]); [by intros ->|].
    intros _. right. by destruct Ho.
Qed.

Lemma on_item_inv d n f w : WInv w -> WInv (on_item d n f w).
Proof.
  intros Hi. eapply same_items_inv; [| | |done].
  1,2: unfold on_item; by destruct (w_tree w !! d) as [[|]|].
  intros d' n'. rewrite item_on_item. case_decide; [|done]. by destruct (item d' n' w).
Qed.

Lemma item_on_here d n f w it : item d n w = Some it -> item d n (on_item d n f w) = Some (f it).
Proof. intros E. by rewrite item_on_item, decide_True, E. Qed.

(** *** Looking for holders *)

(** A look that finds none leaves a directory that nobody holds but who opens
    a file later. *)
Lemma noHolders_held c d n w x w' : exec me (Holders d n) c w = Some (x, w') ->
  (exists complete, w' = on_item d n (looked complete) w) /\ (noHolders x = true -> ~ held d n w').
Proof.
  cbn. intros [= <- <-]. split; [eauto|]. intros Hn (it & E & Hh). rewrite item_on_item, decide_True in E by done.
  apply fmap_Some in E as (it0 & E0 & ->). rewrite E0 in Hn. unfold noHolders, exposed, looked in *. cbn [it_writers fst snd] in *.
  by destruct c, (it_writers it0).
Qed.

Lemma idle_item d n n' f w : idle me n w -> idle me n (on_item d n' f w).
Proof. unfold idle, holds, running. by destruct (on_item_same d n' f w) as (-> & _ & -> & _). Qed.

Lemma Holders_idle F d n : Stable me F -> (forall f w, F w -> (~ running n w) -> F (on_item d n f w)) -> (forall w, F w -> idle me n w) ->
  spec me F (act (Holders d n)) (fun x w => F w /\ (noHolders x = true -> judged me d n w)).
Proof.
  intros HF Hf Hj. apply spec_act; [apply _..|]. intros w c x w' Hi Hp E. destruct (noHolders_held _ _ _ _ _ _ E) as [[b ->] Hn].
  destruct (Hj w Hp) as [Hl Hr]. destruct (idle_item d n n (looked b) w (Hj w Hp)) as [Hl' Hr'].
  split_and!; [by apply on_item_inv| |by apply Hf|by intros ?; split_and!; [..|apply Hn]].
  destruct (on_item_same d n (looked b) w) as (Hs & Hru & Hlk & _). apply tree_rely; [done..| |by left].
  intros d' n'. rewrite item_on_item. case_decide as Hd; [|by left]. destruct Hd as [-> ->]. by right; left.
Qed.

Lemma present_item d n f w : present me d n w -> present me d n (on_item d n f w).
Proof. intros [Ho [it E]]. split; [by apply on_own_guar|]. eexists. by apply item_on_here. Qed.

Lemma Holders_own F d n : Stable me F -> (forall f w, F w -> F (on_item d n f w)) -> (forall w, F w -> present me d n w) ->
  spec me F (act (Holders d n)) (fun x w => F w /\ (noHolders x = true -> clean me d n w)).
Proof.
  intros HF Hf Hj. apply spec_act; [apply _..|]. intros w c x w' Hi Hp E. destruct (noHolders_held _ _ _ _ _ _ E) as [[b ->] Hn].
  destruct (Hj w Hp) as [Ho _]. destruct (on_own_guar d n (looked b) w Ho) as [Hg _].
  split_and!; [by apply on_item_inv|done|by apply Hf|]. intros Hx. specialize (Hn Hx).
  destruct (present_item d n (looked b) w (Hj w Hp)) as [Ho' [it Eit]]. split; [done|]. exists it. split; [done|].
  destruct (exposed it) eqn:Eh; [|done]. destruct Hn. by exists it.
Qed.

Lemma BeginBackupdb_spec d n : spec me (present me d n) (act (BeginBackupdb d n)) (fun _ => present me d n).
Proof.
  apply spec_act; [apply _..|]. intros w c x w' Hi [Ho [it Eit]] E. injection E as <- <-.
  destruct (on_own_guar d n (fun _ => mkItem false Holding) w Ho). split_and!; [by apply on_item_inv|done|].
  split; [done|]. eexists. by apply item_on_here.
Qed.

Lemma EndBackupdb_spec d n : spec me (present me d n) (act (EndBackupdb d n))
  (fun x w => match x with None => whole me d n w | Some _ => present me d n w end).
Proof.
  apply spec_act; [apply _|by intros [?|]; apply _|]. intros w c x w' Hi [Ho [it Eit]] E. cbn in E.
  assert (w' = w /\ x <> None \/ exists f, w' = on_item d n f w /\ (x = None -> f it = mkItem true Quiet)) as [[-> Hx]|(f & -> & Hf)].
  { destruct c; injection E as <- <-; first [by left|right; eexists; split; [reflexivity|done]]. }
  - split_and!; [done|done|]. destruct x; [|done]. split; eauto.
  - destruct (on_own_guar d n f w Ho) as [? ?]. pose proof (item_on_here d n f w it Eit) as Hit. split_and!; [by apply on_item_inv|done|].
    destruct x; [split; eauto|]. rewrite Hf in Hit by done. split; [done|]. by exists (mkItem true Quiet).
Qed.

Lemma Upload_spec F d n spec_ : Stable me F -> (forall w, F w -> whole me d n w) -> spec me F (act (Upload d n spec_)) (fun _ w => F w).
Proof.
  intros HF Hp. eapply spec_post; [|apply (spec_pure me (Upload d n spec_) F (fun _ _ => True)); [apply _..|]]; [by intros ?? [? _]|].
  intros w c x w' Hw E. split; [|done]. destruct (Hp w Hw) as (_ & it & Eit & Hwh & _). cbn in E. rewrite Eit, Hwh in E. cbn in E.
  assert (harmed false w = w) as Hsame by (destruct w; unfold harmed; cbn; by rewrite orb_false_r).
  rewrite Hsame in E. destruct c; try done; by injection E as _ <-.
Qed.
End thread.
