(* ===== verification/StagingSafety.v ===== *)
(** * Backups never disturb each other

    Each program of Staging.v satisfies a triple of StagingLogic.v, and so
    every run of the manager, with any number of backups beside each other and
    crashes at any moment, keeps the invariant: nothing is removed that a look
    has not found free of writers, what is uploaded is what the operation's own backupdb wrote,
    and no two operations that run stage in one destination. *)
From stdpp Require Import prelude gmap strings list.
From Stdlib Require Import Ascii String.
From S2P Require Import Prelude GoStr BackupController Programs Lifecycle Api Engine OpStore StoreRecords ManifestURI Paths Manifest Requests Artifact ManagerOps Staging StagingLogic StagingActions.

Ltac sret := apply spec_ret; [apply _|intros w; try tauto].

Section claim.
Context (me : nat) (root : string) (errText : StoreErr -> string).
Implicit Type F : World -> Prop.

(** ** The claim *)

Lemma stagingRecordLive_spec F n : Stable me F -> (forall w, F w -> holds me w) ->
  spec me F (stagingRecordLive n) (fun x w => F w /\ (x = None -> idle me n w)).
Proof.
  intros HF Hh. unfold stagingRecordLive. destruct (isValidOperationID n) eqn:Hv; cbn [negb].
  - eapply spec_bind; [by apply StoreGet_idle|]. intros r. sret. intros [Hw Hr]. split; [done|]. intros Hx. apply Hr.
    destruct r as [[]|op]; try done; [by left|]. right. exists op. by destruct (IsTerminal (op_State op)).
  - eapply (spec_conseq me _ (fun w => F w /\ idle me n w) _ _ (fun x w => F w /\ (x = None -> idle me n w))); [sret| |done].
    intros w Hi Hw. split; [done|]. split; [by apply Hh|]. intros (_ & _ & o & Ho & _).
    destruct (inv_records _ (winv_store _ Hi) _ _ Ho) as [? _]. congruence.
Qed.

(** An assertion that a look at one of the entries [ns] of [d], of operations
    that do not run, leaves true. *)
Definition spared (d : string) (ns : list string) (F : World -> Prop) : Prop :=
  forall n f w, n ∈ ns -> F w -> (~ running n w) -> F (on_item d n f w).

Lemma spared_holds d ns : spared d ns (holds me).
Proof. intros n f w _ H _. unfold holds. by destruct (on_item_same d n f w) as (_ & _ & -> & _). Qed.
Lemma spared_inside d ns es : spared d ns (inside me d es).
Proof.
  intros n f w Hn [Hl H] Hr. split; [by eapply spared_holds|]. intros m. rewrite item_on_item. case_decide; [|apply H].
  intros Hm. apply H. intros Hx. by rewrite Hx in Hm.
Qed.
Lemma spared_judged d ns n : n ∉ ns -> spared d ns (judged me d n).
Proof.
  intros Hn m f w Hm (Hl & Hr & Hh) Hrun. unfold judged, held, running. destruct (on_item_same d m f w) as (-> & _ & _ & _).
  split_and!; [by eapply spared_holds|done|]. rewrite item_on_item. rewrite decide_False; [done|]. intros [_ ->]. done.
Qed.
Lemma spared_unclaimed d ns n : spared d ns (unclaimed me n).
Proof.
  intros m f w Hm [[Ho Hr] Hi] Hrun. unfold unclaimed, own, running. destruct (on_item_same d m f w) as (-> & -> & _ & _).
  split; [done|]. intros d'. rewrite item_on_item. case_decide; [|done]. by rewrite Hi.
Qed.
Lemma spared_and d ns F G : spared d ns F -> spared d ns G -> spared d ns (fun w => F w /\ G w).
Proof. intros HF HG n f w Hn [? ?] Hr. split; [by apply HF|by apply HG]. Qed.
Lemma spared_sub d ns ns' F : ns' ⊆ ns -> spared d ns F -> spared d ns' F.
Proof. intros Hs H n f w Hn. apply H. set_solver. Qed.

Lemma stagingOwnerLive_spec F d n : Stable me F -> spared d [n] F -> (forall w, F w -> holds me w) ->
  spec me F (stagingOwnerLive d n) (fun x w => F w /\ (x = None -> judged me d n w)).
Proof.
  intros HF Hsp Hh. unfold stagingOwnerLive. eapply spec_bind; [by apply stagingRecordLive_spec|]. intros [op|]; [sret; by intros [? _]|].
  eapply (spec_pre me _ (fun w => F w /\ idle me n w)); [intros w [? H]; auto|].
  eapply spec_bind.
  { apply (Holders_idle me (fun w => F w /\ idle me n w)); [apply _| |by intros w [_ ?]].
    intros f w [Hw Hidle] Hr. split; [apply Hsp; [set_solver|done|done]|by apply idle_item]. }
  intros found. sret. intros [[Hw _] Hj]. split; [done|].
  intros Hx. apply Hj. destruct found as [l [e|]], l; done.
Qed.

Lemma ownersAmong_spec F d ns : NoDup ns -> Stable me F -> spared d ns F -> (forall w, F w -> holds me w) ->
  spec me F (ownersAmong d ns) (fun x w => F w /\ (x = [] -> forall n, n ∈ ns -> judged me d n w)).
Proof.
  intros Hnd. revert F. induction Hnd as [|n ns Hn Hnd IH]; intros F HF Hsp Hh; cbn [ownersAmong].
  - sret. intros Hw. split; [done|]. intros _ n Hn. by apply elem_of_nil in Hn.
  - eapply spec_bind; [apply stagingOwnerLive_spec; [done|eapply spared_sub; [|done]; set_solver|done]|]. intros owner. cbn beta.
    eapply spec_bind.
    { apply (IH (fun w => F w /\ (owner = None -> judged me d n w))); [apply _| |intros w [? _]; auto].
      intros m f w Hm [Hw Hj] Hr. split; [apply Hsp; [set_solver|done|done]|]. intros Ho. by apply (spared_judged d ns n Hn m); auto. }
    intros live. sret. intros [[Hw Hj] Hl]. split; [done|]. intros Hx m [->|Hm]%elem_of_cons; [by destruct owner; auto|].
    apply Hl; [|done]. by destruct owner.
Qed.

Lemma liveStagingOwners_spec F d : Stable me F -> (forall ns, spared d ns F) -> (forall w, F w -> holds me w) ->
  spec me F (liveStagingOwners d) (fun x w => F w /\ (forall live es, x = inr (live, es) ->
    inside me d es w /\ (live = [] -> forall n, n ∈ es -> judged me d n w))).
Proof.
  intros HF Hsp Hh. unfold liveStagingOwners. eapply spec_bind; [by apply OpenDestination_spec|]. intros [u| |err].
  - apply (spec_pre me _ F); [by intros w [? _]|]. eapply spec_trying.
    + eapply spec_onError; [|by apply (ReadDestination_spec me F)]; apply _.
    + intros err. cbn beta iota. sret. intros (err' & _ & [? _]). split; [done|]. by intros ??.
    + intros es. cbn beta iota. eapply (spec_pre me _ (fun w => NoDup es /\ F w /\ inside me d es w)); [intros w [? H]; by destruct (H es)|].
      apply spec_fact. intros Hnd. eapply spec_bind.
      { apply (ownersAmong_spec (fun w => F w /\ inside me d es w)); [done|apply _|apply spared_and; [done|apply spared_inside]|intros w [? _]; auto]. }
      intros live. sret. intros [[Hw Hi] Hl]. split; [done|]. by intros ?? [= <- <-].
  - sret. intros [Hw Hi]. split; [done|]. intros live es [= <- <-]. split; [auto|]. intros _ n Hn. by apply elem_of_nil in Hn.
  - sret. intros [Hw _]. split; [done|]. by intros ??.
Qed.

Lemma removeEntries_spec F d es : Stable me F -> (forall w, F w -> forall n, n ∈ es -> judged me d n w) ->
  spec me F (removeEntries d es) (fun _ w => F w).
Proof.
  intros HF. induction es as [|e es IH]; intros Hj; cbn [removeEntries]; [sret|].
  eapply spec_bind; [apply RemoveItem_judged; [apply _|intros w Hw; apply (Hj w Hw); set_solver]|]. intros ?. apply IH.
  intros w Hw n Hn. apply (Hj w Hw). set_solver.
Qed.

Lemma reclaimDestination_spec F d : Stable me F -> (forall ns, spared d ns F) -> (forall w, F w -> holds me w) ->
  spec me F (reclaimDestination d) (fun x w => F w /\ (x = inr true -> freeDest me d w)).
Proof.
  intros HF Hsp Hh. unfold reclaimDestination. eapply spec_trying; [by apply liveStagingOwners_spec| |].
  - intros err. sret. intros [? _]. by split.
  - intros [live es]. cbn [fst snd]. destruct live as [|op live]; cbn.
    + apply (spec_pre me _ (fun w => F w /\ inside me d es w /\ forall n, n ∈ es -> judged me d n w)).
      { intros w [? H]. destruct (H [] es eq_refl). auto. }
      eapply spec_bind; [apply removeEntries_spec; [apply _|by intros w (_ & _ & ?)]|]. intros []. sret.
      intros (Hw & [Hl Hi] & Hj). split; [done|]. intros _. split; [done|]. intros n Hn. by apply Hj, Hi.
    + sret. intros [? _]. by split.
Qed.

Lemma claimBackupStaging_spec d n : spec me (fun w => unclaimed me n w /\ holds me w) (claimBackupStaging d n)
  (fun x w => holds me w /\ match x with inr _ => clean me d n w | inl _ => unclaimed me n w end).
Proof.
  set (F := fun w => unclaimed me n w /\ holds me w). assert (Stable me F) as HF by apply _.
  assert (forall err : string, spec me F (mret (inl err) : prog answer (string + unit)) (fun x w => holds me w /\ match x with inr _ => clean me d n w | inl _ => unclaimed me n w end)) as Hfail.
  { intros err. sret. by intros [? ?]. }
  unfold claimBackupStaging. eapply spec_bind; [by apply MkdirDestination_spec|]. intros made.
  assert (spec me F (isDir ←? wrapping "inspect the backup staging destination" (act (LstatDestination d));
      if negb isDir then failed ("the backup staging destination " +:+ d +:+ " is not a directory")
      else
        free ←? reclaimDestination d;
        if negb free then failed (ErrBackupStagingInUse +:+ ": " +:+ d)
        else wrapping "create the operation's backup staging directory" (act (MkdirItem d n)))
    (fun x w => holds me w /\ match x with inr _ => clean me d n w | inl _ => unclaimed me n w end)) as H; [|by destruct made; [| |apply Hfail]].
  eapply spec_trying.
  - eapply spec_onError; [|apply (same_spec me (LstatDestination d) F); [apply _|by intros c w x w' [= _ <-]]]; apply _.
  - intros err. cbn beta iota. apply (spec_pre me _ F); [by intros w (_ & _ & ?)|]. apply Hfail.
  - intros isDir. cbn beta iota. destruct isDir; cbn [negb]; [|apply Hfail].
    eapply spec_trying.
    { apply (reclaimDestination_spec F); [apply _| |by intros w [_ ?]]. intros ns. apply spared_and; [apply spared_unclaimed|apply spared_holds]. }
    + intros err. apply (spec_pre me _ F); [by intros w [? _]|]. apply Hfail.
    + intros [|]; cbn [negb]; [|apply (spec_pre me _ F); [by intros w [? _]|apply Hfail]].
      apply (spec_pre me _ (fun w => unclaimed me n w /\ freeDest me d w)); [intros w [[? _] Hf]; auto|].
      eapply spec_post; [|eapply spec_onError; [|apply MkdirItem_spec]]; [|by intros [?|?]; apply _].
      intros [err|u] w; [by intros (? & _ & ?)|exact id].
Qed.

Lemma setStagingDir_progress dir : progress (setStagingDir dir).
Proof. split; [intros o; by split_and!|]. intros o. by split. Qed.
Lemma stateRecorded_progress st : IsTerminal st = false -> progress (setState st).
Proof. intros Hst. split; [intros o; by split_and!|]. intros o. split; [|done]. unfold ended, setState. cbn. by rewrite Hst. Qed.
Lemma set_op_failed_end reason : isEnd (set_op_failed reason).
Proof. split; intros o; [by split_and!|done]. Qed.
Lemma setCompleted_end a : isEnd (setCompleted a).
Proof. split; intros o; [by split_and!|done]. Qed.

Lemma claimAndRecord_spec d n : spec me (fun w => unclaimed me n w /\ holds me w) (claimAndRecord root errText d n)
  (fun x w => holds me w /\ match x with inl (_, false) => unclaimed me n w | _ => clean me d n w end).
Proof.
  unfold claimAndRecord. eapply spec_trying.
  - eapply spec_onError; [|apply claimBackupStaging_spec]. by intros [?|?]; apply _.
  - intros e. cbn beta iota. sret. by intros (err & -> & ? & ?).
  - intros u. cbn beta iota. set (F := fun w => holds me w /\ clean me d n w). eapply spec_trying.
    + eapply spec_onError; [|apply (StoreUpdate_spec me F); [apply _|by intros w (_ & ? & _)|apply setStagingDir_progress]]. apply _.
    + intros e. cbn beta iota. sret. intros (err & -> & H). exact H.
    + intros op. cbn beta iota. sret. by intros [? ?].
Qed.

Lemma claimFailed_spec d n err (claimed : bool) :
  spec me (fun w => holds me w /\ if claimed then clean me d n w else unclaimed me n w) (claimFailed errText d n err claimed) (fun _ w => holds me w).
Proof.
  unfold claimFailed. apply (spec_bind me _ _ _ (fun _ w => own me n w /\ holds me w)).
  - destruct claimed; [|sret; intros (? & ? & _); done].
    apply (spec_pre me _ (fun w => clean me d n w /\ holds me w)); [by intros w [? ?]|]. apply RemoveItem_own.
  - intros u. cbv zeta. eapply spec_bind.
    + apply (StoreSettle_spec me _ (fun w => holds me w)); [apply _..|by intros w [? ?]|done|apply set_op_failed_end].
    + intros [serr|?]; [sret|]. eapply spec_post; [|eapply spec_onError; [|apply (StoreGet_any me (fun w => holds me w)); apply _]; apply _].
      by intros [e|op] w; [intros (? & _ & ?)|].
Qed.

Lemma checkOwners_spec F key d live : Stable me F -> spec me F (checkOwners errText key d live) (fun _ w => F w).
Proof.
  intros HF. induction live as [|owner live IH]; cbn [checkOwners]; [sret|].
  apply (spec_bind me _ _ _ (fun _ w => F w)).
  - destruct (op_Kind owner == ""); [|sret]. eapply spec_bind; [by apply StoreGet_any|]. intros got. sret.
  - intros [e|]; [sret|]. destruct (_ || _); [sret|apply IH].
Qed.

Lemma recordLocked_spec key hash d db : key <> "" -> spec me (holds me) (recordLocked root errText key hash d db)
  (fun x w => holds me w /\ (forall op, x = inr (op, true) -> clean me d (op_ID op) w)).
Proof.
  intros Hkey. set (Q := fun (x : RecordErr + (Operation * bool)) w => holds me w /\ (forall op, x = inr (op, true) -> clean me d (op_ID op) w)).
  assert (forall e, spec me (holds me) (mret (inl e)) Q) as Hfail by (intros e; sret; by intros ?; split).
  unfold recordLocked. apply (spec_trying me _ _ _ (fun _ w => holds me w)); [|apply Hfail|].
  { do 2 (apply spec_onError_keeps; [apply _|]). apply same_spec; [apply _|by intros c w x w' [= _ <-]]. }
  intros ?. apply (spec_trying me _ _ _ (fun _ w => holds me w)); [|apply Hfail|].
  { do 2 (apply spec_onError_keeps; [apply _|]). apply same_spec; [apply _|by intros c w x w' [= _ <-]]. }
  intros ?. apply (spec_trying me _ _ _ (fun _ w => holds me w)); [|apply Hfail|].
  { apply spec_onError_keeps; [apply _|]. eapply spec_post; [|by apply (liveStagingOwners_spec (holds me)); [apply _|intros ?; apply spared_holds|]]. by intros ?? [? _]. }
  intros [live es]. apply (spec_trying me _ _ _ (fun _ w => holds me w)); [apply checkOwners_spec, _|apply Hfail|]. intros ?. cbn [fst].
  eapply spec_trying.
  - eapply spec_onError; [|apply (StoreFindOrCreate_spec me (holds me)); [apply _|by intros w|exact Hkey]]; apply _.
  - intros e. cbn beta iota. sret. intros (? & _ & ? & _). by split.
  - intros [op existed]. cbn beta iota. destruct existed; [sret; intros [? _]; by split|].
    apply (spec_pre me _ (fun w => unclaimed me (op_ID op) w /\ holds me w)); [intros w [? H]; auto|].
    eapply spec_bind; [apply claimAndRecord_spec|]. intros [[err claimed]|u].
    + eapply spec_trying.
      * apply (spec_pre me _ (fun w => holds me w /\ if claimed then clean me d (op_ID op) w else unclaimed me (op_ID op) w)); [by destruct claimed|].
        apply claimFailed_spec.
      * apply Hfail.
      * intros o. sret. intros ?. by split.
    + sret. intros [? ?]. split; [done|]. by intros op' [= <-].
Qed.

Lemma recordBackup_spec key hash d db : key <> "" -> spec me (fun _ => True) (recordBackup root errText key hash d db)
  (fun x w => forall op, x = inr (op, true) -> clean me d (op_ID op) w).
Proof.
  intros Hkey. unfold recordBackup. eapply spec_bind; [apply Lock_spec, _|]. intros ?.
  eapply spec_bind; [eapply spec_pre; [|by apply recordLocked_spec]; by intros w [_ ?]|]. intros r.
  eapply spec_bind.
  - apply (spec_pre me _ (fun w => (forall op, r = inr (op, true) -> clean me d (op_ID op) w) /\ holds me w)); [by intros w [? ?]|].
    apply Unlock_spec; [apply _|done].
  - intros ?. sret.
Qed.

(** ** The reclaim when the manager starts *)

Lemma reclaimEach_spec es : spec me (holds me) (reclaimEach es) (fun _ => holds me).
Proof.
  induction es as [|[d isDir] es IH]; cbn [reclaimEach]; [sret|].
  apply (spec_bind me _ _ _ (fun _ => holds me)); [|intros ?; apply IH]. destruct (_ || _); [sret|].
  eapply spec_bind; [by apply (reclaimDestination_spec (holds me)); [apply _|intros ?; apply spared_holds|]|].
  intros [err|[]]; (apply (spec_pre me _ (holds me)); [by intros w [? _]|]); [sret|by apply RemoveDestination_spec, _|sret].
Qed.

Lemma reclaimBackupStaging_spec : spec me (fun _ => True) (reclaimBackupStaging root) (fun _ _ => True).
Proof.
  unfold reclaimBackupStaging. destruct (root == ""); [sret|]. eapply spec_bind; [apply Lock_spec, _|]. intros ?.
  apply (spec_bind me _ _ _ (fun _ w => True /\ holds me w)); [|intros ?; by apply Unlock_spec; [apply _|]].
  apply (spec_bind me _ _ _ (fun _ w => True /\ holds me w)); [apply same_spec; [apply _|by intros c w x w' [= _ <-]]|].
  intros [err|es]; [sret|].
  apply (spec_bind me _ _ _ (fun _ w => True /\ holds me w)); [apply same_spec; [apply _|by intros c w x w' [= _ <-]]|].
  intros [err|u]; [sret|]. eapply spec_conseq; [apply reclaimEach_spec|by intros w _ [_ ?]|by intros ? ? _ ?].
Qed.

End claim.

Section thread.
Context (me : nat) (root : string) (stagingBound stagingPoll roleBound rolePoll : Z).
Context (errText : StoreErr -> string) (durationText : Z -> string) (quote : string -> string) (hasObjects : bool).
Implicit Type F : World -> Prop.

(** ** The backup *)

Lemma removeBackupStaging_spec d n : spec me (clean me d n) (removeBackupStaging d n) (fun _ => own me n).
Proof.
  unfold removeBackupStaging. eapply spec_bind; [apply Lock_spec, _|]. intros ?.
  apply (spec_bind me _ _ _ (fun _ w => clean me d n w /\ holds me w)); [apply same_spec; [apply _|by intros c w x w' [= _ <-]]|].
  intros opened. apply (spec_bind me _ _ _ (fun _ w => own me n w /\ holds me w)); [|intros ?; by apply Unlock_spec; [apply _|]].
  destruct opened as [err|u]; [sret; intros [[? _] ?]; done|]. eapply spec_bind; [apply RemoveItem_own|]. intros ?.
  by apply RemoveDestination_spec, _.
Qed.

Lemma awaitLoop_spec fuel bound poll d n : forall slept found, spec me (present me d n)
  (awaitLoop root durationText fuel bound poll slept d n found) (fun x w => present me d n w /\ (x = inr tt -> clean me d n w)).
Proof.
  induction fuel as [|fuel IH]; intros slept found; cbn [awaitLoop]; cbv zeta.
  all: eapply spec_bind; [apply same_spec; [apply _|by intros [] w x w' E; try done; injection E as _ <-]|]; intros passed.
  all: destruct (_ <? _); [|sret; intros ?; by split].
  - sret. intros ?. by split.
  - eapply spec_bind; [apply same_spec; [apply _|by intros c w x w' [= _ <-]]|]. intros ?.
    eapply spec_bind; [by apply (Holders_own me (present me d n) d n); [apply _|intros ??; apply present_item|]|]. intros found'. cbn beta.
    destruct (noHolders found') eqn:E; [sret; intros [? ?]; auto|]. eapply spec_pre; [|by apply IH]. by intros w [? _].
Qed.

Lemma awaitStagingWriters_spec d n : spec me (present me d n) (awaitStagingWriters root stagingBound stagingPoll durationText d n)
  (fun x w => present me d n w /\ (x = inr tt -> clean me d n w)).
Proof.
  unfold awaitStagingWriters. cbv zeta. eapply spec_bind; [by apply (Holders_own me (present me d n) d n); [apply _|intros ??; apply present_item|]|].
  intros found. cbn beta. destruct (noHolders found) eqn:E; [sret; intros [? ?]; auto|].
  eapply spec_pre; [|apply awaitLoop_spec]. by intros w [? _].
Qed.

Lemma failBackup_spec d n reason : spec me (present me d n) (failBackup root stagingBound stagingPoll durationText d n reason) (fun _ _ => True).
Proof.
  unfold failBackup. eapply spec_bind; [apply same_spec; [apply _|by intros c w x w' [= _ <-]]|]. intros cancelled. cbv zeta.
  eapply spec_bind; [apply awaitStagingWriters_spec|]. intros writers. apply (spec_bind me _ _ _ (fun _ => own me n)).
  - destruct writers as [err|[]]; [sret; by intros [[? _] _]|]. apply (spec_pre me _ (clean me d n)); [intros w [_ ?]; auto|].
    eapply spec_bind; [apply removeBackupStaging_spec|]. intros ?. sret.
  - intros reason'. eapply spec_bind; [|intros ?; apply (spec_ret me _ (fun _ => True)); [apply _|done]].
    apply (StoreSettle_spec me _ (fun _ => True)); [apply _..|done|done|apply set_op_failed_end].
Qed.

Lemma recordState_spec F id st : Stable me F -> (forall w, F w -> own me id w) -> IsTerminal st = false ->
  spec me F (recordState errText id st) (fun _ => F).
Proof.
  intros HF Ho Hst. unfold recordState. apply (spec_trying me _ _ _ (fun _ => F)); [|intros ?; sret|intros ?; sret].
  apply spec_onError_keeps; [apply _|]. apply StoreUpdate_spec; [apply _|done|by apply stateRecorded_progress].
Qed.

Lemma roleLoop_spec F fuel bound poll want : Stable me F -> forall slept, spec me F (roleLoop durationText fuel bound poll slept want) (fun _ => F).
Proof.
  intros HF. induction fuel as [|fuel IH]; intros slept; cbn [roleLoop]; cbv zeta.
  all: eapply spec_bind; [apply same_spec; [apply _|by intros [] w x w' E; try done; injection E as _ <-]|]; intros [role reason].
  all: destruct (_ || _ || _); [sret|].
  all: eapply spec_bind; [apply same_spec; [apply _|by intros c w x w' [= _ <-]]|]; intros ?.
  all: eapply spec_bind; [apply same_spec; [apply _|by intros [] w x w' E; try done; injection E as _ <-]|]; intros passed.
  all: eapply spec_bind; [apply same_spec; [apply _|by intros c w x w' [= _ <-]]|]; intros [err|]; [sret|].
  all: destruct (_ <=? _); [sret|]. { sret. } apply IH.
Qed.

Lemma backupSourceRole_spec F want : Stable me F -> spec me F (backupSourceRole roleBound rolePoll durationText want) (fun _ => F).
Proof. intros HF. by apply roleLoop_spec. Qed.

Lemma backupEngineVersion_spec F req : Stable me F -> spec me F (backupEngineVersion quote req) (fun _ => F).
Proof.
  intros HF. unfold backupEngineVersion. eapply spec_bind; [apply same_spec; [apply _|by intros c w x w' [= _ <-]]|]. intros engine. cbv zeta.
  repeat (destruct (_ == _)); cbn [negb]; sret.
Qed.

Lemma createBackupStaging_spec F d n : Stable me F -> (forall w, F w -> present me d n w) -> spec me F (createBackupStaging d n) (fun _ => F).
Proof.
  intros HF Hp. unfold createBackupStaging. do 2 (apply (spec_trying me _ _ _ (fun _ => F));
    [apply spec_onError_keeps; [apply _|]; apply same_spec; [apply _|by intros c w x w' [= _ <-]]|intros ?; sret|intros ?]).
  apply spec_onError_keeps; [apply _|]. by apply MkdirAllItem_spec.
Qed.

Lemma Backup_spec d n req : spec me (present me d n) (Backup root d n req)
  (fun x w => match x with inr _ => whole me d n w | inl _ => present me d n w end).
Proof.
  unfold Backup. destruct (_ || _); [sret|]. eapply spec_bind; [apply BeginBackupdb_spec|]. intros ?.
  eapply spec_bind; [apply EndBackupdb_spec|]. intros [[err out]|]; cbn beta iota; sret.
Qed.

Lemma checkRoleAfter_spec F role up : Stable me F -> spec me F (checkRoleAfter roleBound rolePoll durationText role up) (fun _ => F).
Proof.
  intros HF. unfold checkRoleAfter. destruct (_ || _).
  - eapply spec_bind; [by apply backupSourceRole_spec|]. intros [after [err|]]; sret.
  - destruct (negb _); [|sret]. eapply spec_bind; [apply same_spec; [apply _|by intros [] w x w' E; try done; injection E as _ <-]|]. intros ?. sret.
Qed.

Lemma uploadStaged_spec d n engine role req : spec me (whole me d n)
  (uploadStaged root roleBound rolePoll errText durationText hasObjects d n engine role req) (fun _ => whole me d n).
Proof.
  unfold uploadStaged. destruct (br_Upload req) as [up|]; [|sret]. destruct (negb hasObjects); [sret|].
  apply (spec_trying me _ _ _ (fun _ => whole me d n)); [apply checkRoleAfter_spec, _|intros ?; sret|intros ?].
  apply (spec_trying me _ _ _ (fun _ => whole me d n)); [apply recordState_spec; [apply _|by intros w [? _]|done]|intros ?; sret|intros ?].
  eapply spec_bind; [apply same_spec; [apply _|by intros c w x w' [= _ <-]]|]. intros created.
  apply (spec_trying me _ _ _ (fun _ => whole me d n)); [|intros ?; sret|intros ?; sret].
  apply spec_onError_keeps; [apply _|]. apply (Upload_spec me _ d n); [apply _|done].
Qed.

Lemma runBackupSteps_spec d n req : spec me (clean me d n)
  (runBackupSteps root roleBound rolePoll errText durationText quote hasObjects d n req)
  (fun x w => match x with inr _ => clean me d n w | inl _ => present me d n w end).
Proof.
  assert (forall e, spec me (clean me d n) (mret (inl e))
    (fun (x : string + (string * UploadResult)) w => match x with inr _ => clean me d n w | inl _ => present me d n w end)) as Hfail.
  { intros e. sret. apply clean_present. }
  unfold runBackupSteps.
  apply (spec_trying me _ _ _ (fun _ => clean me d n)); [apply recordState_spec; [apply _|by intros w [? _]|done]|apply Hfail|intros ?].
  apply (spec_trying me _ _ _ (fun _ => clean me d n)); [apply spec_onError_keeps; [apply _|]; apply backupEngineVersion_spec, _|apply Hfail|intros engine].
  eapply spec_bind; [apply backupSourceRole_spec, _|]. intros [role [err|]]; [apply Hfail|].
  apply (spec_trying me _ _ _ (fun _ => clean me d n)); [apply createBackupStaging_spec; [apply _|intros w; apply clean_present]|apply Hfail|intros ?].
  eapply spec_trying.
  - eapply spec_onError; [|eapply spec_pre; [|apply Backup_spec]; intros w; apply clean_present]. by intros [?|?]; apply _.
  - intros e. cbn beta iota. sret. by intros (? & _ & ?).
  - intros u. cbn beta iota. eapply spec_post; [|apply uploadStaged_spec]. intros [e|r] w Hw; [apply clean_present|]; by apply whole_clean.
Qed.

Lemma runBackup_spec d n req : spec me (clean me d n)
  (runBackup root stagingBound stagingPoll roleBound rolePoll errText durationText quote hasObjects d n req) (fun _ _ => True).
Proof.
  unfold runBackup. eapply spec_bind; [apply runBackupSteps_spec|]. intros [reason|[engine res]]; [apply failBackup_spec|].
  eapply spec_bind; [apply removeBackupStaging_spec|]. intros ?.
  eapply spec_bind; [|intros ?; apply (spec_ret me _ (fun _ => True)); [apply _|done]].
  apply (StoreSettle_spec me _ (fun _ => True)); [apply _..|done|done|apply setCompleted_end].
Qed.

Lemma backup_spec key hash req : spec me (fun _ => True)
  (backup root stagingBound stagingPoll roleBound rolePoll errText durationText quote hasObjects key hash req) (fun _ _ => True).
Proof.
  unfold backup, backupChecks. destruct (validateBackupRequest quote req); [sret|].
  destruct (confineBackupDestination quote (br_Destination req) root) as [err|dest]; [sret|].
  destruct (decide (key = "")) as [->|Hkey]; [sret|]. rewrite (bool_decide_eq_false_2 (key = "")) by done.
  destruct (backupPreflight hasObjects req); [sret|].
  eapply spec_bind; [by apply recordBackup_spec|]. intros r. apply (spec_bind me _ _ _ (fun _ _ => True)); [|intros ?; sret].
  destruct r as [e|[op []]]; [sret| |sret].
  eapply spec_pre; [|apply runBackup_spec]. auto.
Qed.
End thread.

(** ** Every run of the manager *)

Section manager.
Context (root : string) (stagingBound stagingPoll roleBound rolePoll : Z).
Context (errText : StoreErr -> string) (durationText : Z -> string) (quote : string -> string) (hasObjects : bool).

Definition thread_ok (w : World) (i : nat) (p : prog answer unit) : Prop := Amid i p (fun _ _ => True) w.

Record SysInv (s : Sys) : Prop := {
  sys_store : StoreInv (w_store (sy_world s));
  sys_harm : w_harm (sy_world s) = false;
  sys_up : if sy_up s then exclusive (sy_world s) /\ (forall i p, sy_threads s !! i = Some p -> thread_ok (sy_world s) i p)
           else sy_threads s = [] }.

Lemma sys_world s : SysInv s -> sy_up s = true -> WInv (sy_world s).
Proof. intros [? ? H] Hup. rewrite Hup in H. by destruct H. Qed.

(** A change that every thread may assume. *)
Lemma sys_change s w' : SysInv s -> (sy_up s = true -> WInv w' /\ forall j, rely j (sy_world s) w') -> StoreInv (w_store w') ->
  w_harm w' = w_harm (sy_world s) -> SysInv (mkSys w' (sy_up s) (sy_threads s)).
Proof.
  intros [H1 H2 H3] Hc Hs Hh. split; cbn; [done|congruence|]. destruct (sy_up s); [|done]. destruct (Hc eq_refl) as [Hw Hr].
  destruct H3 as [He Ht]. split; [apply Hw|]. intros i p Hp. eapply amid_stable; [apply _|apply Hr|by apply Ht].
Qed.

Lemma reads_ok r env s x s' : reads r env s = (x, s') -> StoreInv s -> StoreInv s' /\ steady s s'.
Proof.
  intros H Hi. destruct r as [id|key|]; cbn in H; mstep H; try injection Hk as _ <-; split;
    first [by eapply Get_steady|by eapply FindByKey_steady|by eapply UnwrittenEnds_steady|eapply settles_inv; [|done]];
    first [by eapply Get_spec|by eapply FindByKey_spec|by eapply UnwrittenEnds_settles].
Qed.

(** What processes do with their files. *)
Lemma writer_inv d n f s : (forall it, it_whole (f it) = it_whole it /\ (exposed (f it) = true -> exposed it = true)) -> SysInv s ->
  SysInv (mkSys (on_item d n f (sy_world s)) (sy_up s) (sy_threads s)).
Proof.
  intros Hf Hi. destruct (on_item_same d n f (sy_world s)) as (Hs & Hr & Hl & Hh).
  apply sys_change; [done| |rewrite Hs; apply Hi|done]. intros Hup. split; [by apply on_item_inv, sys_world|]. intros j.
  split; unfold running, held; [rewrite Hs, Hr|rewrite Hs, Hl].
  - intros m Hm. split; [done|]. intros Hrun. split; [done|]. intros d'. rewrite item_on_item. case_decide; [|done].
    destruct (item d' m (sy_world s)); [apply Hf|done].
  - intros Hlock. split_and!; [done| |].
    + intros m d' Hm. rewrite item_on_item. case_decide; [by rewrite Hm|done].
    + intros m Hm. split; [done|]. intros d'. rewrite item_on_item. case_decide; [|done].
      intros (it & Eit & Hheld). apply fmap_Some in Eit as (it0 & E0 & ->). exists it0. split; [done|]. by apply Hf.
Qed.

Lemma stagingTransition_inv ev s s' :
  transition root stagingBound stagingPoll roleBound rolePoll errText durationText quote hasObjects ev s = Some s' -> SysInv s -> SysInv s'.
Proof.
  intros H Hi. destruct ev as [key hash req|i c|d n|d n|r env writes|env writes]; cbn in H.
  - destruct (sy_up s) eqn:Hup; [|done]. injection H as <-. pose proof (sys_world s Hi Hup) as Hw. destruct Hi as [H1 H2 H3].
    rewrite Hup in H3. split; [done|done|]. cbn. destruct H3 as [He Ht]. split; [done|]. intros i p Hp.
    apply lookup_app_Some in Hp as [Hp|[_ Hp]]; [by apply Ht|]. apply list_lookup_singleton_Some in Hp as [_ <-].
    assert (spec i (fun _ => True) (_ ← backup root stagingBound stagingPoll roleBound rolePoll errText durationText quote hasObjects key hash req;
      mret tt) (fun _ _ => True)) as Hb; [|by apply Hb].
    eapply spec_bind; [apply backup_spec|]. intros ?. sret.
  - destruct (sy_threads s !! i) as [[a|e k]|] eqn:Ei; [done| |done]. destruct (exec i e c (sy_world s)) as [[x w']|] eqn:E; [|done].
    injection H as <-. destruct (sy_up s) eqn:Hup; [|destruct Hi as [_ _ H3]; rewrite Hup in H3; by rewrite H3 in Ei].
    pose proof (sys_world s Hi Hup) as Hw. destruct Hi as [H1 H2 H3]. rewrite Hup in H3. destruct H3 as [He Ht].
    destruct (Ht i _ Ei (sy_world s) Hw (reflexivity _) c x w' E) as (Hw' & Hg & Hk). split; cbn; [apply Hw'|apply Hw'|]. split; [apply Hw'|].
    intros j p Hp. apply list_lookup_insert_Some in Hp as [(<- & <- & _)|[Hne Hp]]; [done|].
    eapply amid_stable; [apply _|apply Hg; congruence|by apply Ht].
  - injection H as <-. by apply writer_inv; [intros []; unfold closes, exposed; cbn; by destruct it_writers|..].
  - injection H as <-. by apply writer_inv; [intros [[] []]|..].
  - injection H as <-. destruct (onStore (reads r env) writes (sy_world s)) as [x w'] eqn:E. apply onStore_inv in E as (s' & E & ->).
    assert (StoreInv (set_writes writes (w_store (sy_world s)))) as Hs by (apply set_writes_inv, Hi).
    destruct (reads_ok _ _ _ _ _ E Hs) as [Hi' Hst]. apply sys_change; [done| |done|done]. intros Hup.
    split; [apply steady_inv; [done|done|by apply sys_world]|by apply steady_rely].
  - destruct (NewOperationStore env (s_disk (w_store (sy_world s))) writes) as [r store] eqn:E. injection H as <-.
    pose proof (NewOperationStore_ok _ _ _ _ _ E (sys_store s Hi)) as [Hs _]. specialize (Hs (sys_store s Hi)).
    assert (StoreInv (mkStore (s_disk (w_store (sy_world s))) ∅ ∅ ∅ writes)) as Hs0 by (apply (same_disk_inv (w_store (sy_world s))); [exact (sys_store s Hi)|done|done]).
    apply NewOperationStore_spec in E as (_ & _ & _ & Hend); [|exact Hs0].
    split; cbn; [done|exact (sys_harm s Hi)|]. destruct r as [e|[]]; [done|].
    assert (forall n, ~ live n store) as Hdead. { intros n (Hni & _ & o & Ho & Hne). by destruct (Hend eq_refl n o Ho). }
    assert (exclusive (mkWorld store (w_tree (sy_world s)) None ∅ (w_harm (sy_world s)))) as Hx by (intros d n n' Hn; by destruct (Hdead n)).
    split; [done|]. intros i p Hp. apply list_lookup_singleton_Some in Hp as [-> <-]. refine (reclaimBackupStaging_spec 0 root _ _ I).
    split; [done|exact (sys_harm s Hi)|done].
Qed.

(** C9: However many backups run beside each other, in whatever order their steps
    are taken, whatever fails and whenever the manager is killed: a staging
    directory in which a backupdb was begun that did not succeed is removed
    only after a look since then found no process that holds a file in it;
    every upload reads exactly what the operation's own backupdb wrote; and no
    two operations that run have directories in one destination.  A process
    that a failed backupdb left behind may open a file at any time, also
    between that look and the removal: that one is not seen, and it reaches
    only its own operation's directory.  A backupdb that succeeded leaves no
    process behind. *)
Theorem staging_undisturbed w events s : StoreInv (w_store w) -> w_harm w = false ->
  runs root stagingBound stagingPoll roleBound rolePoll errText durationText quote hasObjects events (mkSys w false []) = Some s ->
  w_harm (sy_world s) = false /\ (sy_up s = true -> exclusive (sy_world s)).
Proof.
  intros Hs Hh H. assert (SysInv s) as [_ Hharm Hup].
  { assert (SysInv (mkSys w false [])) as Hi by by split. revert H Hi. generalize (mkSys w false []).
    induction events as [|ev events IH]; intros s0 H Hi; cbn in H; [by injection H as <-|].
    destruct (transition _ _ _ _ _ _ _ _ _ ev s0) as [s1|] eqn:E; [|done]. eapply IH; [exact H|]. by eapply stagingTransition_inv. }
  split; [done|]. intros E. rewrite E in Hup. apply Hup.
Qed.
End manager.
