(* ===== verification/BackupRun.v ===== *)
(** * What a backup says about the member it was taken on

    A backup (runBackup of Staging.v) writes the role and the engine of its
    member into the manifest that it uploads.  Over every history of actions
    and answers of a backup: the manifest states the engine that was read,
    which is of the declared series, and the role that was read before
    backupdb, which is the requested one; and what a master or a seed wrote is
    uploaded only when the same role was read again after backupdb had ended.
    The loops of a backup end by their bound: more fuel changes nothing. *)
From stdpp Require Import prelude gmap strings list.
From Stdlib Require Import Ascii String.
From S2P Require Import Prelude GoStr BackupController Programs Lifecycle Api Engine OpStore ManifestURI Paths Manifest Requests Artifact ManagerOps Staging.

Notation Prog := (prog answer).

(** ** Histories *)

Definition Did : Type := {e : Atom & answer e}.
Definition did (e : Atom) (x : answer e) : Did := existT e x.

(** [p] did [h], one action after the other, and is [p'] now. *)
Inductive performs {A} : Prog A -> list Did -> Prog A -> Prop :=
  | performs_nil p : performs p [] p
  | performs_act e k x h p' : performs (k x) h p' -> performs (Vis e k) (did e x :: h) p'.

(** Every action of [p] that follows the history [h] is allowed after what
    was done before it, and [Q] holds at the end. *)
Section always.
Context (allowed : list Did -> Did -> Prop).

Fixpoint always {A} (h : list Did) (p : Prog A) (Q : list Did -> A -> Prop) : Prop :=
  match p with
  | Ret a => Q h a
  | Vis e k => forall x, allowed h (did e x) /\ always (h ++ [did e x]) (k x) Q
  end.

Lemma always_weaken {A} h (p : Prog A) (Q Q' : list Did -> A -> Prop) :
  (forall h a, Q h a -> Q' h a) -> always h p Q -> always h p Q'.
Proof.
  intros HQ. revert h. induction p as [a|e k IH]; intros h; cbn; [apply HQ|]. intros H x. destruct (H x). split; [done|]. by apply IH.
Qed.

Lemma always_bind {A B} h (m : Prog A) (k : A -> Prog B) Q : always h m (fun h' a => always h' (k a) Q) -> always h (m ≫= k) Q.
Proof.
  revert h. induction m as [a|e f IH]; intros h; cbn; [done|]. intros H x. destruct (H x). split; [done|]. by apply IH.
Qed.

Lemma always_ret {A} h (a : A) (Q : list Did -> A -> Prop) : Q h a -> always h (mret a) Q.
Proof. done. Qed.

Lemma always_trying {E A B} h (m : Prog (E + A)) (k : A -> Prog (E + B)) Q :
  always h m (fun h' r => match r with inl err => Q h' (inl err) | inr x => always h' (k x) Q end) -> always h (trying m k) Q.
Proof. intros H. apply always_bind. eapply always_weaken; [|exact H]. by intros h' [err|x]. Qed.

Lemma always_onError {E F A} (f : E -> F) h (m : Prog (E + A)) Q :
  always h m (fun h' r => Q h' (match r with inl err => inl (f err) | inr x => inr x end)) -> always h (onError f m) Q.
Proof. intros H. apply always_bind. eapply always_weaken; [|exact H]. by intros h' [err|x]. Qed.

Lemma performs_allowed {A} (p : Prog A) Q h0 h p' : always h0 p Q -> performs p h p' ->
  forall h1 d h2, h = h1 ++ d :: h2 -> allowed (h0 ++ h1) d.
Proof.
  intros H Hp. revert h0 H. induction Hp as [p|e k x h p' Hp IH]; intros h0 H h1 d h2 E; [by destruct h1|].
  destruct (H x) as [Ha Hk]. destruct h1 as [|d1 h1]; injection E as <- ->; [by rewrite app_nil_r|].
  rewrite cons_middle, (assoc_L app). by eapply IH.
Qed.
End always.

(** ** What a history shows *)

Definition roleRead (d : Did) : option string := match d with existT ReadRole x => Some x.1 | _ => None end.
(** The roles that were read, the last one first. *)
Definition rolesRead (h : list Did) : list string := rev (omap roleRead h).
Definition lastRole (h : list Did) : option string := head (rolesRead h).

Definition asks (want role : string) : Prop := want = "" \/ want = RoleUnknown \/ role = want.

(** After the history [h] of the backup [id] of [req] an upload as [spec] says
    is justified. *)
Definition truthful (root name id : string) (req : BackupRequest) (h : list Did) (spec : UploadSpec) : Prop :=
  exists up before after engine role created, br_Upload req = Some up /\
    h = before ++ did (EndBackupdb name id) None :: after /\
    did EngineVersion engine ∈ before /\ EngineSeries engine <> "" /\ EngineSeries engine = EngineSeries (bu_CubridVersion up) /\
    lastRole before = Some role /\ asks (requestedRole req) role /\
    (role = RoleMaster \/ bu_Seed up = true -> role <> "" -> role <> RoleUnknown -> lastRole after = Some role) /\
    spec = uploadSpec root name id engine role created req up.

Definition justified (root name id : string) (req : BackupRequest) (h : list Did) (d : Did) : Prop :=
  forall name' id' spec x, d = did (Upload name' id' spec) x -> name' = name /\ id' = id /\ truthful root name id req h spec.

Section backup.
Context (root : string) (stagingBound stagingPoll roleBound rolePoll : Z).
Context (errText : StoreErr -> string) (durationText : Z -> string) (quote : string -> string) (hasObjects : bool).
Context (name id : string) (req : BackupRequest).
Notation always := (always (justified root name id req)).

(** An action that is no upload. *)
Definition isUpload (e : Atom) : bool := match e with Upload _ _ _ => true | _ => false end.
Lemma always_act e h Q : isUpload e = false -> (forall x, Q (h ++ [did e x]) x) -> always h (act e) Q.
Proof.
  intros He HQ x. split; [|apply HQ]. intros name' id' spec y E. exfalso.
  assert (projT1 (did e x) = projT1 (did (Upload name' id' spec) y)) as Ee by by rewrite E. cbn in Ee. by subst e.
Qed.

Lemma lastRole_app h h' : lastRole h' = None -> lastRole (h ++ h') = lastRole h.
Proof.
  unfold lastRole, rolesRead. rewrite omap_app, rev_app_distr. by destruct (rev (omap roleRead h')).
Qed.
Lemma lastRole_read h x : lastRole (h ++ [did ReadRole x]) = Some x.1.
Proof. unfold lastRole, rolesRead. by rewrite omap_app, rev_app_distr. Qed.
Lemma lastRole_act d : roleRead d = None -> lastRole [d] = None.
Proof. intros H. unfold lastRole, rolesRead. change (omap roleRead [d]) with (match roleRead d with Some y => [y] | None => [] end). by rewrite H. Qed.
Lemma lastRole_none h h' : lastRole h = None -> lastRole h' = None -> lastRole (h ++ h') = None.
Proof. intros H H'. by rewrite lastRole_app. Qed.

Lemma lastRole_suffix h h' role : lastRole h' = Some role -> lastRole (h ++ h') = Some role.
Proof. unfold lastRole, rolesRead. rewrite omap_app, rev_app_distr. by destruct (rev (omap roleRead h')). Qed.

(** A program that reads no role and uploads nothing. *)
Definition aside {A} (p : Prog A) : Prop :=
  forall h Q, (forall h' r, lastRole h' = None -> Q (h ++ h') r) -> always h p Q.

Lemma aside_act e : isUpload e = false -> (forall x, roleRead (did e x) = None) -> aside (act e).
Proof. intros He Hr h Q HQ. apply always_act; [done|]. intros x. by apply HQ, lastRole_act. Qed.
Lemma aside_ret {A} (a : A) : aside (mret a).
Proof. intros h Q HQ. apply always_ret. rewrite <- (app_nil_r h). by apply HQ. Qed.
Lemma aside_bind {A B} (m : Prog A) (k : A -> Prog B) : aside m -> (forall a, aside (k a)) -> aside (m ≫= k).
Proof.
  intros Hm Hk h Q HQ. apply always_bind, Hm. intros h1 a H1. apply Hk. intros h2 r H2. rewrite <- (assoc_L app).
  by apply HQ, lastRole_none.
Qed.
Lemma aside_trying {E A B} (m : Prog (E + A)) (k : A -> Prog (E + B)) : aside m -> (forall a, aside (k a)) -> aside (trying m k).
Proof. intros Hm Hk. apply aside_bind; [done|]. intros [err|a]; [apply aside_ret|apply Hk]. Qed.
Lemma aside_onError {E F A} (f : E -> F) (m : Prog (E + A)) : aside m -> aside (onError f m).
Proof. intros Hm. apply aside_bind; [done|]. intros r. apply aside_ret. Qed.

Ltac aact := lazymatch goal with |- aside (@act _ _ ?e) => refine (aside_act e _ _); done end.

Lemma recordState_aside st : aside (recordState errText id st).
Proof. apply aside_trying; [|intros ?; apply aside_ret]. apply aside_onError; aact. Qed.
Lemma createBackupStaging_aside : aside (createBackupStaging name id).
Proof. repeat (apply aside_trying; [apply aside_onError; aact|intros ?]). apply aside_onError; aact. Qed.

(** ** The parts of a backup *)

Lemma engine_read h Q :
  (forall engine, (forall r, Q (h ++ [did EngineVersion engine]) (inl r)) /\
    (EngineSeries engine <> "" -> EngineSeries engine = EngineSeries (match br_Upload req with None => "" | Some up => bu_CubridVersion up end) ->
     Q (h ++ [did EngineVersion engine]) (inr engine))) -> always h (backupEngineVersion quote req) Q.
Proof.
  intros HQ. unfold backupEngineVersion. apply always_bind, always_act; [done|]. intros engine. destruct (HQ engine) as [He Ho].
  repeat (case_bool_decide; cbn [negb]); apply always_ret; auto.
Qed.

Lemma role_read fuel bound poll want Q : forall h slept,
  (forall h' role err, Q (h ++ h') (role, Some err)) ->
  (forall h' role, lastRole h' = Some role -> asks want role -> Q (h ++ h') (role, None)) ->
  always h (roleLoop durationText fuel bound poll slept want) Q.
Proof.
  induction fuel as [|fuel IH]; intros h slept He Ho; cbn [roleLoop]; cbv zeta.
  all: apply always_bind, always_act; [done|]; intros [role reason].
  all: destruct (_ || _ || _) eqn:Ea; [apply always_ret, Ho; [done|]; unfold asks; rewrite !orb_true_iff, !bool_decide_eq_true in Ea; cbn; tauto|].
  all: do 3 (apply always_bind, always_act; [done|]; intros ?); rewrite <- !(assoc_L app).
  all: match goal with |- context [match ?x with Some _ => _ | None => _ end] => destruct x end; [apply always_ret, He|].
  all: destruct (_ <=? _); [apply always_ret, He|]. { apply always_ret, He. }
  apply IH; intros h' r; rewrite <- (assoc_L app); [intros err; apply He|]. intros Hl. apply Ho. by apply lastRole_suffix.
Qed.

Lemma backupdb_done h Q :
  (forall h' err, lastRole h' = None -> Q (h ++ h') (inl err)) ->
  (forall h', lastRole h' = None -> Q (h ++ h' ++ [did (EndBackupdb name id) None]) (inr tt)) ->
  always h (Backup root name id req) Q.
Proof.
  intros He Ho. unfold Backup. destruct (_ || _).
  { apply always_ret. rewrite <- (app_nil_r h). by apply He. }
  apply always_bind, always_act; [done|]. intros u. apply always_bind, always_act; [done|].
  intros [[err out]|]; apply always_ret; rewrite <- (assoc_L app); [by apply He|by apply (Ho [_])].
Qed.

Lemma role_read_after role up h Q :
  (forall h' err, Q (h ++ h') (inl err)) ->
  (forall h', (role = RoleMaster \/ bu_Seed up = true -> role <> "" -> role <> RoleUnknown -> lastRole h' = Some role) -> Q (h ++ h') (inr tt)) ->
  always h (checkRoleAfter roleBound rolePoll durationText role up) Q.
Proof.
  intros He Ho. unfold checkRoleAfter. destruct ((role == RoleMaster) || bu_Seed up) eqn:Ec.
  - apply always_bind, role_read; [intros h' r err; apply always_ret, He|]. intros h' r Hl Ha. apply always_ret, Ho. intros _ H1 H2.
    destruct Ha as [?|[?| ->]]; done.
  - assert (~ (role = RoleMaster \/ bu_Seed up = true)) as Hn.
    { apply orb_false_iff in Ec as [Ec ->]. apply bool_decide_eq_false in Ec. intros [?|?]; done. }
    destruct (negb _).
    + apply always_bind, always_act; [done|]. intros x. apply always_ret, Ho. tauto.
    + apply always_ret. rewrite <- (app_nil_r h). apply Ho. tauto.
Qed.

Lemma always_upload h spec Q : truthful root name id req h spec -> (forall x, Q (h ++ [did (Upload name id spec) x]) x) ->
  always h (act (Upload name id spec)) Q.
Proof.
  intros Ht HQ x. split; [|apply HQ]. intros name' id' spec' y E.
  assert (projT1 (did (Upload name id spec) x) = projT1 (did (Upload name' id' spec') y)) as Ee by by rewrite E.
  cbn in Ee. by injection Ee as <- <- <-.
Qed.

(** The history up to the end of backupdb, as the upload needs it. *)
Definition observed (engine role : string) (before : list Did) : Prop :=
  did EngineVersion engine ∈ before /\ EngineSeries engine <> "" /\
  EngineSeries engine = EngineSeries (match br_Upload req with None => "" | Some up => bu_CubridVersion up end) /\
  lastRole before = Some role /\ asks (requestedRole req) role.

Lemma uploadStaged_truthful engine role before : observed engine role before ->
  always (before ++ [did (EndBackupdb name id) None])
    (uploadStaged root roleBound rolePoll errText durationText hasObjects name id engine role req) (fun _ _ => True).
Proof.
  intros (Hin & Hs & Hd & Hl & Ha). unfold uploadStaged. destruct (br_Upload req) as [up|] eqn:Eu; [|done]. destruct (negb hasObjects); [done|].
  apply always_trying, role_read_after; [done|]. intros h1 H1. apply always_trying, recordState_aside. intros h2 [err|u] H2; [done|].
  apply always_bind. refine (aside_act UTCNow _ _ _ _ _); [done|done|]. intros h3 created H3. apply always_trying, always_onError.
  refine (always_upload _ (uploadSpec root name id engine role created req up) _ _ _); [|by intros [?|?]].
  exists up, before, ((h1 ++ h2) ++ h3), engine, role, created. split_and!; try done.
  - rewrite <- !(assoc_L app). done.
  - intros Hc Hr1 Hr2. rewrite lastRole_app by done. rewrite lastRole_app by done. auto.
Qed.

Lemma elem_middle {A} (x : A) l1 l2 : x ∈ (l1 ++ [x]) ++ l2.
Proof. set_solver. Qed.

Lemma runBackupSteps_truthful :
  always [] (runBackupSteps root roleBound rolePoll errText durationText quote hasObjects name id req) (fun _ _ => True).
Proof.
  unfold runBackupSteps. apply always_trying, recordState_aside. intros h1 [err|u] _; [done|].
  apply always_trying, always_onError, engine_read. intros engine. split; [done|]. intros Hs Hd.
  apply always_bind, role_read; [done|]. intros h2 role Hl Ha. apply always_trying, createBackupStaging_aside. intros h3 [err|u3] H3; [done|].
  apply always_trying, always_onError, backupdb_done; [done|]. intros h4 H4.
  match goal with |- always ?h _ _ => set (before := (((([] ++ h1) ++ [did EngineVersion engine]) ++ h2) ++ h3) ++ h4);
    replace h with (before ++ [did (EndBackupdb name id) None]) end.
  - apply uploadStaged_truthful. unfold observed, before. split_and!; [set_solver|done|done| |done].
    do 2 (rewrite lastRole_app by done). by apply lastRole_suffix.
  - unfold before. by rewrite <- !(assoc_L app).
Qed.

Lemma awaitLoop_aside fuel bound poll : forall slept found, aside (awaitLoop root durationText fuel bound poll slept name id found).
Proof.
  induction fuel as [|fuel IH]; intros slept found; cbn [awaitLoop]; cbv zeta; (apply aside_bind; [aact|]); intros passed.
  all: destruct (_ <? _); [|apply aside_ret]. { apply aside_ret. }
  apply aside_bind; [aact|]. intros u. apply aside_bind; [aact|]. intros found'. destruct (noHolders found'); [apply aside_ret|apply IH].
Qed.

Lemma removeBackupStaging_aside : aside (removeBackupStaging name id).
Proof.
  unfold removeBackupStaging. do 2 (apply aside_bind; [aact|]; intros ?). apply aside_bind; [|intros ?; aact].
  destruct a0; [apply aside_ret|]. apply aside_bind; [aact|]. intros ?. aact.
Qed.

Lemma failBackup_aside reason : aside (failBackup root stagingBound stagingPoll durationText name id reason).
Proof.
  unfold failBackup. apply aside_bind; [aact|]. intros c. apply aside_bind.
  - unfold awaitStagingWriters. apply aside_bind; [aact|]. intros found. destruct (noHolders found); [apply aside_ret|apply awaitLoop_aside].
  - intros writers. apply aside_bind; [|intros ?; apply aside_bind; [aact|intros ?; apply aside_ret]].
    destruct writers; [apply aside_ret|]. apply aside_bind; [apply removeBackupStaging_aside|intros ?; apply aside_ret].
Qed.

Lemma runBackup_always :
  always [] (runBackup root stagingBound stagingPoll roleBound rolePoll errText durationText quote hasObjects name id req) (fun _ _ => True).
Proof.
  unfold runBackup. apply always_bind. eapply always_weaken; [|apply runBackupSteps_truthful]. intros h [reason|[engine res]] _.
  - by apply failBackup_aside.
  - apply always_bind, removeBackupStaging_aside. intros h1 u H1. apply always_bind. refine (aside_act _ _ _ _ _ _); [done|done|]. done.
Qed.

(** C10: Whatever a backup did up to now and whatever it was answered: what it
    uploads comes from its own staging directory, after backupdb ended without
    an error there, with a manifest that states the engine that was read, of
    the series the request declares, and the role that was read last before
    backupdb, which is the one the request names; and a master's backup, or a
    seed, is uploaded only when the last role read after backupdb is the same. *)
Theorem uploaded_manifest_truthful h p h1 name' id' spec x h2 :
  performs (runBackup root stagingBound stagingPoll roleBound rolePoll errText durationText quote hasObjects name id req) h p ->
  h = h1 ++ did (Upload name' id' spec) x :: h2 -> name' = name /\ id' = id /\ truthful root name id req h1 spec.
Proof. intros Hp E. by apply (performs_allowed _ _ _ [] h p runBackup_always Hp h1 _ h2 E name' id' spec x). Qed.
End backup.

(** ** The loops end

    Two programs that do the same actions whatever they are answered. *)
Inductive same {A} : Prog A -> Prog A -> Prop :=
  | same_ret a : same (Ret a) (Ret a)
  | same_vis e k k' : (forall x, same (k x) (k' x)) -> same (Vis e k) (Vis e k').

Lemma same_refl {A} (p : Prog A) : same p p.
Proof. induction p as [a|e k IH]; by constructor. Qed.
Lemma same_bind {A B} (m : Prog A) (k k' : A -> Prog B) : (forall a, same (k a) (k' a)) -> same (m ≫= k) (m ≫= k').
Proof. intros H. induction m as [a|e f IH]; [apply H|]. by constructor. Qed.

Lemma rounds_enough bound poll : 0 < poll -> bound <= Z.of_nat (rounds bound poll) * poll.
Proof.
  intros Hp. unfold rounds. pose proof (Z.div_mod bound poll ltac:(lia)). pose proof (Z.mod_pos_bound bound poll Hp).
  destruct (Z.le_gt_cases 0 (bound / poll)); nia.
Qed.

Lemma orDefault_pos o d : 0 < d -> 0 < orDefault o d.
Proof. unfold orDefault. destruct (Z.leb_spec o 0); lia. Qed.

Section loops.
Context (root : string) (durationText : Z -> string) (bound poll : Z).


Lemma awaitLoop_fuel name id : forall n m slept found, (n <= m)%nat -> bound - slept <= Z.of_nat n * poll ->
  same (awaitLoop root durationText n bound poll slept name id found) (awaitLoop root durationText m bound poll slept name id found).
Proof.
  induction n as [|n IH]; intros m slept found Hm Hb; (destruct m as [|m]; [try lia|]); cbn [awaitLoop]; cbv zeta;
    try apply same_refl; apply same_bind; intros passed; destruct (Z.ltb_spec (slept + Z.of_N passed) bound); try apply same_refl; [lia|].
  do 2 (apply same_bind; intros ?). destruct (noHolders _); [apply same_refl|]. apply IH; lia.
Qed.

Lemma roundMillis_near d : d - millisecond <= roundMillis d.
Proof.
  unfold roundMillis, millisecond. pose proof (Z.div_mod (d + 1000000 / 2) 1000000 ltac:(lia)).
  pose proof (Z.mod_pos_bound (d + 1000000 / 2) 1000000 ltac:(lia)). change (1000000 / 2) with 500000 in *. lia.
Qed.

Lemma roleLoop_fuel want : forall n m slept, (n <= m)%nat -> bound + millisecond <= slept + (Z.of_nat n + 1) * poll ->
  same (roleLoop durationText n bound poll slept want) (roleLoop durationText m bound poll slept want).
Proof.
  induction n as [|n IH]; intros m slept Hm Hb; (destruct m as [|m]; [try lia|]); cbn [roleLoop]; cbv zeta; try apply same_refl;
    apply same_bind; intros [role reason]; (destruct (_ || _ || _); [apply same_refl|]); do 2 (apply same_bind; intros ?);
    apply same_bind; intros [err|]; try apply same_refl;
    match goal with |- context [roundMillis ?d] => pose proof (roundMillis_near d); destruct (Z.leb_spec bound (roundMillis d)) end;
    try apply same_refl; [lia|]. apply IH; lia.
Qed.
End loops.

(** C32: The waits of a backup end by their bounds: the loop that waits for the
    processes that hold its staging, and the one that waits for the requested
    role, go round at most as often as the bound allows, so a loop with any
    larger number of rounds does the same. *)
Theorem backup_waits_bounded root stagingBound stagingPoll roleBound rolePoll durationText name id found want m :
  let bound := orDefault stagingBound stagingWriterBound in let poll := orDefault stagingPoll stagingWriterPoll in
  let bound' := orDefault roleBound backupRoleBound in let poll' := orDefault rolePoll backupRolePoll in
  same (awaitLoop root durationText (rounds bound poll) bound poll 0 name id found)
       (awaitLoop root durationText (rounds bound poll + m) bound poll 0 name id found) /\
  same (backupSourceRole roleBound rolePoll durationText want)
       (roleLoop durationText (rounds (bound' + millisecond) poll' + m) bound' poll' 0 want).
Proof.
  cbv zeta. split.
  - assert (0 < orDefault stagingPoll stagingWriterPoll) as Hp by by apply orDefault_pos.
    apply awaitLoop_fuel; [lia|]. pose proof (rounds_enough (orDefault stagingBound stagingWriterBound) _ Hp). lia.
  - assert (0 < orDefault rolePoll backupRolePoll) as Hp by by apply orDefault_pos. unfold backupSourceRole.
    apply roleLoop_fuel; [lia|]. pose proof (rounds_enough (orDefault roleBound backupRoleBound + millisecond) _ Hp). nia.
Qed.
