(* ===== verification/BackupExamples.v ===== *)
(** * Runs of backups

    A run of the manager (Staging.v) with two backups that ask for the same
    destination at once, one with a writer that opens its file late, and the history of one backup, to which the theorems
    of StagingSafety.v and BackupRun.v apply. *)
From stdpp Require Import prelude gmap strings list.
From Stdlib Require Import Ascii String.
From S2P Require Import Prelude GoStr BackupController Programs Lifecycle Api Engine OpStore StoreRecords ManifestURI Paths Manifest Requests Artifact ManagerOps Staging StagingLogic StagingActions StagingSafety BackupRun.

Definition backupID : string := "op-00000000000000000000000000000001".
Definition otherID : string := "op-00000000000000000000000000000002".
Definition stagingRoot : string := "/staging".
Definition callFor (id : string) : Env := mkEnv 100 true (fun _ => true) (Some id) true.
Definition calls : Choice := Calls (callFor backupID) [].
Definition uploadTo (role : string) : BackupUpload := mkUpload "b" "p" "uid" "11.4" "m-0" role false.
Definition requestOf (database role : string) : BackupRequest := mkBackupRequest database "/staging/d" 0 (Some (uploadTo role)).
Definition asIs (s : string) : string := s.
Definition noText (e : StoreErr) : string := "store".
Definition noDuration (d : Z) : string := "".
Definition uploadResult : UploadResult := mkUploadResult "s3://b/p/manifest.json" "digest" 10.

Definition emptyStaging : World := mkWorld (mkStore ∅ ∅ ∅ ∅ []) ∅ None ∅ false.
Definition runsFrom (events : list Event) : option Sys :=
  runs stagingRoot 0 0 0 0 noText noDuration asIs true events (mkSys emptyStaging false []).

(** The backup itself, from the first record to the end of its staging. *)
Definition backsUp : list Choice :=
  [calls; Text "11.4.6.1963"; Role "master" ""; Fine; Fine; Fine; Fine; Fine; Role "master" ""; calls; Text "now"; Uploads uploadResult] ++
  [Fine; Fine; Fine; Fine; Fine; calls].
Definition claims : list Choice := [Fine; Fine; Fine; Fine; calls; Fine; Fine; Fine; Fine; Fine; calls; Fine].
(** A request that finds the destination in use. *)
Definition isRefused : list Choice := [Fine; Fine; Fine; Fine; Fine; Calls (callFor otherID) []; Fine].

Definition twoBackups : list Event :=
  [Crashes (callFor backupID) []] ++ (Acts 0 <$> [Fine; Fine; Fine; Fine]) ++
  [Requested "k1" "h1" (requestOf "db1" "master"); Requested "k2" "h2" (requestOf "db2" "master")] ++
  (Acts 1 <$> claims) ++ (Acts 1 <$> take 5 backsUp) ++ (Acts 2 <$> isRefused) ++ (Acts 1 <$> drop 5 backsUp).

Definition statesOf (s : option Sys) : option (list (option string)) :=
  (fun s => (fun id => op_State <$> s_disk (w_store (sy_world s)) !! id) <$> [backupID; otherID]) <$> s.

Lemma emptyStaging_store : StoreInv (w_store emptyStaging).
Proof. by split; intros *; rewrite ?lookup_empty. Qed.

(** The first backup completes, the second is refused and not recorded. *)
Example twoBackups_states : statesOf (runsFrom twoBackups) = Some [Some OpCompleted; None].
Proof. vm_compute. reflexivity. Qed.

(** A backupdb that was killed left a process behind, which opens a file after
    the look for holders found none; the directory is removed all the same. *)
Definition lateWriter : list Event :=
  [Crashes (callFor backupID) []] ++ (Acts 0 <$> [Fine; Fine; Fine; Fine]) ++ [Requested "k1" "h1" (requestOf "db1" "master")] ++
  (Acts 1 <$> claims ++ take 7 backsUp ++ [Fault "killed"; Fine; Fine]) ++ [Opens "d" backupID] ++ (Acts 1 <$> [Fine; Fine; Fine]).
Example lateWriter_removed :
  option_map (fun s => is_nil (item "d" backupID (sy_world s))) (runsFrom lateWriter) = Some true /\
  option_map (fun s => it_writers <$> item "d" backupID (sy_world s)) (runsFrom (take (List.length lateWriter - 3) lateWriter)) = Some (Some Late).
Proof. by vm_compute. Qed.

Lemma staging_undisturbed_witness : (exists s, runsFrom twoBackups = Some s /\ w_harm (sy_world s) = false) /\
  exists s, runsFrom lateWriter = Some s /\ w_harm (sy_world s) = false.
Proof.
  split.
  - destruct (runsFrom twoBackups) as [s|] eqn:E; [|by vm_compute in E]. exists s. split; [done|].
    apply (staging_undisturbed stagingRoot 0 0 0 0 noText noDuration asIs true emptyStaging twoBackups s emptyStaging_store eq_refl E).
  - destruct (runsFrom lateWriter) as [s|] eqn:E; [|by vm_compute in E]. exists s. split; [done|].
    apply (staging_undisturbed stagingRoot 0 0 0 0 noText noDuration asIs true emptyStaging lateWriter s emptyStaging_store eq_refl E).
Defined.

(** ** The history of a backup *)

Fixpoint record (cs : list Choice) (w : World) (p : prog answer unit) : list Did * prog answer unit :=
  match cs, p with
  | c :: cs, Vis e k =>
      match exec 0 e c w with
      | Some (x, w') => let '(h, p') := record cs w' (k x) in (did e x :: h, p')
      | None => ([], p)
      end
  | _, _ => ([], p)
  end.

Lemma record_performs cs : forall w p, performs p (record cs w p).1 (record cs w p).2.
Proof.
  induction cs as [|c cs IH]; intros w p; cbn; [constructor|]. destruct p as [a|e k]; [constructor|].
  destruct (exec 0 e c w) as [[x w']|]; [|constructor]. specialize (IH w' (k x)). destruct (record cs w' (k x)). by constructor.
Qed.

Definition runningWorld : World :=
  mkWorld (mkStore {[backupID := newOperation (callFor backupID) backupID OpBackup "k1" "h1" "db1"]} ∅ ∅ ∅ [])
    {["d" := Destination {[backupID := mkItem false Quiet]}]} None {[backupID := 0%nat]} false.
Definition oneBackup : prog answer unit := runBackup stagingRoot 0 0 0 0 noText noDuration asIs true "d" backupID (requestOf "db1" "master").
Definition itsHistory : list Did := (record backsUp runningWorld oneBackup).1.
Definition itsSpec : UploadSpec := uploadSpec stagingRoot "d" backupID "11.4.6.1963" "master" "now" (requestOf "db1" "master") (uploadTo "master").

Lemma uploaded_manifest_truthful_witness :
  truthful stagingRoot "d" backupID (requestOf "db1" "master") (take 11 itsHistory) itsSpec.
Proof.
  apply (uploaded_manifest_truthful stagingRoot 0 0 0 0 noText noDuration asIs true "d" backupID (requestOf "db1" "master")
    itsHistory (record backsUp runningWorld oneBackup).2 (take 11 itsHistory) "d" backupID itsSpec (inr uploadResult) (drop 12 itsHistory)).
  - apply record_performs.
  - vm_compute. reflexivity.
Defined.
