(* ===== verification/Tokens.v ===== *)
(** * The Instance Manager tokens of a cluster

    Every cluster has a token of its own, in a Secret, which its members serve
    with and the operator calls them with
    (internal/controller/cubridcluster_controller.go).  A member reads the
    token when its container starts and keeps it.  A rotation therefore keeps
    the token it replaces until every member holds the new one.

    The handlers are programs of atomic actions (Programs.v).  Any number of
    reconciles run beside each other, each can be cut off, their reads of the
    Secret can be old, and containers start and stop at any time. *)
From stdpp Require Import prelude gmap strings list pretty.
From Stdlib Require Import Ascii String.
From S2P Require Import Prelude GoStr Programs Api ImClient ManagerOps.

(** ** Errors and objects *)

(** What [apierrors] and [errors.Is] tell apart of an error, and its text. *)
Inductive ErrKind :=
  | KNotFound | KAlreadyExists | KConflict | KNamespaceTerminating | KChildNotOwned | KSecretNotCached | KOther.
#[global] Instance ErrKind_eq_dec : EqDecision ErrKind.
Proof. solve_decision. Defined.
Record KErr := mkKErr { k_kind : ErrKind; k_text : string }.
Definition otherErr (text : string) : KErr := mkKErr KOther text.
(** [fmt.Errorf(text + ": %w", err)] *)
Definition wrapKErr (text : string) (e : KErr) : KErr := mkKErr (k_kind e) (text +:+ ": " +:+ k_text e).
Definition IsNotFound (e : KErr) : bool := k_kind e == KNotFound.
Definition IsAlreadyExists (e : KErr) : bool := k_kind e == KAlreadyExists.
Definition IsConflict (e : KErr) : bool := k_kind e == KConflict.

Record OwnerReference := mkOwner { or_Kind : string; or_Name : string; or_UID : string }.
#[global] Instance OwnerReference_eq_dec : EqDecision OwnerReference.
Proof. solve_decision. Defined.

(** [sc_ResourceVersion] is the version that was read; absent in an object
    that was not.  A nil map and an empty one read alike. *)
Record Secret := mkSecret {
  sc_ResourceVersion : option nat;
  sc_Controller : option OwnerReference;
  sc_Labels : gmap string string;
  sc_Type : string;
  sc_Data : gmap string string;
  sc_Annotations : gmap string string }.
#[global] Instance Secret_eq_dec : EqDecision Secret.
Proof. solve_decision. Defined.

Definition newSecret : Secret := mkSecret None None ∅ "" ∅ ∅.
Definition set_Version (v : option nat) (s : Secret) : Secret :=
  mkSecret v (sc_Controller s) (sc_Labels s) (sc_Type s) (sc_Data s) (sc_Annotations s).
Definition set_Controller (c : option OwnerReference) (s : Secret) : Secret :=
  mkSecret (sc_ResourceVersion s) c (sc_Labels s) (sc_Type s) (sc_Data s) (sc_Annotations s).
Definition set_Meta (labels : gmap string string) (type : string) (s : Secret) : Secret :=
  mkSecret (sc_ResourceVersion s) (sc_Controller s) labels type (sc_Data s) (sc_Annotations s).
Definition map_Data (f : gmap string string -> gmap string string) (s : Secret) : Secret :=
  mkSecret (sc_ResourceVersion s) (sc_Controller s) (sc_Labels s) (sc_Type s) (f (sc_Data s)) (sc_Annotations s).
Definition map_Annotations (f : gmap string string -> gmap string string) (s : Secret) : Secret :=
  mkSecret (sc_ResourceVersion s) (sc_Controller s) (sc_Labels s) (sc_Type s) (sc_Data s) (f (sc_Annotations s)).

Definition dataOf (s : Secret) (key : string) : string := lookupd "" (sc_Data s) key.
Definition annotationOf (s : Secret) (key : string) : string := lookupd "" (sc_Annotations s) key.
Definition tokenOf (s : Secret) : string := dataOf s imTokenKey.
Definition previousOf (s : Secret) : string := dataOf s imPreviousTokenKey.

Definition imTokenRotatedAtAnnotation : string := "database.cubrid.io/im-token-rotated-at".
Definition rotateIMTokenAnnotation : string := "database.cubrid.io/rotate-im-token".
Definition imTokenRotationDeferredAnnotation : string := "database.cubrid.io/im-token-rotation-deferred".

Definition ManagedByLabel : string := "app.kubernetes.io/managed-by".
Definition ManagedByOperator : string := "cubrid-kubernetes-operator".
Definition appName : string := "cubrid".

Definition labelsFor (cluster : CubridCluster) : gmap string string :=
  {["app.kubernetes.io/name" := appName;
    "app.kubernetes.io/instance" := cl_Name cluster;
    "app.kubernetes.io/component" := "database";
    ManagedByLabel := ManagedByOperator]}.

Definition clusterOwner (cluster : CubridCluster) : OwnerReference := mkOwner "CubridCluster" (cl_Name cluster) (cl_UID cluster).
(** [metav1.IsControlledBy]: by UID. *)
Definition IsControlledBy (s : Secret) (cluster : CubridCluster) : bool :=
  match sc_Controller s with Some o => or_UID o == cl_UID cluster | None => false end.

(** ** Authentication

    The server's side: the refusal of a request with this header, by a
    manager that was given this token; none when the request is served. *)
Definition auth (sha256 : string -> string) (token header : string) : option string :=
  let tokenSet := TrimSpace token != "" in
  if negb tokenSet || (sha256 header != sha256 ("Bearer " +:+ token)) then
    Some (if negb tokenSet then "TokenNotSet" else if header == "" then "NoToken" else "WrongToken")
  else None.

(** ** The world

    [tw_versions]: every version of the Secret that was stored, the current
    one last; a resource version is the position in this list.  [tw_seen]: the
    version a member's node read the token from when the member started last.
    [tw_running]: the token of each member that runs.  [tw_events]: the Events
    that were recorded. *)
Record KubeEvent := mkKubeEvent { ke_Type : string; ke_Reason : string; ke_Message : string }.

Record World := mkWorld {
  tw_versions : list Secret;
  tw_seen : gmap string nat;
  tw_running : gmap string string;
  tw_events : list KubeEvent }.

Definition set_versions (l : list Secret) (w : World) : World := mkWorld l (tw_seen w) (tw_running w) (tw_events w).

(** ** Actions

    [ChildRead] and [ChildWrite] are the two ends of
    [controllerutil.CreateOrUpdate]: the object it hands to its callback, and
    the write it ends with, which creates what was not found and updates what
    the callback changed. *)
Inductive Atom :=
  | ChildRead
  | ChildWrite (read : option Secret) (obj : Secret)
  | UpdateSecret (obj : Secret)
  | ReadSecret
  | GetPod (name : string)
  | SendRole (name header : string)
  | RandomToken
  | Now
  | GetStatefulSet
  | RecordEvent (ev : KubeEvent).

(** A Pod's containers, with the time each runs since. *)
Definition answer (e : Atom) : Type :=
  match e with
  | ChildRead => KErr + option Secret
  | ChildWrite _ _ | UpdateSecret _ | ReadSecret => KErr + Secret
  | GetPod _ => KErr + list (string * option Z)
  | SendRole _ _ => string + Z
  | RandomToken => string + string
  | Now => Z
  | GetStatefulSet => KErr + unit
  | RecordEvent _ => unit
  end.

(** What happens to an action: [Fault] fails it without an effect, [Lost]
    fails it after its effect; [Cached] is the version a cache holds, absent
    when it does not hold the object yet. *)
Inductive Choice :=
  | Fine
  | Fault (e : KErr)
  | Lost (e : KErr)
  | Cached (v : option nat)
  | Answers (status : Z)
  | Draws (token : string)
  | AtTime (t : Z)
  | PodIs (containers : list (string * option Z)).

Definition current (w : World) : option Secret := last (tw_versions w).
Definition conflict : KErr := mkKErr KConflict "the object has been modified; please apply your changes to the latest version".
Definition alreadyExists : KErr := mkKErr KAlreadyExists "already exists".

(** A stored version carries its own number. *)
Definition stored (w : World) (obj : Secret) : Secret := set_Version (Some (List.length (tw_versions w))) obj.
Definition store (obj : Secret) (w : World) : World := set_versions (tw_versions w ++ [stored w obj]) w.

(** The API server's create and update: an update of anything but the current
    version is a conflict. *)
Definition creates (obj : Secret) (w : World) : option World :=
  match current w with None => Some (store obj w) | Some _ => None end.
Definition updates (obj : Secret) (w : World) : option World :=
  match current w with
  | Some s => if sc_ResourceVersion obj == sc_ResourceVersion s then Some (store obj w) else None
  | None => None
  end.

Definition writes (write : option World) (refused : KErr) (obj : Secret) (c : Choice) (w : World) : option ((KErr + Secret) * World) :=
  match c, write with
  | Fine, Some w' => Some (inr (stored w obj), w')
  | Lost e, Some w' => Some (inl e, w')
  | Fine, None => Some (inl refused, w)
  | Fault e, _ => Some (inl e, w)
  | _, _ => None
  end.

Definition reads (c : Choice) (w : World) : option (KErr + option Secret) :=
  match c with
  | Cached (Some v) => match tw_versions w !! v with Some s => Some (inr (Some s)) | None => None end
  | Cached None => Some (inr None)
  | Fault e => Some (inl e)
  | _ => None
  end.

Section actions.
Context (sha256 : string -> string).

(** A new token is 256 random bits: it is not white space, and nothing held
    it before. *)
Definition unused (token : string) (w : World) : bool :=
  (TrimSpace token != "") && forallb (fun s => tokenOf s != token) (tw_versions w).

Definition exec (e : Atom) (c : Choice) (w : World) : option (answer e * World) :=
  match e with
  | ChildRead => match reads c w with Some r => Some (r, w) | None => None end
  | ChildWrite None obj => writes (creates obj w) alreadyExists obj c w
  | ChildWrite (Some read) obj => if obj == read then Some (inr obj, w) else writes (updates obj w) conflict obj c w
  | UpdateSecret obj => writes (updates obj w) conflict obj c w
  | ReadSecret =>
      match reads c w with
      | Some (inr (Some s)) => Some (inr s, w)
      | Some (inr None) => Some (inl (mkKErr KNotFound "not found"), w)
      | Some (inl e) => Some (inl e, w)
      | None => None
      end
  | GetPod _ =>
      match c with
      | PodIs containers => Some (inr containers, w)
      | Fault e => Some (inl e, w)
      | _ => None
      end
  | SendRole name header =>
      match c, tw_running w !! name with
      | Fault e, _ => Some (inl (k_text e), w)
      | Answers status, Some token =>
          if non_nil (auth sha256 token header) then Some (inr 401, w)
          else if status == 401 then None else Some (inr status, w)
      | _, _ => None
      end
  | RandomToken =>
      match c with
      | Draws token => if unused token w then Some (inr token, w) else None
      | Fault e => Some (inl (k_text e), w)
      | _ => None
      end
  | Now => match c with AtTime t => Some (t, w) | _ => None end
  | GetStatefulSet => match c with Fine => Some (inr tt, w) | Fault e => Some (inl e, w) | _ => None end
  | RecordEvent ev => Some (tt, mkWorld (tw_versions w) (tw_seen w) (tw_running w) (tw_events w ++ [ev]))
  end.
End actions.

(** ** The handlers *)

Section handlers.
Context (formatTime : Z -> string) (parseTime : string -> option Z) (quote : string -> string).
(** Whether the reconciler has a TokenChecker and a Recorder. *)
Context (hasChecker hasRecorder : bool).
Context (cluster : CubridCluster).
Notation Prog := (prog answer).

Definition event (eventType reason msg : string) : Prog unit :=
  if hasRecorder then act (RecordEvent (mkKubeEvent eventType reason msg)) else mret tt.

(** childNotOwnedError and its text. *)
Definition childNotOwned (kind name : string) (controller : option OwnerReference) : KErr :=
  mkKErr KChildNotOwned ("a " +:+ kind +:+ " named " +:+ quote name +:+ " exists and is not owned by this cluster" +:+
    match controller with
    | Some o => " (its controller is " +:+ or_Kind o +:+ " " +:+ or_Name o +:+ ", UID " +:+ or_UID o +:+ ")"
    | None => ""
    end +:+ "; it was left unchanged, and the cluster cannot use the name until it is free").

(** reconcileChild, for the token Secret: the object that was written, and
    what the callback answered. *)
Definition reconcileChild {A} (mutate : Secret -> Prog (KErr + (Secret * A))) : Prog (KErr + (Secret * A)) :=
  read ←? act ChildRead;
  let obj := default newSecret read in
  if non_nil (sc_ResourceVersion obj) && negb (IsControlledBy obj cluster)
  then failed (childNotOwned "Secret" (imTokenSecretName (cl_Name cluster)) (sc_Controller obj))
  else
    r ←? mutate obj;
    let '(obj, a) := r : Secret * A in
    obj ←? act (ChildWrite read (set_Controller (Some (clusterOwner cluster)) obj));
    mret (inr (obj, a)).

(** The members' names, and of each its container that runs since after
    [since]. *)
Definition startedAfter (since : Z) (containers : list (string * option Z)) : bool :=
  fold_left (fun started c => match c with
    | (name, Some at_) => if name == appName then since <? at_ else started
    | (_, None) => started
    end) containers false.

Fixpoint membersStarted (names : list string) (since : Z) : Prog (KErr + bool) :=
  match names with
  | [] => mret (inr true)
  | name :: names =>
      r ← act (GetPod name);
      match r with
      | inl err => if IsNotFound err then mret (inr false) else failed err
      | inr containers => if startedAfter since containers then membersStarted names since else mret (inr false)
      end
  end.

(** AcceptsToken (roleprober.go) *)
Definition AcceptsToken (name token : string) : Prog (string + bool) :=
  r ← act (SendRole name ("Bearer " +:+ token));
  match r with
  | inl err => mret (inl ("ask " +:+ name +:+ " about its token: " +:+ err))
  | inr status => mret (inr (status != 401))
  end.

Fixpoint membersAccept (names : list string) (token : string) : Prog bool :=
  match names with
  | [] => mret true
  | name :: names =>
      r ← AcceptsToken name token;
      match r with
      | inl _ => mret false
      | inr accepted => if accepted : bool then membersAccept names token else mret false
      end
  end.

Definition membersHoldToken (since : Z) (token : string) : Prog (KErr + bool) :=
  if negb hasChecker then mret (inr false)
  else
    let names := memberNames cluster (sp_PromotableMembers (cl_Spec cluster)) in
    started ←? membersStarted names since;
    if started then accepted ← membersAccept names token; mret (inr accepted) else mret (inr false).

Definition newIMToken : Prog (KErr + string) :=
  onError (fun err => otherErr ("generate Instance Manager token: " +:+ err)) (act RandomToken : Prog (string + string)).

(** What one reconcile did to the token. *)
Inductive Change := Unchanged | Generated | Rotated | OverlapEnded.
#[global] Instance Change_eq_dec : EqDecision Change.
Proof. solve_decision. Defined.

Definition annotate (key value : string) : Secret -> Secret := map_Annotations (<[key := value]>).

(** The switch of reconcileIMTokenSecret's callback. *)
Definition judgeToken (request : string) (secret : Secret) : Prog (KErr + (Secret * Change)) :=
  let rotatedAt := annotationOf secret imTokenRotatedAtAnnotation in
  if TrimSpace (tokenOf secret) == "" then mret (inr (secret, Generated))
  else if previousOf secret != "" then
    match parseTime rotatedAt with
    | None => t ← act Now; mret (inr (annotate imTokenRotatedAtAnnotation (formatTime t) secret, Unchanged))
    | Some since =>
        ended ←? membersHoldToken since (tokenOf secret);
        if ended : bool then mret (inr (map_Data (delete imPreviousTokenKey) secret, OverlapEnded))
        else mret (inr (secret, Unchanged))
    end
  else if (rotatedAt == "") || ((request != "") && (request != annotationOf secret rotateIMTokenAnnotation))
  then mret (inr (secret, Rotated))
  else mret (inr (secret, Unchanged)).

Definition isNew (change : Change) : bool := (change == Generated) || (change == Rotated).

Definition mutateToken (request : string) (secret : Secret) : Prog (KErr + (Secret * Change)) :=
  r ←? judgeToken request (set_Meta (labelsFor cluster) "Opaque" secret);
  let '(secret, change) := r : Secret * Change in
  if isNew change then
    token ←? newIMToken;
    let secret := if change == Rotated then map_Data (<[imPreviousTokenKey := tokenOf secret]>) secret else secret in
    let secret := map_Data (<[imTokenKey := token]>) secret in
    mret (inr (if request != "" then annotate rotateIMTokenAnnotation request secret else secret, change))
  else mret (inr (secret, change)).

Definition imTokenSecretRefused (err : KErr) : Prog (KErr + unit) :=
  let name := imTokenSecretName (cl_Name cluster) in
  r ← act ReadSecret;
  match r with
  | inr s =>
      if lookupd "" (sc_Labels s) ManagedByLabel == ManagedByOperator
      then failed (mkKErr KSecretNotCached "the token Secret is not in the cache yet")
      else failed (wrapKErr ("the Secret " +:+ name +:+ " exists without the label " +:+ ManagedByLabel +:+ "=" +:+
             ManagedByOperator +:+ ", so the operator neither reads nor adopts it; delete or rename it") err)
  | inl readErr =>
      failed (wrapKErr ("the Secret " +:+ name +:+ " exists but the operator cannot read it (" +:+ k_text readErr +:+
        "); if it lacks the label " +:+ ManagedByLabel +:+ "=" +:+ ManagedByOperator +:+
        ", the operator neither reads nor adopts it") err)
  end.

Definition reportDeferredRotation (secret : Secret) (request : string) : Prog (KErr + unit) :=
  if request == annotationOf secret imTokenRotationDeferredAnnotation then mret (inr tt)
  else
    _ ←? act (UpdateSecret (annotate imTokenRotationDeferredAnnotation request secret));
    _ ← event "Normal" "InstanceManagerTokenRotationDeferred"
          ("the requested Instance Manager token rotation waits until every member holds the current token of Secret " +:+
           imTokenSecretName (cl_Name cluster));
    mret (inr tt).

(** What follows once the Secret is written. *)
Definition reportToken (request : string) (secret : Secret) (change : Change) : Prog (KErr + unit) :=
  let name := imTokenSecretName (cl_Name cluster) in
  match change with
  | Rotated =>
      _ ← event "Normal" "InstanceManagerTokenRotated"
            ("generated a new Instance Manager token in Secret " +:+ name +:+
             " and kept the previous one, which running Pods hold, for calls to them; replace the cluster's Pods one at a time, and the previous token is dropped once every member was started with the new one");
      mret (inr tt)
  | OverlapEnded =>
      _ ← event "Normal" "InstanceManagerTokenOverlapEnded"
            ("every member was started after the Instance Manager token was rotated and accepts the new one; dropped the previous token from Secret " +:+ name);
      mret (inr tt)
  | Unchanged =>
      if (previousOf secret != "") && (request != "") && (request != annotationOf secret rotateIMTokenAnnotation)
      then reportDeferredRotation secret request
      else mret (inr tt)
  | Generated =>
      r ← act GetStatefulSet;
      match r with
      | inl err => if IsNotFound err then mret (inr tt) else failed err
      | inr _ =>
          _ ← event "Warning" "InstanceManagerTokenRegenerated"
                ("generated a new Instance Manager token in Secret " +:+ name +:+
                 "; running Pods keep the old one and refuse the operator until they are replaced");
          mret (inr tt)
      end
  end.

(** The time of a rotation, taken once the Secret holds the new token. *)
Definition stampToken (secret : Secret) (change : Change) : Prog (KErr + Secret) :=
  if isNew change then t ← act Now; (act (UpdateSecret (annotate imTokenRotatedAtAnnotation (formatTime t) secret)) : Prog (KErr + Secret))
  else mret (inr secret).

(** [request] is the value of rotateIMTokenAnnotation on the cluster. *)
Definition reconcileIMTokenSecret (request : string) : Prog (KErr + unit) :=
  r ← reconcileChild (mutateToken request);
  match r with
  | inl err => if IsAlreadyExists err then imTokenSecretRefused err else failed err
  | inr (secret, change) =>
      secret ←? stampToken secret change;
      reportToken request secret change
  end.
End handlers.

(** ** A cluster over time

    Reconciles of the cluster begin, and act in turn; a container of a member
    starts with the token of a version that is not older than the one the
    member was started with before, and stops. *)
Record Sys := mkSys { sy_world : World; sy_threads : list (prog answer (KErr + unit)) }.

Inductive Event :=
  | Reconciles (request : string)
  | Acts (thread : nat) (c : Choice)
  | Starts (member : string) (version : nat)
  | Stops (member : string).

Definition seenBy (w : World) (name : string) : nat := default 0%nat (tw_seen w !! name).

(** The Instance Manager does not start without a token (main.go). *)
Definition starts (names : list string) (name : string) (v : nat) (w : World) : option World :=
  match tw_versions w !! v with
  | Some s =>
      if bool_decide (name ∈ names) && (seenBy w name <=? v)%nat && (TrimSpace (tokenOf s) != "")
      then Some (mkWorld (tw_versions w) (<[name := v]> (tw_seen w)) (<[name := tokenOf s]> (tw_running w)) (tw_events w))
      else None
  | None => None
  end.
Definition stops (name : string) (w : World) : World :=
  mkWorld (tw_versions w) (tw_seen w) (delete name (tw_running w)) (tw_events w).

Section system.
Context (sha256 : string -> string) (formatTime : Z -> string) (parseTime : string -> option Z) (quote : string -> string).
Context (hasChecker hasRecorder : bool) (cluster : CubridCluster).

Definition members : list string := memberNames cluster (sp_PromotableMembers (cl_Spec cluster)).

Definition transition (ev : Event) (s : Sys) : option Sys :=
  let w := sy_world s in
  match ev with
  | Reconciles request =>
      Some (mkSys w (sy_threads s ++ [reconcileIMTokenSecret formatTime parseTime quote hasChecker hasRecorder cluster request]))
  | Acts i c =>
      match sy_threads s !! i with
      | Some (Vis e k) =>
          match exec sha256 e c w with
          | Some (x, w') => Some (mkSys w' (<[i := k x]> (sy_threads s)))
          | None => None
          end
      | _ => None
      end
  | Starts name v => match starts members name v w with Some w' => Some (mkSys w' (sy_threads s)) | None => None end
  | Stops name => Some (mkSys (stops name w) (sy_threads s))
  end.

Fixpoint runs (events : list Event) (s : Sys) : option Sys :=
  match events with
  | [] => Some s
  | ev :: rest => match transition ev s with Some s' => runs rest s' | None => None end
  end.

(** Nothing exists yet, or the Secret of an operator before: whatever it
    holds besides, its token is the one the members that run hold. *)
Definition initial (w : World) : Prop :=
  tw_seen w = ∅ /\
  ((tw_versions w = [] /\ tw_running w = ∅) \/
   (exists s, tw_versions w = [s] /\ sc_ResourceVersion s = Some 0%nat /\ TrimSpace (tokenOf s) <> "" /\
      map_Forall (fun name token => name ∈ members /\ token = tokenOf s) (tw_running w))).
End system.
