(* ===== verification/TokenSafety.v ===== *)
(** * The operator keeps its access to the members

    Over every interleaving of reconciles, old reads, lost writes, and starts
    and stops of containers, the token of each member that runs is one that
    the operator calls it with (Tokens.v).

    A reconcile runs amid the others (Programs.v): the versions of the Secret
    only grow, and no member goes back to an older version, so what a
    reconcile knows of them stays true.  It writes over the version it read
    or not at all. *)
From stdpp Require Import prelude gmap strings list pretty.
From Stdlib Require Import Ascii String Lia.
From S2P Require Import Prelude GoStr Programs Api ImClient ManagerOps Tokens.

Section safety.
Context (sha256 : string -> string) (formatTime : Z -> string) (parseTime : string -> option Z) (quote : string -> string).
Context (hasChecker hasRecorder : bool) (cluster : CubridCluster).
Context (sha256_inj : forall a b, sha256 a = sha256 b -> a = b).
Notation names := (members cluster).

(** ** The invariant *)

Notation at_ w i s := (tw_versions w !! i = Some s).

Definition callable (s : Secret) (token : string) : Prop := token = tokenOf s \/ token = previousOf s.

Record Inv (w : World) : Prop := {
  inv_numbered : forall i s, at_ w i s -> sc_ResourceVersion s = Some i;
  inv_tokens : forall i s, at_ w i s -> TrimSpace (tokenOf s) <> "";
  (** A token that was replaced does not come back. *)
  inv_spans : forall i j k si sj sk, (i <= k)%nat -> (k <= j)%nat -> at_ w i si -> at_ w j sj -> at_ w k sk ->
    tokenOf si = tokenOf sj -> tokenOf sk = tokenOf si;
  inv_members : forall name i s, name ∈ names -> (seenBy w name <= i)%nat -> at_ w i s ->
    exists cur, current w = Some cur /\ callable cur (tokenOf s);
  inv_running : forall name token, tw_running w !! name = Some token ->
    name ∈ names /\ exists s, at_ w (seenBy w name) s /\ tokenOf s = token }.

Record grows (w w' : World) : Prop := {
  grows_versions : tw_versions w `prefix_of` tw_versions w';
  grows_seen : forall name, (seenBy w name <= seenBy w' name)%nat }.
#[local] Instance grows_refl : Reflexive grows.
Proof. split; [done|]. intros. lia. Qed.
#[local] Instance grows_trans : Transitive grows.
Proof. intros a b c [P1 S1] [P2 S2]. split; [by etransitivity|]. intros name. specialize (S1 name). specialize (S2 name). lia. Qed.

Lemma grows_at w w' i s : grows w w' -> at_ w i s -> at_ w' i s.
Proof. intros [P _] H. by eapply prefix_lookup_Some. Qed.

(** ** What a reconcile knows *)

Definition past (s : Secret) (w : World) : Prop := exists i, at_ w i s.
(** The member was started with the token, or with one that came after it. *)
Definition held (name token : string) (w : World) : Prop :=
  exists i s, at_ w i s /\ (i <= seenBy w name)%nat /\ tokenOf s = token.
(** No version up to that of [s] has the token. *)
Definition newAfter (s : Secret) (token : string) (w : World) : Prop :=
  exists i, at_ w i s /\ forall j sj, (j <= i)%nat -> at_ w j sj -> tokenOf sj <> token.

Lemma past_stable s w w' : grows w w' -> past s w -> past s w'.
Proof. intros G [i H]. exists i. by eapply grows_at. Qed.
Lemma held_stable name token w w' : grows w w' -> held name token w -> held name token w'.
Proof.
  intros G (i & s & H & Hi & E). exists i, s. split_and!; [by eapply grows_at| |done]. pose proof (grows_seen _ _ G name). lia.
Qed.
Lemma newAfter_stable s token w w' : grows w w' -> newAfter s token w -> newAfter s token w'.
Proof.
  intros G (i & H & N). exists i. split; [by eapply grows_at|]. intros j sj Hj E. apply (N j sj Hj).
  destruct (lookup_lt_is_Some_2 (tw_versions w) j) as [sj' E']; [apply lookup_lt_Some in H; lia|].
  rewrite E'. rewrite (grows_at _ _ _ _ G E') in E. congruence.
Qed.

(** Writing [obj] over [s] keeps the operator's access. *)
Definition safeOver (s obj : Secret) (w : World) : Prop :=
  past s w /\ sc_ResourceVersion obj = sc_ResourceVersion s /\
  ((tokenOf obj = tokenOf s /\
    (previousOf obj = previousOf s \/ forall name, name ∈ names -> held name (tokenOf s) w)) \/
   (previousOf s = "" /\ previousOf obj = tokenOf s /\ TrimSpace (tokenOf obj) <> "" /\ newAfter s (tokenOf obj) w)).

Lemma safeOver_stable s obj w w' : grows w w' -> safeOver s obj w -> safeOver s obj w'.
Proof.
  intros G (P & V & H). split_and!; [by eapply past_stable|done|]. destruct H as [(T & [H|H])|(? & ? & ? & H)].
  - left. auto.
  - left. split; [done|]. right. intros name Hn. eapply held_stable; eauto.
  - right. split_and!; [done..|]. by eapply newAfter_stable.
Qed.

(** ** Writes *)

Lemma last_at w s : current w = Some s -> at_ w (pred (List.length (tw_versions w))) s.
Proof. unfold current. by rewrite last_lookup. Qed.
Lemma at_lt w i s : at_ w i s -> (i < List.length (tw_versions w))%nat.
Proof. apply lookup_lt_Some. Qed.

Lemma stored_at w obj i s : at_ (store obj w) i s ->
  at_ w i s \/ (i = List.length (tw_versions w) /\ s = stored w obj).
Proof.
  unfold store. cbn. rewrite lookup_app. destruct (tw_versions w !! i) eqn:E; [intros [= ->]; by left|].
  intros H. apply list_lookup_singleton_Some in H as [H <-]. right. apply lookup_ge_None in E. split; [lia|done].
Qed.
Lemma store_last w obj : current (store obj w) = Some (stored w obj).
Proof. unfold current, store. cbn. by rewrite last_snoc. Qed.
Lemma store_grows w obj : grows w (store obj w).
Proof. split; [by exists [stored w obj]|]. intros name. unfold seenBy. cbn. lia. Qed.
Lemma store_past w obj : past (stored w obj) (store obj w).
Proof. exists (List.length (tw_versions w)). unfold store. cbn. apply list_lookup_middle. done. Qed.

Lemma current_at w i s : Inv w -> current w = Some s -> at_ w i s -> i = pred (List.length (tw_versions w)).
Proof. intros I E H. apply last_at in E. apply (inv_numbered _ I) in H, E. congruence. Qed.

Lemma stored_same w obj : tokenOf (stored w obj) = tokenOf obj /\ previousOf (stored w obj) = previousOf obj.
Proof. done. Qed.

Lemma token_nonempty w i s : Inv w -> at_ w i s -> tokenOf s <> "".
Proof. intros I H E. apply (inv_tokens _ I) in H. by rewrite E in H. Qed.

Section write.
Context (w : World) (s obj : Secret) (I : Inv w) (Hcur : current w = Some s) (Hs : safeOver s obj w).
Notation n := (List.length (tw_versions w)).

Lemma written_token : TrimSpace (tokenOf obj) <> "".
Proof.
  destruct Hs as (_ & _ & [(T & _)|(_ & _ & T & _)]); [|done]. rewrite T. by eapply inv_tokens, last_at.
Qed.

Lemma written_spans i k si sk : (i <= k)%nat -> at_ w i si -> at_ w k sk -> tokenOf si = tokenOf obj -> tokenOf sk = tokenOf si.
Proof.
  intros Hik Hi Hk E. pose proof (last_at _ _ Hcur) as Hn. pose proof (at_lt _ _ _ Hi). pose proof (at_lt _ _ _ Hk).
  destruct Hs as (_ & _ & [(T & _)|(_ & _ & _ & m & Hm & N)]).
  - eapply (inv_spans _ I i (pred n) k); eauto; [lia|congruence].
  - rewrite (current_at _ _ _ I Hcur Hm) in N. destruct (N i si); [lia|done|done].
Qed.

Lemma written_members name i si : name ∈ names -> (seenBy w name <= i)%nat -> at_ w i si -> callable obj (tokenOf si).
Proof.
  intros Hn Hi E. destruct (inv_members _ I _ _ _ Hn Hi E) as (cur & Ec & C). rewrite Hcur in Ec. injection Ec as <-.
  destruct Hs as (_ & _ & [(T & [P|H])|(P0 & P & _ & _)]).
  - destruct C; [left|right]; congruence.
  - destruct (H name Hn) as (i0 & s0 & H0 & Hi0 & T0). left. rewrite T. rewrite <- T0.
    pose proof (at_lt _ _ _ E). eapply (inv_spans _ I i0 (pred n) i); eauto using last_at; lia.
  - destruct C as [C|C]; [right; congruence|]. destruct (token_nonempty _ _ _ I E). congruence.
Qed.

Lemma write_inv : Inv (store obj w).
Proof.
  split.
  - intros i s' [H|[-> ->]]%stored_at; [by eapply inv_numbered|done].
  - intros i s' [H|[-> ->]]%stored_at; [by eapply inv_tokens|apply written_token].
  - intros i j k si sj sk Hik Hkj Hi Hj Hk E. pose proof (stored_same w obj) as [Es _].
    apply stored_at in Hi as [Hi|[-> ->]]; apply stored_at in Hk as [Hk|[-> ->]]; apply stored_at in Hj as [Hj|[-> ->]];
      try done; try (apply at_lt in Hk; lia); try (apply at_lt in Hj; lia).
    + by eapply (inv_spans _ I i j k).
    + eapply (written_spans i k); eauto.
  - intros name i s' Hn Hi H. rewrite store_last. eexists. split; [done|]. destruct (stored_same w obj) as [E1 E2].
    apply stored_at in H as [H|[-> ->]]; [|by left]. unfold callable. rewrite E1, E2. by eapply (written_members name).
  - intros name token H. destruct (inv_running _ I name token H) as (Hn & s' & E & T). split; [done|]. exists s'.
    split; [|done]. eapply (grows_at w); [apply store_grows|done].
Qed.
End write.

Lemma create_inv w obj : Inv w -> current w = None -> TrimSpace (tokenOf obj) <> "" -> Inv (store obj w).
Proof.
  intros I Hc Ht. assert (E : tw_versions w = []) by by apply last_None in Hc.
  assert (forall i s, at_ (store obj w) i s -> i = 0%nat /\ s = stored w obj) as Hone.
  { intros i s [H|[-> ->]]%stored_at; [by rewrite E in H|]. by rewrite E. }
  split.
  - intros i s H. destruct (Hone _ _ H) as [-> ->]. cbn. by rewrite E.
  - intros i s H. by destruct (Hone _ _ H) as [-> ->].
  - intros i j k si sj sk _ _ Hi _ Hk _. apply Hone in Hi as [-> ->], Hk as [-> ->]. done.
  - intros name i s Hn _ H. rewrite store_last. eexists. split; [done|]. destruct (Hone _ _ H) as [-> ->]. by left.
  - intros name token H. destruct (inv_running _ I name token H) as (_ & s & Hs & _). by rewrite E in Hs.
Qed.

(** ** Triples *)

Notation Prog := (prog answer).
Notation Amid := (amid (exec sha256) Inv grows grows).

Lemma amid_bind' {A B} (m : Prog A) (k : A -> Prog B) Q w : Inv w ->
  Amid m (fun a w' => Inv w' -> Amid (k a) Q w') w -> Amid (m ≫= k) Q w.
Proof.
  intros I H. apply amid_bind; [apply _..|done|]. eapply amid_weaken; [|exact H]. cbn. auto.
Qed.

Lemma amid_trying {E A B} (m : Prog (E + A)) (k : A -> Prog (E + B)) (Q : E + B -> World -> Prop) w : Inv w ->
  (forall err w', Q (inl err) w') -> Amid m (fun r w' => match r with inl _ => True | inr x => Inv w' -> Amid (k x) Q w' end) w ->
  Amid (trying m k) Q w.
Proof.
  intros I HQ H. apply amid_bind'; [done|]. eapply amid_weaken; [|exact H]. intros [err|x] w' _ Hx I'; [|auto].
  by apply amid_ret.
Qed.

Lemma amid_grown {A} (p : Prog A) Q w : Amid p Q w -> Amid p (fun a w' => Q a w' /\ grows w w') w.
Proof.
  intros H. enough (forall w0, grows w0 w -> Amid p (fun a w' => Q a w' /\ grows w0 w') w) as Hg by by apply Hg.
  revert w H. induction p as [a|e k IH]; intros w H w0 G0 w1 I1 G1.
  - split; [by apply H|by transitivity w].
  - intros c x w2 E. destruct (H w1 I1 G1 c x w2 E) as (I2 & G2 & H2). split_and!; [done..|]. apply IH; [done|].
    transitivity w; [done|]. by transitivity w1.
Qed.

(** A program of whose answer nothing is used. *)
Definition quiet {A} (p : Prog A) : Prop :=
  forall Q w, Inv w -> (forall x w', Inv w' -> grows w w' -> Q x w') -> Amid p Q w.

Lemma quiet_ret {A} (a : A) : quiet (mret a).
Proof. intros Q w I HQ w1 I1 G1. by apply HQ. Qed.
Lemma quiet_bind {A B} (m : Prog A) (k : A -> Prog B) : quiet m -> (forall x, quiet (k x)) -> quiet (m ≫= k).
Proof.
  intros Hm Hk Q w I HQ. apply amid_bind'; [done|]. apply Hm; [done|]. intros x w' _ G I'. apply Hk; [done|].
  intros y w2 I2 G2. apply HQ; [done|by transitivity w'].
Qed.
Lemma quiet_failed {E A} (err : E) : quiet (failed (A := A) err : Prog (E + A)).
Proof. apply quiet_ret. Qed.
Lemma quiet_trying {E A B} (m : Prog (E + A)) (k : A -> Prog (E + B)) : quiet m -> (forall x, quiet (k x)) -> quiet (trying m k).
Proof. intros Hm Hk. apply quiet_bind; [done|]. intros [err|x]; [apply quiet_ret|apply Hk]. Qed.

(** An action that changes nothing. *)
Lemma quiet_act e : (forall c w x w', exec sha256 e c w = Some (x, w') -> w' = w) -> quiet (act e).
Proof.
  intros He Q w I HQ. apply amid_act; [apply _|]. intros w1 c x w2 I1 G1 E. rewrite (He _ _ _ _ E). split_and!; [done..|].
  intros w3 I3 G3. apply HQ; [done|by transitivity w1].
Qed.

(** ** Actions *)

Ltac exec_cases := intros c w x w' E; cbn in E; repeat case_match; simplify_eq; done.

Lemma quiet_GetPod name : quiet (act (GetPod name)).
Proof. apply quiet_act. exec_cases. Qed.
Lemma quiet_Now : quiet (act Now).
Proof. apply quiet_act. exec_cases. Qed.
Lemma quiet_GetStatefulSet : quiet (act GetStatefulSet).
Proof. apply quiet_act. exec_cases. Qed.
Lemma quiet_ReadSecret : quiet (act ReadSecret).
Proof. apply quiet_act. exec_cases. Qed.

Lemma quiet_RecordEvent ev : quiet (act (RecordEvent ev)).
Proof.
  intros Q w I HQ. apply amid_act; [apply _|]. intros w1 c x w2 [? ? ? ? ?] G1 [= <- <-].
  assert (grows w1 (mkWorld (tw_versions w1) (tw_seen w1) (tw_running w1) (tw_events w1 ++ [ev]))) by by split.
  split_and!; [by split|done|]. intros w3 I3 G3. apply HQ; [done|]. transitivity w1; [done|]. by etransitivity.
Qed.

Create HintDb quiet.
#[local] Hint Resolve quiet_ret quiet_failed quiet_GetPod quiet_Now quiet_GetStatefulSet quiet_ReadSecret quiet_RecordEvent : quiet.
Ltac quiet_solve := repeat match goal with
  | |- quiet (mbind _ _) => apply quiet_bind; [|intros ?]
  | |- quiet (trying _ _) => apply quiet_trying; [|intros ?]
  | |- quiet (if ?b then _ else _) => destruct b
  | |- quiet (match ?x with _ => _ end) => destruct x
  | |- quiet _ => solve [eauto with quiet]
  end.

Lemma token_quiet_event eventType reason msg : quiet (event hasRecorder eventType reason msg).
Proof. unfold event. quiet_solve. Qed.
#[local] Hint Resolve token_quiet_event : quiet.

Lemma quiet_membersStarted l since : quiet (membersStarted l since).
Proof. induction l as [|name l IH]; cbn [membersStarted]; quiet_solve. Qed.
#[local] Hint Resolve quiet_membersStarted : quiet.
Lemma quiet_refused err : quiet (imTokenSecretRefused cluster err).
Proof. unfold imTokenSecretRefused. quiet_solve. Qed.
#[local] Hint Resolve quiet_refused : quiet.

(** A write over a version that was read: what it stored, if it answers so. *)
Definition wrote (obj o : Secret) (w : World) : Prop :=
  past o w /\ tokenOf o = tokenOf obj /\ previousOf o = previousOf obj.

Lemma updates_step s obj w c x w' : Inv w -> safeOver s obj w -> writes (updates obj w) conflict obj c w = Some (x, w') ->
  Inv w' /\ grows w w' /\ forall o, x = inr o -> wrote obj o w'.
Proof.
  intros I Hs. assert (forall w', updates obj w = Some w' -> Inv w' /\ grows w w' /\ wrote obj (stored w obj) w') as Hw.
  { unfold updates. intros w2 H. destruct (current w) as [cur|] eqn:Hc; [|done]. case_bool_decide as Hv; [|done].
    injection H as <-. assert (cur = s) as ->.
    { pose proof Hs as ([i Hi] & V & _). pose proof (inv_numbered _ I _ _ Hi) as Ei.
      pose proof (inv_numbered _ I _ _ (last_at _ _ Hc)) as En. pose proof (last_at _ _ Hc) as Hl.
      assert (i = pred (List.length (tw_versions w))) as -> by congruence. congruence. }
    split_and!; [by eapply write_inv|apply store_grows|split; [apply store_past|done]]. }
  unfold writes. destruct c; try done; destruct (updates obj w) as [w2|] eqn:Hu; try done; intros [= <- <-];
    try (destruct (Hw w2 eq_refl) as (? & ? & ?); split_and!; [done..|]; by intros o [= <-]); by split_and!.
Qed.

Lemma creates_step obj w c x w' : Inv w -> TrimSpace (tokenOf obj) <> "" -> writes (creates obj w) alreadyExists obj c w = Some (x, w') ->
  Inv w' /\ grows w w' /\ forall o, x = inr o -> wrote obj o w'.
Proof.
  intros I Hs. assert (forall w', creates obj w = Some w' -> Inv w' /\ grows w w' /\ wrote obj (stored w obj) w') as Hw.
  { unfold creates. intros w2 H. destruct (current w) as [cur|] eqn:Hc; [done|]. injection H as <-.
    split_and!; [by apply create_inv|apply store_grows|split; [apply store_past|done]]. }
  unfold writes. destruct c; try done; destruct (creates obj w) as [w2|] eqn:Hu; try done; intros [= <- <-];
    try (destruct (Hw w2 eq_refl) as (? & ? & ?); split_and!; [done..|]; by intros o [= <-]); by split_and!.
Qed.

Definition wroteOr {E} (obj : Secret) (r : E + Secret) (w : World) : Prop := forall o, r = inr o -> wrote obj o w.
Lemma wrote_stable obj o w w' : grows w w' -> wrote obj o w -> wrote obj o w'.
Proof. intros G (? & ?). split; [by eapply past_stable|done]. Qed.

Lemma update_amid s obj w : safeOver s obj w -> Amid (act (UpdateSecret obj)) (wroteOr obj) w.
Proof.
  intros Hs. apply amid_act; [apply _|]. intros w1 c x w2 I1 G1 E.
  destruct (updates_step s obj w1 c x w2) as (I2 & G2 & H); [done|by eapply safeOver_stable|done|].
  split_and!; [done..|]. intros w3 I3 G3 o Eo. eapply wrote_stable; eauto.
Qed.

(** What may be written at the end of CreateOrUpdate. *)
Definition safeWrite (read : option Secret) (obj : Secret) (w : World) : Prop :=
  match read with Some s => safeOver s obj w | None => TrimSpace (tokenOf obj) <> "" end.

Lemma childWrite_amid read obj w : safeWrite read obj w -> Amid (act (ChildWrite read obj)) (wroteOr obj) w.
Proof.
  intros Hs. apply amid_act; [apply _|]. intros w1 c x w2 I1 G1 E.
  assert (Inv w2 /\ grows w1 w2 /\ wroteOr obj (x : KErr + Secret) w2) as (I2 & G2 & H).
  { destruct read as [s|]; cbn in E, Hs; [|by eapply creates_step].
    assert (Hs1 : safeOver s obj w1) by by eapply safeOver_stable.
    case_bool_decide as He; [|by eapply updates_step]. injection E as <- <-. subst obj. split_and!; [done..|].
    intros o [= <-]. split; [apply Hs1|done]. }
  split_and!; [done..|]. intros w3 I3 G3 o Eo. eapply wrote_stable; eauto.
Qed.

Lemma childRead_amid w : Amid (act ChildRead) (fun r w' => forall s, r = inr (Some s) -> past s w') w.
Proof.
  apply amid_act; [apply _|]. intros w1 c x w2 I1 G1 E. cbn in E. destruct (reads c w1) as [r|] eqn:Er; [|done].
  injection E as <- <-. split_and!; [done..|]. intros w3 I3 G3 s ->. apply (past_stable _ w1); [done|].
  destruct c as [| | |[v|]| | | |]; try done. cbn in Er. destruct (tw_versions w1 !! v) as [s'|] eqn:Es; [|done].
  injection Er as ->. by exists v.
Qed.

Lemma auth_token token token' : auth sha256 token ("Bearer " +:+ token') = None -> token = token'.
Proof.
  unfold auth. intros H. destruct (negb (TrimSpace token != "")) eqn:E; [done|]. cbn in H.
  case_bool_decide as Hs; [|done]. apply sha256_inj in Hs. by simplify_eq.
Qed.

(** A member that accepts a token was started with it. *)
Lemma accepts_amid name token w : Inv w ->
  Amid (AcceptsToken name token) (fun r w' => r = inr true -> held name token w') w.
Proof.
  intros I. apply amid_bind'; [done|]. apply (amid_act _ _ _ _ (SendRole name _)); [apply _|]. intros w1 c x w2 I1 G1 E.
  assert (w2 = w1 /\ forall st, x = inr st -> st <> 401 -> held name token w1) as [-> H].
  { cbn in E. destruct c; try done; [by injection E as <- <-|]. destruct (tw_running w1 !! name) as [tok|] eqn:Er; [|done].
    destruct (auth _ tok _) eqn:Ea; cbn in E; [injection E as <- <-; split; [done|]; by intros st [= <-]|].
    apply auth_token in Ea as ->. case_bool_decide; [done|]. injection E as <- <-. split; [done|]. intros st _ _.
    destruct (inv_running _ I1 _ _ Er) as (_ & s & Hs & T). exists (seenBy w1 name), s. split_and!; [done|lia|done]. }
  split_and!; [done..|]. intros w3 I3 G3 _. destruct x as [err|st]; [by apply amid_ret|].
  apply amid_ret. intros w4 I4 G4 [= Hst]. apply negb_true_iff, bool_decide_eq_false in Hst.
  eapply held_stable; [|by eapply H]. by transitivity w3.
Qed.

Lemma membersAccept_amid l token w : Inv w ->
  Amid (membersAccept l token) (fun r w' => r = true -> forall name, name ∈ l -> held name token w') w.
Proof.
  intros I. revert w I. induction l as [|name l IH]; intros w I; cbn [membersAccept].
  { apply amid_ret. intros w1 I1 G1 _ name H. by apply elem_of_nil in H. }
  apply amid_bind'; [done|]. eapply amid_weaken; [|by apply accepts_amid]. intros [err|[]] w1 I1 H _; [by apply amid_ret| |by apply amid_ret].
  eapply amid_weaken; [|by apply amid_grown, IH]. intros r w2 _ [H2 G2] -> n [->|Hn]%elem_of_cons; [|by apply H2].
  eapply held_stable; [done|by apply H].
Qed.

(** ** The handlers *)

Lemma newIMToken_amid w : Inv w ->
  Amid newIMToken (fun r w' => forall token, r = inr token -> TrimSpace token <> "" /\ forall s, past s w -> newAfter s token w') w.
Proof.
  intros I. apply amid_bind'; [done|]. apply (amid_act _ _ _ _ RandomToken); [apply _|]. intros w1 c x w2 I1 G1 E.
  assert (w2 = w1 /\ forall token, x = inr token -> unused token w1 = true) as [-> H].
  { cbn in E. destruct c; try done; [by injection E as <- <-|]. destruct (unused _ w1) eqn:Eu; [|done].
    injection E as <- <-. split; [done|]. by intros ? [= <-]. }
  split_and!; [done..|]. intros w3 I3 G3 _. apply amid_ret. intros w4 I4 G4 token Ht. destruct x as [err|t]; [done|].
  injection Ht as ->. specialize (H _ eq_refl). unfold unused in H. bool_simpl. split; [done|]. intros s Hs.
  apply (newAfter_stable _ _ w1); [by transitivity w3|]. destruct (past_stable _ _ _ G1 Hs) as [i Hi]. exists i.
  split; [done|]. intros j sj _ Hj. apply list_elem_of_lookup_2, list_elem_of_In in Hj.
  match goal with H : forallb _ _ = true |- _ => rewrite forallb_forall in H; specialize (H sj Hj) end. by bool_simpl.
Qed.

Lemma membersHoldToken_amid since token w : Inv w ->
  Amid (membersHoldToken hasChecker cluster since token) (fun r w' => r = inr true -> forall name, name ∈ names -> held name token w') w.
Proof.
  intros I. unfold membersHoldToken. destruct hasChecker; cbn [negb]; [|by apply amid_ret].
  apply amid_trying; [done..|]. apply quiet_membersStarted; [done|]. intros [err|[]] w1 I1 G1; [done| |intros _; by apply amid_ret].
  intros _. apply amid_bind'; [done|]. eapply amid_weaken; [|by apply membersAccept_amid]. intros b w2 I2 H2 _.
  apply amid_ret. intros w3 I3 G3 [= ->] name Hn. eapply held_stable; [done|by apply H2].
Qed.

(** What the callback knows of the Secret it has judged. *)
Definition judged (s obj : Secret) (change : Change) (w : World) : Prop :=
  past s w /\ sc_ResourceVersion obj = sc_ResourceVersion s /\ tokenOf obj = tokenOf s /\
  match change with
  | Generated => False
  | Rotated => previousOf s = ""
  | Unchanged | OverlapEnded => previousOf obj = previousOf s \/ forall name, name ∈ names -> held name (tokenOf s) w
  end.

Notation Meta := (set_Meta (labelsFor cluster) "Opaque").

Lemma judge_amid request s w : Inv w -> past s w ->
  Amid (judgeToken formatTime parseTime hasChecker cluster request (Meta s))
    (fun r w' => forall obj change, r = inr (obj, change) -> judged s obj change w') w.
Proof.
  intros I Hs. unfold judgeToken. cbv zeta. change (tokenOf (Meta s)) with (tokenOf s). change (previousOf (Meta s)) with (previousOf s).
  assert (forall obj change, sc_ResourceVersion obj = sc_ResourceVersion s -> tokenOf obj = tokenOf s ->
    match change with Generated => False | Rotated => previousOf s = "" | _ => previousOf obj = previousOf s end ->
    forall w', Inv w' -> grows w w' -> Amid (mret (inr (obj, change)))
      (fun (r : KErr + (Secret * Change)) w' => forall obj change, r = inr (obj, change) -> judged s obj change w') w') as Hret.
  { intros obj change Hv Ht Hp w1 I1 G1. apply amid_ret. intros w2 I2 G2 o ch [= <- <-].
    split_and!; [eapply past_stable; [|done]; by transitivity w1|done|done|]. destruct change; auto. }
  case_bool_decide as Hb; [destruct Hs as [i Hi]; by destruct (inv_tokens _ I _ _ Hi)|].
  case_bool_decide as Hp; cbn [negb].
  - destruct (_ || _); by apply Hret.
  - destruct (parseTime _) as [since|].
    + apply amid_trying; [done..|]. eapply amid_weaken; [|by apply amid_grown, membersHoldToken_amid].
      intros [err|ended] w1 I1 [H1 G1] ; [done|]. intros _. destruct ended; [|by apply Hret].
      apply amid_ret. intros w2 I2 G2 o ch [= <- <-]. split_and!; [eapply past_stable; [|done]; by transitivity w1|done| |].
      * unfold tokenOf, dataOf, lookupd. cbn. by rewrite lookup_delete_ne.
      * right. intros name Hn. eapply held_stable; [done|by apply H1].
    + apply amid_bind'; [done|]. apply quiet_Now; [done|]. intros t w1 I1 G1 _. by apply Hret.
Qed.

Lemma token_insert token s : tokenOf (map_Data (<[imTokenKey := token]>) s) = token.
Proof. unfold tokenOf, dataOf, lookupd. cbn. by rewrite lookup_insert_eq. Qed.
Lemma previous_insert token s : previousOf (map_Data (<[imTokenKey := token]>) s) = previousOf s.
Proof. unfold previousOf, dataOf, lookupd. cbn. by rewrite lookup_insert_ne. Qed.
Lemma previous_kept token s : previousOf (map_Data (<[imPreviousTokenKey := token]>) s) = token.
Proof. unfold previousOf, dataOf, lookupd. cbn. by rewrite lookup_insert_eq. Qed.

(** The annotation of the request changes no token. *)
Lemma safeWrite_request read request obj w : safeWrite read obj w ->
  safeWrite read (if request != "" then annotate rotateIMTokenAnnotation request obj else obj) w.
Proof. by destruct (request != ""), read. Qed.

Definition safeResult (read : option Secret) (r : KErr + (Secret * Change)) (w : World) : Prop :=
  forall obj change, r = inr (obj, change) -> safeWrite read obj w.

Lemma generate_amid request w : Inv w ->
  Amid (mutateToken formatTime parseTime hasChecker cluster request newSecret) (safeResult None) w.
Proof.
  intros I. unfold mutateToken. apply amid_trying; [done..|]. unfold judgeToken. cbv zeta. rewrite bool_decide_eq_true_2 by done.
  apply amid_ret. intros w1 I1 G1 _. change (isNew Generated) with true. cbv iota.
  apply amid_trying; [done..|]. eapply amid_weaken; [|by apply newIMToken_amid]. intros [err|token] w2 I2 H2; [done|]. intros _.
  apply amid_ret. intros w3 I3 G3 obj ch [= <- _]. apply safeWrite_request. cbn -[TrimSpace tokenOf]. rewrite token_insert.
  by destruct (H2 _ eq_refl).
Qed.

Lemma change_amid request s w : Inv w -> past s w ->
  Amid (mutateToken formatTime parseTime hasChecker cluster request s) (safeResult (Some s)) w.
Proof.
  intros I Hs. unfold mutateToken. apply amid_trying; [done..|]. eapply amid_weaken; [|by apply judge_amid].
  intros [err|[obj ch]] w1 I1 H1; [done|]. intros _. destruct (H1 _ _ eq_refl) as (P1 & V & T & Hc). destruct ch; try done.
  1, 3: match goal with |- context [isNew ?x] => change (isNew x) with false end; cbv iota; apply amid_ret; intros w2 I2 G2 o ch [= <- _];
    apply (safeOver_stable _ _ w1); [done|]; split_and!; [done..|]; by left.
  change (isNew Rotated) with true. change (Rotated == Rotated) with true. cbv iota. apply amid_trying; [done..|].
  eapply amid_weaken; [|by apply amid_grown, newIMToken_amid]. intros [err|token] w2 I2 [H2 G2]; [done|]. intros _.
  apply amid_ret. intros w3 I3 G3 o ch [= <- _]. apply safeWrite_request. destruct (H2 _ eq_refl) as [Ht Hn].
  apply (safeOver_stable _ _ w2); [done|]. split_and!; [by eapply past_stable|done|]. right.
  rewrite token_insert, previous_insert, previous_kept. split_and!; auto.
Qed.

Lemma safeOver_controller s obj c w : safeOver s obj w -> safeOver s (set_Controller c obj) w.
Proof. done. Qed.
Lemma safeWrite_controller read obj c w : safeWrite read obj w -> safeWrite read (set_Controller c obj) w.
Proof. by destruct read. Qed.
Lemma safeWrite_stable read obj w w' : grows w w' -> safeWrite read obj w -> safeWrite read obj w'.
Proof. destruct read; [apply safeOver_stable|done]. Qed.

Lemma reconcileChild_amid request w : Inv w ->
  Amid (reconcileChild quote cluster (mutateToken formatTime parseTime hasChecker cluster request))
    (fun r w' => forall obj change, r = inr (obj, change) -> past obj w') w.
Proof.
  intros I. unfold reconcileChild. apply amid_trying; [done..|]. eapply amid_weaken; [|apply childRead_amid].
  intros [err|read] w1 I1 H1; [done|]. intros _. cbv zeta. destruct (_ && _); [by apply amid_ret|].
  assert (Amid (mutateToken formatTime parseTime hasChecker cluster request (default newSecret read)) (safeResult read) w1) as Hm.
  { destruct read as [s|]; [apply change_amid; auto|by apply generate_amid]. }
  apply amid_trying; [done..|]. eapply amid_weaken; [|exact Hm]. intros [err|[obj ch]] w2 I2 H2; [done|]. intros _.
  apply amid_trying; [done..|]. eapply amid_weaken; [|apply childWrite_amid, safeWrite_controller, (H2 _ _ eq_refl)].
  intros [err|o] w3 I3 H3; [done|]. intros _. apply amid_ret. intros w4 I4 G4 o' ch' [= <- _].
  eapply past_stable; [done|]. by destruct (H3 _ eq_refl).
Qed.

(** An update of annotations alone. *)
Lemma annotate_amid s key value w : Inv w -> past s w ->
  Amid (act (UpdateSecret (annotate key value s))) (fun r w' => forall o, r = inr o -> past o w') w.
Proof.
  intros I Hs. eapply amid_weaken; [|apply (update_amid s)].
  - intros r w1 I1 H1 o ->. by destruct (H1 o eq_refl).
  - split_and!; [done..|]. left. split; [done|]. by left.
Qed.

Lemma stampToken_amid s change w : Inv w -> past s w ->
  Amid (stampToken formatTime s change) (fun r w' => forall o, r = inr o -> past o w') w.
Proof.
  intros I Hs. unfold stampToken. destruct (isNew change).
  - apply amid_bind'; [done|]. apply quiet_Now; [done|]. intros t w1 I1 G1 _. apply annotate_amid; [done|]. by eapply past_stable.
  - apply amid_ret. intros w1 I1 G1 o [= <-]. by eapply past_stable.
Qed.

Lemma reportToken_amid request s change w : Inv w -> past s w ->
  Amid (reportToken hasRecorder cluster request s change) (fun _ _ => True) w.
Proof.
  intros I Hs. assert (forall A (p : Prog A), quiet p -> Amid p (fun _ _ => True) w) as Hq by by intros A p Hp; apply Hp.
  unfold reportToken. destruct change; [|apply Hq; cbv zeta; quiet_solve..].
  destruct (_ && _); [|by apply Hq, quiet_ret]. unfold reportDeferredRotation. case_bool_decide; [by apply Hq, quiet_ret|].
  apply amid_trying; [done..|]. eapply amid_weaken; [|by apply annotate_amid]. intros [err|o] w1 I1 _; [done|]. intros _.
  assert (quiet (_ ← event hasRecorder "Normal" "InstanceManagerTokenRotationDeferred"
          ("the requested Instance Manager token rotation waits until every member holds the current token of Secret " +:+
           imTokenSecretName (cl_Name cluster)); mret (inr tt : KErr + unit))) as Hr by quiet_solve.
  by apply Hr.
Qed.

Lemma reconcile_amid request w : Inv w ->
  Amid (reconcileIMTokenSecret formatTime parseTime quote hasChecker hasRecorder cluster request) (fun _ _ => True) w.
Proof.
  intros I. apply amid_bind'; [done|]. eapply amid_weaken; [|by apply reconcileChild_amid]. intros [err|[s ch]] w1 I1 H1 _.
  - destruct (IsAlreadyExists err); [by apply quiet_refused|by apply amid_ret].
  - apply amid_trying; [done..|]. eapply amid_weaken; [|apply stampToken_amid; eauto]. intros [err|o] w2 I2 H2; [done|]. intros _.
    apply reportToken_amid; auto.
Qed.

(** ** The system *)

Lemma starts_inv name v w w' : Inv w -> starts names name v w = Some w' -> Inv w' /\ grows w w'.
Proof.
  intros I. unfold starts. destruct (tw_versions w !! v) as [s|] eqn:E; [|done]. destruct (_ && _) eqn:Hb; [|done]. intros [= <-].
  bool_simpl. match goal with H : (_ <=? _)%nat = true |- _ => apply Nat.leb_le in H; rename H into Hle end.
  set (w' := mkWorld _ _ _ _). assert (forall n, seenBy w' n = if decide (n = name) then v else seenBy w n) as Hseen.
  { intros n. unfold seenBy. cbn. case_decide; subst; [by rewrite lookup_insert_eq|by rewrite lookup_insert_ne]. }
  split; [|split; [done|]; intros n; rewrite Hseen; case_decide; subst; lia].
  split; [apply I|apply I|apply I| |].
  - intros n i si Hn Hi Hs. apply (inv_members _ I n i si); [done| |done]. rewrite Hseen in Hi. case_decide; subst; lia.
  - intros n token. cbn. rewrite lookup_insert_Some, Hseen. intros [[<- <-]|[Hne Hr]].
    + rewrite decide_True by done. eauto.
    + rewrite decide_False by done. by apply (inv_running _ I).
Qed.

Lemma stops_inv name w : Inv w -> Inv (stops name w).
Proof. intros [? ? ? ? R]. split; [done..|]. intros n token. cbn. rewrite lookup_delete_Some. intros [_ H]. by apply R. Qed.

Definition SysInv (s : Sys) : Prop := Inv (sy_world s) /\ Forall (fun p => Amid p (fun _ _ => True) (sy_world s)) (sy_threads s).

Lemma others_stable w w' l : grows w w' -> Forall (fun p => Amid p (fun _ _ => True) w) l ->
  Forall (fun p : Prog (KErr + unit) => Amid p (fun _ _ => True) w') l.
Proof. intros G H. eapply Forall_impl; [exact H|]. intros p. by apply amid_stable; [apply _|]. Qed.

Notation transition := (transition sha256 formatTime parseTime quote hasChecker hasRecorder cluster).
Notation runs := (runs sha256 formatTime parseTime quote hasChecker hasRecorder cluster).

Lemma token_transition_inv ev s s' : SysInv s -> transition ev s = Some s' -> SysInv s'.
Proof.
  intros [I T]. destruct ev as [request|i c|name v|name]; cbn.
  - intros [= <-]. split; [done|]. apply Forall_app. split; [done|]. by apply Forall_singleton, reconcile_amid.
  - destruct (sy_threads s !! i) as [[|e k]|] eqn:Ei; [done| |done]. destruct (exec _ e c _) as [[x w']|] eqn:Ee; [|done]. intros [= <-].
    destruct (proj1 (Forall_lookup _ _) T i _ Ei _ I (reflexivity _) c x w' Ee) as (I2 & G2 & A2).
    split; [done|]. apply Forall_insert; [by eapply others_stable|done].
  - destruct (starts _ name v _) as [w'|] eqn:E; [|done]. intros [= <-]. destruct (starts_inv _ _ _ _ I E) as [I2 G2].
    split; [done|by eapply others_stable].
  - intros [= <-]. split; [by apply stops_inv|]. eapply others_stable; [|done]. by split.
Qed.

Lemma token_runs_inv events s s' : SysInv s -> runs events s = Some s' -> SysInv s'.
Proof.
  revert s. induction events as [|ev rest IH]; cbn; intros s I; [by intros [= <-]|].
  destruct (transition ev s) as [s1|] eqn:E; [|done]. apply IH. by eapply token_transition_inv.
Qed.

Lemma token_initial_inv w : initial cluster w -> Inv w.
Proof.
  intros (Hs & [[E Er]|(s & E & V & T & R)]); split; rewrite ?E, ?Er; try done.
  - intros i s'. by destruct i as [|[]]; cbn; intros [= <-].
  - intros i s'. by destruct i as [|[]]; cbn; intros [= <-].
  - intros i j k si sj sk _ _. destruct i as [|[]], k as [|[]]; cbn; congruence.
  - intros name i s' _ _ H. exists s. unfold current. rewrite E. split; [done|]. left. by destruct i as [|[]]; cbn in H; simplify_eq.
  - intros name token H. destruct (R _ _ H) as [? ->]. split; [done|]. exists s. unfold seenBy. by rewrite Hs.
Qed.

(** The current version covers every member that runs. *)
Lemma running_callable w name token : Inv w -> tw_running w !! name = Some token ->
  name ∈ names /\ TrimSpace token <> "" /\ exists s, current w = Some s /\ TrimSpace (tokenOf s) <> "" /\ callable s token.
Proof.
  intros I H. destruct (inv_running _ I _ _ H) as (Hn & s & Hs & <-). split; [done|]. split; [by eapply inv_tokens|].
  destruct (inv_members _ I _ _ _ Hn (le_n _) Hs) as (cur & Ec & C). exists cur. split_and!; [done| |done].
  by eapply inv_tokens, last_at.
Qed.

Lemma auth_own token : TrimSpace token <> "" -> auth sha256 token ("Bearer " +:+ token) = None.
Proof. intros H. unfold auth. rewrite (bool_decide_eq_false_2 (TrimSpace token = "")) by done. by rewrite bool_decide_eq_true_2. Qed.
(** What the operator reads of a Secret, as ClusterTokens asks for it. *)
Definition readsSecret (secret : Secret) (name : string) : string + gmap string string :=
  if name == imTokenSecretName (cl_Name cluster) then inr (sc_Data secret) else inl "not found".

Lemma callable_tokens secret name token : (cl_Name cluster <> "") -> (sp_PromotableMembers (cl_Spec cluster) <= 4294967296) ->
  name ∈ names -> TrimSpace (tokenOf secret) <> "" -> TrimSpace token <> "" -> callable secret token ->
  exists tokens, memberTokens (Some (ClusterTokens (readsSecret secret))) name = inr tokens /\ token ∈ tokens.
Proof.
  intros Hc Hm Hn Ht Htok C. apply list_elem_of_fmap in Hn as (i & -> & Hi). apply list_elem_of_fmap in Hi as (j & -> & Hj).
  apply elem_of_seq in Hj. unfold memberTokens. rewrite ClusterTokens_own by (done || lia).
  unfold readsSecret. rewrite bool_decide_eq_true_2 by done.
  assert (tokenOf secret <> "") as Hne by (intros E; by rewrite E in Ht). assert (token <> "") by (intros ->; by apply Htok).
  unfold callable, tokenOf, previousOf, dataOf in *.
  destruct (lookupd "" (sc_Data secret) imTokenKey) as [|c1 cur]; [done|].
  destruct (lookupd "" (sc_Data secret) imPreviousTokenKey) as [|c2 prev].
  - rewrite bool_decide_eq_false_2 by set_solver. rewrite bool_decide_eq_false_2 by done. eexists. split; [done|]. destruct C as [->| ->]; set_solver.
  - case_decide as Hd; (rewrite bool_decide_eq_false_2 by set_solver); (rewrite bool_decide_eq_false_2 by done); eexists; (split; [done|]);
      rewrite ?Hd in *; destruct C as [->| ->]; set_solver.
Qed.

(** C4: The operator keeps its access to every member.  Whatever reconciles
    of the cluster run beside each other, with old reads of the Secret,
    refused and lost writes and requested rotations, and however containers
    start (with the token of a version of the Secret that can be old, but is
    not older than the one the member had before) and stop: the token of every
    member that runs is one of those the operator calls it with, and the
    member's Instance Manager accepts it. *)
Theorem operator_keeps_access events w s name token : (cl_Name cluster <> "") ->
  (sp_PromotableMembers (cl_Spec cluster) <= 4294967296) -> initial cluster w -> runs events (mkSys w []) = Some s ->
  tw_running (sy_world s) !! name = Some token ->
  exists secret tokens, current (sy_world s) = Some secret /\
    memberTokens (Some (ClusterTokens (readsSecret secret))) name = inr tokens /\ token ∈ tokens /\
    auth sha256 token ("Bearer " +:+ token) = None.
Proof.
  intros Hc Hm Hi Hr Hn. assert (SysInv (mkSys w [])) as I0 by (split; [by apply token_initial_inv|constructor]).
  destruct (token_runs_inv _ _ _ I0 Hr) as [I _].
  destruct (running_callable _ _ _ I Hn) as (Hin & Ht & secret & Ec & Hs & C).
  destruct (callable_tokens secret name token Hc Hm Hin Hs Ht C) as (tokens & E & Hin'). exists secret, tokens.
  split_and!; [done..|]. by apply auth_own.
Qed.
End safety.

(** ** A rotation

    The token of a standalone cluster is generated and rotated; its member is
    started again from an old version, so that the second reconcile keeps the
    previous token and defers a further request; once it was started with the
    new token, the previous one is dropped. *)
Module Rotation.
Definition cluster : CubridCluster :=
  mkCluster "c" "ns" "u1" 1 (mkSpec "11.4" ["db"] 1 false None None) (mkStatus 0 "" [] [] [] None "" None None).
Definition formatTime (t : Z) : string := pretty t.
Definition parseTime (s : string) : option Z := if s == "" then None else Some 10.
Definition notFound : KErr := mkKErr KNotFound "not found".

Definition generate : list Event := Reconciles "" ::
  (Acts 0 <$> [Cached None; Draws "t1"; Fine; AtTime 5; Fine; Fault notFound]).
Definition rotate : list Event := Reconciles "r1" ::
  (Acts 1 <$> [Cached (Some 1%nat); Draws "t2"; Fine; AtTime 10; Fine; Fine]).
Definition deferred : list Event := Reconciles "r2" ::
  (Acts 2 <$> [Cached (Some 3%nat); PodIs [("cubrid", Some 20)]; Answers 200; Fine; Fine; Fine]).
Definition ends : list Event := Reconciles "r1" ::
  (Acts 3 <$> [Cached (Some 4%nat); PodIs [("cubrid", Some 30)]; Answers 200; Fine; Fine]).

Definition events : list Event :=
  generate ++ [Starts "c-0" 1] ++ rotate ++ [Stops "c-0"; Starts "c-0" 1] ++ deferred ++ [Starts "c-0" 3] ++ ends.
Definition start : World := mkWorld [] ∅ ∅ [].
Definition result : option Sys := runs id formatTime parseTime id true true cluster events (mkSys start []).

(** The member's token, the Events, and the tokens of the Secret in the end. *)
Definition summary (w : World) : option string * list string * option (string * string) :=
  (tw_running w !! "c-0", ke_Reason <$> tw_events w, (fun s => (tokenOf s, previousOf s)) <$> current w).
End Rotation.

Lemma operator_keeps_access_witness : exists s secret tokens, Rotation.result = Some s /\
  Rotation.summary (sy_world s) = (Some "t2",
    ["InstanceManagerTokenRotated"; "InstanceManagerTokenRotationDeferred"; "InstanceManagerTokenOverlapEnded"],
    Some ("t2", "")) /\
  current (sy_world s) = Some secret /\
  memberTokens (Some (ClusterTokens (readsSecret Rotation.cluster secret))) "c-0" = inr tokens /\ "t2" ∈ tokens.
Proof.
  assert (Rotation.summary ∘ sy_world <$> Rotation.result = Some (Some "t2",
    ["InstanceManagerTokenRotated"; "InstanceManagerTokenRotationDeferred"; "InstanceManagerTokenOverlapEnded"],
    Some ("t2", ""))) as H by (vm_compute; reflexivity).
  destruct Rotation.result as [s|] eqn:E; [|done]. injection H as Hr He Hc.
  destruct (operator_keeps_access id Rotation.formatTime Rotation.parseTime id true true Rotation.cluster (fun a b H => H)
    Rotation.events Rotation.start s "c-0" "t2") as (secret & tokens & Ec & Et & Hin & _).
  - discriminate.
  - clear. cbn. lia.
  - split; [reflexivity|]. left. split; reflexivity.
  - exact E.
  - exact Hr.
  - exists s, secret, tokens. split; [reflexivity|]. split; [|split; [exact Ec|split; [exact Et|exact Hin]]].
    unfold Rotation.summary. rewrite Hr, He, Hc. reflexivity.
Defined.
