(* ===== verification/Transitions.v ===== *)
(** * Transitions of a cluster's status

    internal/controller/transitions.go: the changes of the observed state
    between the status a reconcile started from and the one it wrote, each a
    log line and, when it has a reason, an Event.  The theorem says exactly
    which statuses differ in nothing that is reported. *)
From stdpp Require Import prelude gmap strings pretty list.
From S2P Require Import Prelude Api GoStr HARole Replication HAStatus HABootstrap.

(** ** Transitions *)

(** The values of a log line. *)
Inductive Field := FString (s : string) | FInt (z : Z).

Record transition := mkTransition {
  tr_Event : string;
  tr_Reason : string;
  tr_Warning : bool;
  tr_Message : string;
  tr_Fields : list (string * Field) }.

Definition logKeyReason : string := "reason".
Definition logKeyMember : string := "member".
Definition logKeyOldReason : string := "oldReason".
Definition logKeyDatabase : string := "database".
Definition logKeyOperationID : string := "operationID".
Definition reasonUnfinishedDatabaseWaiting : string := "UnfinishedDatabaseWaiting".
Definition reasonUnfinishedDatabaseRefused : string := "UnfinishedDatabaseRefused".

Definition statusText (s : ConditionStatus) : string :=
  match s with ConditionTrue => "True" | ConditionFalse => "False" | ConditionUnknown => "Unknown" end.

(** decisive: True or False, and not Unknown. *)
Definition decisive (c : option Condition) : bool :=
  match c with Some c => (c_Status c == ConditionTrue) || (c_Status c == ConditionFalse) | None => false end.

Section transitions.
Context `{O : ConditionOps} (quote : string -> string).

Definition conditionChanged (now : Condition) : string :=
  "Condition " +:+ c_Type now +:+ " changed to " +:+ statusText (c_Status now) +:+ " (" +:+ c_Reason now +:+ ")".

Definition primaryTransitions (before after : CubridClusterStatus) : list transition :=
  let was := IsStatusConditionTrue (st_Conditions before) conditionPrimaryResolved in
  match findCondition (st_Conditions after) conditionPrimaryResolved with
  | None => []
  | Some now =>
      let is_ := c_Status now == ConditionTrue in
      let old := findCondition (st_Conditions before) conditionPrimaryResolved in
      let oldReason := match old with Some o => c_Reason o | None => "" end in
      let refused := mkTransition "instance_manager_token_refused" reasonTokenRefused true
        ("Primary is not resolved: " +:+ c_Message now)
        [(logKeyOldReason, FString oldReason); (logKeyReason, FString (c_Reason now))] in
      if was && is_ && (st_CurrentPrimary before != st_CurrentPrimary after) then
        [mkTransition "primary_changed" "PrimaryChanged" false
           ("Primary changed from " +:+ st_CurrentPrimary before +:+ " to " +:+ st_CurrentPrimary after)
           [("oldPrimary", FString (st_CurrentPrimary before)); ("newPrimary", FString (st_CurrentPrimary after))]]
      else if was && negb is_ then
        [mkTransition "primary_unresolved" "PrimaryUnresolved" true
           ("Primary is no longer resolved (" +:+ c_Reason now +:+ "); it was " +:+ st_CurrentPrimary before)
           [("oldPrimary", FString (st_CurrentPrimary before)); (logKeyReason, FString (c_Reason now))]] ++
        (if c_Reason now == reasonTokenRefused then [refused] else [])
      else if negb was && is_ then
        [mkTransition "primary_resolved" "PrimaryResolved" false ("Primary resolved: " +:+ st_CurrentPrimary after)
           [("newPrimary", FString (st_CurrentPrimary after))]]
      else if negb is_ && match old with
                          | None => true
                          | Some o => (c_Reason o != c_Reason now) || (c_Status o != c_Status now)
                          end then
        if c_Reason now == reasonTokenRefused then [refused]
        else
          [mkTransition "condition_changed" "" false (conditionChanged now)
             [("condition", FString (c_Type now)); (logKeyOldReason, FString oldReason);
              ("newStatus", FString (statusText (c_Status now))); (logKeyReason, FString (c_Reason now))]]
      else []
  end.

Definition sameCondition (was now : Condition) : bool := (c_Status was == c_Status now) && (c_Reason was == c_Reason now).

Definition replicationTransitions (before after : CubridClusterStatus) : list transition :=
  match findCondition (st_Conditions before) conditionReplicationHealthy,
        findCondition (st_Conditions after) conditionReplicationHealthy with
  | Some was, Some now =>
      if negb (decisive (Some was)) || negb (decisive (Some now)) || sameCondition was now then []
      else if c_Status now == ConditionTrue then
        [mkTransition "replication_recovered" "ReplicationRecovered" false ("Replication recovered: " +:+ c_Message now) []]
      else
        let event := if c_Reason now == reasonApplyFailures then "apply_failures"
                     else if c_Reason now == reasonLogCopyStalled then "log_copy_stalled"
                     else "replication_stalled" in
        [mkTransition event (c_Reason now) true ("Replication is not healthy: " +:+ c_Message now)
           [(logKeyReason, FString (c_Reason now))]]
  | _, _ => []
  end.

(** The loop of transitions over the conditions of the new status. *)
Definition conditionTransitions (before : CubridClusterStatus) (now : Condition) : list transition :=
  let was := findCondition (st_Conditions before) (c_Type now) in
  if c_Type now == conditionPrimaryResolved then []
  else if match was with Some was => sameCondition was now | None => false end then []
  else if (c_Type now == conditionReplicationHealthy) && decisive was && decisive (Some now) then []
  else
    let '(oldStatus, oldReason) := match was with Some w => (statusText (c_Status w), c_Reason w) | None => ("", "") end in
    [mkTransition "condition_changed" "" false (conditionChanged now)
       [("condition", FString (c_Type now)); ("oldStatus", FString oldStatus); (logKeyOldReason, FString oldReason);
        ("newStatus", FString (statusText (c_Status now))); (logKeyReason, FString (c_Reason now))]].

Definition sameUnfinished (was now : InstanceUnfinishedDatabase) : bool :=
  (iu_Database was == iu_Database now) && (iu_Operation was == iu_Operation now) && (iu_State was == iu_State now).

Definition unfinishedTransitions (member : string) (was now : option InstanceUnfinishedDatabase) : list transition :=
  match now, was with
  | None, None => []
  | None, Some was =>
      [mkTransition "member_database_unfinished_cleared" "" false
         ("Member " +:+ member +:+ " no longer reports database " +:+ iu_Database was +:+ " as unfinished")
         [(logKeyMember, FString member); (logKeyDatabase, FString (iu_Database was));
          (logKeyOperationID, FString (iu_Operation was))]]
  | Some now, _ =>
      if match was with Some was => sameUnfinished was now | None => false end then []
      else
        let marker := "the marker of an unfinished createdb or restoredb" +:+
          (if iu_Operation now != "" then " (operation " +:+ iu_Operation now +:+ ")" else "") in
        let text := "Member " +:+ member +:+ " does not start database " +:+ iu_Database now +:+ ": it carries " +:+ marker in
        let fields := [(logKeyMember, FString member); (logKeyDatabase, FString (iu_Database now));
                       (logKeyOperationID, FString (iu_Operation now)); ("state", FString (iu_State now))] in
        if iu_State now != UnfinishedWaitingForOperation then
          [mkTransition "member_database_unfinished" reasonUnfinishedDatabaseRefused true
             (text +:+ ", which no operation of the Instance Manager takes up now: " +:+ iu_Message now) fields]
        else
          [mkTransition "member_database_unfinished" reasonUnfinishedDatabaseWaiting false
             (text +:+ ", which the Instance Manager takes up: " +:+ iu_Message now) fields]
  end.

Definition isStalled (i : InstanceStatus) : bool := match is_Replication i with Some r => non_nil (ir_StalledSince r) | None => false end.
Definition isNotReceiving (i : InstanceStatus) : bool :=
  match is_Replication i with Some r => non_nil (ir_NotReceivingSince r) | None => false end.

(** A field of [in.Replication], which is not nil where it is read. *)
Definition ofReplication {A} (zero : A) (field : InstanceReplication -> A) (i : InstanceStatus) : A :=
  match is_Replication i with Some r => field r | None => zero end.
(** The switch on a flag that was set, and is. *)
Definition flagTransition (was is_ : bool) (began ended : transition) : list transition :=
  if negb was && is_ then [began] else if was && negb is_ then [ended] else [].

(** The member as the status before has it; of two entries of one name the
    later counts. *)
Definition oldInstances (before : CubridClusterStatus) : gmap string InstanceStatus :=
  fold_left (fun old i => <[is_Name i := i]> old) (st_Instances before) ∅.

Definition memberTransition (old : gmap string InstanceStatus) (i : InstanceStatus) : list transition :=
  let seen := non_nil (old !! is_Name i) in
  let was := default zeroInstanceStatus (old !! is_Name i) in
  let name := is_Name i in
  let firstUnknown := negb seen && (is_Role i == RoleUnknown) in
  (if (negb seen || (is_Role was != is_Role i)) && negb firstUnknown then
     [mkTransition "member_role_changed" "" false
        ("Member " +:+ name +:+ " changed role from " +:+ quote (is_Role was) +:+ " to " +:+ quote (is_Role i))
        [(logKeyMember, FString name); ("oldRole", FString (is_Role was)); ("newRole", FString (is_Role i))]]
   else []) ++
  flagTransition (isStalled was) (isStalled i)
    (mkTransition "member_replication_stalled" "" true
       ("Member " +:+ name +:+ " has log pages waiting and applied nothing since the last observation")
       [(logKeyMember, FString name); ("delayedPages", FInt (ofReplication 0 ir_DelayedPages i));
        ("source", FString (ofReplication "" ir_Source i))])
    (mkTransition "member_replication_resumed" "" false ("Member " +:+ name +:+ " applies the master's log again")
       [(logKeyMember, FString name)]) ++
  flagTransition (isNotReceiving was) (isNotReceiving i)
    (mkTransition "member_log_copy_stalled" "" true
       ("Member " +:+ name +:+ " has log pages waiting to be copied and its copy of the master's log did not grow since the last observation")
       [(logKeyMember, FString name); ("copyDelayedPages", FInt (ofReplication 0 ir_CopyDelayedPages i));
        ("source", FString (ofReplication "" ir_Source i))])
    (mkTransition "member_log_copy_resumed" "" false ("Member " +:+ name +:+ " receives the master's log again")
       [(logKeyMember, FString name)]) ++
  unfinishedTransitions name (is_UnfinishedDatabase was) (is_UnfinishedDatabase i).

Definition memberTransitions (before after : CubridClusterStatus) : list transition :=
  st_Instances after ≫= memberTransition (oldInstances before).

Definition zeroBootstrapStatus : BootstrapStatus := mkBootstrapStatus "" "" "" "" "" 0 None.

Definition recoveryTransitions (before after : CubridClusterStatus) : list transition :=
  match st_Bootstrap after with
  | None => []
  | Some now =>
      let was := default zeroBootstrapStatus (st_Bootstrap before) in
      let fields := [(logKeyMember, FString (bs_TargetMember now)); (logKeyOperationID, FString (bs_OperationID now))] in
      (if (bs_OperationID now != "") && (bs_OperationID now != bs_OperationID was) then
         [mkTransition "restore_started" "RestoreStarted" false
            ("Restore of " +:+ bs_ManifestURI now +:+ " started on " +:+ bs_TargetMember now +:+ " (attempt " +:+
             pretty (wrap32 (bs_Attempts now + 1)) +:+ ")") fields]
       else []) ++
      (if bs_Phase now == bs_Phase was then []
       else if bs_Phase now == BootstrapRestoring then
         [mkTransition "restore_running" "RestoreRunning" false
            ("The backup is downloaded; restoredb is running on " +:+ bs_TargetMember now) fields]
       else if bs_Phase now == BootstrapComplete then
         [mkTransition "restore_completed" "RestoreCompleted" false
            ("Recovery from " +:+ bs_ManifestURI now +:+ " completed") fields]
       else if bs_Phase now == BootstrapFailed then
         [mkTransition "restore_failed" "RestoreFailed" true
            ("Recovery from " +:+ bs_ManifestURI now +:+ " failed" +:+
             match findCondition (st_Conditions after) conditionBootstrapReady with
             | Some ready => ": " +:+ c_Message ready
             | None => ""
             end) fields]
       else [])
  end.

Definition transitions (before after : CubridClusterStatus) : list transition :=
  primaryTransitions before after ++ replicationTransitions before after ++ recoveryTransitions before after ++
  (st_Conditions after ≫= conditionTransitions before) ++ memberTransitions before after.
End transitions.

(** ** What is not reported

    Two statuses that differ in nothing a transition is reported for. *)
Lemma bind_nil {A B} (l : list A) (f : A -> list B) : l ≫= f = [] <-> forall x, x ∈ l -> f x = [].
Proof.
  induction l as [|x l IH]; cbn; [split; [by intros _ x ?%elem_of_nil|done]|]. rewrite app_nil, IH. set_solver.
Qed.

Section silent.
Context `{O : ConditionOps} (quote : string -> string).

(** What of an unfinished database is compared. *)
Definition unfinishedKey (u : option InstanceUnfinishedDatabase) : option (string * string * string) :=
  (fun u => (iu_Database u, iu_Operation u, iu_State u)) <$> u.

Record sameMember (was : option InstanceStatus) (i : InstanceStatus) : Prop := {
  sm_role : is_Role i = match was with Some w => is_Role w | None => RoleUnknown end;
  sm_stalled : isStalled i = match was with Some w => isStalled w | None => false end;
  sm_receiving : isNotReceiving i = match was with Some w => isNotReceiving w | None => false end;
  sm_unfinished : unfinishedKey (is_UnfinishedDatabase i) = unfinishedKey (was ≫= is_UnfinishedDatabase) }.

Record sameRecovery (was : option BootstrapStatus) (now : BootstrapStatus) : Prop := {
  sr_operation : bs_OperationID now = "" \/ bs_OperationID <$> was = Some (bs_OperationID now);
  sr_phase : bs_Phase now = default "" (bs_Phase <$> was) \/ bs_Phase now ∉ [BootstrapRestoring; BootstrapComplete; BootstrapFailed] }.

Record sameStatus (before after : CubridClusterStatus) : Prop := {
  ss_primary : forall now, findCondition (st_Conditions after) conditionPrimaryResolved = Some now ->
    exists old, findCondition (st_Conditions before) conditionPrimaryResolved = Some old /\ c_Status old = c_Status now /\
      (if c_Status now == ConditionTrue then st_CurrentPrimary before = st_CurrentPrimary after else c_Reason old = c_Reason now);
  ss_conditions : forall now, now ∈ st_Conditions after -> c_Type now <> conditionPrimaryResolved ->
    exists was, findCondition (st_Conditions before) (c_Type now) = Some was /\
      c_Status was = c_Status now /\ c_Reason was = c_Reason now;
  ss_members : forall i, i ∈ st_Instances after -> sameMember (oldInstances before !! is_Name i) i;
  ss_recovery : forall now, st_Bootstrap after = Some now -> sameRecovery (st_Bootstrap before) now }.

Context `{!ConditionLaws O}.

Lemma sameCondition_iff was now : sameCondition was now = true <-> c_Status was = c_Status now /\ c_Reason was = c_Reason now.
Proof. unfold sameCondition. by rewrite andb_true_iff, !bool_decide_eq_true. Qed.

Lemma primary_silent before after : primaryTransitions before after = [] <->
  forall now, findCondition (st_Conditions after) conditionPrimaryResolved = Some now ->
    exists old, findCondition (st_Conditions before) conditionPrimaryResolved = Some old /\ c_Status old = c_Status now /\
      (if c_Status now == ConditionTrue then st_CurrentPrimary before = st_CurrentPrimary after else c_Reason old = c_Reason now).
Proof.
  unfold primaryTransitions. destruct (findCondition (st_Conditions after) _) as [now|]; [|naive_solver].
  pose proof (is_true_find (st_Conditions before) conditionPrimaryResolved) as Hw. unfold conditionStatus in Hw.
  destruct (findCondition (st_Conditions before) _) as [o|]; cbn in *.
  - assert (IsStatusConditionTrue (st_Conditions before) conditionPrimaryResolved = (c_Status o == ConditionTrue)) as ->.
    { apply eq_true_iff_eq. rewrite Hw, bool_decide_eq_true. split; [by intros [= ->]|by intros ->]. }
    split.
    + intros E now' [= <-]. exists o. split; [done|]. repeat case_bool_decide; cbn in E; (discriminate E || split; congruence).
    + intros Ho. destruct (Ho now eq_refl) as (o' & [= <-] & Hs & Hr). clear Ho Hw.
      repeat case_bool_decide; cbn; congruence.
  - split; [|intros Ho; by destruct (Ho now eq_refl) as (? & [=] & _)].
    destruct (IsStatusConditionTrue _ _); [discriminate (proj1 Hw eq_refl)|]. repeat case_bool_decide; done.
Qed.

Lemma conditions_silent before after : NoDup (c_Type <$> st_Conditions after) ->
  replicationTransitions before after = [] /\ (st_Conditions after ≫= conditionTransitions before = []) <->
  forall now, now ∈ st_Conditions after -> c_Type now <> conditionPrimaryResolved ->
    exists was, findCondition (st_Conditions before) (c_Type now) = Some was /\ c_Status was = c_Status now /\ c_Reason was = c_Reason now.
Proof.
  intros Hd. rewrite bind_nil. split.
  - intros [Hr Hc] now Hn Ht. specialize (Hc now Hn). unfold conditionTransitions in Hc. rewrite bool_decide_eq_false_2 in Hc by done.
    destruct (findCondition (st_Conditions before) (c_Type now)) as [was|] eqn:E.
    + exists was. split; [done|]. apply sameCondition_iff. destruct (sameCondition was now) eqn:Es; [done|].
      case_bool_decide as Hrh; [|done]. cbn [andb] in Hc. unfold replicationTransitions in Hr.
      rewrite <- Hrh, E, (find_in _ now Hd Hn), Es, orb_false_r in Hr.
      destruct (decisive (Some was)); [|done]. destruct (decisive (Some now)); [|done]. cbn [negb orb andb] in Hr. by case_bool_decide.
    + by rewrite andb_false_r in Hc.
  - intros H. split.
    + unfold replicationTransitions. destruct (findCondition (st_Conditions before) _) as [was|] eqn:Eb; [|done].
      destruct (findCondition (st_Conditions after) _) as [now|] eqn:Ea; [|done].
      pose proof (find_type _ _ _ Ea) as Et. assert (now ∈ st_Conditions after) as Hn.
      { unfold findCondition in Ea. destruct (FindStatusCondition _ _) as [i|]; [|done]. by eapply list_elem_of_lookup_2. }
      destruct (H now Hn) as (was' & Ew & Hs); [by rewrite Et|]. rewrite Et, Eb in Ew. injection Ew as <-.
      apply sameCondition_iff in Hs. by rewrite Hs, orb_true_r.
    + intros now Hn. unfold conditionTransitions. case_bool_decide as Ht; [done|].
      destruct (H now Hn Ht) as (was & -> & Hs). apply sameCondition_iff in Hs. by rewrite Hs.
Qed.
Lemma unfinished_silent name was now : unfinishedTransitions name was now = [] <-> unfinishedKey now = unfinishedKey was.
Proof.
  destruct now as [n|], was as [u|]; cbn; try done.
  - unfold sameUnfinished. destruct (_ && _ && _) eqn:E.
    + bool_simpl. split; [|done]. intros _. congruence.
    + assert (unfinishedKey (Some n) <> unfinishedKey (Some u)) by (intros [= H1 H2 H3]; rewrite H1, H2, H3, !bool_decide_eq_true_2 in E; done).
      repeat case_bool_decide; (split; [discriminate|intros ?; contradiction]).
  - repeat case_bool_decide; done.
Qed.

Lemma flag_silent was is_ began ended : flagTransition was is_ began ended = [] <-> is_ = was.
Proof. by destruct was, is_. Qed.

Lemma member_silent old i : memberTransition quote old i = [] <-> sameMember (old !! is_Name i) i.
Proof.
  unfold memberTransition. rewrite !app_nil, unfinished_silent, !flag_silent.
  destruct (old !! is_Name i) as [was|]; cbn.
  - rewrite andb_true_r. split.
    + intros (Hr & Hs & Hn & Hu). split; cbn; try done. case_bool_decide; [done|]. done.
    + intros [Hr Hs Hn Hu]. cbn in *. split_and!; [|done..]. by rewrite bool_decide_eq_true_2.
  - split.
    + intros (Hr & Hs & Hn & Hu). split; cbn; try done. by case_bool_decide.
    + intros [Hr Hs Hn Hu]. cbn in *. split_and!; [|done..]. by rewrite bool_decide_eq_true_2.
Qed.

Lemma recovery_silent before after : recoveryTransitions before after = [] <->
  forall now, st_Bootstrap after = Some now -> sameRecovery (st_Bootstrap before) now.
Proof.
  unfold recoveryTransitions. destruct (st_Bootstrap after) as [now|]; [|by split].
  transitivity (sameRecovery (st_Bootstrap before) now); [|naive_solver]. rewrite app_nil. split.
  - intros [Ho Hp]. split.
    + destruct (_ && _) eqn:E; [done|]. apply andb_false_iff in E. rewrite !negb_false_iff, !bool_decide_eq_true in E.
      destruct E as [E|E]; [by left|]. destruct (st_Bootstrap before) as [was|]; [right; cbn; by f_equal|by left].
    + case_bool_decide as E; [left; by destruct (st_Bootstrap before)|right]. repeat (case_bool_decide; [done|]). set_solver.
  - intros [Ho Hp]. split.
    + destruct Ho as [->|Ho]; [done|]. destruct (st_Bootstrap before) as [was|]; [|done]. injection Ho as Ho. cbn [default].
      by rewrite (bool_decide_eq_true_2 (bs_OperationID now = bs_OperationID was)), andb_false_r.
    + case_bool_decide as E; [done|]. destruct Hp as [Hp|Hp]; [destruct E; by destruct (st_Bootstrap before)|].
      rewrite !bool_decide_eq_false_2 by set_solver. done.
Qed.

(** C18: A transition is reported exactly for what changed: a status that is
    followed by another is followed by no log line and no Event if and only if
    the two agree in the resolution of the primary, in the status and the
    reason of every condition, in every member's role, stalls and unfinished
    database, and in the step of a recovery.  A member that is listed for the
    first time counts as one of unknown role before. *)
Theorem transitions_silent_iff before after : NoDup (c_Type <$> st_Conditions after) ->
  transitions quote before after = [] <-> sameStatus before after.
Proof.
  intros Hd. unfold transitions, memberTransitions. rewrite !app_nil, (bind_nil (st_Instances after)), primary_silent, recovery_silent.
  split.
  - intros (? & Hr & ? & Hc & Hm). split; [done|by apply conditions_silent|intros i Hi; by apply member_silent, Hm|done].
  - intros [Hp Hc Hm Hr]. apply conditions_silent in Hc as [? ?]; [|done]. split_and!; try done.
    intros i Hi. by apply member_silent, Hm.
Qed.
End silent.

(** The primary moves, and an observation that finds what is stored. *)
Module TransitionExample.
Import SliceConditions.
Definition condition (status : ConditionStatus) (reason : string) : Condition := mkCondition conditionPrimaryResolved status 1 0 reason "".
Definition status (primary : string) : CubridClusterStatus := mkStatus 1 primary [] [] [condition ConditionTrue "PrimaryResolved"] None "" None None.
End TransitionExample.
Import SliceConditions.

Lemma transitions_silent_iff_witness :
  transitions GoStr.quoted (TransitionExample.status "c-0") (TransitionExample.status "c-1") <> [] /\
  (transitions GoStr.quoted (TransitionExample.status "c-0") (TransitionExample.status "c-0") = [] <->
   sameStatus (TransitionExample.status "c-0") (TransitionExample.status "c-0")).
Proof.
  split; [vm_compute; discriminate|].
  apply (transitions_silent_iff GoStr.quoted (TransitionExample.status "c-0") (TransitionExample.status "c-0")).
  apply NoDup_singleton.
Defined.
