(* ===== verification/Placement.v ===== *)
(** * Where the members of a cluster run

    internal/controller/placement.go: the spread that applies to a cluster's
    members and its record, the rule it becomes, and the report of where the
    members run.  The report moves nothing; it is the condition
    MemberPlacement and an Event when what was observed changed. *)
From stdpp Require Import prelude gmap strings list pretty sorting.
From Stdlib Require Import Ascii String.
From S2P Require Import Prelude GoStr Utf8 Api ManifestURI ImClient Tokens HAStatus Transitions.

Definition memberSpreadDefaultAnnotation : string := "database.cubrid.io/member-spread-default".
Definition selectedNodeAnnotation : string := "volume.kubernetes.io/selected-node".
Definition conditionMemberPlacement : string := "MemberPlacement".
Definition reasonMembersOnSeparateNodes : string := "MembersOnSeparateNodes".
Definition reasonMembersShareNode : string := "MembersShareNode".
Definition reasonSpreadBlockedByVolume : string := "SpreadBlockedByVolume".
Definition reasonMemberUnschedulable : string := "MemberUnschedulable".
Definition reasonMembersNotScheduled : string := "MembersNotScheduled".
Definition reasonPlacementNotObserved : string := "PlacementNotObserved".

(** MemberSpread, an open string type. *)
Definition MemberSpreadRequired : string := "Required".
Definition MemberSpreadPreferred : string := "Preferred".

Definition spreadsMembers (cluster : CubridCluster) : bool := 2 <=? sp_PromotableMembers (cl_Spec cluster).

(** [spec] is [spec.placement.memberSpread], empty when either is unset, and
    [annotations] are the cluster's. *)
Definition memberSpread (spec : string) (annotations : gmap string string) : string :=
  if spec != "" then spec
  else if lookupd "" annotations memberSpreadDefaultAnnotation == MemberSpreadRequired then MemberSpreadRequired
  else MemberSpreadPreferred.

(** The anti-affinity of the DB Pods: a term that must or should keep them
    apart. *)
Record AffinityTerm := mkTerm { at_TopologyKey : string; at_MatchLabels : gmap string string }.
Inductive Affinity := RequiredTerm (t : AffinityTerm) | PreferredTerm (weight : Z) (t : AffinityTerm).

Definition memberAffinity (spec : string) (annotations : gmap string string) (cluster : CubridCluster) : option Affinity :=
  if negb (spreadsMembers cluster) then None
  else
    let term := mkTerm "kubernetes.io/hostname" (labelsFor cluster) in
    if memberSpread spec annotations == MemberSpreadPreferred then Some (PreferredTerm 100 term) else Some (RequiredTerm term).

(** ** The record of the default *)

(** The StatefulSet that was read, by its controller's UID, and the names of
    the claims in the namespace. *)
Definition digitsOnly (s : string) : bool := forallb isDigit (bytesOf s).

Fixpoint claimOfMember (prefix : string) (claims : list string) : option string :=
  match claims with
  | [] => None
  | claim :: claims =>
      match CutPrefix prefix claim with
      | Some ordinal => if (ordinal != "") && digitsOnly ordinal then Some claim else claimOfMember prefix claims
      | None => claimOfMember prefix claims
      end
  end.

Definition memberStateExists (cluster : CubridCluster) (sts : KErr + option string) (claims : KErr + list string) : KErr + string :=
  let fromClaims :=
    match claims with
    | inl err => inl (wrapKErr "list PersistentVolumeClaims" err)
    | inr names =>
        match claimOfMember ("data-" +:+ cl_Name cluster +:+ "-") names with
        | Some claim => inr ("PersistentVolumeClaim " +:+ claim)
        | None => inr ""
        end
    end in
  match sts with
  | inr controller =>
      if bool_decide (controller = Some (cl_UID cluster)) then inr ("StatefulSet " +:+ cl_Name cluster) else fromClaims
  | inl err => if IsNotFound err then fromClaims else inl (wrapKErr ("read StatefulSet " +:+ cl_Name cluster) err)
  end.

(** The annotations of the copy in hand, and the answer; [patch] is the API
    server's answer to the write of the annotation. *)
Definition recordMemberSpreadDefault (cluster : CubridCluster) (annotations : gmap string string) (sts : KErr + option string)
  (claims : KErr + list string) (patch : option KErr) : (KErr + unit) * gmap string string :=
  if negb (spreadsMembers cluster) then (inr tt, annotations)
  else if non_nil (annotations !! memberSpreadDefaultAnnotation) then (inr tt, annotations)
  else
    match memberStateExists cluster sts claims with
    | inl err => (inl err, annotations)
    | inr existing =>
        let value := if existing != "" then MemberSpreadPreferred else MemberSpreadRequired in
        let annotations := <[memberSpreadDefaultAnnotation := value]> annotations in
        (match patch with
         | Some err => inl (wrapKErr ("record annotation " +:+ memberSpreadDefaultAnnotation) err)
         | None => inr tt
         end, annotations)
    end.

(** ** The observation *)

(** A member's Pod as it was read: its node, empty when it has none, and its
    conditions (type, status, reason, message). *)
Record MemberPod := mkMemberPod { mp_NodeName : string; mp_Conditions : list (string * string * string * string) }.

Definition unschedulableMessages (name : string) (pod : MemberPod) : list string :=
  mp_Conditions pod ≫= fun c =>
    let '(type, status, reason, message) := c in
    if (type == "PodScheduled") && (status == "False") && (reason == "Unschedulable")
    then ["member " +:+ name +:+ " is Pending: " +:+ message] else [].

Definition pushTo (key name : string) (m : gmap string (list string)) : gmap string (list string) :=
  <[key := default [] (m !! key) ++ [name]]> m.

Record PlacementScan := mkScan {
  ps_onNode : gmap string (list string);
  ps_unschedulable : list string;
  ps_unscheduled : list string }.

Section observe.
Context (getPod : string -> KErr + MemberPod) (getClaim : string -> KErr + gmap string string).

(** The loop over the members' Pods; an error of a read ends it. *)
Fixpoint scanPods (members : list string) (s : PlacementScan) : string + PlacementScan :=
  match members with
  | [] => inr s
  | name :: members =>
      match getPod name with
      | inl err =>
          if IsNotFound err then scanPods members (mkScan (ps_onNode s) (ps_unschedulable s) (ps_unscheduled s ++ [name]))
          else inl ("could not read Pod " +:+ name +:+ ": " +:+ k_text err)
      | inr pod =>
          if mp_NodeName pod != ""
          then scanPods members (mkScan (pushTo (mp_NodeName pod) name (ps_onNode s)) (ps_unschedulable s) (ps_unscheduled s))
          else scanPods members (mkScan (ps_onNode s) (ps_unschedulable s ++ unschedulableMessages name pod) (ps_unscheduled s ++ [name]))
      end
  end.

(** The loop over their claims, by the annotations of each. *)
Fixpoint scanClaims (members : list string) (volumes : gmap string (list string)) : string + gmap string (list string) :=
  match members with
  | [] => inr volumes
  | name :: members =>
      match getClaim ("data-" +:+ name) with
      | inl err =>
          if IsNotFound err then scanClaims members volumes
          else inl ("could not read PersistentVolumeClaim data-" +:+ name +:+ ": " +:+ k_text err)
      | inr annotations =>
          let node := lookupd "" annotations selectedNodeAnnotation in
          scanClaims members (if node != "" then pushTo node ("data-" +:+ name) volumes else volumes)
      end
  end.

(** [slices.Sorted(maps.Keys(m))] *)
Definition bytewise (a b : string) : Prop := String.leb a b = true.
#[global] Instance bytewise_dec : RelDecision bytewise.
Proof. intros a b. unfold bytewise. apply _. Defined.
Definition sortedKeys {A} (m : gmap string A) : list string := merge_sort bytewise (elements (dom m)).

(** [strings.Join(parts, sep)] *)
Fixpoint joinWith (sep : string) (parts : list string) : string :=
  match parts with
  | [] => ""
  | [p] => p
  | p :: parts => p +:+ sep +:+ joinWith sep parts
  end.

(** What is said of each node that more than one name is on. *)
Definition crowded (m : gmap string (list string)) (say : string -> string -> string) : list string :=
  sortedKeys m ≫= fun node =>
    let names := default [] (m !! node) in
    if (1 <? List.length names)%nat then [say (joinWith ", " names) node] else [].

Definition saysShared (names node : string) : string := "members " +:+ names +:+ " run on node " +:+ node.
Definition saysBlocked (names node : string) : string :=
  "the volumes of " +:+ names +:+ " are bound to node " +:+ node +:+
  ", so under memberSpread Required only one of their members can run; to spread the members, restore a backup into a new cluster".

Definition observeMemberPlacement (spread : string) (members : list string) : ConditionStatus * string * string :=
  let notObserved msg := (ConditionUnknown, reasonPlacementNotObserved, msg) in
  match scanPods members (mkScan ∅ [] []) with
  | inl msg => notObserved msg
  | inr s =>
      match if spread == MemberSpreadRequired then scanClaims members ∅ else inr ∅ with
      | inl msg => notObserved msg
      | inr volumes =>
          let shared := crowded (ps_onNode s) saysShared in
          let blocked := crowded volumes saysBlocked in
          let msg := joinWith "; " (shared ++ blocked ++ ps_unschedulable s) in
          if non_nil (head shared) then (ConditionFalse, reasonMembersShareNode, msg)
          else if non_nil (head blocked) then (ConditionFalse, reasonSpreadBlockedByVolume, msg)
          else if non_nil (head (ps_unschedulable s)) then (ConditionFalse, reasonMemberUnschedulable, msg)
          else if non_nil (head (ps_unscheduled s)) then
            (ConditionUnknown, reasonMembersNotScheduled, "members " +:+ joinWith ", " (ps_unscheduled s) +:+ " have no node yet")
          else
            (ConditionTrue, reasonMembersOnSeparateNodes,
             "each of the " +:+ pretty (Z.of_nat (List.length members)) +:+ " members runs on a node of its own")
      end
  end.
End observe.

(** ** What the observation says *)

Section observation.
Context (getPod : string -> KErr + MemberPod) (getClaim : string -> KErr + gmap string string).

Definition readable {A} (r : KErr + A) : bool := match r with inl err => IsNotFound err | inr _ => true end.
(** The node a member runs on, and the one its volume is bound to; empty when
    there is none. *)
Definition nodeOf (name : string) : string := match getPod name with inr pod => mp_NodeName pod | inl _ => "" end.
Definition boundTo (name : string) : string :=
  match getClaim ("data-" +:+ name) with inr annotations => lookupd "" annotations selectedNodeAnnotation | inl _ => "" end.

(** The names in a group; and the names of [l] that [f] puts there. *)
Definition grouped (m : gmap string (list string)) (node : string) : list string := default [] (m !! node).
Definition those (f : string -> string) (node : string) (l : list string) : list string := filter (fun x => f x = node) l.

Lemma grouped_empty node : grouped ∅ node = [].
Proof. done. Qed.
Lemma grouped_push key name m node : grouped (pushTo key name m) node = grouped m node ++ (if key == node then [name] else []).
Proof.
  unfold grouped, pushTo. case_bool_decide as E; [subst; by rewrite lookup_insert_eq|]. by rewrite lookup_insert_ne, app_nil_r.
Qed.

Lemma those_cons f node x l : those f node (x :: l) = (if f x == node then [x] else []) ++ those f node l.
Proof. unfold those. rewrite filter_cons. case_bool_decide; [by rewrite decide_True|by rewrite decide_False]. Qed.

(** Nodes without a name of their own are not grouped. *)
Definition groups (m m' : gmap string (list string)) (f tag : string -> string) (l : list string) : Prop :=
  grouped m' "" = grouped m "" /\ forall node, node <> "" -> grouped m' node = grouped m node ++ (tag <$> those f node l).

Lemma groups_nil m f tag : groups m m f tag [].
Proof. split; [done|]. intros node _. cbn. by rewrite app_nil_r. Qed.

Lemma groups_cons m m' f tag x l : groups (if f x != "" then pushTo (f x) (tag x) m else m) m' f tag l -> groups m m' f tag (x :: l).
Proof.
  intros [H0 H]. split.
  - rewrite H0. case_bool_decide; cbn; [done|]. rewrite grouped_push. by rewrite bool_decide_eq_false_2, app_nil_r.
  - intros node Hn. rewrite (H node Hn), those_cons, fmap_app.
    case_bool_decide as E1; cbn [negb]; [rewrite E1, bool_decide_eq_false_2 by done; done|].
    rewrite grouped_push. case_bool_decide; cbn; by rewrite <- app_assoc.
Qed.

Lemma scanPods_groups members s : forallb (fun m => readable (getPod m)) members = true -> exists s',
  scanPods getPod members s = inr s' /\ groups (ps_onNode s) (ps_onNode s') nodeOf id members /\
  ps_unscheduled s' = ps_unscheduled s ++ those nodeOf "" members /\
  (those nodeOf "" members = [] -> ps_unschedulable s' = ps_unschedulable s).
Proof.
  revert s. induction members as [|x l IH]; intros s; cbn [forallb scanPods].
  { intros _. exists s. split_and!; [done|apply groups_nil|by rewrite app_nil_r|done]. }
  rewrite andb_true_iff, those_cons. intros [Hx Hl].
  assert (nodeOf x = match getPod x with inr pod => mp_NodeName pod | inl _ => "" end) as Ex by done.
  destruct (getPod x) as [err|pod]; cbn in Hx; [rewrite Hx|case_bool_decide as En; cbn [negb]].
  3: rewrite <- Ex in En |- *.
  all: match goal with |- context [scanPods _ _ ?s1] => destruct (IH s1 Hl) as (s' & -> & G & U & V) end;
    exists s'; split; [done|]; cbn in U, V, G.
  - rewrite Ex. split; [apply groups_cons; by rewrite Ex|]. cbn. by rewrite U, <- app_assoc.
  - rewrite Ex, En. split; [apply groups_cons; by rewrite Ex, En|]. cbn. by rewrite U, <- app_assoc.
  - rewrite (bool_decide_eq_false_2 (nodeOf x = "")) by done. cbn. split_and!; [|done..].
    apply groups_cons. by rewrite (bool_decide_eq_false_2 (nodeOf x = "")).
Qed.

Lemma scanPods_error members s : forallb (fun m => readable (getPod m)) members = false -> exists msg, scanPods getPod members s = inl msg.
Proof.
  revert s. induction members as [|x l IH]; intros s; cbn [forallb scanPods]; [done|].
  destruct (getPod x) as [err|pod]; cbn; [destruct (IsNotFound err); cbn; [apply IH|eauto]|]. intros H. destruct (_ != _); by apply IH.
Qed.

Lemma scanClaims_groups members m : forallb (fun x => readable (getClaim ("data-" +:+ x))) members = true -> exists m',
  scanClaims getClaim members m = inr m' /\ groups m m' boundTo (String.app "data-") members.
Proof.
  revert m. induction members as [|x l IH]; intros m; cbn [forallb scanClaims]; [intros _; exists m; split; [done|apply groups_nil]|].
  rewrite andb_true_iff. intros [Hx Hl].
  assert (boundTo x = match getClaim ("data-" +:+ x) with inr a => lookupd "" a selectedNodeAnnotation | inl _ => "" end) as Ex by done.
  destruct (getClaim ("data-" +:+ x)) as [err|a]; cbn in Hx; [rewrite Hx|].
  all: match goal with |- context [scanClaims _ _ ?m1] => destruct (IH m1 Hl) as (m' & -> & G) end;
    exists m'; split; [done|]; apply groups_cons; rewrite Ex; apply G.
Qed.

Lemma scanClaims_error members m : forallb (fun x => readable (getClaim ("data-" +:+ x))) members = false ->
  exists msg, scanClaims getClaim members m = inl msg.
Proof.
  revert m. induction members as [|x l IH]; intros m; cbn [forallb scanClaims]; [done|].
  destruct (getClaim _) as [err|a]; cbn; [destruct (IsNotFound err); cbn; [apply IH|eauto]|]. intros H. by apply IH.
Qed.

(** No node is crowded when the names on it are few. *)
Lemma crowded_nil m say : crowded m say = [] <-> forall node, (List.length (grouped m node) <= 1)%nat.
Proof.
  unfold crowded. rewrite bind_nil. split.
  - intros H node. unfold grouped in *. destruct (m !! node) as [names|] eqn:E; [|cbn; lia].
    assert (node ∈ sortedKeys m) as Hk.
    { unfold sortedKeys. rewrite merge_sort_Permutation. apply elem_of_elements, elem_of_dom. eauto. }
    specialize (H node Hk). cbv beta zeta in H. rewrite E in H. change (default [] (Some names)) with names in *.
    destruct (1 <? List.length names)%nat eqn:El; [discriminate H|]. apply Nat.ltb_ge in El. lia.
  - intros H node _. specialize (H node). unfold grouped in H. destruct (1 <? _)%nat eqn:El; [|done]. apply Nat.ltb_lt in El. lia.
Qed.

(** At most one name is put on each node when no two are put on one. *)
Definition apart (f : string -> string) (l : list string) : Prop :=
  forall x y, x ∈ l -> y ∈ l -> f x = f y -> f x <> "" -> x = y.

Lemma apart_those f l : NoDup l -> apart f l <-> forall node, node <> "" -> (List.length (those f node l) <= 1)%nat.
Proof.
  intros Hd. split.
  - intros H node Hn. destruct (those f node l) as [|x [|y rest]] eqn:E; cbn; [lia..|].
    assert (x ∈ those f node l /\ y ∈ those f node l) as [[Hx Ix]%list_elem_of_filter [Hy Iy]%list_elem_of_filter] by (rewrite E; set_solver).
    pose proof (NoDup_filter (fun x => f x = node) _ Hd) as Hf. fold (those f node l) in Hf. rewrite E in Hf.
    apply NoDup_cons in Hf as [Hf _]. destruct Hf. rewrite (H x y Ix Iy); [set_solver|congruence|congruence].
  - intros H x y Ix Iy E Hn. specialize (H (f x) Hn).
    assert (x ∈ those f (f x) l /\ y ∈ those f (f x) l) as [Hx Hy] by (split; apply list_elem_of_filter; done).
    destruct (those f (f x) l) as [|a [|b rest]]; cbn in H; [set_solver| |lia]. set_solver.
Qed.

Lemma groups_apart m' f tag l : NoDup l -> groups ∅ m' f tag l -> (forall node, (List.length (grouped m' node) <= 1)%nat) <-> apart f l.
Proof.
  intros Hd [H0 H]. rewrite apart_those by done. split.
  - intros Hl node Hn. specialize (Hl node). rewrite (H node Hn), grouped_empty, app_nil_l, length_fmap in Hl. done.
  - intros Hl node. destruct (decide (node = "")) as [->|Hn]; [rewrite H0, grouped_empty; cbn; lia|].
    rewrite (H node Hn), grouped_empty, app_nil_l, length_fmap. by apply Hl.
Qed.

(** C19: MemberPlacement is True exactly when every member's Pod was read and
    has a node, no two members share one and, under Required, every claim
    that exists was read and no two volumes are bound to one node. *)
Theorem placement_true_iff spread members : NoDup members ->
  (observeMemberPlacement getPod getClaim spread members).1.1 = ConditionTrue <->
  (forall x, x ∈ members -> nodeOf x <> "") /\ apart nodeOf members /\
  (spread = MemberSpreadRequired -> (forall x, x ∈ members -> readable (getClaim ("data-" +:+ x))) /\ apart boundTo members).
Proof.
  intros Hd. unfold observeMemberPlacement.
  assert (forall x, nodeOf x <> "" -> readable (getPod x)) as Hread.
  { intros x. unfold nodeOf. by destruct (getPod x). }
  destruct (forallb (fun m => readable (getPod m)) members) eqn:Hp.
  2: { destruct (scanPods_error members (mkScan ∅ [] []) Hp) as [msg ->]. split; [done|]. intros (Hn & _).
       apply not_true_iff_false in Hp. destruct Hp. apply Is_true_eq_true, forallb_True, Forall_forall. auto. }
  destruct (scanPods_groups members (mkScan ∅ [] []) Hp) as (s & -> & G & U & V). cbn in G, U, V.
  assert (those nodeOf "" members = [] <-> forall x, x ∈ members -> nodeOf x <> "") as Hu.
  { unfold those. split.
    - intros E x Hx Hn. by apply (filter_nil_not_elem_of _ _ x E).
    - intros H. destruct (filter _ members) as [|y rest] eqn:E; [done|]. exfalso.
      assert (y ∈ y :: rest) as Hy by set_solver. rewrite <- E in Hy. apply list_elem_of_filter in Hy as [Hy Iy]. by apply (H y). }
  pose proof (groups_apart _ _ _ _ Hd G) as Ha. rewrite <- (crowded_nil _ saysShared) in Ha.
  case_bool_decide as Hr.
  - destruct (forallb (fun x => readable (getClaim ("data-" +:+ x))) members) eqn:Hc.
    2: { destruct (scanClaims_error members ∅ Hc) as [msg ->]. split; [done|]. intros (_ & _ & H). destruct (H Hr) as [H' _].
         apply not_true_iff_false in Hc. destruct Hc. apply Is_true_eq_true, forallb_True, Forall_forall. auto. }
    destruct (scanClaims_groups members ∅ Hc) as (m & -> & Gc).
    pose proof (groups_apart _ _ _ _ Hd Gc) as Hb. rewrite <- (crowded_nil _ saysBlocked) in Hb.
    assert (forall x, x ∈ members -> readable (getClaim ("data-" +:+ x))) as Hok.
    { apply Is_true_eq_left, forallb_True in Hc. by apply Forall_forall. }
    rewrite <- Hu, <- Ha. rewrite U in *. cbv zeta.
    destruct (crowded (ps_onNode s) _) as [|? ?]; cbn [head non_nil is_nil negb]; [|naive_solver].
    destruct (crowded m _) as [|? ?]; cbn [head non_nil is_nil negb]; [|naive_solver].
    destruct (those nodeOf "" members) as [|? ?]; cbn [head non_nil is_nil negb app] in *; [rewrite V by done; cbn; naive_solver|].
    split; [|naive_solver]. by destruct (head _).
  - rewrite <- Hu, <- Ha, U. cbv zeta. change (crowded ∅ saysBlocked) with (@nil string).
    destruct (crowded (ps_onNode s) _) as [|? ?]; cbn [head non_nil is_nil negb]; [|naive_solver].
    destruct (those nodeOf "" members) as [|? ?]; cbn [head non_nil is_nil negb app] in *; [rewrite V by done; cbn; naive_solver|].
    split; [|naive_solver]. by destruct (head _).
Qed.
End observation.

(** Two members, each on a node of its own. *)
Module PlacementExample.
Definition getPod (m : string) : KErr + MemberPod := inr (mkMemberPod ("node-" +:+ m) []).
Definition getClaim (c : string) : KErr + gmap string string := inr {[selectedNodeAnnotation := "node-" +:+ c]}.
Definition members : list string := ["c-0"; "c-1"].
End PlacementExample.

Lemma placement_true_iff_witness : apart (nodeOf PlacementExample.getPod) PlacementExample.members.
Proof.
  apply (placement_true_iff PlacementExample.getPod PlacementExample.getClaim MemberSpreadRequired PlacementExample.members).
  - apply (bool_decide_unpack _). vm_compute. exact I.
  - vm_compute. reflexivity.
Defined.
