(* ===== verification/Broker.v ===== *)
(** * The conditions of the Broker tier

    internal/controller/broker.go: what is said of the Brokers and of the
    routing of writes, from the resolution of the primary and the Broker Pods
    that are available.  The objects of the tier are written by code that is
    not modelled; its answer is an argument. *)
From stdpp Require Import prelude gmap strings list pretty.
From S2P Require Import Prelude Api HARole HAStatus.

Definition conditionBrokerReady : string := "BrokerReady".
Definition conditionWriteEndpointReady : string := "WriteEndpointReady".
Definition conditionReadEndpointReady : string := "ReadEndpointReady".
Definition reasonBrokerReconcileFailed : string := "BrokerReconcileFailed".
Definition brokerModeRW : string := "rw".
Definition brokerModeRO : string := "ro".
Definition brokerReplicas : Z := 2.
Definition rwServiceName (cluster : string) : string := cluster +:+ "-rw".
Definition roServiceName (cluster : string) : string := cluster +:+ "-ro".

Section broker.
Context `{O : ConditionOps}.

(** The closure of setEndpointConditions. *)
Definition endpoint (conditionType mode service : string) (available : gmap string Z) (cluster : CubridCluster) : CubridCluster * bool :=
  let n := lookupd 0 available mode in
  if 0 <? n then
    (setCondition cluster conditionType ConditionTrue "BrokerAvailable"
       (pretty n +:+ " of " +:+ pretty brokerReplicas +:+ " " +:+ mode +:+ " Broker Pods available behind " +:+ service), true)
  else
    (setCondition cluster conditionType ConditionFalse "NoBrokerAvailable"
       ("no " +:+ mode +:+ " Broker Pod is available behind " +:+ service), false).

Definition setEndpointConditions (available : gmap string Z) (cluster : CubridCluster) : CubridCluster * bool :=
  let '(cluster, rw) := endpoint conditionWriteEndpointReady brokerModeRW (rwServiceName (cl_Name cluster)) available cluster in
  let '(cluster, ro) := endpoint conditionReadEndpointReady brokerModeRO (roServiceName (cl_Name cluster)) available cluster in
  (if rw && ro then
     setCondition cluster conditionBrokerReady ConditionTrue "BrokersAvailable" "read-write and read-only Brokers are available"
   else
     setCondition cluster conditionBrokerReady ConditionFalse "BrokersNotAvailable" "not every access mode has an available Broker Pod",
   rw).

Definition setRoutingUnresolved (res : PrimaryResolution) (cluster : CubridCluster) : CubridCluster * bool :=
  if (res_Status res == ConditionTrue) && (res_CurrentPrimary res != "") then (cluster, true)
  else
    (setCondition cluster conditionRoutingReady ConditionFalse (if res_Reason res != "" then res_Reason res else "AmbiguousPrimary")
       "write-endpoint safety not claimed until a single primary is resolved", false).

Definition setBrokerConditions (res : PrimaryResolution) (available : gmap string Z) (cluster : CubridCluster) : CubridCluster :=
  let '(cluster, rw) := setEndpointConditions available cluster in
  let '(cluster, resolved) := setRoutingUnresolved res cluster in
  if negb resolved then cluster
  else if negb rw then
    setCondition cluster conditionRoutingReady ConditionFalse "NoBrokerAvailable"
      ("the primary is " +:+ res_CurrentPrimary res +:+ ", but no rw Broker Pod is available to route writes to it")
  else
    setCondition cluster conditionRoutingReady ConditionTrue "PrimaryResolved" ("RW routing target resolved: " +:+ res_CurrentPrimary res).

(** The first of the members' names; a cluster has one. *)
Definition setStandaloneBrokerConditions (serverReady : bool) (available : gmap string Z) (cluster : CubridCluster) : CubridCluster :=
  let '(cluster, rw) := setEndpointConditions available cluster in
  let server := default "" (head (memberNames cluster (sp_PromotableMembers (cl_Spec cluster)))) in
  if negb serverReady then
    setCondition cluster conditionRoutingReady ConditionFalse "InstancesNotReady"
      ("the standalone server " +:+ server +:+ " is not ready")
  else if negb rw then
    setCondition cluster conditionRoutingReady ConditionFalse "NoBrokerAvailable"
      ("the standalone server " +:+ server +:+ " is ready, but no rw Broker Pod is available to route writes to it")
  else
    setCondition cluster conditionRoutingReady ConditionTrue "StandaloneServerReady" ("RW routing target: the standalone server " +:+ server).

(** [res] is nil for a standalone cluster; [cause] the text of the error. *)
Definition setBrokerConditionsUnobserved (res : option PrimaryResolution) (cause : string) (cluster : CubridCluster) : CubridCluster :=
  let msg := "the Brokers were not observed in this reconcile: " +:+ cause in
  let cluster := setCondition cluster conditionBrokerReady ConditionFalse reasonBrokerReconcileFailed cause in
  let cluster := setCondition cluster conditionWriteEndpointReady ConditionUnknown reasonBrokerReconcileFailed msg in
  let cluster := setCondition cluster conditionReadEndpointReady ConditionUnknown reasonBrokerReconcileFailed msg in
  let '(cluster, unknown) := match res with None => (cluster, true) | Some res => setRoutingUnresolved res cluster end in
  if unknown then setCondition cluster conditionRoutingReady ConditionUnknown reasonBrokerReconcileFailed msg else cluster.
End broker.
