(* ===== verification/ClusterReconcile.v ===== *)
(** * The reconcile of a cluster

    internal/controller/cubridcluster_controller.go: the order in which a
    reconcile does its steps, what it writes to the status, how long it
    retries conflicts quietly, and which Events it records.  The steps that
    judge the members are those of the other files (HAStatus.v,
    RollingUpdate.v, HABootstrap.v, Recovery.v, Placement.v, Broker.v); the
    writes of the cluster's child objects are answers of the surroundings, in
    the order the code asks for them. *)
From stdpp Require Import prelude gmap strings list pretty.
From Stdlib Require Import Ascii String.
From S2P Require Import Prelude GoStr Utf8 Api ImClient GoState Engine HARole Replication HAStatus RollingUpdate BackupController HABootstrap Recovery Tokens Transitions Placement Broker.

Definition conditionReady : string := "Ready".
Definition conditionProgressing : string := "Progressing".
Definition reasonInvalidClusterName : string := "InvalidClusterName".
Definition reasonBootstrapRecoveryFailed : string := "BootstrapRecoveryFailed".
Definition childWrites : string := "children".
Definition brokerWrites : string := "brokers".
Definition conflictPatience : Duration := 30 * Second.
Definition standaloneVersionRetryInterval : Duration := 30 * Second.
Definition refusedBrokerRetryInterval : Duration := 30 * Second.
Definition acceptImageAnnotation : string := "database.cubrid.io/accept-image".
Definition maxManagedClusterNameLength : nat := 53.
Definition MaxClusterNameLength : Z := 52.

(** ** State *)

Record placementEntry := mkPlacementEntry { pe_uid : string; pe_reason : string }.

Record reconcileReport := mkReport {
  rr_before : CubridClusterStatus;
  rr_statusWritten : bool;
  rr_events : list KubeEvent;
  rr_readyReplicas : option Z;
  rr_positions : option (gmap string applierReading);
  rr_placement : option placementEntry;
  rr_brokerRefused : bool }.

(** The reconciler, for one cluster, and the API server's copy of the status:
    [rw_stored] holds every status that was stored, the current one last, and
    [rw_version] the position of the one the reconcile read. *)
Record RW := mkRW {
  rw_cluster : CubridCluster;
  rw_report : option reconcileReport;
  rw_conflicts : gmap string Time;
  rw_placementReported : option placementEntry;
  rw_positions : option ApplierPositions;
  rw_events : list KubeEvent;
  rw_stored : list CubridClusterStatus;
  rw_version : nat;
  rw_ticks : nat }.
Notation R := (St RW).

Definition set_cluster c (w : RW) : RW := mkRW c (rw_report w) (rw_conflicts w) (rw_placementReported w) (rw_positions w)
  (rw_events w) (rw_stored w) (rw_version w) (rw_ticks w).
Definition set_report r (w : RW) : RW := mkRW (rw_cluster w) r (rw_conflicts w) (rw_placementReported w) (rw_positions w)
  (rw_events w) (rw_stored w) (rw_version w) (rw_ticks w).
Definition set_conflicts c (w : RW) : RW := mkRW (rw_cluster w) (rw_report w) c (rw_placementReported w) (rw_positions w)
  (rw_events w) (rw_stored w) (rw_version w) (rw_ticks w).
Definition set_placementReported p (w : RW) : RW := mkRW (rw_cluster w) (rw_report w) (rw_conflicts w) p (rw_positions w)
  (rw_events w) (rw_stored w) (rw_version w) (rw_ticks w).
Definition set_positions p (w : RW) : RW := mkRW (rw_cluster w) (rw_report w) (rw_conflicts w) (rw_placementReported w) p
  (rw_events w) (rw_stored w) (rw_version w) (rw_ticks w).
Definition set_events e (w : RW) : RW := mkRW (rw_cluster w) (rw_report w) (rw_conflicts w) (rw_placementReported w) (rw_positions w)
  e (rw_stored w) (rw_version w) (rw_ticks w).
Definition set_stored s (w : RW) : RW := mkRW (rw_cluster w) (rw_report w) (rw_conflicts w) (rw_placementReported w) (rw_positions w)
  (rw_events w) s (rw_version w) (rw_ticks w).
Definition set_version v (w : RW) : RW := mkRW (rw_cluster w) (rw_report w) (rw_conflicts w) (rw_placementReported w) (rw_positions w)
  (rw_events w) (rw_stored w) v (rw_ticks w).
Definition set_ticks t (w : RW) : RW := mkRW (rw_cluster w) (rw_report w) (rw_conflicts w) (rw_placementReported w) (rw_positions w)
  (rw_events w) (rw_stored w) (rw_version w) t.

Definition set_rr_written b (r : reconcileReport) : reconcileReport :=
  mkReport (rr_before r) b (rr_events r) (rr_readyReplicas r) (rr_positions r) (rr_placement r) (rr_brokerRefused r).
Definition add_rr_event e (r : reconcileReport) : reconcileReport :=
  mkReport (rr_before r) (rr_statusWritten r) (rr_events r ++ [e]) (rr_readyReplicas r) (rr_positions r) (rr_placement r) (rr_brokerRefused r).
Definition set_rr_ready n (r : reconcileReport) : reconcileReport :=
  mkReport (rr_before r) (rr_statusWritten r) (rr_events r) (Some n) (rr_positions r) (rr_placement r) (rr_brokerRefused r).
Definition set_rr_positions p (r : reconcileReport) : reconcileReport :=
  mkReport (rr_before r) (rr_statusWritten r) (rr_events r) (rr_readyReplicas r) (Some p) (rr_placement r) (rr_brokerRefused r).
Definition set_rr_placement p (r : reconcileReport) : reconcileReport :=
  mkReport (rr_before r) (rr_statusWritten r) (rr_events r) (rr_readyReplicas r) (rr_positions r) (Some p) (rr_brokerRefused r).
Definition set_rr_refused (r : reconcileReport) : reconcileReport :=
  mkReport (rr_before r) (rr_statusWritten r) (rr_events r) (rr_readyReplicas r) (rr_positions r) (rr_placement r) true.

Definition the {A} (f : RW -> A) : R A := fun w => (f w, w).
Definition modify (f : RW -> RW) : R unit := fun w => (tt, f w).
Definition onCluster (f : CubridCluster -> CubridCluster) : R unit := modify (fun w => set_cluster (f (rw_cluster w)) w).
(** The note a step leaves in the report, when there is one. *)
Definition note (f : reconcileReport -> reconcileReport) : R unit := modify (fun w => set_report (f <$> rw_report w) w).

Definition set_st_ObservedGeneration v s := mkStatus v (st_CurrentPrimary s) (st_Instances s)
  (st_Databases s) (st_Conditions s) (st_Bootstrap s) (st_ObservedEngineVersion s) (st_Update s) (st_LastObservedTime s).

(** ** The surroundings of one reconcile *)

(** What the API server makes of the write of the status; [WritesLost] stores
    it and answers an error. *)
Inductive StatusWrite := Writes | WritesNot (e : KErr) | WritesLost (e : KErr).

(** The StatefulSet that was read: whether it has been created, and the images
    of the containers in its Pod template. *)
Record StatefulSet := mkSts { ss_Status : StatefulSetStatus; ss_ReadyReplicas : Z; ss_Created : bool; ss_Containers : list string }.
Definition runningImage (sts : StatefulSet) : string :=
  match ss_Containers sts with image :: _ => if ss_Created sts then image else "" | [] => "" end.

(** spec.image, and the image it or the operator's default names. *)
Record CubridImage := mkImage { im_Repository : string; im_Tag : string }.
Definition DefaultInstanceManagerImage : string := "ghcr.io/cubrid-lab/cubrid-kubernetes-operator/instance-manager:dev".
Definition instanceImage (defaultImage : string) (image : option CubridImage) : string :=
  let default := if defaultImage == "" then DefaultInstanceManagerImage else defaultImage in
  match image with
  | Some im =>
      if im_Repository im == "" then default
      else if im_Tag im == "" then im_Repository im else im_Repository im +:+ ":" +:+ im_Tag im
  | None => default
  end.

Record PassEnv := mkPassEnv {
  en_clock : nat -> Time;
  en_child : string -> option KErr;
  en_sts : StatefulSet;
  en_defaultImage : string;
  en_specImage : option CubridImage;
  en_spread : string;
  en_memberPod : string -> KErr + MemberPod;
  en_claim : string -> KErr + gmap string string;
  en_boot : BootEnv;
  en_probe : string -> RoleObservation;
  en_pod : string -> PodRead;
  en_deletePod : string -> DeleteResult;
  en_brokers : KErr + gmap string Z;
  en_write : StatusWrite;
  en_exists : bool }.

(** The collaborators of the reconciler that can be nil, and its settings. *)
Record ClusterReconciler := mkClusterReconciler {
  cr_Recorder : bool; cr_AutomaticReplacement : bool; cr_boot : BootReconciler }.
Definition cr_Prober (r : ClusterReconciler) : bool := br_Prober (cr_boot r).

(** ctrl.Result with the error. *)
Inductive Outcome := Again (after : Duration) | Fails (e : KErr) | Terminal (text : string).

Section reconcile.
Context `{O : ConditionOps} (quote : string -> string) (formatTime : Time -> string) (hashRequest : RestoreRequest -> string).
Context (asStored : CubridClusterStatus -> CubridClusterStatus) (DeepEqual : CubridClusterStatus -> CubridClusterStatus -> bool).
(** [validation.IsDNS1035Label]: what it finds wrong with a name. *)
Context (IsDNS1035Label : string -> list string).
Context (r : ClusterReconciler) (env : PassEnv).

Definition now : R Time := fun w => (en_clock env (rw_ticks w), set_ticks (S (rw_ticks w)) w).
Definition theCluster : R CubridCluster := the rw_cluster.

(** ** Events and the report *)

Definition event (eventType reason msg : string) : R unit :=
  if cr_Recorder r then modify (fun w => set_events (rw_events w ++ [mkKubeEvent eventType reason msg]) w) else mret tt.

Definition statusEvent (eventType reason msg : string) : R unit :=
  report ← the rw_report;
  if non_nil report then note (add_rr_event (mkKubeEvent eventType reason msg)) else event eventType reason msg.

Definition beginReport : R unit :=
  modify (fun w => set_report (Some (mkReport (cl_Status (rw_cluster w)) false [] None None None false)) w).

Fixpoint eachEvent (l : list KubeEvent) : R unit :=
  match l with
  | [] => mret tt
  | e :: l => _ ← event (ke_Type e) (ke_Reason e) (ke_Message e); eachEvent l
  end.

(** The Events of transitions; the ones without a reason are logged only. *)
Definition transitionEvents (ts : list Transitions.transition) : list KubeEvent :=
  ts ≫= fun t =>
    if tr_Reason t == "" then []
    else [mkKubeEvent (if tr_Warning t then "Warning" else "Normal") (tr_Reason t) (tr_Message t)].

Definition reportTransitions (before : CubridClusterStatus) : R unit :=
  cluster ← theCluster;
  eachEvent (transitionEvents (transitions quote before (cl_Status cluster))).

Definition endReport (report : reconcileReport) : R unit :=
  _ ← modify (set_report None);
  if negb (rr_statusWritten report) then mret tt
  else
    _ ← eachEvent (rr_events report);
    _ ← match rr_placement report with
        | Some entry => modify (set_placementReported (Some entry))
        | None => mret tt
        end;
    reportTransitions (rr_before report).

(** [r.Status().Update(ctx, cluster)]: an outdated copy is refused, and what
    was stored is answered into the copy. *)
Definition statusUpdate : R (option KErr) := fun w =>
  let st := asStored (cl_Status (rw_cluster w)) in
  let isCurrent := (S (rw_version w) =? List.length (rw_stored w))%nat in
  match en_write env with
  | Writes =>
      if isCurrent then
        (None, set_version (S (rw_version w)) (set_stored (rw_stored w ++ [st]) (set_cluster (map_status (fun _ => st) (rw_cluster w)) w)))
      else (Some conflict, w)
  | WritesNot e => (Some e, w)
  | WritesLost e => (Some e, if isCurrent then set_stored (rw_stored w ++ [st]) w else w)
  end.

Definition clusterKey (cluster : CubridCluster) : NamespacedName := (cl_Namespace cluster, cl_Name cluster).

Definition writeStatus : R (option KErr) :=
  report ← the rw_report;
  _ ← match report with
      | Some report =>
          t ← now;
          onCluster (fun c => map_status (fun s => holdObservationTimes DeepEqual (Some (rr_before report)) s t) c)
      | None => mret tt
      end;
  err ← statusUpdate;
  _ ← note (set_rr_written (is_nil err));
  _ ← (if is_nil err then
         match report ≫= rr_positions with
         | Some positions =>
             modify (fun w => set_positions (Replication.commit (rw_positions w) (cl_UID (rw_cluster w)) (clusterKey (rw_cluster w)) positions) w)
         | None => mret tt
         end
       else mret tt);
  match err with
  | Some e =>
      if IsNotFound e && negb (en_exists env) then
        _ ← modify (fun w => set_positions (Replication.forget (rw_positions w) (clusterKey (rw_cluster w))) w); mret None
      else mret (Some e)
  | None => mret None
  end.

(** ** Conflicts and failures *)

(** Whether the error is a conflict that is still young, and the error to
    report otherwise. *)
Definition lastingConflict (writes : string) (err : option KErr) : R (bool * option KErr) :=
  match err with
  | Some e =>
      if negb (IsConflict e) then _ ← modify (fun w => set_conflicts (delete writes (rw_conflicts w)) w); mret (false, err)
      else
        t ← now;
        conflicts ← the rw_conflicts;
        let since := default t (conflicts !! writes) in
        _ ← modify (set_conflicts (<[writes := since]> conflicts));
        t ← now;
        if Sub t since <=? conflictPatience then mret (true, None)
        else mret (false, Some (mkKErr KConflict ("the write has been rejected as a conflict for more than 30s: " +:+ k_text e)))
  | None => _ ← modify (fun w => set_conflicts (delete writes (rw_conflicts w)) w); mret (false, None)
  end.

Definition namespaceTerminating (e : KErr) : bool := k_kind e == KNamespaceTerminating.

(** Ready is False with this reason and message already. *)
Definition alreadyNotReady (cluster : CubridCluster) (reason msg : string) : bool :=
  match findCondition (st_Conditions (cl_Status cluster)) conditionReady with
  | Some was => (c_Status was == ConditionFalse) && (c_Reason was == reason) && (c_Message was == msg)
  | None => false
  end.

(** What every pass that does not get to observe the members writes: Ready and
    Progressing with their messages, and that the roles were not observed. *)
Definition notReadyNow (progressing : ConditionStatus) (reason msg msg' : string) : R unit :=
  _ ← onCluster (fun c => setCondition c conditionReady ConditionFalse reason msg);
  _ ← onCluster (fun c => setCondition c conditionProgressing progressing reason msg');
  onCluster (fun c => markRolesNotObserved c (cr_Prober r) reason).

Definition failed (reason : string) (cause : KErr) : R Outcome :=
  if namespaceTerminating cause then mret (Again 0)
  else
    young ← lastingConflict childWrites (Some cause);
    match young : bool * option KErr with
    | (true, _) | (_, None) => mret (Again Second)
    | (false, Some cause) =>
        cluster ← theCluster;
        let same := alreadyNotReady cluster reason (k_text cause) in
        _ ← notReadyNow ConditionTrue reason (k_text cause) (k_text cause);
        _ ← (if same then mret tt else statusEvent "Warning" reason (k_text cause));
        _ ← writeStatus;
        mret (Fails cause)
    end.
(** ** Names *)

Definition validateManagedClusterName (name : string) : option string :=
  if (maxManagedClusterNameLength <? String.length name)%nat then
    Some ("cluster name " +:+ quote name +:+ " has " +:+ pretty (Z.of_nat (String.length name)) +:+
          " characters, more than the " +:+ pretty (Z.of_nat maxManagedClusterNameLength) +:+
          " the operator can derive child object names from")
  else match IsDNS1035Label name with
  | [] => None
  | errs => Some ("cluster name " +:+ quote name +:+ " is not a DNS-1035 label: " +:+ joinWith "; " errs)
  end.

Definition refuseClusterName (cause : string) : R Outcome :=
  let msg := cause +:+ "; recreate the cluster with a name of at most " +:+ pretty MaxClusterNameLength +:+ " characters" in
  cluster ← theCluster;
  let same := alreadyNotReady cluster reasonInvalidClusterName msg in
  _ ← notReadyNow ConditionFalse reasonInvalidClusterName msg msg;
  _ ← (if same then mret tt else statusEvent "Warning" reasonInvalidClusterName msg);
  err ← writeStatus;
  match err with Some e => mret (Fails e) | None => mret (Terminal cause) end.

(** ** The steps of updateStatus *)

Definition placementProblem (reason : string) : bool :=
  (reason == reasonMembersShareNode) || (reason == reasonSpreadBlockedByVolume) || (reason == reasonMemberUnschedulable).

(** The last decisive reason that was reported. *)
Definition lastPlacement (w : RW) : string :=
  let cluster := rw_cluster w in
  let stored :=
    match findCondition (st_Conditions (cl_Status cluster)) conditionMemberPlacement with
    | Some was => if decisive (Some was) then c_Reason was else ""
    | None => ""
    end in
  match rw_placementReported w with
  | Some was => if pe_uid was == cl_UID cluster then pe_reason was else stored
  | None => stored
  end.

Definition reportMemberPlacement : R unit :=
  cluster ← theCluster;
  if negb (spreadsMembers cluster) then
    onCluster (map_status (fun s => set_st_Conditions (RemoveStatusCondition (st_Conditions s) conditionMemberPlacement) s))
  else
    last ← the lastPlacement;
    let '(status, reason, msg) := observeMemberPlacement (en_memberPod env) (en_claim env) (en_spread env)
          (memberNames cluster (sp_PromotableMembers (cl_Spec cluster))) in
    _ ← onCluster (fun c => setCondition c conditionMemberPlacement status reason msg);
    if (status == ConditionUnknown) || (reason == last) then mret tt
    else
      _ ← (if status == ConditionFalse then statusEvent "Warning" reason msg
           else if placementProblem last then statusEvent "Normal" reason msg
           else mret tt);
      let entry := mkPlacementEntry (cl_UID cluster) reason in
      report ← the rw_report;
      if non_nil report then note (set_rr_placement entry) else modify (set_placementReported (Some entry)).

(** A handler of the bootstrap, whose Events are those of the status. *)
Definition eventTypeText (t : EventType) : string := match t with EventTypeNormal => "Normal" | EventTypeWarning => "Warning" end.
Fixpoint statusEvents (l : list BackupEvent) : R unit :=
  match l with
  | [] => mret tt
  | e :: l => _ ← statusEvent (eventTypeText (ev_Type e)) (ev_Reason e) (ev_Message e); statusEvents l
  end.
Definition bootstrapping {A} (m : Boot A) : R A :=
  cluster ← theCluster;
  let '(a, bw) := m (mkBW cluster [] [] 0) in
  _ ← onCluster (fun _ => bw_cluster bw);
  _ ← statusEvents (bw_events bw);
  mret a.

Definition observeRoles (desired : Z) : R PrimaryResolution :=
  t ← now;
  w ← the id;
  let '(cluster, res, positions) := reconcileHAStatus (rw_cluster w) desired (en_probe env) (rw_positions w) t in
  _ ← onCluster (fun _ => cluster);
  _ ← note (set_rr_positions positions);
  mret res.

(** The calls of a rolling update; its Event does not wait for the status. *)
Fixpoint makeCalls (l : list RollingUpdate.Call) : R unit :=
  match l with
  | [] => mret tt
  | CallDelete _ :: l => makeCalls l
  | CallEvent reason msg :: l => _ ← event "Normal" reason msg; makeCalls l
  end.
Definition rollingUpdate (res : PrimaryResolution) : R unit :=
  cluster ← theCluster;
  let '(cluster, calls) := reconcileRollingUpdate (cr_AutomaticReplacement r) (en_pod env) (en_deletePod env) cluster
        (ss_Status (en_sts env)) res in
  _ ← onCluster (fun _ => cluster);
  makeCalls calls.

Definition reportBrokerRefusal (err : KErr) : R unit :=
  if k_kind err != KChildNotOwned then mret tt
  else
    _ ← note set_rr_refused;
    cluster ← theCluster;
    if match findCondition (st_Conditions (cl_Status cluster)) conditionBrokerReady with
       | Some was => (c_Reason was != reasonBrokerReconcileFailed) || (c_Message was != k_text err)
       | None => true
       end
    then statusEvent "Warning" reasonBrokerReconcileFailed (k_text err) else mret tt.

(** brokerTier: the Broker Pods that are available, when the conditions are to
    be set from them. *)
Definition brokerTier (res : option PrimaryResolution) : R (option (gmap string Z)) :=
  let err := match en_brokers env with inl e => Some e | inr _ => None end in
  y ← lastingConflict brokerWrites err;
  match y : bool * option KErr with
  | (true, _) => mret None
  | (false, Some e) =>
      if namespaceTerminating e then mret None
      else
        _ ← reportBrokerRefusal e;
        _ ← onCluster (setBrokerConditionsUnobserved res (k_text e)); mret None
  | (false, None) => mret (match en_brokers env with inr available => Some available | inl _ => None end)
  end.

(** The steps of an HA cluster: the Brokers, and the update, of a resolution. *)
Definition brokerStep (res : PrimaryResolution) : R unit :=
  available ← brokerTier (Some res);
  match available with Some available => onCluster (setBrokerConditions res available) | None => mret tt end.
Definition updateStep (res : PrimaryResolution) : R unit :=
  cluster ← theCluster;
  let '(cluster, ok) := reconcileUpdateGuard cluster in
  _ ← onCluster (fun _ => cluster);
  if ok && negb (recoveryActive cluster) then rollingUpdate res else mret tt.
Definition haSteps (desired : Z) : R bool :=
  _ ← bootstrapping (reconcileHABootstrap quote formatTime hashRequest (cr_boot r) (en_boot env));
  res ← observeRoles desired;
  _ ← brokerStep res;
  _ ← updateStep res;
  mret (res_MultipleMasters res).

(** The steps of a standalone cluster. *)
Definition standaloneSteps (desired : Z) : R bool :=
  let ready := ss_ReadyReplicas (en_sts env) in
  _ ← onCluster (fun c => setCondition c conditionHAReady ConditionFalse "HADisabled" "highAvailability.enabled is false");
  _ ← (if cr_Prober r then
         t ← now;
         onCluster (fun c => reconcileStandaloneUpdate (en_pod env) c (ss_Status (en_sts env)) desired (en_probe env) t)
       else mret tt);
  available ← brokerTier None;
  _ ← match available with
      | Some available => onCluster (setStandaloneBrokerConditions ((desired <=? ready) && (0 <? desired)) available)
      | None => mret tt
      end;
  mret false.

Definition setReady (ready desired : Z) (multiplePrimaries : bool) : R unit :=
  cluster ← theCluster;
  let wasReady := IsStatusConditionTrue (st_Conditions (cl_Status cluster)) conditionReady in
  let counts := pretty ready +:+ "/" +:+ pretty desired in
  let instancesReady := (desired <=? ready) && (0 <? desired) in
  if instancesReady && multiplePrimaries then
    _ ← onCluster (fun c => setCondition c conditionReady ConditionFalse reasonMultiplePrimaries
          (counts +:+ " instances ready, but more than one member reports itself master"));
    onCluster (fun c => setCondition c conditionProgressing ConditionFalse "Reconciled"
      "cluster reconciled; the operator does not choose between masters, see PrimaryResolved")
  else if instancesReady then
    _ ← onCluster (fun c => setCondition c conditionReady ConditionTrue "ClusterReady" (counts +:+ " instances ready"));
    _ ← onCluster (fun c => setCondition c conditionProgressing ConditionFalse "Reconciled" "cluster reconciled");
    if wasReady then mret tt else statusEvent "Normal" "ClusterReady" ("all " +:+ pretty desired +:+ " instances ready")
  else
    _ ← onCluster (fun c => setCondition c conditionReady ConditionFalse "InstancesNotReady" (counts +:+ " instances ready"));
    onCluster (fun c => setCondition c conditionProgressing ConditionTrue "InstancesStarting"
      ("waiting for " +:+ counts +:+ " instances")).

(** An image the spec asks for but nobody accepted, and the transition time of
    Updating, which is the one it had when its status is the one it had. *)
Definition reportImage (c : CubridCluster) : CubridCluster :=
  let running := runningImage (en_sts env) in
  let desired := instanceImage (en_defaultImage env) (en_specImage env) in
  if (running != "") && (running != desired) then
    setCondition c conditionUpdating ConditionFalse reasonImageChangeNotAccepted
      ("the spec asks for image " +:+ desired +:+ "; the Pods keep " +:+ running +:+
       " until the new image is accepted with the annotation " +:+ acceptImageAnnotation +:+ ": " +:+ desired)
  else match findCondition (st_Conditions (cl_Status c)) conditionUpdating with
  | Some updating =>
      if c_Reason updating == reasonImageChangeNotAccepted then
        map_status (fun s => set_st_Conditions (RemoveStatusCondition (st_Conditions s) conditionUpdating) s) c
      else c
  | None => c
  end.

Definition with_transitionTime (t : Time) (c : Condition) : Condition :=
  mkCondition (c_Type c) (c_Status c) (c_ObservedGeneration c) t (c_Reason c) (c_Message c).
Definition keepUpdatingTime (before : option Condition) (c : CubridCluster) : CubridCluster :=
  match FindStatusCondition (st_Conditions (cl_Status c)) conditionUpdating, before with
  | Some i, Some was =>
      map_status (fun s => set_st_Conditions (alter (fun u =>
        if c_Status u == c_Status was then with_transitionTime (c_LastTransitionTime was) u else u) i (st_Conditions s)) s) c
  | _, _ => c
  end.

Definition idleRetry : R Duration :=
  cluster ← theCluster;
  report ← the rw_report;
  if standaloneVersionPending cluster (cr_Prober r) then mret standaloneVersionRetryInterval
  else if match report with Some rr => rr_brokerRefused rr | None => false end then mret refusedBrokerRetryInterval
  else mret 0.

(** How a pass ends on the answer to its write. *)
Definition ending (err : option KErr) (result : R Outcome) : R Outcome :=
  match err with
  | Some e => if IsConflict e then mret (Again Second) else mret (Fails e)
  | None => result
  end.

(** What is said of a recovery that is not over. *)
Definition recoveryReport (cluster : CubridCluster) : string * string * ConditionStatus :=
  let phase := match st_Bootstrap (cl_Status cluster) with Some b => bs_Phase b | None => "" end in
  if phase == BootstrapSeedingReplicas then
    ("RecoverySeedingReplicas", "copying the restored database to the other members", ConditionTrue)
  else if phase == BootstrapFailed then
    (reasonBootstrapRecoveryFailed, "the recovery failed" +:+
       match findCondition (st_Conditions (cl_Status cluster)) conditionBootstrapReady with
       | Some c => if c_Message c != "" then ": " +:+ c_Message c else ""
       | None => ""
       end, ConditionFalse)
  else ("BootstrapRecoveryInProgress", "restoring from backup", ConditionTrue).

Definition recovering (after : Duration) : R Outcome :=
  cluster ← theCluster;
  let '(reason, msg, progressing) := recoveryReport cluster in
  _ ← notReadyNow progressing reason (msg +:+ "; cluster not ready") msg;
  err ← writeStatus;
  ending err (mret (Again after)).

Definition observing (updatingBefore : option Condition) : R Outcome :=
  cluster ← theCluster;
  let desired := sp_PromotableMembers (cl_Spec cluster) in
  let ready := ss_ReadyReplicas (en_sts env) in
  multiplePrimaries ←
    (if negb (sp_HAEnabled (cl_Spec cluster)) then standaloneSteps desired
     else if negb (cr_Prober r) then
       _ ← onCluster (fun c => setCondition c conditionHAReady ConditionUnknown "RoleDiscoveryDisabled" "no role prober configured");
       mret false
     else haSteps desired);
  _ ← setReady ready desired multiplePrimaries;
  _ ← onCluster (fun c => keepUpdatingTime updatingBefore (reportImage c));
  err ← writeStatus;
  ending err (if sp_HAEnabled (cl_Spec cluster) && cr_Prober r then mret (Again haResyncInterval)
              else after ← idleRetry; mret (Again after)).

Definition updateStatus : R Outcome :=
  _ ← note (set_rr_ready (ss_ReadyReplicas (en_sts env)));
  _ ← onCluster (fun c => map_status (set_st_ObservedGeneration (cl_Generation c)) c);
  _ ← reportMemberPlacement;
  cluster ← theCluster;
  let updatingBefore := findCondition (st_Conditions (cl_Status cluster)) conditionUpdating in
  match sp_Recovery (cl_Spec cluster) with
  | Some uri =>
      if recoveryActive cluster then
        res ← bootstrapping (reconcileRecovery quote formatTime hashRequest (cr_boot r) (en_boot env) uri);
        let '(after, active) := res : Duration * bool in
        if active then recovering after else observing updatingBefore
      else observing updatingBefore
  | None => observing updatingBefore
  end.

(** ** Reconcile *)

(** The child objects in the order they are written, by the reason of a
    failure. *)
Definition childSteps : list string :=
  ["ServiceReconcileFailed"; "MemberServiceReconcileFailed"; "SecretReconcileFailed"; "HAConfigReconcileFailed";
   "NetworkPolicyReconcileFailed"; "PlacementReconcileFailed"; "StatefulSetReconcileFailed"; "DisruptionBudgetReconcileFailed"].

Fixpoint children (steps : list string) : R Outcome :=
  match steps with
  | [] => _ ← modify (fun w => set_conflicts (delete childWrites (rw_conflicts w)) w); updateStatus
  | step :: steps =>
      match en_child env step with
      | Some e => if k_kind e == KSecretNotCached then mret (Again Second) else failed step e
      | None => children steps
      end
  end.

(** A reconcile that could not read the cluster. *)
Definition ReconcileUnread (e : KErr) : R Outcome :=
  _ ← modify (fun w => set_conflicts (delete brokerWrites (delete childWrites (rw_conflicts w))) w);
  _ ← modify (set_placementReported None);
  if IsNotFound e then
    _ ← modify (fun w => set_positions (Replication.forget (rw_positions w) (clusterKey (rw_cluster w))) w); mret (Again 0)
  else mret (Fails e).

(** A reconcile that read the status stored at [version]. *)
Definition Reconcile (version : nat) : R Outcome := fun w =>
  match rw_stored w !! version with
  | None => (Again 0, w)
  | Some st =>
      let w := set_version version (set_cluster (map_status (fun _ => st) (rw_cluster w)) w) in
      (_ ← beginReport;
       cluster ← theCluster;
       outcome ← match validateManagedClusterName (cl_Name cluster) with
                 | Some cause => refuseClusterName cause
                 | None => children childSteps
                 end;
       report ← the rw_report;
       _ ← match report with Some report => endReport report | None => mret tt end;
       mret outcome) w
  end.
End reconcile.
