(* ===== verification/ClusterSteps.v ===== *)
(** * What the steps of a reconcile do to a status

    What the handlers and steps of a reconcile of a cluster
    (ClusterReconcile.v) leave of the object, which conditions they change and
    what those say, and which Events they keep for the status; the theorems of
    ClusterSafety.v are made of these. *)
From stdpp Require Import prelude gmap strings list pretty.
From Stdlib Require Import Ascii String Lia.
From S2P Require Import Prelude GoStr Utf8 Api ImClient GoState Engine HARole Replication HAStatus RollingUpdate BackupController HABootstrap Recovery BootstrapSafety RecoverySafety Tokens Transitions Placement Broker ClusterReconcile.

(** ** The handlers of the bootstrap

    They change the status of the object alone, and the creation of the first
    database leaves a recovery as it is. *)
Section boot.
Context `{O : ConditionOps} (quote : string -> string) (formatTime : Time -> string) (hashRequest : RestoreRequest -> string).
Context (r : BootReconciler) (env : BootEnv).

Definition sameObject (w w' : BW) : Prop := objectOf (bw_cluster w') = objectOf (bw_cluster w).
#[local] Instance sameObject_preorder : PreOrder sameObject.
Proof. split; unfold sameObject; [done|intros ???; congruence]. Qed.

Lemma object_log (w w' : BW) : bw_log w' = bw_log w -> bootstrapOf w' = bootstrapOf w ->
  objectOf (bw_cluster w') = objectOf (bw_cluster w) -> sameObject w w'.
Proof. by intros _ _ H. Qed.
Lemma object_operate database c : keeps sameObject (operate env database c).
Proof. by intros w. Qed.
Lemma object_find database p k key : keeps sameObject (findOperation env database p k key).
Proof. by intros w. Qed.
Lemma object_seeding database holder : keeps sameObject (reconcileSeeding quote formatTime hashRequest r env database holder).
Proof. apply log_reconcileSeeding; [apply _|apply object_log|apply object_find|..]; intros; apply object_operate. Qed.
Lemma object_follow database pod kind key c : keeps sameObject (startOrFollow quote env database pod kind key c).
Proof. apply log_follow; [apply _|apply object_find|apply object_operate]. Qed.
Lemma object_create database member : keeps sameObject (createDatabase quote formatTime hashRequest r env database member).
Proof. apply log_create; [apply _|apply object_log|apply object_find|..]; intros; apply object_operate. Qed.
Lemma object_status database : keeps sameObject (databaseStatus database).
Proof. intros w. apply databaseStatus_object. Qed.
Lemma object_modDB database f : keeps sameObject (modDB database f).
Proof. by intros w. Qed.
Lemma object_modBoot f : keeps sameObject (modBoot f).
Proof. by intros w. Qed.
Lemma object_event t reason msg : keeps sameObject (HABootstrap.statusEvent t reason msg).
Proof. by intros w. Qed.
Lemma object_ready st reason msg : keeps sameObject (setBootstrapReady st reason msg).
Proof. by intros w. Qed.
Lemma object_clock : keeps sameObject (clock env).
Proof. by intros w. Qed.
Lemma object_getDB database : keeps sameObject (getDB database).
Proof. by intros w. Qed.
Lemma object_cluster : keeps sameObject HABootstrap.theCluster.
Proof. by intros w. Qed.
Lemma object_getBoot : keeps sameObject getBoot.
Proof. by intros w. Qed.
Lemma object_begin uri target : keeps sameObject (beginRecovery uri target).
Proof. intros w. unfold beginRecovery, sameObject. cbn. by destruct (st_Bootstrap _). Qed.
#[local] Hint Resolve object_operate object_find object_seeding object_follow object_create object_status object_modDB object_modBoot
  object_event object_ready object_clock object_getDB object_cluster object_getBoot object_begin : keeps.

Lemma object_failed reason msg : keeps sameObject (recoveryFailed reason msg).
Proof. unfold recoveryFailed, notReady. keeps_solve. Qed.
Lemma object_attempt target why : keeps sameObject (restoreAttemptFailed target why).
Proof. pose proof object_failed. unfold restoreAttemptFailed, notReady. keeps_solve. Qed.
Lemma object_missing target err : keeps sameObject (restoreOperationMissing formatTime env target err).
Proof. pose proof object_failed. unfold restoreOperationMissing, notReady. keeps_solve. Qed.
Lemma object_progress state target : keeps sameObject (setRestoreProgress state target).
Proof. unfold setRestoreProgress, notReady. keeps_solve. Qed.
#[local] Hint Resolve object_failed object_attempt object_missing object_progress : keeps.

Lemma object_recovery uri : keeps sameObject (reconcileRecovery quote formatTime hashRequest r env uri).
Proof.
  unfold reconcileRecovery, startRecovery, pollRecovery, reconcileRecoverySeeding, notReady. keeps_solve.
Qed.

Lemma object_bootstrap : keeps sameObject (reconcileHABootstrap quote formatTime hashRequest r env).
Proof. unfold reconcileHABootstrap. keeps_solve. Qed.

(** A cluster that is recovered from a backup creates no database. *)
Lemma bootstrap_idle w : non_nil (sp_Recovery (cl_Spec (bw_cluster w))) = true ->
  (reconcileHABootstrap quote formatTime hashRequest r env w).2 = w.
Proof.
  intros H. unfold reconcileHABootstrap. rewrite run_bind. cbn [HABootstrap.theCluster fst snd]. rewrite H, orb_true_r.
  by destruct (sp_Databases _).
Qed.
End boot.

(** ** What the steps leave of the cluster *)

Section steps.
Context `{O : ConditionOps}.

(** The object and its recovery. *)
Definition core (c : CubridCluster) := (objectOf c, st_Bootstrap (cl_Status c)).

Lemma core_object c c' : core c = core c' -> objectOf c = objectOf c'.
Proof. apply (f_equal fst). Qed.
Lemma core_condition c t s reason msg : core (setCondition c t s reason msg) = core c.
Proof. done. Qed.
Lemma core_mark c b why : core (markRolesNotObserved c b why) = core c.
Proof. unfold markRolesNotObserved. by destruct (_ || _). Qed.
Lemma core_HAStatus c count probe store t : core (reconcileHAStatus c count probe store t).1.1 = core c.
Proof.
  unfold reconcileHAStatus. cbv zeta. destruct (replicationCondition _ _ _) as [[? ?] ?].
  by destruct (haReadyCondition _ _ _ _ _ _ _ _) as [[? ?] ?].
Qed.
Lemma core_guardBaseline c observed : core (guardBaseline c observed).1 = core c.
Proof. unfold guardBaseline. repeat case_match; done. Qed.
Lemma core_guard c : core (reconcileUpdateGuard c).1 = core c.
Proof. unfold reconcileUpdateGuard. repeat case_match; rewrite ?core_guardBaseline; done. Qed.
Lemma core_rolling auto pod del c sts res : core (reconcileRollingUpdate auto pod del c sts res).1 = core c.
Proof. unfold reconcileRollingUpdate. repeat case_match; done. Qed.
Lemma core_revision pod c sts : core (reportStandaloneRevision pod c sts) = core c.
Proof. unfold reportStandaloneRevision. repeat case_match; done. Qed.
Lemma core_standalone pod c sts count probe t : core (reconcileStandaloneUpdate pod c sts count probe t) = core c.
Proof.
  unfold reconcileStandaloneUpdate. destruct (reconcileStandaloneStatus _ _ _ _ _) as [c1 refused] eqn:E1.
  assert (core c1 = core c) as H1 by (unfold reconcileStandaloneStatus in E1; by injection E1 as <- _).
  pose proof (core_guard c1) as H2. destruct (reconcileUpdateGuard c1) as [c2 ok]. cbn [fst] in H2.
  destruct ok; [destruct (negb _); rewrite ?core_revision; congruence|].
  destruct (FindStatusCondition _ _); [|congruence]. destruct (_ <? _)%nat; [|congruence]. rewrite <- H1, <- H2. done.
Qed.
Lemma core_endpoints available c : core (setEndpointConditions available c).1 = core c.
Proof. unfold setEndpointConditions, endpoint. repeat case_match; simplify_eq; done. Qed.
Lemma core_unresolved res c : core (setRoutingUnresolved res c).1 = core c.
Proof. unfold setRoutingUnresolved. by destruct (_ && _). Qed.
Lemma core_broker res available c : core (setBrokerConditions res available c) = core c.
Proof.
  unfold setBrokerConditions. pose proof (core_endpoints available c) as H1. destruct (setEndpointConditions available c) as [c1 rw].
  pose proof (core_unresolved res c1) as H2. destruct (setRoutingUnresolved res c1) as [c2 b]. cbn [fst] in *. repeat case_match; rewrite ?core_condition; congruence.
Qed.
Lemma core_standaloneBroker b available c : core (setStandaloneBrokerConditions b available c) = core c.
Proof.
  unfold setStandaloneBrokerConditions. pose proof (core_endpoints available c) as H1. destruct (setEndpointConditions available c) as [c1 rw].
  cbn [fst] in *. repeat case_match; rewrite ?core_condition; congruence.
Qed.
Lemma core_unobserved res cause c : core (setBrokerConditionsUnobserved res cause c) = core c.
Proof.
  unfold setBrokerConditionsUnobserved. cbv zeta. destruct res as [res|]; [|done].
  match goal with |- context [setRoutingUnresolved res ?c1] => pose proof (core_unresolved res c1) as H; destruct (setRoutingUnresolved res c1) as [c2 b] end.
  cbn [fst] in *. rewrite !core_condition in H. destruct b; rewrite ?core_condition; congruence.
Qed.
Lemma core_image env c : core (reportImage env c) = core c.
Proof. unfold reportImage. repeat case_match; done. Qed.
Lemma core_time before c : core (keepUpdatingTime before c) = core c.
Proof. unfold keepUpdatingTime. repeat case_match; done. Qed.
End steps.

(** ** What the steps say *)

Section says.
Context `{O : ConditionOps} `{!ConditionLaws O}.

Definition said (c : CubridCluster) (t : string) : option ConditionStatus := conditionStatus (st_Conditions (cl_Status c)) t.

(** A step that changes no condition but these, and not the primary. *)
Definition touches (types : list string) (c c' : CubridCluster) : Prop :=
  (forall t, t ∉ types -> said c' t = said c t) /\ st_CurrentPrimary (cl_Status c') = st_CurrentPrimary (cl_Status c).

Lemma touches_refl types c : touches types c c.
Proof. done. Qed.
Lemma touches_trans types c1 c2 c3 : touches types c1 c2 -> touches types c2 c3 -> touches types c1 c3.
Proof. intros [H1 P1] [H2 P2]. split; [|congruence]. intros t Ht. rewrite H2, H1; done. Qed.
Lemma touches_mono types types' c c' : types ⊆ types' -> touches types c c' -> touches types' c c'.
Proof. intros Hs [H P]. split; [|done]. intros t Ht. apply H. set_solver. Qed.

Lemma said_same c t s reason msg : said (setCondition c t s reason msg) t = Some s.
Proof.
  pose proof (setCondition_same c t s reason msg) as H. unfold clusterCondition, conditionView in H. unfold said, conditionStatus.
  destruct (findCondition _ t); cbn in *; [|done]. congruence.
Qed.
Lemma said_other c t t' s reason msg : t <> t' -> said (setCondition c t' s reason msg) t = said c t.
Proof. intros H. unfold said, conditionStatus. by rewrite setCondition_other. Qed.
Lemma touches_condition c t s reason msg : touches [t] c (setCondition c t s reason msg).
Proof. split; [|done]. intros t' Ht. apply said_other. set_solver. Qed.

Lemma touches_conditions types c t s reason msg c' : t ∈ types -> touches types c c' -> touches types c (setCondition c' t s reason msg).
Proof. intros Ht H. eapply touches_trans; [done|]. eapply touches_mono; [|apply touches_condition]. set_solver. Qed.

Ltac touch := repeat case_match; simplify_eq;
  repeat first [apply touches_refl | apply touches_conditions; [set_solver|]]; try done.

Lemma touches_guardBaseline c observed : touches [conditionUpdating] c (guardBaseline c observed).1.
Proof. unfold guardBaseline. repeat case_match; cbn; touch. Qed.
Lemma touches_guard c : touches [conditionUpdating] c (reconcileUpdateGuard c).1.
Proof.
  unfold reconcileUpdateGuard. case_bool_decide; [|apply touches_guardBaseline]. destruct (agreedEngineVersion _ _) as [v|]; [|cbn; touch].
  eapply touches_trans; [|apply touches_guardBaseline]. done.
Qed.
Lemma touches_rolling auto pod del c sts res : touches [conditionUpdating] c (reconcileRollingUpdate auto pod del c sts res).1.
Proof. unfold reconcileRollingUpdate. repeat case_match; cbn; touch. Qed.
Lemma touches_endpoints available c :
  touches [conditionWriteEndpointReady; conditionReadEndpointReady; conditionBrokerReady] c (setEndpointConditions available c).1 /\
  (setEndpointConditions available c).2 = (0 <? lookupd 0 available brokerModeRW).
Proof.
  unfold setEndpointConditions, endpoint. destruct (0 <? lookupd 0 available brokerModeRW), (0 <? lookupd 0 available brokerModeRO);
    cbn [andb fst snd]; (split; [|done]); touch.
Qed.

Notation routed c := (said c conditionRoutingReady).

Lemma unresolved_says res c : let out := setRoutingUnresolved res c in
  touches [conditionRoutingReady] c out.1 /\ (out.2 = true <-> res_Status res = ConditionTrue /\ res_CurrentPrimary res <> "") /\
  (out.2 = false -> routed out.1 = Some ConditionFalse).
Proof.
  unfold setRoutingUnresolved. cbv zeta. destruct (_ && _) eqn:E; cbn [fst snd]; bool_simpl.
  - split_and!; [touch|done|done].
  - split_and!; [touch| |intros _; apply said_same]. split; [done|]. intros [H1 H2].
    rewrite (bool_decide_eq_true_2 _ H1), (bool_decide_eq_false_2 _ H2) in E. done.
Qed.

(** The conditions of the Brokers, and no others. *)
Definition brokerTypes : list string :=
  [conditionWriteEndpointReady; conditionReadEndpointReady; conditionBrokerReady; conditionRoutingReady].

Lemma broker_says res available c :
  touches brokerTypes c (setBrokerConditions res available c) /\
  (routed (setBrokerConditions res available c) = Some ConditionTrue ->
   res_Status res = ConditionTrue /\ res_CurrentPrimary res <> "" /\ 0 < lookupd 0 available brokerModeRW).
Proof.
  unfold setBrokerConditions. destruct (touches_endpoints available c) as [T1 E1].
  destruct (setEndpointConditions available c) as [c1 rw]. cbn [fst snd] in T1, E1.
  assert (touches brokerTypes c c1) as T1' by (eapply touches_mono; [|done]; set_solver).
  destruct (unresolved_says res c1) as (T2 & E2 & F2). destruct (setRoutingUnresolved res c1) as [c2 resolved]. cbn [fst snd] in *.
  assert (touches brokerTypes c c2) as T2' by (eapply touches_trans; [done|]; eapply touches_mono; [|done]; set_solver).
  destruct resolved; cbn [negb]; [|split; [done|]; rewrite F2 by done; done].
  destruct (proj1 E2 eq_refl) as [H1 H2]. destruct rw; cbn [negb]; (split; [apply touches_conditions; [set_solver|done]|]); rewrite said_same; [|done].
  intros _. split_and!; [done..|]. symmetry in E1. by bool_simpl.
Qed.

Lemma unobserved_says res cause c :
  touches brokerTypes c (setBrokerConditionsUnobserved res cause c) /\ routed (setBrokerConditionsUnobserved res cause c) <> Some ConditionTrue.
Proof.
  unfold setBrokerConditionsUnobserved. cbv zeta.
  match goal with |- context [match res with None => (?c3, true) | _ => _ end] => set (c1 := c3) end.
  assert (touches brokerTypes c c1) as T1 by (unfold c1; touch). destruct res as [res|].
  - destruct (unresolved_says res c1) as (T2 & E2 & F2). destruct (setRoutingUnresolved res c1) as [c2 resolved]. cbn [fst snd] in *.
    assert (touches brokerTypes c c2) as T2' by (eapply touches_trans; [done|]; eapply touches_mono; [|done]; set_solver).
    destruct resolved; [split; [apply touches_conditions; [set_solver|done]|by rewrite said_same]|]. split; [done|]. by rewrite F2.
  - split; [apply touches_conditions; [set_solver|done]|by rewrite said_same].
Qed.

Lemma observed_says c count probe store t : let out := reconcileHAStatus c count probe store t in
  said out.1.1 conditionPrimaryResolved = Some (res_Status out.1.2) /\ routed out.1.1 = routed c /\ st_CurrentPrimary (cl_Status out.1.1) = res_CurrentPrimary out.1.2 /\
  out.1.2 = resolvePrimary (memberNames c count) (list_to_map ((fun m => (m, probe m)) <$> memberNames c count)) t.
Proof.
  unfold reconcileHAStatus. cbv zeta. destruct (replicationCondition _ _ _) as [[? ?] ?].
  destruct (haReadyCondition _ _ _ _ _ _ _ _) as [[? ?] ?]. cbn [fst snd]. split; [|split; [|done]]; rewrite !said_other by done; [apply said_same|done].
Qed.

Lemma mark_says c (hasProber : bool) why :
  (forall t, t ∉ [conditionPrimaryResolved; conditionHAReady; conditionRoutingReady; conditionReplicationHealthy] ->
     said (markRolesNotObserved c hasProber why) t = said c t) /\
  (sp_HAEnabled (cl_Spec c) && hasProber = true -> routed (markRolesNotObserved c hasProber why) = Some ConditionUnknown).
Proof.
  unfold markRolesNotObserved. destruct (sp_HAEnabled (cl_Spec c)), hasProber; cbn [negb orb andb fold_left]; try done.
  split; [|intros _; rewrite said_other by done; apply said_same]. intros t Ht. by rewrite !said_other by set_solver.
Qed.
Lemma touches_image env c : touches [conditionUpdating] c (reportImage env c).
Proof.
  unfold reportImage. destruct (_ && _); [touch|]. destruct (findCondition _ _) as [u|]; [|touch]. case_bool_decide; [|touch].
  split; [|done]. intros t Ht. unfold said, conditionStatus. cbn. rewrite find_remove_other; [done|set_solver].
Qed.

Lemma said_alter f i cs t : (forall c, c_Type (f c) = c_Type c) -> (forall c, c_Status (f c) = c_Status c) ->
  conditionStatus (alter f i cs) t = conditionStatus cs t.
Proof.
  intros Ht Hs. unfold conditionStatus, findCondition. rewrite (find_by_types (alter f i cs) cs).
  - destruct (FindStatusCondition cs t) as [j|]; [|done]. cbn. destruct (decide (i = j)) as [->|Hn].
    + rewrite list_lookup_alter_eq. destruct (cs !! j); cbn; [by rewrite Hs|done].
    + by rewrite list_lookup_alter_ne.
  - apply list_eq. intros j. rewrite !list_lookup_fmap. destruct (decide (i = j)) as [->|Hn].
    + rewrite list_lookup_alter_eq. destruct (cs !! j); cbn; [by rewrite Ht|done].
    + by rewrite list_lookup_alter_ne.
Qed.

Lemma touches_time before c : touches [] c (keepUpdatingTime before c).
Proof.
  unfold keepUpdatingTime. destruct (FindStatusCondition _ _) as [i|]; [|done]. destruct before as [was|]; [|done]. split; [|done].
  intros t _. unfold said. cbn. apply said_alter; intros u; by case_bool_decide.
Qed.
End says.

(** ** What the handlers of the bootstrap say

    They change no condition but BootstrapReady, and the Events they keep have
    these reasons. *)
Definition bootReasons : list string :=
  ["DatabaseCreated"; "PeersSeeded"; "DatabaseRestored"; "SeedSourceChanged"; "RestoreFailedRetrying";
   "DatabaseCreationFailed"; "DatabaseCreationFailedRetrying"; "SeedBackupFailed"; "SeedBackupFailedRetrying";
   "SeedRestoreFailed"; "SeedRestoreFailedRetrying"; reasonRecordedOperationLost; reasonRecordedOperationMismatch;
   reasonSeedSourceContradicted].

Section modest.
Context `{O : ConditionOps} `{!ConditionLaws O} (quote : string -> string) (formatTime : Time -> string).
Context (hashRequest : RestoreRequest -> string) (r : BootReconciler) (env : BootEnv).

Record modest (w w' : BW) : Prop := {
  md_touches : touches [conditionBootstrapReady] (bw_cluster w) (bw_cluster w');
  md_events : exists l, bw_events w' = bw_events w ++ l /\ Forall (fun e => ev_Reason e ∈ bootReasons) l }.

#[local] Instance modest_preorder : PreOrder modest.
Proof.
  split.
  - intros w. split; [apply touches_refl|]. exists []. split; [by rewrite app_nil_r|constructor].
  - intros a b c [T1 (l1 & E1 & F1)] [T2 (l2 & E2 & F2)]. split; [by eapply touches_trans|]. exists (l1 ++ l2).
    split; [by rewrite E2, E1, app_assoc|by apply Forall_app].
Qed.

Lemma modest_still w w' : bw_events w' = bw_events w -> st_Conditions (cl_Status (bw_cluster w')) = st_Conditions (cl_Status (bw_cluster w)) ->
  st_CurrentPrimary (cl_Status (bw_cluster w')) = st_CurrentPrimary (cl_Status (bw_cluster w)) -> modest w w'.
Proof.
  intros He Hc Hp. split; [split; [|done]; intros t _; unfold said; by rewrite Hc|]. exists []. rewrite He. split; [by rewrite app_nil_r|constructor].
Qed.

Lemma modest_modDB database f : keeps modest (modDB database f).
Proof. intros w. by apply modest_still. Qed.
Lemma modest_modBoot f : keeps modest (modBoot f).
Proof. intros w. by apply modest_still. Qed.
Lemma modest_event t reason msg : reason ∈ bootReasons -> keeps modest (HABootstrap.statusEvent t reason msg).
Proof. intros Hr w. split; [apply touches_refl|]. eexists. split; [done|]. by constructor. Qed.
Lemma modest_ready st reason msg : keeps modest (setBootstrapReady st reason msg).
Proof. intros w. split; [apply touches_condition|]. exists []. split; [by rewrite app_nil_r|constructor]. Qed.
Lemma modest_notReady reason msg : keeps modest (HABootstrap.notReady reason msg).
Proof. apply modest_ready. Qed.
Lemma modest_clock : keeps modest (clock env).
Proof. intros w. by apply modest_still. Qed.
Lemma modest_operate database c : keeps modest (operate env database c).
Proof. intros w. by apply modest_still. Qed.
Lemma modest_find database p k key : keeps modest (findOperation env database p k key).
Proof. intros w. by apply modest_still. Qed.
Lemma modest_getDB database : keeps modest (getDB database).
Proof. apply keeps_read, _. Qed.
Lemma modest_cluster : keeps modest HABootstrap.theCluster.
Proof. apply keeps_read, _. Qed.
Lemma modest_getBoot : keeps modest getBoot.
Proof. apply keeps_read, _. Qed.
Lemma modest_status database : keeps modest (databaseStatus database).
Proof. intros w. unfold databaseStatus. cbn [snd]. destruct (findDatabase _ _); [reflexivity|by apply modest_still]. Qed.
Lemma modest_begin uri target : keeps modest (beginRecovery uri target).
Proof. intros w. unfold beginRecovery. cbn [snd]. destruct (st_Bootstrap _); [reflexivity|by apply modest_still]. Qed.

Lemma reason_kept reason : bool_decide (reason ∈ bootReasons) = true -> reason ∈ bootReasons.
Proof. apply bool_decide_eq_true_1. Qed.
Hint Extern 1 (_ ∈ bootReasons) => apply reason_kept; reflexivity : keeps.
Hint Resolve modest_modDB modest_modBoot modest_event modest_ready modest_notReady modest_clock modest_operate modest_find modest_getDB
  modest_cluster modest_getBoot modest_status modest_begin : keeps.

Lemma modest_stepFailed database reason msg : reason ∈ bootReasons -> reason +:+ "Retrying" ∈ bootReasons ->
  keeps modest (bootstrapStepFailed database reason msg).
Proof. intros H1 H2. unfold bootstrapStepFailed. keeps_solve. Qed.
Lemma modest_stopped database reason msg : reason ∈ bootReasons -> keeps modest (bootstrapStopped database reason msg).
Proof. intros H. unfold bootstrapStopped. keeps_solve. Qed.
Hint Resolve modest_stepFailed modest_stopped : keeps.
Lemma modest_missing database since member step id err running left :
  keeps modest (stepOperationMissing formatTime env database since member step id err running left).
Proof. unfold stepOperationMissing. keeps_solve. Qed.
Lemma modest_matches database op kind member step : keeps modest (recordedOperationMatches database op kind member step).
Proof. unfold recordedOperationMatches. keeps_solve. Qed.
Hint Resolve modest_missing modest_matches : keeps.
Lemma modest_poll database since member kind step id running left :
  keeps modest (pollStep formatTime env database since member kind step id running left).
Proof. unfold pollStep. keeps_solve. Qed.
Lemma modest_follow database pod kind key c : keeps modest (startOrFollow quote env database pod kind key c).
Proof. unfold startOrFollow, operationUnderKey. keeps_solve. Qed.
Lemma modest_source database holder : keeps modest (selectSeedSource r env database holder).
Proof. unfold selectSeedSource. keeps_solve. Qed.
Hint Resolve modest_poll modest_follow modest_source : keeps.
Lemma modest_choose database holder peer : keeps modest (chooseSeeding r env database holder peer).
Proof. unfold chooseSeeding. keeps_solve. Qed.
Lemma modest_earlier database peer keyMember artifact hash uid n : keeps modest (earlierRestore env database peer keyMember artifact hash uid n).
Proof. induction n as [|n IH]; cbn [earlierRestore]; keeps_solve. Qed.
Hint Resolve modest_choose modest_earlier : keeps.
Lemma modest_retry database peer keyMember artifact key req :
  keeps modest (retrySkipsSeedBackup hashRequest env database peer keyMember artifact key req).
Proof. unfold retrySkipsSeedBackup. keeps_solve. Qed.
Lemma modest_backup database storage source peer artifact : keeps modest (seedBackup quote formatTime env storage database source peer artifact).
Proof. unfold seedBackup. keeps_solve. Qed.
Hint Resolve modest_retry modest_backup : keeps.
Lemma modest_start database storage peer seeding recorded artifact keyMember key req :
  keeps modest (startSeedRestore quote formatTime hashRequest env storage database peer seeding recorded artifact keyMember key req).
Proof. unfold startSeedRestore. keeps_solve. Qed.
Lemma modest_restored database peer uid artifact key restore : keeps modest (followSeedRestore quote database peer uid artifact key restore).
Proof. unfold followSeedRestore. keeps_solve. Qed.
Hint Resolve modest_start modest_restored : keeps.
Lemma modest_member database storage holder peer : keeps modest (seedMember quote formatTime hashRequest r env storage database holder peer).
Proof. unfold seedMember. keeps_solve. Qed.
Hint Resolve modest_member : keeps.
Lemma modest_peers database storage holder peers : keeps modest (seedPeers quote formatTime hashRequest r env storage database holder peers).
Proof. induction peers as [|p peers IH]; cbn [seedPeers]; keeps_solve. Qed.
Hint Resolve modest_peers : keeps.
Lemma modest_seeding database holder : keeps modest (reconcileSeeding quote formatTime hashRequest r env database holder).
Proof. unfold reconcileSeeding. keeps_solve. Qed.
Hint Resolve modest_seeding : keeps.
Lemma modest_create database member : keeps modest (createDatabase quote formatTime hashRequest r env database member).
Proof. unfold createDatabase, followCreation. keeps_solve. Qed.
Hint Resolve modest_create : keeps.
Lemma modest_bootstrap : keeps modest (reconcileHABootstrap quote formatTime hashRequest r env).
Proof. unfold reconcileHABootstrap. keeps_solve. Qed.

Lemma modest_failed reason msg : keeps modest (recoveryFailed reason msg).
Proof. unfold recoveryFailed. keeps_solve. Qed.
Hint Resolve modest_failed : keeps.
Lemma modest_attempt target why : keeps modest (restoreAttemptFailed target why).
Proof. unfold restoreAttemptFailed. keeps_solve. Qed.
Lemma modest_lost target err : keeps modest (restoreOperationMissing formatTime env target err).
Proof. unfold restoreOperationMissing. keeps_solve. Qed.
Lemma modest_progress state target : keeps modest (setRestoreProgress state target).
Proof. unfold setRestoreProgress. keeps_solve. Qed.
Hint Resolve modest_attempt modest_lost modest_progress : keeps.
Lemma modest_recovery uri : keeps modest (reconcileRecovery quote formatTime hashRequest r env uri).
Proof. unfold reconcileRecovery, startRecovery, pollRecovery, reconcileRecoverySeeding. keeps_solve. Qed.
End modest.
