(* ===== verification/ClusterSafety.v ===== *)
(** * What a reconcile of a cluster promises

    Ready is True only when it is safe, routing is claimed only for a primary
    that the pass observed unless the pass says nothing of the Brokers, and
    the Events of the changes of a status are recorded once, for the statuses
    that were stored (ClusterReconcile.v). *)
From stdpp Require Import prelude gmap strings list pretty.
From Stdlib Require Import Ascii String Lia.
From S2P Require Import Prelude GoStr Utf8 Api ImClient GoState Engine HARole Replication HAStatus RollingUpdate BackupController HABootstrap Recovery BootstrapSafety RecoverySafety BootstrapExamples Tokens Transitions Placement Broker ClusterReconcile ClusterSteps.

(** ** Before the write *)

Section pass.
Context `{O : ConditionOps} `{!ConditionLaws O}.
Context (quote : string -> string) (formatTime : Time -> string) (hashRequest : RestoreRequest -> string).
Context (asStored : CubridClusterStatus -> CubridClusterStatus) (DeepEqual : CubridClusterStatus -> CubridClusterStatus -> bool).
Context (IsDNS1035Label : string -> list string).
Context (r : ClusterReconciler) (env : PassEnv).

(** The status is stored, and the answer to its write is lost. *)
Definition loses (e : PassEnv) : bool := match en_write e with WritesLost _ => true | _ => false end.

(** An Event that waits for no status. *)
Definition direct (e : KubeEvent) : Prop := ke_Reason e = "RollingUpdate".

(** The reasons of the Events that wait for the status and say what a step of
    the pass did or found, rather than what changed in the status. *)
Definition keptReasons : list string :=
  childSteps ++ [reasonInvalidClusterName; "ClusterReady"; reasonBrokerReconcileFailed] ++
  [reasonMembersShareNode; reasonSpreadBlockedByVolume; reasonMemberUnschedulable; reasonMembersOnSeparateNodes] ++ bootReasons.
Definition kept (e : KubeEvent) : Prop := ke_Reason e ∈ keptReasons.

(** The report of a pass goes on: its Events are those it had and kept ones. *)
Definition goesOn (o o' : option reconcileReport) : Prop :=
  match o with
  | Some rr => exists rr' l, o' = Some rr' /\ rr_before rr' = rr_before rr /\ rr_events rr' = rr_events rr ++ l /\ Forall kept l
  | None => o' = None
  end.

Lemma goesOn_same (f : reconcileReport -> reconcileReport) o :
  (forall rr, rr_before (f rr) = rr_before rr /\ rr_events (f rr) = rr_events rr) -> goesOn o (f <$> o).
Proof.
  intros H. destruct o as [rr|]; [|done]. destruct (H rr) as [H1 H2]. exists (f rr), []. rewrite H2, app_nil_r. split_and!; [done..|constructor].
Qed.
Lemma goesOn_refl o : goesOn o o.
Proof. pose proof (goesOn_same id o) as H. rewrite option_fmap_id in H. apply H. done. Qed.
Lemma goesOn_trans a b c : goesOn a b -> goesOn b c -> goesOn a c.
Proof.
  destruct a as [ra|]; cbn; [|intros -> H; exact H]. intros (rb & l & -> & Hb & Hl & Fl) (rc & l' & -> & Hc & Hl' & Fl').
  exists rc, (l ++ l'). split_and!; [done|congruence|by rewrite Hl', Hl, app_assoc|by apply Forall_app].
Qed.

Record steady (w w' : RW) : Prop := {
  sd_object : objectOf (rw_cluster w') = objectOf (rw_cluster w);
  sd_stored : rw_stored w' = rw_stored w;
  sd_version : rw_version w' = rw_version w;
  sd_report : goesOn (rw_report w) (rw_report w');
  sd_written : rr_statusWritten <$> rw_report w' = rr_statusWritten <$> rw_report w;
  sd_events : non_nil (rw_report w) = true -> exists l, rw_events w' = rw_events w ++ l /\ Forall direct l }.

#[local] Instance steady_preorder : PreOrder steady.
Proof.
  split.
  - intros w. split; [done..|apply goesOn_refl|done|]. intros _. exists []. split; [by rewrite app_nil_r|constructor].
  - intros a b c [O1 S1 V1 R1 W1 E1] [O2 S2 V2 R2 W2 E2]. split; [congruence..|by eapply goesOn_trans|congruence|].
    intros Hr. destruct (E1 Hr) as (l1 & H1 & F1). destruct E2 as (l2 & H2 & F2).
    { destruct (rw_report a) as [ra|]; [|done]. destruct R1 as (rb & _ & -> & _). done. }
    exists (l1 ++ l2). split; [by rewrite H2, H1, app_assoc|]. by apply Forall_app.
Qed.

(** A step that records no Event. *)
Lemma steady_still w w' : objectOf (rw_cluster w') = objectOf (rw_cluster w) -> rw_stored w' = rw_stored w -> rw_version w' = rw_version w ->
  rw_report w' = rw_report w -> rw_events w' = rw_events w -> steady w w'.
Proof.
  intros H1 H2 H3 H4 H5. split; [done..|rewrite H4; apply goesOn_refl|by rewrite H4|]. intros _. exists []. rewrite H5. split; [by rewrite app_nil_r|constructor].
Qed.

Lemma steady_the {A} (f : RW -> A) : keeps steady (the f).
Proof. intros w. reflexivity. Qed.
Lemma steady_now : keeps steady (now env).
Proof. intros w. by apply steady_still. Qed.
Lemma steady_conflicts f : keeps steady (modify (fun w => set_conflicts (f w) w)).
Proof. intros w. by apply steady_still. Qed.
Lemma steady_conflicts' c : keeps steady (modify (set_conflicts c)).
Proof. intros w. by apply steady_still. Qed.
Lemma steady_placement p : keeps steady (modify (set_placementReported p)).
Proof. intros w. by apply steady_still. Qed.
Lemma steady_cluster f : (forall c, core (f c) = core c) -> keeps steady (onCluster f).
Proof. intros H w. apply steady_still; try done. apply core_object, H. Qed.
Lemma steady_note f : (forall rr, rr_before (f rr) = rr_before rr /\ rr_events (f rr) = rr_events rr /\ rr_statusWritten (f rr) = rr_statusWritten rr) ->
  keeps steady (note f).
Proof.
  intros H w. split; [done..|apply goesOn_same; intros rr; by destruct (H rr) as (? & ? & ?)| |].
  - cbn. destruct (rw_report w) as [rr|]; [|done]. cbn. by destruct (H rr) as (_ & _ & ->).
  - intros _. exists []. split; [by rewrite app_nil_r|constructor].
Qed.
Lemma steady_statusEvent t reason msg : reason ∈ keptReasons -> keeps steady (statusEvent r t reason msg).
Proof.
  intros Hk w. unfold statusEvent, event. rewrite run_bind. cbn [the fst snd]. destruct (rw_report w) as [rr|] eqn:E; cbn [non_nil is_nil negb].
  - split; [done..| |cbn; by rewrite E|].
    + cbn. rewrite E. eexists _, [_]. split_and!; [done..|]. by constructor.
    + intros _. exists []. split; [by rewrite app_nil_r|constructor].
  - split; try (by destruct (cr_Recorder r)); rewrite E; [|done]. cbn. by destruct (cr_Recorder r).
Qed.
Lemma steady_event msg : keeps steady (event r "Normal" "RollingUpdate" msg).
Proof.
  intros w. unfold event. destruct (cr_Recorder r); [|reflexivity]. split; try done; [apply goesOn_refl|]. intros _. eexists. split; [done|]. by repeat constructor.
Qed.
Lemma reason_isKept reason : bool_decide (reason ∈ keptReasons) = true -> reason ∈ keptReasons.
Proof. apply bool_decide_eq_true_1. Qed.
#[local] Hint Extern 1 (_ ∈ keptReasons) => apply reason_isKept; reflexivity : keeps.
Lemma boot_kept reason : reason ∈ bootReasons -> reason ∈ keptReasons.
Proof. unfold keptReasons. rewrite !elem_of_app. auto. Qed.
Lemma step_kept step : step ∈ childSteps -> step ∈ keptReasons.
Proof. unfold keptReasons. rewrite !elem_of_app. auto. Qed.
#[local] Hint Resolve steady_the steady_now steady_conflicts steady_conflicts' steady_placement steady_statusEvent steady_event : keeps.

Lemma steady_condition t s reason msg : keeps steady (onCluster (fun c => setCondition c t s reason msg)).
Proof. by apply steady_cluster. Qed.
Lemma steady_lasting writes err : keeps steady (lastingConflict env writes err).
Proof. unfold lastingConflict. keeps_solve. Qed.
#[local] Hint Resolve steady_condition steady_lasting : keeps.

(** The reason of what is found of the placement of the members. *)
Lemma placement_reason getPod getClaim spread members : let out := observeMemberPlacement getPod getClaim spread members in
  out.1.1 <> ConditionUnknown -> out.1.2 ∈ keptReasons.
Proof.
  cbv zeta. unfold observeMemberPlacement. destruct (scanPods _ _ _); [done|]. destruct (if _ == _ then _ else _); [done|]. cbv zeta.
  repeat case_match; cbn; try done; intros _; by apply reason_isKept.
Qed.

Lemma steady_reportPlacement : keeps steady (reportMemberPlacement r env).
Proof.
  assert (forall e, keeps steady (note (set_rr_placement e))) by (intros; by apply steady_note).
  assert (keeps steady (onCluster (map_status (fun s => set_st_Conditions (RemoveStatusCondition (st_Conditions s) conditionMemberPlacement) s))))
    by by apply steady_cluster.
  unfold reportMemberPlacement, ClusterReconcile.theCluster. apply (keeps_bind _); [keeps_solve|intros c].
  destruct (negb _); [done|]. apply (keeps_bind _); [keeps_solve|intros last].
  pose proof (placement_reason (en_memberPod env) (en_claim env) (en_spread env) (memberNames c (sp_PromotableMembers (cl_Spec c)))) as Hr.
  destruct (observeMemberPlacement _ _ _ _) as [[status reason] msg]. cbn [fst snd] in Hr.
  apply (keeps_bind _); [apply steady_condition|intros _]. destruct (status == ConditionUnknown) eqn:Es; cbn [orb]; [keeps_solve|].
  assert (reason ∈ keptReasons) by (bool_simpl; auto). keeps_solve.
Qed.

Lemma steady_statusEvents l : Forall (fun e => ev_Reason e ∈ bootReasons) l -> keeps steady (statusEvents r l).
Proof. pose proof boot_kept. induction 1; cbn [statusEvents]; keeps_solve. Qed.
#[local] Hint Resolve steady_statusEvents : keeps.

Lemma steady_bootstrapping {A} (m : Boot A) : keeps sameObject m -> keeps modest m -> keeps steady (bootstrapping r m).
Proof.
  intros Hm He. unfold bootstrapping. intros w. rewrite run_bind. cbn [ClusterReconcile.theCluster the fst snd].
  specialize (Hm (mkBW (rw_cluster w) [] [] 0)). destruct (He (mkBW (rw_cluster w) [] [] 0)) as [_ (l & El & Fl)].
  destruct (m _) as [a bw]. cbn in Hm, El. subst l. rewrite run_bind.
  set (w1 := (onCluster (fun _ => bw_cluster bw) w).2). transitivity w1; [by apply steady_still|].
  assert (keeps steady (_ ← statusEvents r (bw_events bw); mret a)) as Hk by keeps_solve. apply Hk.
Qed.

Lemma steady_observe desired : keeps steady (observeRoles env desired).
Proof.
  intros w. unfold observeRoles. rewrite run_bind. set (w1 := (now env w).2). rewrite run_bind. cbn [the fst snd id].
  transitivity w1; [by apply steady_still|]. pose proof (core_HAStatus (rw_cluster w1) desired (en_probe env) (rw_positions w1) (now env w).1) as Hc.
  destruct (reconcileHAStatus _ _ _ _ _) as [[c res] positions]. cbn [fst] in Hc. rewrite !run_bind. cbn [mret St_ret snd].
  set (w2 := (onCluster (fun _ => c) w1).2). transitivity w2; [apply steady_still; try done; by apply core_object|]. by apply steady_note.
Qed.

Lemma makeCalls_direct l : (forall reason msg, CallEvent reason msg ∈ l -> reason = "RollingUpdate") -> keeps steady (makeCalls r l).
Proof.
  induction l as [|[pod|reason msg] l IH]; intros H; cbn [makeCalls]; [keeps_solve|apply IH; set_solver|].
  rewrite (H reason msg) by set_solver. apply (keeps_bind _); [apply steady_event|intros _]. apply IH. set_solver.
Qed.
Lemma rolling_calls auto pod del c sts res reason msg :
  CallEvent reason msg ∈ (reconcileRollingUpdate auto pod del c sts res).2 -> reason = "RollingUpdate".
Proof. unfold reconcileRollingUpdate. repeat case_match; cbn; set_solver. Qed.

Lemma steady_rolling res : keeps steady (rollingUpdate r env res).
Proof.
  intros w. unfold rollingUpdate. rewrite run_bind. cbn [ClusterReconcile.theCluster the fst snd].
  pose proof (core_rolling (cr_AutomaticReplacement r) (en_pod env) (en_deletePod env) (rw_cluster w) (ss_Status (en_sts env)) res) as Hc.
  pose proof (rolling_calls (cr_AutomaticReplacement r) (en_pod env) (en_deletePod env) (rw_cluster w) (ss_Status (en_sts env)) res) as Hd.
  destruct (reconcileRollingUpdate _ _ _ _ _ _) as [c calls]. cbn [fst snd] in *. rewrite run_bind.
  set (w1 := (onCluster (fun _ => c) w).2). transitivity w1; [apply steady_still; try done; by apply core_object|].
  by apply makeCalls_direct.
Qed.

Lemma steady_refusal err : keeps steady (reportBrokerRefusal r err).
Proof.
  assert (keeps steady (note set_rr_refused)) by by apply steady_note.
  unfold reportBrokerRefusal, ClusterReconcile.theCluster. keeps_solve.
Qed.
#[local] Hint Resolve steady_rolling steady_refusal : keeps.

Lemma steady_brokerTier res : keeps steady (brokerTier r env res).
Proof.
  assert (forall e, keeps steady (onCluster (setBrokerConditionsUnobserved res e))).
  { intros e. apply steady_cluster. apply core_unobserved. }
  unfold brokerTier. keeps_solve.
Qed.
#[local] Hint Resolve steady_brokerTier : keeps.

Lemma steady_brokerStep res : keeps steady (brokerStep r env res).
Proof.
  assert (forall a, keeps steady (onCluster (setBrokerConditions res a))) by (intros; apply steady_cluster; intros; apply core_broker).
  unfold brokerStep. keeps_solve.
Qed.
Lemma steady_updateStep res : keeps steady (updateStep r env res).
Proof.
  intros w. unfold updateStep. rewrite run_bind. cbn [ClusterReconcile.theCluster the fst snd].
  pose proof (core_guard (rw_cluster w)) as Hc. destruct (reconcileUpdateGuard (rw_cluster w)) as [c ok]. cbn [fst] in Hc. rewrite run_bind.
  set (w1 := (onCluster (fun _ => c) w).2). transitivity w1; [apply steady_still; try done; by apply core_object|].
  destruct (_ && _); [apply steady_rolling|reflexivity].
Qed.
#[local] Hint Resolve steady_brokerStep steady_updateStep steady_observe : keeps.

Lemma steady_ha desired : keeps steady (haSteps quote formatTime hashRequest r env desired).
Proof.
  unfold haSteps. apply (keeps_bind _); [apply steady_bootstrapping; [apply object_bootstrap|apply modest_bootstrap]|intros _]. keeps_solve.
Qed.

Lemma steady_standalone desired : keeps steady (standaloneSteps r env desired).
Proof.
  assert (forall t, keeps steady (onCluster (fun c => reconcileStandaloneUpdate (en_pod env) c (ss_Status (en_sts env)) desired (en_probe env) t))).
  { intros t. apply steady_cluster. intros. apply core_standalone. }
  assert (forall b a, keeps steady (onCluster (setStandaloneBrokerConditions b a))).
  { intros b a. apply steady_cluster. intros. apply core_standaloneBroker. }
  unfold standaloneSteps. keeps_solve.
Qed.

Lemma steady_setReady ready desired b : keeps steady (setReady r ready desired b).
Proof. unfold setReady, ClusterReconcile.theCluster. keeps_solve. Qed.

Lemma steady_mark why : keeps steady (onCluster (fun c => markRolesNotObserved c (cr_Prober r) why)).
Proof. apply steady_cluster. intros. apply core_mark. Qed.
#[local] Hint Resolve steady_setReady steady_mark : keeps.

(** ** The write *)

(** What the API server keeps of a status. *)
Definition keepsStatus (s s' : CubridClusterStatus) : Prop :=
  (forall t, conditionStatus (st_Conditions s') t = conditionStatus (st_Conditions s) t) /\
  bs_Phase <$> st_Bootstrap s' = bs_Phase <$> st_Bootstrap s /\ st_CurrentPrimary s' = st_CurrentPrimary s.
Context (asStored_keeps : forall s, keepsStatus s (asStored s)).

(** How a reconcile ends: its report, and the status it stored, if any. *)
Record Closed (Good : CubridClusterStatus -> Prop) (w w' : RW) : Prop := {
  cd_object : objectOf (rw_cluster w') = objectOf (rw_cluster w);
  cd_report : goesOn (rw_report w) (rw_report w');
  cd_events : exists l, rw_events w' = rw_events w ++ l /\ Forall direct l;
  cd_stored :
    (rr_statusWritten <$> rw_report w' = Some false /\
     (rw_stored w' = rw_stored w \/ loses env = true /\ exists st, rw_stored w' = rw_stored w ++ [st] /\ Good st)) \/
    (rr_statusWritten <$> rw_report w' = Some true /\ en_write env = Writes /\ S (rw_version w) = List.length (rw_stored w) /\
     rw_stored w' = rw_stored w ++ [cl_Status (rw_cluster w')] /\ Good (cl_Status (rw_cluster w'))) }.

Definition unwritten (w : RW) : Prop := rr_statusWritten <$> rw_report w = Some false.

Lemma unwritten_steady w w' : steady w w' -> unwritten w -> unwritten w'.
Proof.
  intros [_ _ _ _ H _]. unfold unwritten. congruence.
Qed.

Lemma closed_steady Good w w1 w2 : unwritten w -> steady w w1 -> Closed Good w1 w2 -> Closed Good w w2.
Proof.
  intros U [O1 S1 V1 R1 _ E1] [O2 B2 (l2 & H2 & F2) W2]. split.
  - congruence.
  - by eapply goesOn_trans.
  - destruct E1 as (l1 & H1 & F1); [unfold unwritten in U; by destruct (rw_report w)|]. exists (l1 ++ l2).
    split; [by rewrite H2, H1, app_assoc|by apply Forall_app].
  - by rewrite S1, V1 in W2.
Qed.

(** A pass that ends without a write. *)
Lemma closed_idle Good w : unwritten w -> Closed Good w w.
Proof. intros U. split; [done|apply goesOn_refl| |left; split; [done|by left]]. exists []. split; [by rewrite app_nil_r|constructor]. Qed.

(** The status as it is written. *)
Definition sameBut (w : RW) (s : CubridClusterStatus) : Prop := keepsStatus (cl_Status (rw_cluster w)) s.

Lemma keepsStatus_trans a b c : keepsStatus a b -> keepsStatus b c -> keepsStatus a c.
Proof. intros (C1 & B1 & P1) (C2 & B2 & P2). split_and!; [intros t; by rewrite C2|congruence|congruence]. Qed.

Lemma hold_keepsStatus stored s t : keepsStatus s (holdObservationTimes DeepEqual stored s t).
Proof. unfold holdObservationTimes. destruct stored as [st|]; [|done]. by destruct (DeepEqual _ _). Qed.

(** What follows the answer to the write. *)
Lemma written_tail (err : option KErr) (positions : option (gmap string applierReading)) w :
  let m := _ ← note (set_rr_written (is_nil err));
    _ ← (if is_nil err then
         match positions with
         | Some positions =>
             modify (fun w => set_positions (Replication.commit (rw_positions w) (cl_UID (rw_cluster w)) (clusterKey (rw_cluster w)) positions) w)
         | None => mret tt
         end
       else mret tt);
    match err with
    | Some e =>
      if IsNotFound e && negb (en_exists env) then
        _ ← modify (fun w => set_positions (Replication.forget (rw_positions w) (clusterKey (rw_cluster w))) w); mret None
      else mret (Some e)
    | None => mret None
    end in
  rw_stored (m w).2 = rw_stored w /\ rw_cluster (m w).2 = rw_cluster w /\ rw_events (m w).2 = rw_events w /\
  rw_report (m w).2 = set_rr_written (is_nil err) <$> rw_report w.
Proof. cbv zeta. destruct err as [e|], positions; cbn; try (destruct (_ && _)); done. Qed.

Lemma clusterUpdate_cases w : let out := statusUpdate asStored env w in let st := asStored (cl_Status (rw_cluster w)) in
  rw_report out.2 = rw_report w /\ rw_events out.2 = rw_events w /\
  match out.1 with
  | None => en_write env = Writes /\ S (rw_version w) = List.length (rw_stored w) /\ rw_stored out.2 = rw_stored w ++ [st] /\ rw_cluster out.2 = map_status (fun _ => st) (rw_cluster w)
  | Some _ => rw_cluster out.2 = rw_cluster w /\ (rw_stored out.2 = rw_stored w \/ loses env = true /\ rw_stored out.2 = rw_stored w ++ [st])
  end.
Proof.
  unfold statusUpdate, loses. destruct (_ =? _)%nat eqn:E; [apply Nat.eqb_eq in E|]; destruct (en_write env); cbn; split_and!; try done; auto.
Qed.

Lemma writeStatus_closed Good w : unwritten w -> (forall s, sameBut w s -> Good s) ->
  Closed Good w (writeStatus asStored DeepEqual env w).2.
Proof.
  intros U HG. unfold unwritten in U. destruct (rw_report w) as [rr|] eqn:Er; [|done]. cbn in U. injection U as U.
  unfold writeStatus. rewrite run_bind. cbn [the fst snd]. rewrite Er, run_bind.
  set (w1 := (@mbind (St RW) _ _ _ _ _ w).2). assert (rw_report w1 = Some rr /\ rw_events w1 = rw_events w /\ rw_stored w1 = rw_stored w /\
    rw_version w1 = rw_version w /\ objectOf (rw_cluster w1) = objectOf (rw_cluster w) /\ sameBut w (cl_Status (rw_cluster w1)))
    as (R1 & E1 & S1 & V1 & O1 & K1).
  { split_and!; try done. apply hold_keepsStatus. }
  clearbody w1. rewrite run_bind. pose proof (clusterUpdate_cases w1) as Hu. cbv zeta in Hu.
  destruct (statusUpdate asStored env w1) as [err w2]. cbn [fst snd] in *. destruct Hu as (R2 & E2 & H2).
  destruct (written_tail err (Some rr ≫= rr_positions) w2) as (S3 & C3 & E3 & R3). cbv zeta in *.
  match goal with |- Closed _ _ ?w' => set (w3 := w') in * end. clearbody w3. rewrite R2, R1 in R3.
  assert (Good (asStored (cl_Status (rw_cluster w1)))) as Hg by (apply HG; eapply keepsStatus_trans; [exact K1|apply asStored_keeps]).
  split.
  - rewrite C3. destruct err; [destruct H2 as [-> _]|destruct H2 as (_ & _ & _ & ->)]; done.
  - rewrite R3, Er. by apply (goesOn_same (set_rr_written (is_nil err)) (Some rr)).
  - exists []. split; [by rewrite app_nil_r, E3, E2, E1|constructor].
  - destruct err as [e|]; cbn [is_nil] in R3; rewrite R3.
    + left. split; [done|]. rewrite S3, <- S1. destruct H2 as [_ [H2|[Hw H2]]]; [by left|right]. eauto.
    + right. destruct H2 as (Hw & Hv & Hs & Hc). rewrite S3, C3, Hc, Hs, <- S1, <- V1. done.
Qed.
(** ** Passes *)

(** The cluster a pass is of, how often the clock was read before it, since
    when the writes of its Brokers conflict, and what the status that was read
    says of its routing. *)
Context (spec : CubridClusterSpec) (name : string).
Context (tick : nat) (since : option Time) (routing : option ConditionStatus).
Notation desired := (sp_PromotableMembers spec).
Notation ready := (ss_ReadyReplicas (en_sts env)).
Notation observesRoles := (sp_HAEnabled spec && cr_Prober r).

(** The resolution of the primary that the pass observes: the members'
    answers, judged at the time the pass reads first. *)
Definition resolved : PrimaryResolution :=
  let members := memberName name <$> (N.of_nat <$> seq 0 (Z.to_nat desired)) in
  resolvePrimary members (list_to_map ((fun m => (m, en_probe env m)) <$> members)) (en_clock env tick).

(** A write of the Brokers conflicts, and has done so for no longer than the
    operator is patient. *)
Definition youngConflict : Prop := exists e, en_brokers env = inl e /\ IsConflict e = true /\
  Sub (en_clock env (S (S tick))) (default (en_clock env (S tick)) since) <= conflictPatience.

(** The namespace of the Brokers is being deleted. *)
Definition brokersLeaving : Prop := exists e, en_brokers env = inl e /\ k_kind e = KNamespaceTerminating.

(** No child object stands in the way of the observation. *)
Definition childrenDone : Prop := validateManagedClusterName quote IsDNS1035Label name = None /\ forall step, step ∈ childSteps -> en_child env step = None.

Record SafeReady (st : CubridClusterStatus) : Prop := {
  sr_name : validateManagedClusterName quote IsDNS1035Label name = None;
  sr_children : forall step, step ∈ childSteps -> en_child env step = None;
  sr_instances : 0 < desired <= ready;
  sr_recovery : sp_Recovery spec = None \/ bs_Phase <$> st_Bootstrap st = Some BootstrapComplete;
  sr_primary : observesRoles = true -> res_MultipleMasters resolved = false }.

Record SafeRouting (st : CubridClusterStatus) : Prop := {
  sx_primary : st_CurrentPrimary st <> "";
  sx_resolved : conditionStatus (st_Conditions st) conditionPrimaryResolved = Some ConditionTrue;
  sx_observed : res_Status resolved = ConditionTrue /\ res_CurrentPrimary resolved = st_CurrentPrimary st;
  sx_brokers : exists available, en_brokers env = inr available /\ 0 < lookupd 0 available brokerModeRW }.

(** The primary of the status is the observed one, and what it says of the
    routing is what the status that was read said. *)
Record RoutingKept (st : CubridClusterStatus) : Prop := {
  rk_routing : conditionStatus (st_Conditions st) conditionRoutingReady = routing;
  rk_resolved : conditionStatus (st_Conditions st) conditionPrimaryResolved = Some (res_Status resolved);
  rk_primary : st_CurrentPrimary st = res_CurrentPrimary resolved }.

(** What holds of a status that a pass stores. *)
Record Good (st : CubridClusterStatus) : Prop := {
  gd_ready : conditionStatus (st_Conditions st) conditionReady = Some ConditionTrue -> SafeReady st;
  gd_routing : observesRoles = true -> ~ youngConflict -> ~ brokersLeaving ->
    conditionStatus (st_Conditions st) conditionRoutingReady = Some ConditionTrue -> SafeRouting st;
  gd_kept : observesRoles = true -> childrenDone -> sp_Recovery spec = None -> youngConflict \/ brokersLeaving -> RoutingKept st }.

Definition isOf (w : RW) : Prop := cl_Spec (rw_cluster w) = spec /\ cl_Name (rw_cluster w) = name.
Lemma isOf_steady w w' : steady w w' -> isOf w -> isOf w'.
Proof. intros [H _ _ _ _ _] [H1 H2]. unfold objectOf in H. split; congruence. Qed.

Notation closes m w := (Closed Good w (m w).2).
Notation saysNow w t := (said (rw_cluster w) t).

(** A step before the write. *)
Lemma closes_bind {A B} (m : R A) (k : A -> R B) w : unwritten w -> keeps steady m ->
  closes (k (m w).1) (m w).2 -> closes (m ≫= k) w.
Proof. intros U Hm H. rewrite run_bind. eapply closed_steady; [done|apply Hm|exact H]. Qed.

(** A pass that does not get to observe the members. *)
Definition heldUp : Prop := childrenDone -> sp_Recovery spec <> None.

(** A pass that reports the cluster as not ready. *)
Definition notReady (w : RW) : Prop :=
  saysNow w conditionReady = Some ConditionFalse /\ (observesRoles = true -> saysNow w conditionRoutingReady = Some ConditionUnknown).

Lemma notReady_closed w : heldUp -> unwritten w -> notReady w -> closes (writeStatus asStored DeepEqual env) w.
Proof.
  intros Hh U [H1 H2]. apply writeStatus_closed; [done|]. intros s (C & _). split.
  - rewrite C. unfold said in H1. rewrite H1. intros [=].
  - intros Ho _ _. rewrite C. unfold said in H2. rewrite (H2 Ho). intros [=].
  - intros _ Hc Hr. by destruct (Hh Hc).
Qed.

Lemma closes_result {A B} (m : R A) (f : A -> R B) w : (forall x w', (f x w').2 = w') -> closes m w -> closes (m ≫= f) w.
Proof. intros Hf H. rewrite run_bind, Hf. done. Qed.

Lemma statusEvent_cluster t reason msg w : rw_cluster (statusEvent r t reason msg w).2 = rw_cluster w.
Proof. unfold statusEvent, event. rewrite run_bind. cbn. destruct (rw_report w); cbn; [done|]. by destruct (cr_Recorder r). Qed.

Lemma notReadyNow_says progressing reason msg msg' w : isOf w -> notReady (notReadyNow r progressing reason msg msg' w).2.
Proof.
  intros [Hs _]. unfold notReadyNow. rewrite !run_bind. cbn [onCluster modify fst snd]. unfold notReady. cbn [rw_cluster set_cluster].
  match goal with |- context [markRolesNotObserved ?c _ _] => set (c2 := c) end.
  destruct (mark_says c2 (cr_Prober r) reason) as [H1 H2]. split.
  - rewrite H1 by set_solver. unfold c2. rewrite said_other by done. apply said_same.
  - intros Ho. apply H2. unfold c2. cbn. by rewrite Hs.
Qed.
Lemma steady_notReadyNow progressing reason msg msg' : keeps steady (notReadyNow r progressing reason msg msg').
Proof. unfold notReadyNow. keeps_solve. Qed.
#[local] Hint Resolve steady_notReadyNow : keeps.

(** A pass that reports why the cluster is not ready, and writes it. *)
Lemma notReadyNow_closed {A} progressing reason msg msg' (m : R unit) (f : option KErr -> R A) w :
  heldUp -> unwritten w -> isOf w -> keeps steady m -> (forall w, rw_cluster (m w).2 = rw_cluster w) -> (forall x w', (f x w').2 = w') ->
  closes (_ ← notReadyNow r progressing reason msg msg'; _ ← m; err ← writeStatus asStored DeepEqual env; f err) w.
Proof.
  intros Hh U Hi Hm Hc Hf. pose proof (notReadyNow_says progressing reason msg msg' w Hi) as Hn.
  apply closes_bind; [done|apply steady_notReadyNow|]. set (w1 := (notReadyNow r progressing reason msg msg' w).2) in *.
  assert (unwritten w1) as U1 by (eapply unwritten_steady; [apply steady_notReadyNow|done]).
  apply closes_bind; [done..|]. apply closes_result; [done|]. apply notReady_closed; [done|by eapply unwritten_steady; [apply Hm|]|].
  unfold notReady. by rewrite Hc.
Qed.

Lemma refuse_closed cause w : validateManagedClusterName quote IsDNS1035Label name = Some cause -> unwritten w -> isOf w ->
  closes (refuseClusterName asStored DeepEqual r env cause) w.
Proof.
  intros Hn U Hi. unfold refuseClusterName. cbv zeta. rewrite run_bind. cbn [ClusterReconcile.theCluster the fst snd].
  apply notReadyNow_closed; [intros [Hn' _]; congruence|done..| | |by intros []].
  - destruct (alreadyNotReady _ _ _); keeps_solve.
  - intros w1. destruct (alreadyNotReady _ _ _); [done|apply statusEvent_cluster].
Qed.

Lemma failed_closed step e w : step ∈ childSteps -> en_child env step = Some e -> unwritten w -> isOf w ->
  closes (failed asStored DeepEqual r env step e) w.
Proof.
  intros Hstep He U Hi. unfold failed. destruct (namespaceTerminating e); [by apply closed_idle|].
  apply closes_bind; [done|apply steady_lasting|].
  pose proof (steady_lasting childWrites (Some e) w) as Hs. destruct (lastingConflict env childWrites (Some e) w) as [[young err] w1]. cbn [fst snd] in *.
  assert (unwritten w1) as U1 by by eapply unwritten_steady. assert (isOf w1) as I1 by by eapply isOf_steady.
  destruct young; [by apply closed_idle|]. destruct err as [cause|]; [|by apply closed_idle].
  rewrite run_bind. cbn [ClusterReconcile.theCluster the fst snd]. cbv zeta.
  apply (notReadyNow_closed ConditionTrue step (k_text cause) (k_text cause)
    (if alreadyNotReady (rw_cluster w1) step (k_text cause) then mret tt else statusEvent r "Warning" step (k_text cause))
    (fun _ => mret (Fails cause))); [intros [_ Hn]; rewrite (Hn step Hstep) in He; congruence|done..| | |done].
  - pose proof (step_kept step Hstep). destruct (alreadyNotReady _ _ _); keeps_solve.
  - intros w2. destruct (alreadyNotReady _ _ _); [done|apply statusEvent_cluster].
Qed.

Lemma recovering_closed after w : sp_Recovery spec <> None -> unwritten w -> isOf w -> closes (recovering asStored DeepEqual r env after) w.
Proof.
  intros Hr U Hi. unfold recovering. rewrite run_bind. cbn [ClusterReconcile.theCluster the fst snd].
  destruct (recoveryReport (rw_cluster w)) as [[reason msg] progressing].
  assert (keeps steady (mret tt)) as Hret by keeps_solve.
  refine (notReadyNow_closed progressing reason (msg +:+ "; cluster not ready") msg (mret tt) (fun err => ending err (mret (Again after)))
    w (fun _ => Hr) U Hi Hret (fun _ => eq_refl) _).
  intros [e|] w1; cbn; [by destruct (IsConflict e)|done].
Qed.
(** ** The observation of the members *)

Lemma lasting_cluster writes err w : rw_cluster (lastingConflict env writes err w).2 = rw_cluster w.
Proof.
  unfold lastingConflict. destruct err as [e|]; [|done]. destruct (negb (IsConflict e)); [done|]. rewrite !run_bind. cbn.
  by destruct (_ <=? _).
Qed.

(** What is made of an error: a conflict that is young, or an error to report. *)
Lemma lasting_answer writes err w : let out := (lastingConflict env writes err w).1 in
  match err with
  | None => out = (false, None)
  | Some e =>
      if IsConflict e then
        if Sub (en_clock env (S (rw_ticks w))) (default (en_clock env (rw_ticks w)) (rw_conflicts w !! writes)) <=? conflictPatience then out = (true, None)
        else exists e', out = (false, Some e') /\ k_kind e' = KConflict
      else out = (false, Some e)
  end.
Proof.
  unfold lastingConflict. cbv zeta. destruct err as [e|]; [|done]. destruct (IsConflict e); [|done]. cbn [negb]. rewrite !run_bind.
  cbn [now the modify fst snd rw_ticks set_ticks rw_conflicts set_conflicts]. destruct (_ <=? _); [done|]. eexists. split; [done|]. done.
Qed.

Lemma refusal_cluster e w : rw_cluster (reportBrokerRefusal r e w).2 = rw_cluster w.
Proof.
  unfold reportBrokerRefusal. destruct (k_kind e != KChildNotOwned); [done|]. rewrite !run_bind. cbn [ClusterReconcile.theCluster the fst snd].
  match goal with |- context [if ?b then _ else _] => destruct b end; [by rewrite statusEvent_cluster|done].
Qed.

(** The pass has read the clock once, and the Brokers are next. *)
Definition beforeBrokers (w : RW) : Prop := rw_ticks w = S tick /\ rw_conflicts w !! brokerWrites = since.
(** Nothing is said of the Brokers. *)
Definition unjudged : Prop := youngConflict \/ brokersLeaving.

Lemma brokerTier_says res w : let out := brokerTier r env res w in
  (rw_cluster out.2 = rw_cluster w /\ match out.1 with Some a => en_brokers env = inr a | None => beforeBrokers w -> unjudged end) \/
  (out.1 = None /\ (beforeBrokers w -> ~ unjudged) /\ exists cause, rw_cluster out.2 = setBrokerConditionsUnobserved res cause (rw_cluster w)).
Proof.
  unfold brokerTier. cbv zeta. rewrite run_bind. set (err := match en_brokers env with inl e => Some e | inr _ => None end).
  pose proof (lasting_answer brokerWrites err w) as Ha. pose proof (lasting_cluster brokerWrites err w) as Hc. cbv zeta in Ha.
  destruct (lastingConflict env brokerWrites err w) as [out w1]. cbn [fst snd] in *.
  assert (forall e w1, rw_cluster w1 = rw_cluster w -> (beforeBrokers w -> ~ unjudged) ->
    let out := (_ ← reportBrokerRefusal r e; _ ← onCluster (setBrokerConditionsUnobserved res (k_text e)); mret None) w1 in
    out.1 = @None (gmap string Z) /\ (beforeBrokers w -> ~ unjudged) /\
    exists cause, rw_cluster out.2 = setBrokerConditionsUnobserved res cause (rw_cluster w)) as Herr.
  { intros e w2 H2 Hu. cbv zeta. rewrite !run_bind. split_and!; [done..|]. exists (k_text e). cbn. by rewrite refusal_cluster, H2. }
  unfold err in Ha. destruct (en_brokers env) as [e|available] eqn:Eb; [|rewrite Ha; by left].
  destruct (IsConflict e) eqn:Ek.
  - destruct (_ <=? _) eqn:Ey; bool_simpl.
    + rewrite Ha. left. split; [done|]. intros [Ht Hs]. rewrite Ht, Hs in Ey. left. by exists e.
    + destruct Ha as (e' & -> & Hk). unfold namespaceTerminating. rewrite Hk. cbn. right. apply Herr; [done|].
      intros [Ht Hs] [(e0 & He & _ & Hy)|(e0 & He & Hy)].
      * rewrite Ht, Hs in Ey. lia.
      * unfold IsConflict in Ek. simplify_eq. bool_simpl. congruence.
  - rewrite Ha. destruct (namespaceTerminating e) eqn:Et; unfold namespaceTerminating in Et; bool_simpl.
    + left. split; [done|]. intros _. right. by exists e.
    + right. apply Herr; [done|]. intros _ [(e0 & He & Hy & _)|(e0 & He & Hy)]; simplify_eq; congruence.
Qed.

(** What a pass knows once it has observed the members. *)
Record Observed (w w' : RW) (multiple : bool) : Prop := {
  ob_steady : steady w w';
  ob_recovery : non_nil (sp_Recovery spec) = true -> st_Bootstrap (cl_Status (rw_cluster w')) = st_Bootstrap (cl_Status (rw_cluster w));
  ob_roles : observesRoles = true -> multiple = res_MultipleMasters resolved /\
    saysNow w' conditionPrimaryResolved = Some (res_Status resolved) /\
    st_CurrentPrimary (cl_Status (rw_cluster w')) = res_CurrentPrimary resolved /\
    (~ unjudged -> saysNow w' conditionRoutingReady = Some ConditionTrue ->
     res_Status resolved = ConditionTrue /\ res_CurrentPrimary resolved <> "" /\
     exists available, en_brokers env = inr available /\ 0 < lookupd 0 available brokerModeRW) /\
    (unjudged -> saysNow w' conditionRoutingReady = routing) }.

Lemma sameCore_bootstrap c c' : core c = core c' -> st_Bootstrap (cl_Status c) = st_Bootstrap (cl_Status c').
Proof. apply (f_equal snd). Qed.

Lemma bootstrapping_idle w : isOf w -> non_nil (sp_Recovery spec) = true ->
  rw_cluster (bootstrapping r (reconcileHABootstrap quote formatTime hashRequest (cr_boot r) (en_boot env)) w).2 = rw_cluster w.
Proof.
  intros [Hs _] Hr. unfold bootstrapping. rewrite run_bind. cbn [ClusterReconcile.theCluster the fst snd].
  pose proof (bootstrap_idle quote formatTime hashRequest (cr_boot r) (en_boot env) (mkBW (rw_cluster w) [] [] 0)) as Hi.
  cbn [bw_cluster] in Hi. rewrite Hs in Hi. specialize (Hi Hr).
  destruct (reconcileHABootstrap _ _ _ _ _ _) as [a bw]. cbn [snd] in Hi. subst bw. done.
Qed.

(** What has not happened yet when the pass observes the members: the clock
    was not read, and nothing was said of the Brokers or of the routing. *)
Record starting (w : RW) : Prop := {
  sg_ticks : rw_ticks w = tick;
  sg_since : rw_conflicts w !! brokerWrites = since;
  sg_routing : saysNow w conditionRoutingReady = routing }.

Lemma starting_same w w' : rw_ticks w' = rw_ticks w -> rw_conflicts w' !! brokerWrites = rw_conflicts w !! brokerWrites ->
  saysNow w' conditionRoutingReady = saysNow w conditionRoutingReady -> starting w -> starting w'.
Proof. intros H1 H2 H3 [? ? ?]. split; congruence. Qed.

Lemma statusEvent_starting t reason msg w : starting w -> starting (statusEvent r t reason msg w).2.
Proof.
  apply starting_same; unfold statusEvent, event; rewrite run_bind; cbn; destruct (rw_report w); cbn; try done; by destruct (cr_Recorder r).
Qed.
Lemma statusEvents_starting l w : starting w -> starting (statusEvents r l w).2.
Proof. revert w. induction l as [|e l IH]; intros w Hw; cbn [statusEvents]; [done|]. rewrite run_bind. by apply IH, statusEvent_starting. Qed.

Lemma bootstrapping_starting {A} (m : Boot A) w : keeps modest m -> starting w -> starting (bootstrapping r m w).2.
Proof.
  intros Hm Hw. unfold bootstrapping. rewrite run_bind. cbn [ClusterReconcile.theCluster the fst snd].
  destruct (Hm (mkBW (rw_cluster w) [] [] 0)) as [[Ht _] _]. destruct (m _) as [a bw]. cbn [fst snd bw_cluster] in Ht. rewrite !run_bind.
  apply statusEvents_starting. revert Hw. apply starting_same; [done..|]. cbn. apply Ht. set_solver.
Qed.

Lemma placement_starting w : starting w -> starting (reportMemberPlacement r env w).2.
Proof.
  intros Hw. unfold reportMemberPlacement. rewrite run_bind. cbn [ClusterReconcile.theCluster the fst snd]. destruct (negb _).
  { revert Hw. apply starting_same; [done..|]. unfold said, conditionStatus. cbn. rewrite find_remove_other; [done|]. by intros [=]. }
  rewrite run_bind. cbn [the fst snd]. destruct (observeMemberPlacement _ _ _ _) as [[status reason] msg]. rewrite run_bind.
  match goal with |- context [onCluster ?f w] => set (w1 := (onCluster f w).2) end.
  assert (starting w1) as H1 by (revert Hw; apply starting_same; [done..|]; by apply said_other). clearbody w1.
  destruct (_ || _); [done|]. rewrite run_bind.
  match goal with |- context [(if _ == ConditionFalse then ?a else ?b) w1] => set (w2 := ((if status == ConditionFalse then a else b) w1).2) end.
  assert (starting w2) as H2 by (unfold w2; repeat case_match; try done; by apply statusEvent_starting). clearbody w2.
  rewrite run_bind. cbn [the fst snd]. destruct (non_nil _); revert H2; by apply starting_same.
Qed.

Lemma observe_says w : isOf w -> starting w -> let out := observeRoles env desired w in
  out.1 = resolved /\ core (rw_cluster out.2) = core (rw_cluster w) /\
  saysNow out.2 conditionPrimaryResolved = Some (res_Status resolved) /\ saysNow out.2 conditionRoutingReady = routing /\
  st_CurrentPrimary (cl_Status (rw_cluster out.2)) = res_CurrentPrimary resolved /\ beforeBrokers out.2.
Proof.
  intros [Hs Hn] [Ht Hc0 Hr]. cbv zeta. unfold observeRoles. rewrite run_bind. set (w1 := (now env w).2). rewrite run_bind. cbn [the fst snd id].
  assert ((now env w).1 = en_clock env tick) as -> by (cbn; by rewrite Ht).
  pose proof (core_HAStatus (rw_cluster w1) desired (en_probe env) (rw_positions w1) (en_clock env tick)) as Hc.
  pose proof (observed_says (rw_cluster w1) desired (en_probe env) (rw_positions w1) (en_clock env tick)) as Hsays. cbv zeta in Hsays.
  destruct (reconcileHAStatus _ _ _ _ _) as [[c res] positions]. cbn [fst snd] in *. rewrite !run_bind. cbn [mret St_ret fst snd onCluster modify note rw_cluster set_cluster set_report].
  destruct Hsays as (H1 & H2 & H3 & H4). assert (res = resolved) as -> by (rewrite H4; unfold resolved, memberNames; cbn; by rewrite Hn).
  split_and!; [done..|by rewrite H2|done|]. split; cbn; congruence.
Qed.
Lemma makeCalls_cluster l w : rw_cluster (makeCalls r l w).2 = rw_cluster w.
Proof.
  revert w. induction l as [|[pod|reason msg] l IH]; intros w; cbn [makeCalls]; [done|apply IH|]. rewrite run_bind, IH. unfold event.
  by destruct (cr_Recorder r).
Qed.

Lemma rolling_cluster res w : rw_cluster (rollingUpdate r env res w).2 =
  (reconcileRollingUpdate (cr_AutomaticReplacement r) (en_pod env) (en_deletePod env) (rw_cluster w) (ss_Status (en_sts env)) res).1.
Proof.
  unfold rollingUpdate. rewrite run_bind. cbn [ClusterReconcile.theCluster the fst snd]. destruct (reconcileRollingUpdate _ _ _ _ _ _) as [c calls].
  rewrite run_bind, makeCalls_cluster. done.
Qed.

Lemma updates_says res w : let w' := (updateStep r env res w).2 in
  core (rw_cluster w') = core (rw_cluster w) /\ touches [conditionUpdating] (rw_cluster w) (rw_cluster w').
Proof.
  unfold updateStep. cbv zeta. rewrite run_bind. cbn [ClusterReconcile.theCluster the fst snd].
  pose proof (core_guard (rw_cluster w)) as Hc. pose proof (touches_guard (rw_cluster w)) as Ht.
  destruct (reconcileUpdateGuard (rw_cluster w)) as [c ok]. cbn [fst snd] in *. rewrite run_bind.
  destruct (_ && _); [|done]. rewrite rolling_cluster. split; [by rewrite core_rolling|]. eapply touches_trans; [done|]. apply touches_rolling.
Qed.

(** The Brokers, as the primary is resolved. *)
Lemma brokers_says res w : let w' := (brokerStep r env res w).2 in
  core (rw_cluster w') = core (rw_cluster w) /\ touches brokerTypes (rw_cluster w) (rw_cluster w') /\
  (beforeBrokers w -> ~ unjudged -> saysNow w' conditionRoutingReady = Some ConditionTrue ->
   res_Status res = ConditionTrue /\ res_CurrentPrimary res <> "" /\
   exists available, en_brokers env = inr available /\ 0 < lookupd 0 available brokerModeRW) /\
  (beforeBrokers w -> unjudged -> rw_cluster w' = rw_cluster w).
Proof.
  cbv zeta. unfold brokerStep. rewrite run_bind. destruct (brokerTier_says (Some res) w) as [[Hc Ha]|(Ha & Hu & cause & Hc)]; cbv zeta in *;
    destruct (brokerTier r env (Some res) w) as [available w1]; cbn [fst snd] in *.
  - destruct available as [available|].
    + cbn [onCluster modify snd rw_cluster set_cluster]. rewrite Hc. destruct (broker_says res available (rw_cluster w)) as [T R].
      split_and!; [apply core_broker|done| |].
      * intros _ _ Hr. destruct (R Hr) as (? & ? & ?). eauto.
      * intros _ [(e & He & _)|(e & He & _)]; congruence.
    + cbn [mret St_ret snd]. rewrite Hc. split_and!; try done. intros Hb Hj. by destruct (Hj (Ha Hb)).
  - subst available. cbn [mret St_ret snd]. rewrite Hc. destruct (unobserved_says (Some res) cause (rw_cluster w)) as [T R].
    split_and!; [apply core_unobserved|done| |].
    + intros _ _ Hr. by destruct (R Hr).
    + intros Hb Hj. by destruct (Hu Hb Hj).
Qed.

Lemma ha_observed w : isOf w -> starting w -> let out := haSteps quote formatTime hashRequest r env desired w in Observed w out.2 out.1.
Proof.
  intros Hi Hg. cbv zeta. pose proof (steady_ha desired w) as Hsteady. unfold haSteps in *.
  pose proof (modest_bootstrap quote formatTime hashRequest (cr_boot r) (en_boot env)) as Hm.
  pose proof (steady_bootstrapping _ (object_bootstrap quote formatTime hashRequest (cr_boot r) (en_boot env)) Hm w) as Sa.
  pose proof (bootstrapping_starting _ w Hm Hg) as Ga. pose proof (bootstrapping_idle w Hi) as Ba. rewrite run_bind in Hsteady |- *.
  destruct (bootstrapping r _ w) as [[] wa]. cbn [fst snd] in *. assert (isOf wa) as Ia by by eapply isOf_steady.
  destruct (observe_says wa Ia Ga) as (Eres & Cb & Pb & Rb & Mb & Bb). rewrite run_bind in Hsteady |- *.
  destruct (observeRoles env desired wa) as [res wb]. cbn [fst snd] in *. subst res.
  destruct (brokers_says resolved wb) as (Cd & Td & Rd & Kd). cbv zeta in *. rewrite run_bind in Hsteady |- *.
  destruct (brokerStep r env resolved wb) as [[] wd]. cbn [fst snd] in *.
  destruct (updates_says resolved wd) as (Ce & Te). cbv zeta in *. rewrite run_bind in Hsteady |- *.
  destruct (updateStep r env resolved wd) as [[] we]. cbn [fst snd mret St_ret] in *. split; [done| |].
  - intros Hr. rewrite <- (Ba Hr). apply sameCore_bootstrap. congruence.
  - intros _. destruct Td as [Td1 Td2], Te as [Te1 Te2]. split_and!; [done| |congruence| |].
    + rewrite Te1, Td1 by set_solver. done.
    + rewrite Te1 by set_solver. auto.
    + intros Hu. rewrite Te1 by set_solver. by rewrite (Kd Bb Hu).
Qed.

Lemma standalone_observed w : sp_HAEnabled spec = false ->
  let out := standaloneSteps r env desired w in Observed w out.2 out.1.
Proof.
  intros Ho. cbv zeta. split; [apply steady_standalone| |by rewrite Ho]. intros _. apply sameCore_bootstrap.
  unfold standaloneSteps. cbv zeta. rewrite run_bind. set (w1 := (onCluster _ w).2). rewrite run_bind.
  match goal with |- context [(if cr_Prober r then ?a else ?b) w1] => set (w2 := ((if cr_Prober r then a else b) w1).2) end. assert (core (rw_cluster w2) = core (rw_cluster w)) as H2.
  { unfold w2. destruct (cr_Prober r); [|done]. rewrite run_bind. cbn [onCluster modify snd rw_cluster set_cluster]. by rewrite core_standalone. }
  clearbody w2. rewrite run_bind. destruct (brokerTier_says None w2) as [[Hc Ha]|(Ha & _ & cause & Hc)]; cbv zeta in *;
    destruct (brokerTier r env None w2) as [available w3]; cbn [fst snd] in *; rewrite run_bind; cbn [mret St_ret snd].
  - destruct available as [available|]; cbn [onCluster modify snd rw_cluster set_cluster mret St_ret]; rewrite ?core_standaloneBroker; congruence.
  - subst available. cbn [mret St_ret snd]. rewrite Hc, core_unobserved. congruence.
Qed.

(** ** Ready *)

Lemma setReady_says n b w : let w' := (setReady r n desired b w).2 in
  core (rw_cluster w') = core (rw_cluster w) /\ touches [conditionReady; conditionProgressing] (rw_cluster w) (rw_cluster w') /\
  (saysNow w' conditionReady = Some ConditionTrue -> 0 < desired <= n /\ b = false).
Proof.
  assert (forall c s reason msg s' reason' msg', let c' := setCondition (setCondition c conditionReady s reason msg) conditionProgressing s' reason' msg' in
    core c' = core c /\ touches [conditionReady; conditionProgressing] c c' /\ said c' conditionReady = Some s) as Hset.
  { intros c s reason msg s' reason' msg'. cbv zeta. split; [done|]. split; [|rewrite said_other by done; apply said_same].
    apply touches_conditions; [set_solver|]. apply touches_conditions; [set_solver|]. apply touches_refl. }
  unfold setReady. cbv zeta. rewrite run_bind. cbn [ClusterReconcile.theCluster the fst snd].
  destruct ((desired <=? n) && (0 <? desired)) eqn:E; cbn [andb]; [destruct b|].
  - rewrite !run_bind. cbn [onCluster modify snd rw_cluster set_cluster]. edestruct Hset as (H1 & H2 & H3). split; [exact H1|split; [exact H2|by rewrite H3]].
  - rewrite !run_bind. destruct (IsStatusConditionTrue _ _); rewrite ?statusEvent_cluster;
      cbn [onCluster modify snd rw_cluster set_cluster mret St_ret]; edestruct Hset as (H1 & H2 & H3); (split; [exact H1|split; [exact H2|]]); intros _; bool_simpl; lia.
  - rewrite !run_bind. cbn [onCluster modify snd rw_cluster set_cluster]. edestruct Hset as (H1 & H2 & H3). split; [exact H1|split; [exact H2|by rewrite H3]].
Qed.
(** ** The whole pass *)

(** No recovery is under way. *)
Definition recovered (w : RW) : Prop := sp_Recovery spec = None \/ bs_Phase <$> st_Bootstrap (cl_Status (rw_cluster w)) = Some BootstrapComplete.

Lemma observed_good w w1 w2 w3 b : childrenDone -> recovered w -> Observed w w1 b ->
  core (rw_cluster w2) = core (rw_cluster w1) -> touches [conditionReady; conditionProgressing] (rw_cluster w1) (rw_cluster w2) ->
  (saysNow w2 conditionReady = Some ConditionTrue -> 0 < desired <= ready /\ b = false) ->
  core (rw_cluster w3) = core (rw_cluster w2) -> touches [conditionUpdating] (rw_cluster w2) (rw_cluster w3) ->
  forall s, sameBut w3 s -> Good s.
Proof.
  intros [Hname Hsteps] Hrec [_ Ob Or] C2 [T2 P2] Hready C3 [T3 P3] s (Cs & Bs & Ps). split.
  - rewrite Cs. fold (saysNow w3 conditionReady). rewrite T3 by set_solver. intros Hr. destruct (Hready Hr) as [Hn ->]. split; [done..| |].
    + destruct (sp_Recovery spec) as [uri|] eqn:Es; [|by left]. right. destruct Hrec as [Hrec|Hrec]; [congruence|].
      rewrite Bs, (sameCore_bootstrap _ _ C3), (sameCore_bootstrap _ _ C2), (Ob eq_refl). done.
    + intros Ho. by destruct (Or Ho) as (Hm & _).
  - intros Ho Hy Hl. destruct (Or Ho) as (_ & Hp & Hc & Hrt & _). rewrite Cs. fold (saysNow w3 conditionRoutingReady).
    rewrite T3, T2 by set_solver. intros Hr. destruct Hrt as (H1 & H2 & H3); [by intros [?|?]|done|].
    assert (st_CurrentPrimary s = res_CurrentPrimary resolved) as Hprim by congruence. split.
    + by rewrite Hprim.
    + rewrite Cs. fold (saysNow w3 conditionPrimaryResolved). rewrite T3, T2 by set_solver. by rewrite Hp, H1.
    + by rewrite Hprim.
    + done.
  - intros Ho _ _ Hu. destruct (Or Ho) as (_ & Hp & Hc & _ & Hk). split; [| |congruence].
    + rewrite Cs. fold (saysNow w3 conditionRoutingReady). rewrite T3, T2 by set_solver. by apply Hk.
    + rewrite Cs. fold (saysNow w3 conditionPrimaryResolved). by rewrite T3, T2 by set_solver.
Qed.

Lemma observing_closed before w : unwritten w -> isOf w -> starting w -> childrenDone -> recovered w ->
  closes (observing quote formatTime hashRequest asStored DeepEqual r env before) w.
Proof.
  intros U Hi Hg Hc Hr. unfold observing. rewrite run_bind. cbn [ClusterReconcile.theCluster the fst snd]. cbv zeta.
  pose proof Hi as [Hs _]. rewrite Hs.
  match goal with |- context [mbind _ (if negb _ then ?a else ?b)] => set (m := if negb (sp_HAEnabled spec) then a else b) end.
  assert (Observed w (m w).2 (m w).1) as Ho.
  { unfold m. destruct (sp_HAEnabled spec) eqn:Eh; cbn [negb]; [|by apply standalone_observed].
    destruct (cr_Prober r) eqn:Ep; cbn [negb]; [by apply ha_observed|]. rewrite run_bind. split; [by apply steady_still| |by rewrite Ep, andb_false_r].
    done. }
  rewrite run_bind. destruct (m w) as [b w1]. cbn [fst snd] in *. eapply closed_steady; [done|apply Ho|].
  assert (unwritten w1) as U1 by (eapply unwritten_steady; [apply Ho|done]).
  destruct (setReady_says ready b w1) as (C2 & T2 & R2). pose proof (steady_setReady ready desired b w1) as S2.
  rewrite run_bind. destruct (setReady r ready desired b w1) as [[] w2]. cbn [fst snd] in *. eapply closed_steady; [done|exact S2|].
  assert (unwritten w2) as U2 by by eapply unwritten_steady.
  set (f := fun c => keepUpdatingTime before (reportImage env c)).
  assert (core (f (rw_cluster w2)) = core (rw_cluster w2)) as C3 by (unfold f; by rewrite core_time, core_image).
  assert (touches [conditionUpdating] (rw_cluster w2) (f (rw_cluster w2))) as T3.
  { eapply touches_trans; [apply touches_image|]. eapply touches_mono; [|apply touches_time]. set_solver. }
  apply closes_bind; [done|apply steady_cluster; intros c; unfold f; by rewrite core_time, core_image|].
  set (w3 := (onCluster f w2).2). assert (unwritten w3) as U3 by done.
  apply closes_result.
  { intros [e|] w'; cbn [ending]; [by destruct (IsConflict e)|]. destruct (_ && _); [done|]. unfold idleRetry. rewrite !run_bind.
    cbn [ClusterReconcile.theCluster the fst snd]. destruct (standaloneVersionPending _ _); [done|]. by destruct (match rw_report w' with Some _ => _ | None => _ end). }
  apply writeStatus_closed; [done|]. eapply (observed_good w w1 w2 w3); eauto.
Qed.
Lemma statusEvents_cluster l w : rw_cluster (statusEvents r l w).2 = rw_cluster w.
Proof. revert w. induction l as [|e l IH]; intros w; cbn [statusEvents]; [done|]. by rewrite run_bind, IH, statusEvent_cluster. Qed.

(** A recovery that is over is recorded as complete. *)
Lemma recovery_recovered uri w : isOf w -> recoveryActive (rw_cluster w) = true ->
  let out := bootstrapping r (reconcileRecovery quote formatTime hashRequest (cr_boot r) (en_boot env) uri) w in
  out.1.2 = false -> recovered out.2.
Proof.
  intros Hi Ha. cbv zeta. unfold bootstrapping. rewrite run_bind. cbn [ClusterReconcile.theCluster the fst snd].
  pose proof (recovery_ends quote formatTime hashRequest (cr_boot r) (en_boot env) uri (mkBW (rw_cluster w) [] [] 0) Ha) as He. unfold recoveryEnd in He.
  destruct (reconcileRecovery _ _ _ _ _ _ _) as [a bw]. cbn [fst snd] in *. rewrite !run_bind. cbn [mret St_ret fst snd]. intros Hf.
  destruct He as [[Ht _]|(_ & b & Hb & Hp)]; [congruence|]. right. rewrite statusEvents_cluster. cbn [onCluster modify snd rw_cluster set_cluster].
  unfold bootstrapOf in Hb. rewrite Hb. cbn. by rewrite Hp.
Qed.

Lemma updateStatus_closed w : unwritten w -> isOf w -> starting w -> childrenDone ->
  closes (updateStatus quote formatTime hashRequest asStored DeepEqual r env) w.
Proof.
  intros U Hi Hg Hc. unfold updateStatus.
  apply closes_bind; [done|by apply steady_note|]. set (w1 := (note _ w).2).
  assert (steady w w1) as S1 by by apply steady_note. assert (unwritten w1) as U1 by by eapply unwritten_steady.
  apply closes_bind; [done|by apply steady_cluster|]. set (w2 := (onCluster _ w1).2).
  assert (steady w1 w2) as S2 by by apply steady_cluster. assert (unwritten w2) as U2 by by eapply unwritten_steady.
  assert (starting w2) as G2 by (revert Hg; by apply starting_same).
  apply closes_bind; [done|apply steady_reportPlacement|]. pose proof (steady_reportPlacement w2) as S3. pose proof (placement_starting w2 G2) as G3.
  destruct (reportMemberPlacement r env w2) as [[] w3]. cbn [fst snd] in *. assert (unwritten w3) as U3 by by eapply unwritten_steady.
  assert (isOf w3) as I3 by (eapply isOf_steady; [exact S3|]; eapply isOf_steady; [exact S2|]; by eapply isOf_steady).
  rewrite run_bind. cbn [ClusterReconcile.theCluster the fst snd]. cbv zeta. pose proof I3 as [Hs _]. rewrite Hs.
  destruct (sp_Recovery spec) as [uri|] eqn:Eu; [|apply observing_closed; try done; by left].
  destruct (recoveryActive (rw_cluster w3)) eqn:Ea.
  - pose proof (recovery_recovered uri w3 I3 Ea) as Hrec. cbv zeta in Hrec.
    pose proof (modest_recovery quote formatTime hashRequest (cr_boot r) (en_boot env) uri) as Hm.
    pose proof (bootstrapping_starting _ w3 Hm G3) as G4.
    pose proof (steady_bootstrapping _ (object_recovery quote formatTime hashRequest (cr_boot r) (en_boot env) uri) Hm w3) as S4.
    rewrite run_bind. destruct (bootstrapping r _ w3) as [[after active] w4]. cbn [fst snd] in *. eapply closed_steady; [done|exact S4|].
    assert (unwritten w4) as U4 by by eapply unwritten_steady. assert (isOf w4) as I4 by by eapply isOf_steady.
    destruct active; [apply recovering_closed; try done; congruence|]. apply observing_closed; auto.
  - apply observing_closed; try done. right. unfold recoveryActive in Ea. rewrite Hs, Eu in Ea.
    destruct (st_Bootstrap (cl_Status (rw_cluster w3))) as [b|]; [|done]. bool_simpl. cbn. by f_equal.
Qed.

Lemma children_closed done_ steps w : childSteps = done_ ++ steps -> (forall step, step ∈ done_ -> en_child env step = None) ->
  validateManagedClusterName quote IsDNS1035Label name = None -> unwritten w -> isOf w -> starting w ->
  closes (children quote formatTime hashRequest asStored DeepEqual r env steps) w.
Proof.
  revert done_ w. induction steps as [|step steps IH]; intros done_ w Hl Hd Hn U Hi Hg; cbn [children].
  - apply closes_bind; [done|apply steady_conflicts|]. apply updateStatus_closed; [by eapply unwritten_steady; [apply steady_conflicts|]
      |by eapply isOf_steady; [apply steady_conflicts|]|revert Hg; apply starting_same; [done| |done]; by apply lookup_delete_ne|]. rewrite app_nil_r in Hl. split; [done|]. by rewrite Hl.
  - destruct (en_child env step) as [e|] eqn:Ee.
    + destruct (bool_decide _); [by apply closed_idle|]. apply failed_closed; [rewrite Hl, elem_of_app; right; constructor|done..].
    + apply (IH (done_ ++ [step])); [by rewrite <- app_assoc|set_solver|done..].
Qed.
End pass.

(** ** Reconciles *)

Section reconciles.
Context `{O : ConditionOps} `{!ConditionLaws O}.
Context (quote : string -> string) (formatTime : Time -> string) (hashRequest : RestoreRequest -> string).
Context (asStored : CubridClusterStatus -> CubridClusterStatus) (DeepEqual : CubridClusterStatus -> CubridClusterStatus -> bool).
Context (IsDNS1035Label : string -> list string) (asStored_keeps : forall s, keepsStatus s (asStored s)).
Context (r : ClusterReconciler) (env : PassEnv).
Notation Reconcile := (Reconcile quote formatTime hashRequest asStored DeepEqual IsDNS1035Label r env).

Lemma eachEvent_does l w : rw_events (eachEvent r l w).2 = rw_events w ++ (if cr_Recorder r then l else []) /\
  rw_stored (eachEvent r l w).2 = rw_stored w /\ rw_cluster (eachEvent r l w).2 = rw_cluster w.
Proof.
  revert w. induction l as [|e l IH]; intros w; cbn [eachEvent]; [by destruct (cr_Recorder r); rewrite app_nil_r|].
  rewrite run_bind. destruct (IH (event r (ke_Type e) (ke_Reason e) (ke_Message e) w).2) as (-> & -> & ->). unfold event.
  destruct (cr_Recorder r); cbn; [|done]. rewrite <- app_assoc. by destruct e.
Qed.

Lemma endReport_does rr w : let w' := (endReport quote r rr w).2 in
  rw_stored w' = rw_stored w /\
  rw_events w' = rw_events w ++ (if rr_statusWritten rr && cr_Recorder r
    then rr_events rr ++ transitionEvents (transitions quote (rr_before rr) (cl_Status (rw_cluster w))) else []).
Proof.
  unfold endReport. cbv zeta. rewrite run_bind. cbn [modify fst snd]. destruct (rr_statusWritten rr); cbn [negb andb]; [|by rewrite app_nil_r].
  rewrite run_bind. set (w1 := set_report None w). destruct (eachEvent_does (rr_events rr) w1) as (E1 & S1 & C1).
  rewrite run_bind. set (w2 := (eachEvent r (rr_events rr) w1).2) in *.
  match goal with |- context [match rr_placement rr with Some e => @?f e | None => ?g end] => set (m := match rr_placement rr with Some e => f e | None => g end) end.
  assert (rw_events (m w2).2 = rw_events w2 /\ rw_stored (m w2).2 = rw_stored w2 /\ rw_cluster (m w2).2 = rw_cluster w2) as (E3 & S3 & C3)
    by (unfold m; by destruct (rr_placement rr)).
  unfold reportTransitions. rewrite run_bind. cbn [ClusterReconcile.theCluster the fst snd]. rewrite C3, C1. cbn [rw_cluster set_report w1].
  destruct (eachEvent_does (transitionEvents (transitions quote (rr_before rr) (cl_Status (rw_cluster w)))) (m w2).2) as (E4 & S4 & _).
  rewrite E4, S4, E3, S3, E1, S1. split; [done|]. cbn [rw_events set_report w1]. destruct (cr_Recorder r); by rewrite ?app_nil_r, ?app_assoc.
Qed.

Notation routingOf st := (conditionStatus (st_Conditions st) conditionRoutingReady).
Notation GoodFor w st0 := (Good quote IsDNS1035Label r env (cl_Spec (rw_cluster w)) (cl_Name (rw_cluster w)) (rw_ticks w)
  (rw_conflicts w !! brokerWrites) (routingOf st0)).

(** A pass, from the read of the cluster to the report. *)
Lemma reconcile_closed version w st0 : rw_stored w !! version = Some st0 -> exists w1 w2,
  rw_stored w1 = rw_stored w /\ rw_version w1 = version /\ rw_events w1 = rw_events w /\
  (fun rr => (rr_before rr, rr_events rr)) <$> rw_report w1 = Some (st0, []) /\ Closed env (GoodFor w st0) w1 w2 /\
  (Reconcile version w).2 = (match rw_report w2 with Some report => endReport quote r report | None => mret tt end w2).2.
Proof.
  intros Hst. unfold ClusterReconcile.Reconcile. rewrite Hst. set (w0 := set_version _ _). rewrite run_bind.
  set (w1 := (beginReport w0).2). rewrite run_bind. cbn [ClusterReconcile.theCluster the fst snd]. rewrite run_bind.
  match goal with |- context [match validateManagedClusterName ?q ?i ?n with Some c => @?f c | None => ?g end] =>
    set (m := match validateManagedClusterName q i n with Some c => f c | None => g end) end.
  exists w1, (m w1).2. split_and!; [done..| |rewrite run_bind; cbn [the fst snd]; by rewrite run_bind].
  assert (unwritten w1) as U by done. assert (isOf (cl_Spec (rw_cluster w)) (cl_Name (rw_cluster w)) w1) as Hi by done. unfold m.
  destruct (validateManagedClusterName _ _ _) as [cause|] eqn:Ev; [by apply refuse_closed|].
  apply (children_closed _ _ _ _ _ _ _ _ asStored_keeps _ _ _ _ _ []); [done|set_solver|done..].
Qed.

(** What becomes of the report at the end of a pass. *)
Lemma ended_does w2 rr : rw_report w2 = Some rr ->
  let w' := (match rw_report w2 with Some report => endReport quote r report | None => mret tt end w2).2 in
  rw_stored w' = rw_stored w2 /\
  rw_events w' = rw_events w2 ++ (if rr_statusWritten rr && cr_Recorder r
    then rr_events rr ++ transitionEvents (transitions quote (rr_before rr) (cl_Status (rw_cluster w2))) else []).
Proof. intros H. cbv zeta. rewrite H. apply endReport_does. Qed.

Lemma closed_report Good w1 w2 : Closed env Good w1 w2 -> exists rr, rw_report w2 = Some rr.
Proof. intros [_ _ _ [[H _]|[H _]]]; destruct (rw_report w2); try done; eauto. Qed.

(** A status that a reconcile stores. *)
Lemma reconcile_stores version w st : rw_stored (Reconcile version w).2 = rw_stored w ++ [st] ->
  exists st0, rw_stored w !! version = Some st0 /\ GoodFor w st0 st.
Proof.
  intros H. destruct (rw_stored w !! version) as [st0|] eqn:E.
  - exists st0. split; [done|]. destruct (reconcile_closed version w st0 E) as (w1 & w2 & S1 & _ & _ & _ & Hc & Hr). rewrite Hr in H.
    destruct (closed_report _ _ _ Hc) as [rr Hrr]. destruct (ended_does w2 rr Hrr) as [Hs _]. cbv zeta in Hs. rewrite Hs in H.
    destruct Hc as [_ _ _ [[_ [Hw|(_ & s & Hw & Hg)]]|(_ & _ & _ & Hw & Hg)]]; rewrite Hw, S1 in H.
    + apply (f_equal List.length) in H. rewrite length_app in H. cbn in H. lia.
    + by apply app_inj_tail in H as [_ <-].
    + by apply app_inj_tail in H as [_ <-].
  - unfold ClusterReconcile.Reconcile in H. rewrite E in H. apply (f_equal List.length) in H. rewrite length_app in H. cbn in H. lia.
Qed.

(** What a reconcile records, by what became of its write. *)
Lemma reconcile_reports version w st0 : cr_Recorder r = true -> rw_stored w !! version = Some st0 ->
  let w' := (Reconcile version w).2 in exists l, Forall direct l /\
  ((rw_stored w' = rw_stored w \/ loses env = true /\ exists st, rw_stored w' = rw_stored w ++ [st]) /\ rw_events w' = rw_events w ++ l \/
   S version = List.length (rw_stored w) /\ exists pending st, rw_stored w' = rw_stored w ++ [st] /\ Forall kept pending /\
     rw_events w' = rw_events w ++ l ++ pending ++ transitionEvents (transitions quote st0 st)).
Proof.
  intros Hrec E. destruct (reconcile_closed version w st0 E) as (w1 & w2 & S1 & V1 & E1 & B1 & Hc & Hr). cbv zeta. rewrite Hr.
  destruct (closed_report _ _ _ Hc) as [rr Hrr]. destruct (ended_does w2 rr Hrr) as [Hs He]. cbv zeta in Hs, He. rewrite Hs, He, Hrec.
  destruct Hc as [_ Hb (l & Hl & Fl) Hw]. destruct (rw_report w1) as [rr1|]; [|done]. cbn in B1. injection B1 as B1 N1.
  destruct Hb as (rr' & kl & Hrr' & Hb & Hk & Fk). rewrite Hrr in Hrr', Hw. injection Hrr' as <-. rewrite N1 in Hk. cbn in Hk.
  rewrite andb_true_r, Hb, B1, Hk, Hl, E1, <- S1, <- V1.
  exists l. split; [done|]. cbn in Hw. destruct Hw as [[Hw Hst]|(Hw & _ & Hv & Hst & _)]; injection Hw as ->.
  - left. rewrite app_nil_r. split; [|done]. destruct Hst as [|(? & s & ? & _)]; eauto.
  - right. split; [done|]. exists kl, (cl_Status (rw_cluster w2)). by rewrite !app_assoc.
Qed.

(** C3: A status that a reconcile stores says Ready True only when the name of
    the cluster can be managed, none of its child objects failed, every member
    asked for is ready, a recovery the cluster was asked for is complete, and,
    where roles are observed, the resolution of the primary that this pass
    makes of the members' answers, at the time it reads the clock, does not
    find more than one master.  This holds whichever stored status the
    reconcile started from and whatever the API server answers. *)
Theorem ready_only_when_safe version w st : rw_stored (Reconcile version w).2 = rw_stored w ++ [st] ->
  conditionStatus (st_Conditions st) conditionReady = Some ConditionTrue ->
  SafeReady quote IsDNS1035Label r env (cl_Spec (rw_cluster w)) (cl_Name (rw_cluster w)) (rw_ticks w) st.
Proof. intros H. by destruct (reconcile_stores _ _ _ H) as (st0 & _ & [Hr _ _]). Qed.

(** C17: A status that a reconcile of an HA cluster stores says RoutingReady
    True only with a current primary: the status names it and says that it is
    resolved, the resolution this pass makes of the members' answers at the
    time it reads the clock resolves the same one, and a read-write Broker is
    available.  Two cases are excepted, in which the pass says nothing of the
    Brokers: a write of theirs conflicts and has done so for no longer than
    the operator is patient, and their namespace is being deleted. *)
Theorem routing_needs_primary version w st : rw_stored (Reconcile version w).2 = rw_stored w ++ [st] ->
  sp_HAEnabled (cl_Spec (rw_cluster w)) && cr_Prober r = true ->
  ~ youngConflict env (rw_ticks w) (rw_conflicts w !! brokerWrites) -> ~ brokersLeaving env ->
  routingOf st = Some ConditionTrue ->
  SafeRouting env (cl_Spec (rw_cluster w)) (cl_Name (rw_cluster w)) (rw_ticks w) st.
Proof. intros H. by destruct (reconcile_stores _ _ _ H) as (st0 & _ & [_ Hr _]). Qed.

(** C20: In both of these cases RoutingReady stays what the status that was
    read says, whatever is observed of the members: a pass of an HA cluster
    that reaches the observation, while a write of the Brokers conflicts and
    the conflict is young or their namespace is being deleted, stores the
    primary and PrimaryResolved of this pass's own resolution next to the
    RoutingReady of the status it read.  So a status can name no primary and
    still say that routing is ready. *)
Theorem unjudged_brokers_keep_routing version w st0 st : rw_stored w !! version = Some st0 ->
  rw_stored (Reconcile version w).2 = rw_stored w ++ [st] ->
  sp_HAEnabled (cl_Spec (rw_cluster w)) && cr_Prober r = true ->
  childrenDone quote IsDNS1035Label env (cl_Name (rw_cluster w)) -> sp_Recovery (cl_Spec (rw_cluster w)) = None ->
  youngConflict env (rw_ticks w) (rw_conflicts w !! brokerWrites) \/ brokersLeaving env ->
  RoutingKept env (cl_Spec (rw_cluster w)) (cl_Name (rw_cluster w)) (rw_ticks w) (routingOf st0) st.
Proof.
  intros H0 H. destruct (reconcile_stores _ _ _ H) as (st0' & H0' & [_ _ Hk]). rewrite H0 in H0'. injection H0' as <-. done.
Qed.
End reconciles.

(** ** Sequences of reconciles

    Reconciles of one cluster, each with its own surroundings, the object as
    it was read and the stored status the cache holds, with restarts of the
    operator in between. *)

Section runs.
Context `{O : ConditionOps} `{!ConditionLaws O}.
Context (quote : string -> string) (formatTime : Time -> string) (hashRequest : RestoreRequest -> string).
Context (asStored : CubridClusterStatus -> CubridClusterStatus) (DeepEqual : CubridClusterStatus -> CubridClusterStatus -> bool).
Context (IsDNS1035Label : string -> list string) (asStored_keeps : forall s, keepsStatus s (asStored s)).
Context (r : ClusterReconciler).

Inductive Move := Pass (env : PassEnv) (cluster : CubridCluster) (version : nat) | Restart.

Definition move (m : Move) (w : RW) : RW :=
  match m with
  | Pass env cluster version => (Reconcile quote formatTime hashRequest asStored DeepEqual IsDNS1035Label r env version (set_cluster cluster w)).2
  | Restart => set_positions None (set_placementReported None (set_conflicts ∅ (set_report None w)))
  end.
Definition moves (l : list Move) (w : RW) : RW := fold_left (fun w m => move m w) l w.

(** No answer to a write of the status is lost. *)
Definition answered (m : Move) : Prop :=
  match m with Pass env _ _ => loses env = false | Restart => True end.

(** The Events that go with a sequence of statuses: for each, what the pass
    kept for it and then the transitions that lead to it from the one before. *)
Inductive Reported : CubridClusterStatus -> list CubridClusterStatus -> list KubeEvent -> Prop :=
  | Reported_last st l : Forall direct l -> Reported st [] l
  | Reported_next st st' sts l pending events : Forall direct l -> Forall kept pending -> Reported st' sts events ->
      Reported st (st' :: sts) (l ++ pending ++ transitionEvents (transitions quote st st') ++ events).

Lemma reported_direct st sts l events : Forall direct l -> Reported st sts events -> Reported st sts (l ++ events).
Proof.
  intros Hl [|]; [constructor; by apply Forall_app|]. rewrite app_assoc. constructor; [by apply Forall_app|done..].
Qed.

(** The Events of the changes from each status to the next. *)
Fixpoint changes (st : CubridClusterStatus) (sts : list CubridClusterStatus) : list KubeEvent :=
  match sts with
  | [] => []
  | st' :: sts => transitionEvents (transitions quote st st') ++ changes st' sts
  end.

(** An Event that no step of a pass records: it can only come of a change. *)
Definition ofChange (e : KubeEvent) : Prop := ke_Reason e ∉ "RollingUpdate" :: keptReasons.
#[global] Instance ofChange_dec e : Decision (ofChange e) := _.

(** The reasons of the transitions are such. *)
Fact changes_have_reasons : Forall (fun reason => ofChange (mkKubeEvent "Normal" reason ""))
  ["PrimaryChanged"; "PrimaryUnresolved"; "PrimaryResolved"; reasonTokenRefused; "ReplicationRecovered"; reasonReplicationStalled;
   reasonApplyFailures; reasonLogCopyStalled; "RestoreStarted"; "RestoreRunning"; "RestoreCompleted"; "RestoreFailed";
   reasonUnfinishedDatabaseWaiting; reasonUnfinishedDatabaseRefused].
Proof. apply (bool_decide_eq_true_1 _). vm_compute. reflexivity. Qed.

Lemma filter_kept l : Forall kept l -> filter ofChange l = [].
Proof. intros H. apply filter_nil_iff. eapply Forall_impl; [exact H|]. intros e He Hn. apply Hn. by right. Qed.
Lemma filter_direct l : Forall direct l -> filter ofChange l = [].
Proof. intros H. apply filter_nil_iff. eapply Forall_impl; [exact H|]. intros e He Hn. apply Hn. rewrite He. left. Qed.

Lemma reported_changes st sts events : Reported st sts events -> filter ofChange events = filter ofChange (changes st sts).
Proof.
  induction 1 as [st l Hl|st st' sts l pending events Hl Hp _ IH]; cbn [changes]; [by rewrite filter_direct|].
  by rewrite !filter_app, filter_direct, filter_kept, IH.
Qed.

(** One move, from the last status that was stored. *)
Lemma move_reports m w st : cr_Recorder r = true -> answered m -> last (rw_stored w) = Some st -> exists l, Forall direct l /\
  ((rw_stored (move m w) = rw_stored w /\ rw_events (move m w) = rw_events w ++ l) \/
   exists pending st', rw_stored (move m w) = rw_stored w ++ [st'] /\ Forall kept pending /\
     rw_events (move m w) = rw_events w ++ l ++ pending ++ transitionEvents (transitions quote st st')).
Proof.
  intros Hr Ha Hst. destruct m as [env cluster version|]; cbn [move]; [|exists []; split; [constructor|left; by rewrite app_nil_r]].
  destruct (rw_stored w !! version) as [st0|] eqn:E.
  - destruct (reconcile_reports quote formatTime hashRequest asStored DeepEqual IsDNS1035Label asStored_keeps r env version (set_cluster cluster w) st0 Hr E) as (l & Fl & Hl).
    exists l. split; [done|]. cbn [rw_stored rw_events set_cluster] in Hl. destruct Hl as [[[Hs|(Hw & s & Hs)] He]|(Hv & pending & s & Hs & Fp & He)].
    + by left.
    + cbn in Ha. congruence.
    + right. exists pending, s. split_and!; [done..|]. rewrite last_lookup, <- Hv in Hst. cbn in Hst. by simplify_eq.
  - exists []. split; [constructor|]. left. unfold ClusterReconcile.Reconcile. cbn [rw_stored set_cluster]. rewrite E. by rewrite app_nil_r.
Qed.

Lemma moves_reported l w st : cr_Recorder r = true -> Forall answered l -> last (rw_stored w) = Some st ->
  exists sts events, rw_stored (moves l w) = rw_stored w ++ sts /\ rw_events (moves l w) = rw_events w ++ events /\ Reported st sts events.
Proof.
  intros Hr Ha. revert w st. induction Ha as [|m l Hm _ IH]; intros w st Hst.
  - exists [], []. rewrite !app_nil_r. split_and!; [done..|]. by constructor.
  - cbn [moves fold_left]. destruct (move_reports m w st Hr Hm Hst) as (d & Fd & [[Hs He]|(pending & st' & Hs & Fp & He)]).
    + destruct (IH (move m w) st) as (sts & events & Hs' & He' & Hrep); [by rewrite Hs|]. exists sts, (d ++ events).
      unfold moves in *. rewrite Hs', Hs, He', He, <- app_assoc. split_and!; [done..|]. by apply reported_direct.
    + destruct (IH (move m w) st') as (sts & events & Hs' & He' & Hrep); [by rewrite Hs, last_snoc|].
      exists (st' :: sts), (d ++ pending ++ transitionEvents (transitions quote st st') ++ events).
      unfold moves in *. rewrite Hs', Hs, He', He, <- !app_assoc. split_and!; [done..|]. by constructor.
Qed.

(** C16: As long as no answer to a write is lost, the Events that are recorded
    follow the statuses that are stored: for every status that a reconcile
    stores, and for no other, the transitions from the status stored before it
    are recorded, in order, after the Events this pass kept for it.  Those
    have reasons of their own, and so has a rolling update, whose Events alone
    do not wait for a status; of the reasons that no step records, the Events
    are exactly those of the changes from each stored status to the next, each
    once and in order.  Reconciles that start from an outdated copy, fail,
    conflict or are cut by a restart record none. *)
Theorem changes_reported_once l w st : cr_Recorder r = true -> Forall answered l -> last (rw_stored w) = Some st ->
  exists sts events, rw_stored (moves l w) = rw_stored w ++ sts /\ rw_events (moves l w) = rw_events w ++ events /\
    Reported st sts events /\ filter ofChange events = filter ofChange (changes st sts).
Proof.
  intros Hr Ha Hst. destruct (moves_reported l w st Hr Ha Hst) as (sts & events & Hs & He & Hrep). exists sts, events.
  split_and!; [done..|]. by apply reported_changes.
Qed.
End runs.

(** ** A cluster, reconciled *)

Module ClusterExample.
Import SliceConditions.
Definition reconciler : ClusterReconciler := mkClusterReconciler true true (mkBootReconciler false false false true).
Definition cluster : CubridCluster :=
  mkCluster "c" "ns" "uid" 1 (mkSpec "11.4" [] 3 true None None) HAExample.status.
Definition available : gmap string Z := <[brokerModeRW := 2]> (<[brokerModeRO := 2]> ∅).
Definition env (probe : string -> RoleObservation) (brokers : KErr + gmap string Z) (write : StatusWrite) : PassEnv :=
  mkPassEnv (fun _ => HAExample.now) (fun _ => None) (mkSts (mkStsStatus "new" "new") 3 true ["image"]) "image" None "Required"
    (fun m => inr (mkMemberPod ("node-" +:+ m) [])) (fun _ => inr ∅) BootstrapExample.env probe
    (fun _ => RollingExample.pod "new") (fun _ => Deleted) brokers write true.
Definition settled : PassEnv := env HAExample.probe (inr available) Writes.
(** Two members that claim to be the master. *)
Definition twoMasters (m : string) : RoleObservation :=
  if m == "c-1" then HAExample.observed RoleMaster None else HAExample.probe m.
Definition start : RW := mkRW cluster None ∅ None None [] [HAExample.status] 0 0.

Notation reconciled e v w := (Reconcile quoted BootstrapExample.formatTime BootstrapExample.hashRequest (fun s => s) HAExample.DeepEqual
  (fun _ => []) reconciler e v w).
Notation run l w := (moves quoted BootstrapExample.formatTime BootstrapExample.hashRequest (fun s => s) HAExample.DeepEqual
  (fun _ => []) reconciler l w).

Definition first : RW := (reconciled settled 0 start).2.
Definition stored : CubridClusterStatus := default HAExample.status (last (rw_stored first)).
(** A second master appears and goes; the first write of it conflicts, as it
    started from an outdated copy, and the operator restarts. *)
Definition passes : list Move :=
  [Pass settled cluster 0; Pass (env twoMasters (inr available) Writes) cluster 0; Restart;
   Pass (env twoMasters (inr available) (WritesNot conflict)) cluster 1; Pass (env twoMasters (inr available) Writes) cluster 1;
   Pass settled cluster 2].
End ClusterExample.
Import SliceConditions.
Import ClusterExample.

Lemma ready_only_when_safe_witness : conditionStatus (st_Conditions stored) conditionReady = Some ConditionTrue /\
  SafeReady quoted (fun _ => []) reconciler settled (cl_Spec cluster) "c" 0 stored.
Proof.
  assert (conditionStatus (st_Conditions stored) conditionReady = Some ConditionTrue) as H by (vm_compute; reflexivity).
  split; [exact H|]. apply (ready_only_when_safe quoted BootstrapExample.formatTime BootstrapExample.hashRequest (fun s => s)
    HAExample.DeepEqual (fun _ => []) (fun s => conj (fun _ => eq_refl) (conj eq_refl eq_refl)) reconciler settled 0 start stored).
  - vm_compute. reflexivity.
  - exact H.
Defined.

Lemma routing_needs_primary_witness : st_CurrentPrimary stored = "c-0" /\ SafeRouting settled (cl_Spec cluster) "c" 0 stored.
Proof.
  split; [vm_compute; reflexivity|]. apply (routing_needs_primary quoted BootstrapExample.formatTime BootstrapExample.hashRequest (fun s => s)
    HAExample.DeepEqual (fun _ => []) (fun s => conj (fun _ => eq_refl) (conj eq_refl eq_refl)) reconciler settled 0 start stored).
  - vm_compute. reflexivity.
  - reflexivity.
  - intros (e & H & _). discriminate H.
  - intros (e & H & _). discriminate H.
  - vm_compute. reflexivity.
Defined.

Lemma changes_reported_once_witness :
  ke_Reason <$> rw_events (run passes start) = ["ClusterReady"; "PrimaryResolved"; "PrimaryUnresolved"; "ClusterReady"; "PrimaryResolved"] /\
  exists sts events, rw_stored (run passes start) = rw_stored start ++ sts /\
    rw_events (run passes start) = rw_events start ++ events /\ Reported quoted HAExample.status sts events /\
    filter ofChange events = filter ofChange (changes quoted HAExample.status sts).
Proof.
  split; [vm_compute; reflexivity|].
  apply (changes_reported_once quoted BootstrapExample.formatTime BootstrapExample.hashRequest (fun s => s)
    HAExample.DeepEqual (fun _ => []) (fun s => conj (fun _ => eq_refl) (conj eq_refl eq_refl)) reconciler passes start HAExample.status).
  - reflexivity.
  - repeat constructor.
  - reflexivity.
Defined.

(** One reconcile after a primary was resolved, a second master is observed
    while a Broker object conflicts: the status that is stored names no
    primary and says RoutingReady True. *)
Definition conflicting : PassEnv := env twoMasters (inl conflict) Writes.
Definition unrouted : CubridClusterStatus := default HAExample.status (last (rw_stored (reconciled conflicting 1 first).2)).

Lemma unjudged_brokers_keep_routing_witness :
  conditionStatus (st_Conditions stored) conditionRoutingReady = Some ConditionTrue /\
  res_CurrentPrimary (resolved conflicting (cl_Spec cluster) "c" (rw_ticks first)) = "" /\
  RoutingKept conflicting (cl_Spec cluster) "c" (rw_ticks first) (conditionStatus (st_Conditions stored) conditionRoutingReady) unrouted.
Proof.
  split_and!; [vm_compute; reflexivity..|]. apply (unjudged_brokers_keep_routing quoted BootstrapExample.formatTime BootstrapExample.hashRequest (fun s => s)
    HAExample.DeepEqual (fun _ => []) (fun s => conj (fun _ => eq_refl) (conj eq_refl eq_refl)) reconciler conflicting 1 first stored unrouted).
  - vm_compute. reflexivity.
  - vm_compute. reflexivity.
  - reflexivity.
  - split; [reflexivity|]. intros step _. reflexivity.
  - reflexivity.
  - left. exists conflict. split_and!; [reflexivity..|]. vm_compute. congruence.
Defined.
